(* ===== verification/_CoqProject ===== *)
-Q . S2P
Prelude.v
Json.v
Payloads.v
Crc.v
Frame.v
Control.v
Sender.v
Reassemble.v
Errors.v
Stream.v
Transfer.v
Delivery.v
Clock.v
Reception.v
Sink.v
Session.v
Egress.v
Socket.v
Link.v
EndToEnd.v
Recovery.v
Resume.v
Divergences.v
Messages.v
Logical.v
Carrier.v
Stdio.v
Peer.v
Lifecycle.v
Rpc.v
EnvelopeJson.v
Reconnect.v
Fetch.v
Puller.v
FetchEndToEnd.v
Interop.v
Witnesses.v
EnvelopeRuns.v
RecoveryRuns.v
WireExamples.v
