(* ===== verification/Prelude.v ===== *)
(** * XACPP (Agent Control Plane Protocol): verification development

    The repository implements a peer-to-peer protocol: envelopes (JSON requests
    and responses) and reliable binary transfers multiplexed over one framed byte
    stream.  The parts, from the wire upwards, and the files that model them:

    - Frames ([src/wire/frame.rs]): [Frame] has the frame types, [encode] and the
      resynchronising [FrameDecoder]; [Crc] is the interface of the CRC-32 crate
      with a concrete instance.
    - Control payloads ([src/wire/control.rs]): [Control].
    - Errors, transaction ids as text ([src/wire/error.rs], [src/wire/fetch.rs]):
      [Errors].
    - Sender ([src/reliability/transaction.rs]): [Sender], a [TransactionSender]
      with its whole-payload and streaming appends, ACK / NACK handling, the
      retransmission clock and the resume declarations and verdicts.
    - Reassembler ([src/reliability/reassemble.rs]): [Reassemble].
    - Streams ([src/reliability/stream.rs]): [Stream], one shared object per
      stream on a heap, with its packed state and chunk channel.
    - Transfer session ([src/transfer/]): [Transfer] (state, wiring, every
      inbound handler, from [core.rs] and [inbound.rs]), [Clock] ([clock.rs]),
      [Sink] ([sink.rs]); [Delivery], [Reception] and [Session] hold what inbound
      frames and whole histories of operations guarantee.
    - Egress ([src/session/egress.rs]): [Egress], both queues and the drain task
      turn by turn.
    - Transports ([src/carrier/]): [Socket] (write surface, reader from bytes to
      frames) and [Carrier], the envelope layer of the socket transport: calls,
      dispatch, handler tasks, connects and disconnects as one interleaving
      machine over any number of connections; [Stdio] is the machine of
      [stdio.rs], whose accept loop runs handlers inline; [Rpc] composes the
      envelope layer with the frame codec, [Reconnect] shows what an old
      connection does to a new one.
    - Messages and capabilities ([src/wire/message.rs], [commands/mod.rs],
      [capability.rs], [events/]): [Messages] has the types and the handlers'
      views of them, [EnvelopeJson] their JSON documents (the derived and the
      hand-written serde implementations) down to the bytes of an envelope.
    - Typed payloads ([events/content.rs], [upload.rs], [payload.rs],
      [interaction.rs], [commands/lifecycle.rs]): [Payloads], on [Json], which
      models what serde derives for structs, tagged enums and unit enums.
    - Logical session and peer ([src/session/mod.rs], [peer.rs], [handler.rs]):
      [Logical], [Peer] (each call as it runs alone) and [Lifecycle] (the turns of
      the calls, from one await to the next, interleaved).
    - Fetch extension ([src/ext/fetch.rs]): [Fetch] (the service: resolve
      rendezvous, begin gate, serving tasks) and [Puller] (the puller, digest
      verification, canned providers); [FetchEndToEnd] composes a served
      resource with the sender, the requester's session and its reader.
    - Compositions: [EndToEnd] composes sender, egress, socket, decoder and
      receiver; [Link] is the interface of a connection that delivers what it
      accepts, [Recovery] two sessions and the retransmission clock over it, and
      [Resume] two sessions whose connection died and came back, through the
      RESUME handshake of [clock.rs], [inbound.rs] and [transaction.rs].
    - The interoperability peer ([examples/interop_peer.rs]): [Interop], a client of
      the peer and of the fetch commands.
    - [Divergences] holds behaviours that differ from the documentation;
      [Witnesses], [EnvelopeRuns] and [RecoveryRuns] apply the theorems to concrete
      runs, and [WireExamples] evaluates the JSON forms on the texts of the
      repository's tests and README.

    ** How the code is modelled

    Structs are records and enums inductive types with the source's names; maps
    are [gmap]s; machine integers are [N] with their wrap-around written out where
    the code casts.  A method is a function from the state to the new state and
    its result; fallible code returns [result].  Wall-clock time, fresh ids and
    the outcomes of I/O are arguments.  Objects shared by reference (streams,
    sessions, servings, connections) live on a heap and are named by location.
    Async code whose interleavings matter (sinks' [finish], calls over a
    transport, the peer's calls and its request closure, fetch handlers and serving
    tasks, pulls and dispatch tasks) is cut at its suspension points into phases, and the theorems quantify over every
    sequence of steps.  A serde implementation is a pair of functions between the
    type and JSON documents; reading takes the fields of an object in any order,
    ignores unknown ones, refuses duplicates, accepts the positional array form
    where serde does, and looks a tag up in the buffered object the way the derived
    code of an internally tagged enum does.  Libraries are interfaces (classes)
    with their documented laws: [Crc32], [UuidLib], [JsonLib], [JsonValue]
    ([serde_json::Value] and its documents), [JsonText] (the text of a document),
    [Display] (error messages as text), [EnvelopeCodec], [Sha256Lib]; the
    transports are the interfaces [TransferWiring], [XacppTransport] and
    [RpcTransport] for their clients, and [DuplexLink], with its laws, what a live
    one promises to the two sessions it connects (the socket and the recording
    transport are instances).

    ** What is proved

    - Codec: encoded frames decode, in any chunking, also after garbage between
      frames; decoding depends on the bytes only, not on how they are cut;
      control payloads round-trip.
    - Reliability: the sender holds exactly the unconfirmed frames of the bytes
      appended, under its cap; streaming and whole-payload sends frame alike;
      retransmissions are due exactly when the clock says, within a bound; the
      reassembler delivers the payload of any arrival order with duplicates;
      resume declarations and verdicts are adjudicated as specified.
    - Session: invariants of every history of operations; a completion fires once,
      exactly when a frame settles its transaction, with the settled result; a parked writer is woken by whatever unblocks it; wiring
      recovers every held transfer.
    - End to end: a payload handed to [send_binary] comes out of the receiver's
      handler once, through egress, socket, decoder and reassembly.
    - Recovery: frames that were lost come back.  On a live connection the
      retransmission clock resends them (while no declaration is overdue, and with
      everything either side writes delivered, in any merge of the two channels), on a
      new connection the RESUME handshake does; in both cases the receiver's application gets the content once and the
      sender's completion fires once, confirmed (on a new connection also when only
      the final acknowledgement was lost).  A fully sent transaction of which nothing
      arrived is closed as confirmed by the handshake all the same, and more than
      255 held transactions do not fit a declaration, and then nothing is ever
      resumed.
    - Envelopes: callers get their own responses, never wait on a dead
      connection, and a round trip works in any chunking, a handler's error coming
      back with its code and message; the egress keeps order
      and flushes on close; the stdio transport refines the same machine,
      and because it handles one request at a time a handler that calls its own
      peer waits until the connection goes away.
    - Wire forms: every envelope and every typed payload reads back from its own
      document, whatever the order of the fields; fields are required or
      defaulted as declared; an interaction event sent as a command reaches the other end's
      handler as the same event.
    - Peer: under every interleaving of its calls the log of its turns determines
      the peer and its routing, and follows the documented lifecycle unless a call
      was overtaken between its state check and its write; a negotiation overtaken
      by a disconnect leaves the peer negotiated without a connection; establishment
      binds the right session; negotiation leaves both ends with the same facts.
    - Fetch: one resolve per uri at a time, one serving and one terminal
      operation per transaction, streams reach the pull that asked, served bytes
      verify, and a served resource comes out of [pull_to_vec] whole.
    - Interoperability peer: its own negotiation keeps fetch disabled, so it never
      serves a fetch, and its pull is refused by its own session five times and gives
      up.
    - Divergences: executable counterexamples and theorems for the places where
      the code does not do what its documentation says.

    ** Bounds and fuel

    Loops over a buffer or queue use the length of that buffer as fuel, and
    lemmas show it is enough ([feed], [drain_n], [read_all], [read_to_end],
    [stream_loop]);
    request ids are assumed below 2^64 where freshness matters ([ids_left]).

    ** Not modelled

    The grammar of JSON text and [serde_json::Value] are parameters with laws;
    a concrete printer and parser in [WireExamples] show the laws can hold.  TCP
    and pipes, logging, the listener of the interoperability peer, the benchmark
    ([examples/bench_protocol.rs]) and the tests are left out: they are I/O, timing
    or exercise the code modelled here.  The channel between the socket's
    read and dispatch tasks is unbounded here.  Locks are modelled by the
    atomicity of the steps that hold them. *)
From Corelib Require Export ssreflect.
From stdpp Require Export base gmap list strings numbers fin_maps sets.
From Stdlib Require Export Strings.Byte.
From Stdlib Require Export Lia.

#[global] Open Scope general_if_scope.
#[global] Set Default Goal Selector "!".
#[global] Set Warnings "-clear-no-such-hyp".

(** ** Results

    [Result<A, E>]: the fallible functions of the crate.  A method on
    [&mut self] returns the new state next to its result, because a Rust
    method that fails keeps the mutations made before the failure. *)

Inductive result (A E : Type) : Type :=
  | Ok (a : A)
  | Err (e : E).
Arguments Ok {A E} a.
Arguments Err {A E} e.

Declare Scope xacpp_scope.
Delimit Scope xacpp_scope with xacpp.

(** [let? x := r in k] is Rust's [let x = r?; k]. *)
Notation "'let?' x ':=' r 'in' k" :=
  (match r with Ok x => k | Err e => Err e end)
  (at level 10, x binder, r at level 100, k at level 200,
   format "'let?'  x  ':='  r  'in' '//' k") : xacpp_scope.
#[global] Open Scope xacpp_scope.

Definition is_ok {A E} (r : result A E) : bool :=
  match r with Ok _ => true | Err _ => false end.

Definition map_err {A E F} (f : E → F) (r : result A E) : result A F :=
  match r with Ok a => Ok a | Err e => Err (f e) end.

(** [iter.map(f).collect::<Result<Vec<_>, _>>()]. *)
Fixpoint collect {A B E} (f : A → result B E) (l : list A) : result (list B) E :=
  match l with
  | [] => Ok []
  | x :: l' =>
      let? y := f x in
      let? ys := collect f l' in
      Ok (y :: ys)
  end.

#[global] Instance result_eq_dec {A E} `{EqDecision A, EqDecision E} :
  EqDecision (result A E).
Proof. solve_decision. Defined.

Lemma collect_Ok_map {A B E} (f : A → result B E) (g : B → A) (l : list B) :
  Forall (λ y, f (g y) = Ok y) l → collect f (g <$> l) = Ok l.
Proof. induction 1 as [|y l Hy _ IH]; [done|]. cbn. by rw Hy IH. Qed.

Lemma collect_app {A B E} (f : A → result B E) (l k : list A) :
  collect f (l ++ k) =
  (let? a := collect f l in let? b := collect f k in Ok (a ++ b)).
Proof.
  induction l as [|x l IH]; cbn; [by destruct (collect f k)|].
  destruct (f x); [|done]. rw IH. destruct (collect f l); [|done].
  by destruct (collect f k).
Qed.

Lemma collect_Forall2 {A B E} (f : A → result B E) (l : list A) (k : list B) :
  collect f l = Ok k ↔ Forall2 (λ x y, f x = Ok y) l k.
Proof.
  revert k. induction l as [|x l IH]; intros k; cbn.
  - split; [intros [= <-]; constructor|by inversion 1].
  - split.
    + destruct (f x) eqn:Hx; [|done]. destruct (collect f l) eqn:Hl; [|done].
      intros [= <-]. constructor; [done|]. by apply IH.
    + inversion 1 as [|?? ?? Hx Hl]; subst. rw Hx.
      apply IH in Hl. by rw Hl.
Qed.

(** A call with its result named and its final state left as a term: concrete
    runs evaluate the result only. *)
Lemma pair_snd {A B} (x : A * B) (b : B) : x.2 = b → x = (x.1, b).
Proof. by destruct x; cbn; intros ->. Qed.

(** ** Automation *)

(** Decide the comparisons of the goal whose outcome [lia] knows: the size
    guards of the code, under hypotheses that bound the sizes. *)
Ltac cmp :=
  repeat match goal with
  | |- context [N.ltb ?a ?b] =>
      first [rw (proj2 (N.ltb_lt a b) ltac:(lia)) | rw (proj2 (N.ltb_ge a b) ltac:(lia))]
  | |- context [N.leb ?a ?b] =>
      first [rw (proj2 (N.leb_le a b) ltac:(lia)) | rw (proj2 (N.leb_gt a b) ltac:(lia))]
  | |- context [N.eqb ?a ?b] =>
      first [rw (proj2 (N.eqb_eq a b) ltac:(lia)) | rw (proj2 (N.eqb_neq a b) ltac:(lia))]
  | |- context [Nat.ltb ?a ?b] =>
      first [rw (proj2 (Nat.ltb_lt a b) ltac:(lia)) | rw (proj2 (Nat.ltb_ge a b) ltac:(lia))]
  | |- context [Nat.leb ?a ?b] =>
      first [rw (proj2 (Nat.leb_le a b) ltac:(lia)) | rw (proj2 (Nat.leb_gt a b) ltac:(lia))]
  end.

(** ** Machine integers

    [u16], [u32], [u64] and [usize] values are [N]; every narrowing cast and
    every addition that could wrap is written with its width. *)

(** The widths, where a type has to name its own. *)
Definition u16 : Type := N.
Definition u32 : Type := N.
Definition u64 : Type := N.
#[global] Typeclasses Opaque u16 u32 u64.
#[global] Instance u32_eq_decision : EqDecision u32 := N.eq_dec.

Definition U8_MAX : N := 255.
Definition U16_MAX : N := 65535.
Definition U32_MAX : N := 4294967295.
Definition U64_MAX : N := 18446744073709551615.

(** [x as u32], [x as u16], [x as u8]. *)
Definition as_u32 (n : N) : N := n mod 4294967296.
Definition as_u16 (n : N) : N := n mod 65536.

(** [a.saturating_mul(b)] on [u64]. *)
Definition u64_saturating_mul (a b : N) : N := N.min (a * b) U64_MAX.

(** [a.wrapping_add(1)] on [u32] (and [+= 1] in a release build). *)
Definition u32_succ (a : N) : N := as_u32 (a + 1).

(** [len()] of a [Vec] or slice. *)
Definition len {A} (l : list A) : N := N.of_nat (length l).

Lemma as_u32_small (n : N) : (n ≤ U32_MAX)%N → as_u32 n = n.
Proof. unfold as_u32, U32_MAX. intros. apply N.mod_small. lia. Qed.

Lemma as_u32_le (n : N) : (as_u32 n ≤ U32_MAX)%N.
Proof.
  unfold as_u32, U32_MAX. pose proof (N.mod_upper_bound n 4294967296). lia.
Qed.

Lemma as_u16_small (n : N) : (n ≤ U16_MAX)%N → as_u16 n = n.
Proof. unfold as_u16, U16_MAX. intros. apply N.mod_small. lia. Qed.

Lemma len_app {A} (l k : list A) : len (l ++ k) = (len l + len k)%N.
Proof. unfold len. rw length_app. lia. Qed.

Lemma len_cons {A} (x : A) (l : list A) : len (x :: l) = (1 + len l)%N.
Proof. unfold len. cbn [length]. lia. Qed.

Lemma len_nil {A} : len (@nil A) = 0%N.
Proof. done. Qed.

Lemma len_0_nil {A} (l : list A) : len l = 0%N → l = [].
Proof. destruct l; [done|]. rw len_cons. lia. Qed.

Lemma len_fmap {A B} (f : A → B) (l : list A) : len (f <$> l) = len l.
Proof. unfold len. by rw length_fmap. Qed.

(** Non-empty pieces carry at least one element each. *)
Lemma len_concat_ge {A} (ps : list (list A)) :
  Forall (λ p, 1 ≤ length p) ps → (len ps ≤ len (concat ps))%N.
Proof.
  induction 1 as [|p ps Hp _ IH]; [done|]. cbn [concat].
  rw len_cons len_app. unfold len in *. lia.
Qed.

Lemma fmap_const_replicate {A B} (y : B) (l : list A) :
  (λ _, y) <$> l = replicate (length l) y.
Proof. induction l as [|x l IH]; [done|]. cbn. by rw IH. Qed.

(** ** Bytes and big-endian integers *)

#[global] Instance byte_eq_decision : EqDecision byte := Byte.byte_eq_dec.

#[global] Program Instance byte_countable : Countable byte :=
  inj_countable Byte.to_N Byte.of_N Byte.of_to_N.

(** [n as u8]. *)
Definition byte_of_N (n : N) : byte := default x00 (Byte.of_N (n mod 256)).

Lemma byte_of_N_spec (n : N) : Byte.to_N (byte_of_N n) = (n mod 256)%N.
Proof.
  unfold byte_of_N. destruct (Byte.of_N (n mod 256)) as [b|] eqn:E; cbn.
  - by apply Byte.to_of_N.
  - apply Byte.of_N_None_iff in E.
    pose proof (N.mod_upper_bound n 256). lia.
Qed.

Lemma byte_to_N_inj (a b : byte) : Byte.to_N a = Byte.to_N b → a = b.
Proof.
  intros H. pose proof (Byte.of_to_N a) as Ha. rw H Byte.of_to_N in Ha.
  congruence.
Qed.

Lemma byte_of_to_N (b : byte) : byte_of_N (Byte.to_N b) = b.
Proof.
  apply byte_to_N_inj. rw byte_of_N_spec. apply N.mod_small.
  pose proof (Byte.to_N_bounded b). lia.
Qed.

(** [n.to_be_bytes()] for a [w]-byte unsigned integer. *)
Fixpoint be_bytes_acc (w : nat) (n : N) (acc : list byte) : list byte :=
  match w with
  | O => acc
  | S w' => be_bytes_acc w' (n / 256) (byte_of_N n :: acc)
  end.

Definition to_be_bytes (w : nat) (n : N) : list byte := be_bytes_acc w n [].

(** [uN::from_be_bytes(l)]. *)
Definition from_be_bytes (l : list byte) : N :=
  foldl (λ acc b, (acc * 256 + Byte.to_N b)%N) 0%N l.

Lemma be_bytes_acc_app (w : nat) (n : N) (acc : list byte) :
  be_bytes_acc w n acc = to_be_bytes w n ++ acc.
Proof.
  unfold to_be_bytes. revert n acc. induction w as [|w IH]; intros n acc; [done|].
  cbn. rw IH [be_bytes_acc w _ [_]]IH. by rw -app_assoc.
Qed.

Lemma to_be_bytes_S (w : nat) (n : N) :
  to_be_bytes (S w) n = to_be_bytes w (n / 256) ++ [byte_of_N n].
Proof. apply (be_bytes_acc_app w (n / 256) [byte_of_N n]). Qed.

Lemma length_to_be_bytes (w : nat) (n : N) : length (to_be_bytes w n) = w.
Proof.
  revert n. induction w as [|w IH]; intros n; [done|].
  rw to_be_bytes_S length_app IH. cbn. lia.
Qed.

Lemma from_be_bytes_snoc (l : list byte) (b : byte) :
  from_be_bytes (l ++ [b]) = (from_be_bytes l * 256 + Byte.to_N b)%N.
Proof. unfold from_be_bytes. by rw foldl_app. Qed.

Lemma from_to_be_bytes_mod (w : nat) (n : N) :
  from_be_bytes (to_be_bytes w n) = (n mod 256 ^ N.of_nat w)%N.
Proof.
  revert n. induction w as [|w IH]; intros n.
  - cbn. by rw N.mod_1_r.
  - rw to_be_bytes_S from_be_bytes_snoc IH byte_of_N_spec.
    rw Nat2N.inj_succ N.pow_succ_r'.
    rw N.Div0.mod_mul_r. lia.
Qed.

(** A [w]-byte integer survives its big-endian encoding. *)
Lemma from_to_be_bytes (w : nat) (n : N) :
  (n < 256 ^ N.of_nat w)%N → from_be_bytes (to_be_bytes w n) = n.
Proof. intros. rw from_to_be_bytes_mod. by apply N.mod_small. Qed.

Lemma from_to_be_u16 (n : N) :
  (n ≤ U16_MAX)%N → from_be_bytes (to_be_bytes 2 n) = n.
Proof. unfold U16_MAX. intros. apply from_to_be_bytes. cbn. lia. Qed.

Lemma from_to_be_u32 (n : N) :
  (n ≤ U32_MAX)%N → from_be_bytes (to_be_bytes 4 n) = n.
Proof. unfold U32_MAX. intros. apply from_to_be_bytes. cbn. lia. Qed.

Lemma from_to_be_u64 (n : N) :
  (n ≤ U64_MAX)%N → from_be_bytes (to_be_bytes 8 n) = n.
Proof. unfold U64_MAX. intros. apply from_to_be_bytes. cbn. lia. Qed.

Lemma from_be_bytes_bound (l : list byte) :
  (from_be_bytes l < 256 ^ len l)%N.
Proof.
  induction l as [|b l IH] using rev_ind; [done|].
  rw from_be_bytes_snoc len_app. cbn [len length].
  change (len [b]) with 1%N. rw N.pow_add_r.
  pose proof (Byte.to_N_bounded b). lia.
Qed.

Lemma from_be_bytes_u32 (l : list byte) :
  length l = 4 → (from_be_bytes l ≤ U32_MAX)%N.
Proof.
  intros Hl. pose proof (from_be_bytes_bound l) as H. unfold len in H.
  rw Hl in H. change (256 ^ N.of_nat 4)%N with 4294967296%N in H.
  unfold U32_MAX. lia.
Qed.

(** Every byte string is the encoding of the integer it decodes to. *)
Lemma to_from_be_bytes (l : list byte) (w : nat) :
  length l = w → to_be_bytes w (from_be_bytes l) = l.
Proof.
  intros <-. induction l as [|b l IH] using rev_ind; [done|].
  rw length_app Nat.add_comm. cbn [length Nat.add].
  rw to_be_bytes_S from_be_bytes_snoc.
  assert (Hb : (Byte.to_N b < 256)%N) by (pose proof (Byte.to_N_bounded b); lia).
  rw N.div_add_l; [lia|].
  rw (N.div_small (Byte.to_N b)) ?N.add_0_r ?IH; [done|].
  f_equal. f_equal. apply byte_to_N_inj. rw byte_of_N_spec.
  rw N.add_comm N.Div0.mod_add. by apply N.mod_small.
Qed.

#[global] Arguments to_be_bytes : simpl never.

(** ** Fixed-size byte arrays: [[u8; n]] *)

Record array (n : nat) : Type := Array {
  array_bytes : list byte;
  array_ok : Nat.eqb (length array_bytes) n = true;
}.
Arguments Array {n} _ _.
Arguments array_bytes {n} _.
Arguments array_ok {n} _.

Lemma length_array_bytes {n} (a : array n) : length (array_bytes a) = n.
Proof. apply Nat.eqb_eq, array_ok. Qed.

#[global] Instance array_bytes_inj {n} : Inj (=) (=) (@array_bytes n).
Proof.
  intros [l Hl] [k Hk]; cbn. intros ->. f_equal. apply proof_irrel.
Qed.

#[global] Instance array_eq_dec {n} : EqDecision (array n) := λ a b,
  match decide (array_bytes a = array_bytes b) with
  | left H => left (array_bytes_inj a b H)
  | right H => right (λ E, H (f_equal array_bytes E))
  end.

(** [<[u8; n]>::try_from(slice)]: fails on any other length. *)
Definition array_of_list (n : nat) (l : list byte) : option (array n) :=
  match decide (Nat.eqb (length l) n = true) with
  | left H => Some (Array l H)
  | right _ => None
  end.

Lemma array_of_list_bytes {n} (a : array n) :
  array_of_list n (array_bytes a) = Some a.
Proof.
  unfold array_of_list. case_decide as H.
  - f_equal. by apply array_bytes_inj.
  - by destruct H; apply array_ok.
Qed.

Lemma array_of_list_Some {n} (l : list byte) (a : array n) :
  array_of_list n l = Some a ↔ array_bytes a = l.
Proof.
  split; [|intros <-; apply array_of_list_bytes].
  unfold array_of_list. case_decide; [|done]. by intros [= <-].
Qed.

Lemma array_of_list_is_Some {n} (l : list byte) :
  length l = n → is_Some (array_of_list n l).
Proof.
  intros Hl. unfold array_of_list. case_decide as H; [by eexists|].
  destruct H. by apply Nat.eqb_eq.
Qed.

(** Arrays are enumerated by the integer their bytes spell, so that maps keyed
    by short ids stay small when they are evaluated. *)
#[global] Program Instance array_countable {n} : Countable (array n) := {|
  encode a := N.succ_pos (from_be_bytes (array_bytes a));
  decode p := array_of_list n (to_be_bytes n (Pos.pred_N p));
|}.
Next Obligation.
  intros n a. cbn. rw N.pos_pred_succ to_from_be_bytes.
  - apply length_array_bytes.
  - apply array_of_list_bytes.
Qed.

(** A transaction id: the 16 raw bytes of a UUID. *)
Definition txid : Type := array 16.
#[global] Instance txid_eq_dec : EqDecision txid := _.
#[global] Instance txid_countable : Countable txid := _.

(** [[0u8; 16]], the identity of every control frame. *)
Definition zero_txid : txid := @Array 16 (replicate 16 x00) eq_refl.

(** The id whose last byte is [b] (used by the concrete examples). *)
Definition txid_of_byte (b : byte) : txid :=
  @Array 16 [x00;x00;x00;x00;x00;x00;x00;x00;x00;x00;x00;x00;x00;x00;x00;b] eq_refl.

(** ** Slices *)

(** [slice.chunks_exact(n)]: consecutive pieces of exactly [n] elements, the
    remainder dropped. *)
Fixpoint chunks_exact_fuel {A} (fuel n : nat) (l : list A) : list (list A) :=
  match fuel with
  | O => []
  | S f =>
      if Nat.leb n (length l)
      then take n l :: chunks_exact_fuel f n (drop n l)
      else []
  end.

Definition chunks_exact {A} (n : nat) (l : list A) : list (list A) :=
  chunks_exact_fuel (length l) n l.

Lemma chunks_exact_fuel_concat {A} (n fuel : nat) (ls : list (list A)) :
  0 < n → Forall (λ x, length x = n) ls → length ls ≤ fuel →
  chunks_exact_fuel fuel n (concat ls) = ls.
Proof.
  intros Hn Hls. revert fuel. induction Hls as [|x ls Hx Hls IH]; intros fuel Hf.
  - destruct fuel; cbn; [done|]. destruct n; [lia|done].
  - cbn in Hf. destruct fuel as [|fuel]; [lia|]. cbn.
    destruct (Nat.leb_spec n (length (x ++ concat ls))) as [_|Hlt].
    + rw take_app_length' ?drop_app_length' //. rw IH //. lia.
    + rw length_app in Hlt. lia.
Qed.

Lemma length_concat_uniform {A} (n : nat) (ls : list (list A)) :
  Forall (λ x, length x = n) ls → length (concat ls) = length ls * n.
Proof.
  induction 1 as [|x ls Hx _ IH]; [done|]. cbn. rw length_app Hx IH. done.
Qed.

(** Splitting the concatenation of equal-sized pieces gives the pieces back. *)
Lemma chunks_exact_concat {A} (n : nat) (ls : list (list A)) :
  0 < n → Forall (λ x, length x = n) ls → chunks_exact n (concat ls) = ls.
Proof.
  intros Hn Hls. apply chunks_exact_fuel_concat; [done|done|].
  rw (length_concat_uniform n ls Hls). nia.
Qed.

(** ... also when a remainder shorter than a piece follows them. *)
Lemma chunks_exact_rest {A} (n : nat) (ls : list (list A)) (rest : list A) :
  0 < n → Forall (λ x, length x = n) ls → length rest < n →
  chunks_exact n (concat ls ++ rest) = ls.
Proof.
  intros Hn Hls Hr. unfold chunks_exact.
  assert (Hf : length ls ≤ length (concat ls ++ rest)).
  { rw length_app (length_concat_uniform n ls Hls). nia. }
  revert Hf. generalize (length (concat ls ++ rest)) as fuel.
  induction Hls as [|x ls Hx Hls IH]; intros fuel Hf; cbn.
  - destruct fuel; cbn; [done|]. by destruct (Nat.leb_spec n (length rest)); [lia|].
  - cbn in Hf. destruct fuel as [|fuel]; [lia|]. cbn. rw -app_assoc.
    destruct (Nat.leb_spec n (length (x ++ concat ls ++ rest))) as [_|Hlt].
    + rw take_app_length' ?drop_app_length' //. rw IH //. lia.
    + rw length_app in Hlt. lia.
Qed.

Lemma chunks_exact_fuel_spec {A} (n k : nat) (l : list A) (fuel : nat) :
  0 < n → length l = k * n → k ≤ fuel →
  concat (chunks_exact_fuel fuel n l) = l ∧
  length (chunks_exact_fuel fuel n l) = k ∧
  Forall (λ x, length x = n) (chunks_exact_fuel fuel n l).
Proof.
  intros Hn. revert l fuel. induction k as [|k IH]; intros l fuel Hl Hf.
  - destruct l; [|done]. destruct fuel; cbn; [done|].
    by destruct n; [lia|].
  - destruct fuel as [|fuel]; [lia|]. cbn.
    destruct (Nat.leb_spec n (length l)) as [Hle|]; [|nia].
    destruct (IH (drop n l) fuel) as (H1 & H2 & H3).
    + rw length_drop. nia.
    + lia.
    + cbn. rw H1 H2 take_drop. split; [done|]. split; [done|].
      constructor; [|done]. rw length_take. lia.
Qed.

(** A slice of [k * n] elements splits into [k] pieces of [n] without loss. *)
Lemma chunks_exact_spec {A} (n k : nat) (l : list A) :
  0 < n → length l = k * n →
  concat (chunks_exact n l) = l ∧ length (chunks_exact n l) = k ∧
  Forall (λ x, length x = n) (chunks_exact n l).
Proof. intros Hn Hl. apply chunks_exact_fuel_spec; [done..|]. nia. Qed.

(** [slice.windows(k).position(|w| w == pat)]. *)
Fixpoint find_sub (pat l : list byte) : option nat :=
  if decide (take (length pat) l = pat) then Some 0
  else match l with
       | [] => None
       | _ :: l' => S <$> find_sub pat l'
       end.

(** [pat] occurs at offset [p] of [l]. *)
Definition occurs_at (pat l : list byte) (p : nat) : Prop :=
  take (length pat) (drop p l) = pat.

#[global] Instance occurs_at_dec pat l p : Decision (occurs_at pat l p).
Proof. unfold occurs_at. apply _. Defined.

Lemma occurs_at_app pat l x p :
  p + length pat ≤ length l → occurs_at pat (l ++ x) p ↔ occurs_at pat l p.
Proof.
  intros. unfold occurs_at. rw drop_app_le; [lia|].
  rw take_app_le //. rw length_drop. lia.
Qed.

Lemma occurs_at_bound pat l p :
  pat ≠ [] → occurs_at pat l p → p + length pat ≤ length l.
Proof.
  intros Hp Ho. apply (f_equal length) in Ho.
  rw length_take length_drop in Ho. destruct pat; [done|]. cbn [length] in *. lia.
Qed.

Lemma find_sub_Some_iff pat l p :
  find_sub pat l = Some p ↔
  occurs_at pat l p ∧ p ≤ length l ∧ ∀ q, q < p → ¬ occurs_at pat l q.
Proof.
  unfold occurs_at. revert p. induction l as [|b l IH]; intros p; cbn.
  - case_decide as Hd.
    + split; [intros [= <-]; rw drop_0; split; [done|]; split; [lia|]; intros; lia|].
      intros (_ & Hp & _). f_equal. lia.
    + split; [done|]. intros (Ho & Hp & _). assert (p = 0) as -> by lia. done.
  - case_decide as Hd.
    + split.
      * intros [= <-]. rw drop_0. split; [done|]. split; [lia|]. intros; lia.
      * intros (Ho & Hp & Hq). destruct p; [done|].
        exfalso. apply (Hq 0); [lia|]. done.
    + split.
      * intros (p' & Hp' & ->)%fmap_Some. apply IH in Hp' as (Ho & Hp & Hq).
        cbn. split; [done|]. split; [lia|]. intros [|q] Hq'; [done|].
        apply Hq. lia.
      * intros (Ho & Hp & Hq). destruct p as [|p]; [done|].
        apply fmap_Some. exists p. split; [|done]. apply IH. cbn in Ho.
        split; [done|]. split; [lia|]. intros q Hq'. apply (Hq (S q)). lia.
Qed.

Lemma find_sub_None_iff pat l :
  find_sub pat l = None ↔ ∀ q, q ≤ length l → ¬ occurs_at pat l q.
Proof.
  split.
  - intros Hn q Hq Ho. revert l Hn Hq Ho. induction q as [|q IH]; intros l Hn Hq Ho.
    + destruct l; cbn in Hn; by case_decide.
    + destruct l as [|b l]; cbn in Hq; [lia|]. cbn in Hn. case_decide; [done|].
      apply fmap_None in Hn. apply (IH l Hn); [lia|done].
  - intros Hall. destruct (find_sub pat l) as [p|] eqn:E; [|done].
    apply find_sub_Some_iff in E as (Ho & Hp & _). by destruct (Hall p).
Qed.

(** The first occurrence does not move when bytes arrive behind it. *)
Lemma find_sub_app_Some pat l x p :
  pat ≠ [] → find_sub pat l = Some p → find_sub pat (l ++ x) = Some p.
Proof.
  intros Hpat (Ho & Hp & Hq)%find_sub_Some_iff.
  pose proof (occurs_at_bound _ _ _ Hpat Ho) as Hb.
  apply find_sub_Some_iff. split; [by apply occurs_at_app|].
  split; [rw length_app; lia|]. intros q Hlt Ho'. apply (Hq q Hlt).
  apply occurs_at_app in Ho'; [done|lia].
Qed.

(** Offsets with no occurrence can be dropped from the search. *)
Lemma find_sub_drop pat l k :
  k ≤ length l → (∀ q, q < k → ¬ occurs_at pat l q) →
  find_sub pat l = Nat.add k <$> find_sub pat (drop k l).
Proof.
  revert l. induction k as [|k IH]; intros l Hk Hq.
  - rw drop_0. by destruct (find_sub pat l).
  - destruct l as [|b l]; cbn in Hk; [lia|]. cbn.
    rw decide_False; [apply (Hq 0); lia|]. rw IH; [lia| |].
    + intros q Hlt. apply (Hq (S q)). lia.
    + by destruct (find_sub pat (drop k l)).
Qed.

(** ** UTF-8 strings

    [String::from_utf8] accepts exactly the well-formed sequences of the
    Unicode standard (no overlong forms, no surrogates, nothing above
    U+10FFFF). *)

Definition byte_in (lo hi : N) (b : byte) : bool :=
  (lo <=? Byte.to_N b)%N && (Byte.to_N b <=? hi)%N.

(** A continuation byte [10xxxxxx]. *)
Definition utf8_cont (b : byte) : bool := byte_in 128 191 b.

Fixpoint utf8_valid (l : list byte) : bool :=
  match l with
  | [] => true
  | b1 :: l1 =>
      if byte_in 0 127 b1 then utf8_valid l1 else
      match l1 with
      | [] => false
      | b2 :: l2 =>
          if byte_in 194 223 b1 then utf8_cont b2 && utf8_valid l2 else
          match l2 with
          | [] => false
          | b3 :: l3 =>
              if byte_in 224 239 b1 then
                (if byte_in 224 224 b1 then byte_in 160 191 b2
                 else if byte_in 237 237 b1 then byte_in 128 159 b2
                 else utf8_cont b2) && utf8_cont b3 && utf8_valid l3
              else
              match l3 with
              | [] => false
              | b4 :: l4 =>
                  byte_in 240 244 b1 &&
                  (if byte_in 240 240 b1 then byte_in 144 191 b2
                   else if byte_in 244 244 b1 then byte_in 128 143 b2
                   else utf8_cont b2) &&
                  utf8_cont b3 && utf8_cont b4 && utf8_valid l4
              end
          end
      end
  end.

(** [String]: a byte buffer that is valid UTF-8. *)
Record rstring : Type := RString {
  rs_bytes : list byte;
  rs_ok : utf8_valid rs_bytes = true;
}.

(** [String::from_utf8]. *)
Definition rstring_of_bytes (l : list byte) : option rstring :=
  match decide (utf8_valid l = true) with
  | left H => Some (RString l H)
  | right _ => None
  end.

#[global] Instance rs_bytes_inj : Inj (=) (=) rs_bytes.
Proof. intros [l Hl] [k Hk]; cbn. intros ->. f_equal. apply proof_irrel. Qed.

Lemma rstring_of_bytes_bytes (s : rstring) :
  rstring_of_bytes (rs_bytes s) = Some s.
Proof.
  unfold rstring_of_bytes. case_decide as H.
  - f_equal. by apply rs_bytes_inj.
  - by destruct H; apply rs_ok.
Qed.

Lemma rstring_of_bytes_Some (l : list byte) (s : rstring) :
  rstring_of_bytes l = Some s → rs_bytes s = l.
Proof. unfold rstring_of_bytes. case_decide; [|done]. by intros [= <-]. Qed.

(** Behind an ASCII prefix a character starts: a slice there is on a character
    boundary. *)
Lemma utf8_ascii_prefix a b r :
  utf8_valid (a ++ b :: r) = true → forallb (byte_in 0 127) a = true →
  utf8_cont b = false.
Proof.
  induction a as [|c a IH]; cbn [app forallb].
  - intros Hv _. destruct (utf8_cont b) eqn:Hb; [|done]. exfalso. revert Hv.
    assert (Hr : byte_in 0 127 b = false ∧ byte_in 194 223 b = false ∧
      byte_in 224 239 b = false ∧ byte_in 240 244 b = false) by by destruct b.
    destruct Hr as (R1 & R2 & R3 & R4). cbn [utf8_valid]. rw R1 R2 R3 R4.
    by repeat case_match.
  - intros Hv [Hc Ha]%andb_true_iff. cbn [utf8_valid] in Hv. rw Hc in Hv. by apply IH.
Qed.

(** ** Hash maps

    [HashMap] is [gmap]; a loop over its entries visits each entry once, in
    an order Rust leaves unspecified ([map_to_list] here: no theorem depends
    on it). *)

Section maps.
Context {K : Type} `{Countable K} {V : Type}.
Implicit Types m : gmap K V.

(** [map.values().map(f).sum()]. *)
Definition map_sum (f : V → N) (m : gmap K V) : N :=
  map_fold (λ _ x acc, (f x + acc)%N) 0%N m.

Lemma map_sum_empty (f : V → N) : map_sum f ∅ = 0%N.
Proof. apply map_fold_empty. Qed.

Lemma map_sum_insert_None (f : V → N) m k v :
  m !! k = None → map_sum f (<[k:=v]> m) = (f v + map_sum f m)%N.
Proof. intros. unfold map_sum. rw map_fold_insert_L //. intros. lia. Qed.

Lemma map_sum_delete (f : V → N) m k v :
  m !! k = Some v → map_sum f m = (f v + map_sum f (delete k m))%N.
Proof.
  intros Hk. unfold map_sum.
  apply (map_fold_delete_L (λ _ x acc, (f x + acc)%N)); [|done].
  intros. lia.
Qed.

Lemma map_sum_insert_Some (f : V → N) m k v w :
  m !! k = Some v →
  (map_sum f (<[k:=w]> m) + f v = map_sum f m + f w)%N.
Proof.
  intros Hk. rw (map_sum_delete f m k v Hk) -insert_delete_eq.
  rw map_sum_insert_None; [apply lookup_delete_eq|]. lia.
Qed.

Lemma map_sum_lookup_le (f : V → N) m k v :
  m !! k = Some v → (f v ≤ map_sum f m)%N.
Proof. intros Hk. rw (map_sum_delete f m k v Hk). lia. Qed.

Lemma map_sum_delete_le (f : V → N) m k :
  (map_sum f (delete k m) ≤ map_sum f m)%N.
Proof.
  destruct (m !! k) as [v|] eqn:Hk.
  - rw (map_sum_delete f m k v Hk). lia.
  - by rw delete_id.
Qed.

(** [for (k, v) in map.iter_mut() { .. }] where the body may update [*v]
    and append to an output vector. *)
Definition iter_mut {O} (body : K → V → V * list O) (m : gmap K V) :
    gmap K V * list O :=
  (map_imap (λ k v, Some (body k v).1) m,
   concat ((λ kv, (body kv.1 kv.2).2) <$> map_to_list m)).

Lemma iter_mut_lookup {O} (body : K → V → V * list O) m k :
  (iter_mut body m).1 !! k = (λ v, (body k v).1) <$> m !! k.
Proof. cbn. rw map_lookup_imap. by destruct (m !! k). Qed.

Lemma iter_mut_out {O} (body : K → V → V * list O) m (o : O) :
  o ∈ (iter_mut body m).2 ↔
  ∃ k v, m !! k = Some v ∧ o ∈ (body k v).2.
Proof.
  cbn. rw list_elem_of_In in_concat. split.
  - intros (l & Hl & Ho). apply list_elem_of_In in Hl, Ho.
    apply list_elem_of_fmap in Hl as ([k v] & -> & Hkv).
    apply elem_of_map_to_list in Hkv. by exists k, v.
  - intros (k & v & Hkv & Ho). exists (body k v).2.
    split; [|by apply list_elem_of_In]. apply list_elem_of_In.
    apply list_elem_of_fmap. exists (k, v). split; [done|].
    by apply elem_of_map_to_list.
Qed.

(** The loop with its results named. *)
Lemma iter_mut_pair {O} (body : K → V → V * list O) m m' (out : list O) :
  iter_mut body m = (m', out) → m' = (iter_mut body m).1 ∧ out = (iter_mut body m).2.
Proof. by intros ->. Qed.

Lemma map_sum_iter_mut {O} (f : V → N) (body : K → V → V * list O) m :
  (∀ k v, m !! k = Some v → f (body k v).1 = f v) →
  map_sum f (iter_mut body m).1 = map_sum f m.
Proof.
  cbn. induction m as [|k v m Hk IH] using map_ind; intros Hf; [done|].
  rw map_imap_insert. cbn. rw !map_sum_insert_None; [|done|].
  - rw map_lookup_imap Hk //.
  - rw IH; [|rw Hf //; by rw lookup_insert_eq].
    intros k' v' Hk'. apply Hf. rw lookup_insert_ne //. intros ->. congruence.
Qed.
End maps.

(** ** Removing a list of keys *)

Lemma delete_listed `{Countable K} {A} (m : gmap K A) (ks : list K) (j i : K) :
  (if decide (i ∈ ks) then None else delete j m !! i) =
  (if decide (i ∈ j :: ks) then None else m !! i).
Proof.
  case_decide as Hin; case_decide as Hin'; rw ?elem_of_cons in Hin'; [done|tauto| |].
  - destruct Hin' as [->|]; [apply lookup_delete_eq|done].
  - apply lookup_delete_ne. intros ->. tauto.
Qed.

(** ** Counting *)

Fixpoint count_if {A} (p : A → bool) (l : list A) : nat :=
  match l with
  | [] => 0
  | x :: l => Nat.b2n (p x) + count_if p l
  end.

Lemma count_if_cons {A} (p : A → bool) x (l : list A) :
  count_if p (x :: l) = Nat.b2n (p x) + count_if p l.
Proof. done. Qed.

Lemma count_if_app {A} (p : A → bool) (l k : list A) :
  count_if p (l ++ k) = count_if p l + count_if p k.
Proof. induction l as [|x l IH]; [done|]. rw -app_comm_cons !count_if_cons IH. lia. Qed.

Lemma count_if_insert {A} (p : A → bool) (l : list A) i x y :
  l !! i = Some x → count_if p (<[i := y]> l) + Nat.b2n (p x) = count_if p l + Nat.b2n (p y).
Proof.
  revert i. induction l as [|z l IH]; intros [|i] Hi; cbn [lookup list_lookup] in Hi; try done.
  - injection Hi as ->. change (<[0 := y]> (x :: l)) with (y :: l). rw !count_if_cons. lia.
  - specialize (IH i Hi). change (<[S i := y]> (z :: l)) with (z :: <[i := y]> l).
    rw !count_if_cons. lia.
Qed.

Lemma count_if_ext {A B} (p : A → bool) (q : B → bool) (g : A → B) (l : list A) :
  (∀ x, x ∈ l → q (g x) = p x) → count_if q (g <$> l) = count_if p l.
Proof.
  induction l as [|x l IH]; intros H; [done|]. rw fmap_cons !count_if_cons H; [by left|].
  rw IH; [|done]. intros y Hy. apply H. by right.
Qed.

Lemma count_if_pos {A} (p : A → bool) (l : list A) x : x ∈ l → p x = true → 1 ≤ count_if p l.
Proof.
  induction 1 as [x l|x y l _ IH]; intros Hp; rw count_if_cons; [rw Hp|specialize (IH Hp)]; cbn; lia.
Qed.

(** At most one element counts. *)
Lemma count_if_unique {A} (p : A → bool) (l : list A) x y :
  count_if p l ≤ 1 → x ∈ l → y ∈ l → p x = true → p y = true → x = y.
Proof.
  induction l as [|z l IH]; intros Hc Hx Hy Hpx Hpy; [by apply elem_of_nil in Hx|].
  rw count_if_cons in Hc. apply elem_of_cons in Hx as [->|Hx], Hy as [->|Hy]; [done|..].
  - pose proof (count_if_pos p l y Hy Hpy). rw Hpx in Hc. cbn in Hc. lia.
  - pose proof (count_if_pos p l x Hx Hpx). rw Hpy in Hc. cbn in Hc. lia.
  - apply IH; [lia|done..].
Qed.

Lemma existsb_false {A} (p : A → bool) (l : list A) :
  (∀ x, x ∈ l → p x = false) → existsb p l = false.
Proof.
  induction l as [|x l IH]; intros H; [done|]. cbn. rw H; [by left|]. apply IH. intros y Hy. apply H. by right.
Qed.
