(* ===== verification/Json.v ===== *)
(** * JSON documents and derived codecs

    The wire types of [src/wire/] carry [#[derive(Serialize, Deserialize)]] with
    serde's attributes.  This file has the documents those codecs write and read,
    and one combinator per attribute, so that a type's codec reads like its
    declaration:

    - a struct is written as an object in declaration order; [req] is a plain
      field, [opt] an [Option] without [default], [opt_default] one with it,
      [dflt] a field with a default; [Some_f], [opt_f], [vec_f] write a field
      always, unless [None], unless empty;
    - reading an object takes the fields in any order, ignores unknown ones,
      refuses a known one that occurs twice and applies the defaults to absent
      ones; a JSON array is read positionally;
    - [tagged] / [untag] are internally tagged enums, [unit_name] the name of a
      unit variant.

    A codec's error is [None]: the crate never inspects a [serde_json::Error].
    [SerdeLaws] is what each codec promises to its users. *)
From S2P Require Import Prelude.
#[local] Set Warnings "-register-all".

(** ** Documents *)

(** [serde_json::Number]; a float is kept as its lexeme. *)
Inductive Number : Type := PosInt (n : N) | NegInt (z : Z) | Float (lexeme : string).

Inductive json : Type :=
  | JNull
  | JBool (b : bool)
  | JNum (n : Number)
  | JStr (s : string)
  | JArr (l : list json)
  | JObj (o : list (string * json)).

(** The values under a key, in document order. *)
Fixpoint get (k : string) (o : list (string * json)) : list json :=
  match o with
  | [] => []
  | (k', v) :: o' => if String.eqb k' k then v :: get k o' else get k o'
  end.

(** The same document up to the order of the fields of its objects, whose keys
    are distinct. *)
Inductive json_eqv : json → json → Prop :=
  | eqv_null : json_eqv JNull JNull
  | eqv_bool b : json_eqv (JBool b) (JBool b)
  | eqv_num n : json_eqv (JNum n) (JNum n)
  | eqv_str s : json_eqv (JStr s) (JStr s)
  | eqv_arr l l' : Forall2 json_eqv l l' → json_eqv (JArr l) (JArr l')
  | eqv_obj o p o' :
      NoDup o.*1 → o ≡ₚ p → p.*1 = o'.*1 → Forall2 json_eqv p.*2 o'.*2 →
      json_eqv (JObj o) (JObj o').

(** ** Codecs *)

Class Serde (A : Type) : Type := {
  ser : A → json;
  de : json → option A;
}.

(** What a codec promises.  [serde_wf] are the values of the Rust type. *)
Class SerdeLaws (A : Type) `{Serde A} : Type := {
  serde_wf : A → Prop;
  de_ser a : serde_wf a → de (ser a) = Some a;
  de_typed j a : de j = Some a → serde_wf a;
  de_proper j j' : json_eqv j j' → de j = de j';
  ser_document a : serde_wf a → json_eqv (ser a) (ser a);
}.

(** A type no value of which is written [null]: its [Option] is faithful. *)
Class NonNull (A : Type) `{Serde A} : Prop := ser_nonnull a : ser a ≠ JNull.

Definition read_uint (max : N) (j : json) : option N :=
  match j with JNum (PosInt n) => if (n <=? max)%N then Some n else None | _ => None end.

#[export] Instance serde_u16 : Serde u16 := {| ser n := JNum (PosInt n); de := read_uint U16_MAX |}.
#[export] Instance serde_u32 : Serde u32 := {| ser n := JNum (PosInt n); de := read_uint U32_MAX |}.
#[export] Instance serde_u64 : Serde u64 := {| ser n := JNum (PosInt n); de := read_uint U64_MAX |}.

#[export] Instance serde_bool : Serde bool := {|
  ser := JBool; de j := match j with JBool b => Some b | _ => None end |}.

#[export] Instance serde_string : Serde string := {|
  ser := JStr; de j := match j with JStr s => Some s | _ => None end |}.

#[export] Instance serde_option {A} `{Serde A} : Serde (option A) := {|
  ser o := match o with Some a => ser a | None => JNull end;
  de j := match j with JNull => Some None | _ => Some <$> de j end |}.

#[export] Instance serde_vec {A} `{Serde A} : Serde (list A) := {|
  ser l := JArr (ser <$> l);
  de j := match j with JArr l => mapM de l | _ => None end |}.

Definition read_entry : string * json → option (string * string) :=
  λ '(k, v), s ← de v; Some (k, s).

(** [HashMap<String, String>]: the iteration order is not specified (here
    [map_to_list]'s); a repeated key keeps its last value. *)
#[export] Instance serde_hashmap : Serde (gmap string string) := {|
  ser m := JObj (prod_map id JStr <$> map_to_list m);
  de j := match j with
          | JObj o => l ← mapM read_entry o; Some (list_to_map (rev l))
          | _ => None
          end |}.

(** ** Structs *)

(** What a struct's visitor reads from: the entries of a map, or the elements
    of a sequence that are left. *)
Inductive input : Type :=
  | IMap (o : list (string * json))
  | ISeq (l : list json).

Definition Fields (A : Type) : Type := input → option (A * input).

#[export] Instance fields_ret : MRet Fields := λ A a i, Some (a, i).
#[export] Instance fields_bind : MBind Fields := λ A B k m i,
  match m i with Some (a, i') => k a i' | None => None end.

(** One field: its decoder, its value when the map does not have it, its value
    when the sequence is too short. *)
Definition field {A} (dec : json → option A) (absent short : option A) (k : string) : Fields A :=
  λ i,
  match i with
  | IMap o =>
      match get k o with
      | [] => (λ a, (a, i)) <$> absent
      | [v] => (λ a, (a, i)) <$> dec v
      | _ => None
      end
  | ISeq [] => (λ a, (a, i)) <$> short
  | ISeq (v :: l) => (λ a, (a, ISeq l)) <$> dec v
  end.

Definition req {A} `{Serde A} : string → Fields A := field de None None.
Definition opt {A} `{Serde A} : string → Fields (option A) := field de (Some None) None.
Definition opt_default {A} `{Serde A} : string → Fields (option A) :=
  field de (Some None) (Some None).
Definition dflt {A} `{Serde A} (d : A) : string → Fields A := field de (Some d) (Some d).

(** The visitor is done: a sequence must be used up. *)
Definition close {A} (r : option (A * input)) : option A :=
  match r with
  | Some (a, IMap _) | Some (a, ISeq []) => Some a
  | _ => None
  end.

Definition read_struct {A} (f : Fields A) (j : json) : option A :=
  match j with
  | JObj o => close (f (IMap o))
  | JArr l => close (f (ISeq l))
  | _ => None
  end.

(** The fields a struct writes, in declaration order; [None] is skipped. *)
Definition emit (l : list (string * option json)) : list (string * json) :=
  omap (λ '(k, o), (λ v, (k, v)) <$> o) l.

Definition Some_f {A} `{Serde A} (k : string) (a : A) : string * option json := (k, Some (ser a)).
Definition opt_f {A} `{Serde A} (k : string) (a : option A) : string * option json := (k, ser <$> a).
Definition vec_f {A} `{Serde A} (k : string) (l : list A) : string * option json :=
  (k, if decide (length l = 0) then None else Some (ser l)).

Class Struct (A : Type) : Type := {
  to_fields : A → list (string * option json);
  of_fields : Fields A;
}.

#[export] Instance serde_struct {A} `{Struct A} : Serde A | 10 := {|
  ser a := JObj (emit (to_fields a));
  de := read_struct of_fields |}.

(** ** Enums *)

(** The name of a unit variant: a string, or an object with the one key and
    [null]. *)
Definition unit_name (j : json) : option string :=
  match j with
  | JStr s => Some s
  | JObj [(s, JNull)] => Some s
  | _ => None
  end.

(** A [#[serde(tag = "..")]] enum: the tag, then the variant's fields. *)
Definition tagged (tag name : string) (l : list (string * option json)) : json :=
  JObj ((tag, JStr name) :: emit l).

(** The variant's name and what is left for its fields.  [index] reads a tag
    given by number, which only buffered content allows. *)
Definition untag (index : N → option string) (tag : string) (j : json) : option (string * input) :=
  let name t :=
    match t with JStr s => Some s | JNum (PosInt n) => index n | _ => None end in
  match j with
  | JObj o =>
      match get tag o with
      | [t] => (λ s, (s, IMap (filter (λ e, e.1 ≠ tag) o))) <$> name t
      | _ => None
      end
  | JArr (t :: l) => (λ s, (s, ISeq l)) <$> name t
  | _ => None
  end.

(** The first variant with that name, given what it reads its fields with. *)
Fixpoint variant {A} (name : string) (i : input) (vs : list (string * Fields A)) : option A :=
  match vs with
  | [] => None
  | (n, f) :: vs' => if String.eqb n name then close (f i) else variant name i vs'
  end.

(** A unit variant's fields: none of its own, whatever is there is ignored. *)
Definition unit_fields {A} (a : A) : Fields A := λ i,
  match i with IMap o => Some (a, IMap o) | ISeq l => Some (a, ISeq l) end.

(** A [#[serde(tag = "..")]] enum: its tag, the readers of its variants in
    declaration order, and the name and fields a value is written with. *)
Class Tagged (A : Type) : Type := {
  tag_key : string;
  variants : list (string * Fields A);
  to_variant : A → string * list (string * option json);
}.
Arguments tag_key A {_}.
Arguments variants A {_}.

(** [buffered]: the value is read out of another tagged enum's content. *)
Definition tagged_de {A} `{Tagged A} (buffered : bool) (j : json) : option A :=
  let index n := if buffered then (variants A).*1 !! N.to_nat n else None in
  match untag index (tag_key A) j with
  | Some (name, i) => variant name i (variants A)
  | None => None
  end.

#[export] Instance serde_tagged {A} `{Tagged A} : Serde A | 20 := {|
  ser a := tagged (tag_key A) (to_variant a).1 (to_variant a).2;
  de := tagged_de false |}.

(** An enum of unit variants only. *)
Class UnitEnum (A : Type) : Type := {
  unit_variants : list (string * A);
  to_unit : A → string;
}.

#[export] Instance serde_unit_enum {A} `{UnitEnum A} : Serde A | 30 := {|
  ser a := JStr (to_unit a);
  de j := s ← unit_name j;
          head (omap (λ v, if String.eqb v.1 s then Some v.2 else None) unit_variants) |}.

(** ** Reading objects *)

Lemma get_cons k k' o l :
  get k (emit ((k', o) :: l)) = (if String.eqb k' k then option_list o else []) ++ get k (emit l).
Proof. destruct o as [v|]; cbn; by destruct (String.eqb k' k). Qed.

Lemma get_nil k : get k (emit []) = [].
Proof. done. Qed.

Lemma get_perm k o p : o ≡ₚ p → get k o ≡ₚ get k p.
Proof.
  induction 1 as [|[k' v] o p _ IH|[k1 v1] [k2 v2] o|o p q _ IH1 _ IH2]; cbn.
  - done.
  - destruct (String.eqb k' k); [by constructor|done].
  - destruct (String.eqb k1 k), (String.eqb k2 k); try done. by constructor.
  - by etransitivity.
Qed.

Lemma get_notin k o : k ∉ o.*1 → get k o = [].
Proof.
  induction o as [|[k' v] o IH]; cbn; [done|]. rw not_elem_of_cons. intros [Hne Hn].
  case_eq (String.eqb k' k); [|by auto]. intros ->%String.eqb_eq. done.
Qed.

Lemma get_nodup k o : NoDup o.*1 → length (get k o) ≤ 1.
Proof.
  induction o as [|[k' v] o IH]; cbn; [lia|]. intros [Hn Hd]%NoDup_cons.
  case_eq (String.eqb k' k); [|by auto]. intros ->%String.eqb_eq. cbn. by rw get_notin.
Qed.

Lemma get_Forall2 k (p o : list (string * json)) :
  p.*1 = o.*1 → Forall2 json_eqv p.*2 o.*2 → Forall2 json_eqv (get k p) (get k o).
Proof.
  revert o. induction p as [|[k1 v1] p IH]; intros [|[k2 v2] o]; cbn; try done.
  intros [= -> Hk] Hv. apply Forall2_cons in Hv as [Hv Hvs].
  destruct (String.eqb k2 k); [constructor|]; auto.
Qed.

Lemma perm_short {A} (l k : list A) : length l ≤ 1 → l ≡ₚ k → l = k.
Proof.
  destruct l as [|x [|y l]]; cbn; intros Hl Hp.
  - by apply Permutation_nil_l in Hp.
  - by apply Permutation_singleton_l in Hp.
  - lia.
Qed.

Lemma get_eqv k o o' :
  json_eqv (JObj o) (JObj o') → Forall2 json_eqv (get k o) (get k o').
Proof.
  inversion 1 as [| | | | |? p ? Hn Hp Hk Hv]; subst.
  rw (perm_short (get k o) (get k p)); [by apply get_nodup|by apply get_perm|].
  by apply get_Forall2.
Qed.

Lemma emit_keys l : (emit l).*1 `sublist_of` l.*1.
Proof.
  induction l as [|[k [v|]] l IH]; cbn; [constructor|by constructor|by constructor].
Qed.

(** What a struct writes is a document: distinct keys, documents inside. *)
Lemma emit_document l :
  NoDup l.*1 → Forall (λ e, ∀ v, e.2 = Some v → json_eqv v v) l →
  json_eqv (JObj (emit l)) (JObj (emit l)).
Proof.
  intros Hn Hf. apply (eqv_obj _ (emit l)); [|done..|].
  - eapply sublist_NoDup; [|apply emit_keys]. done.
  - clear Hn. induction Hf as [|[k [v|]] l Hv _ IH]; cbn; [constructor| |done].
    constructor; [by apply Hv|done].
Qed.

(** ** Inputs up to the order of fields *)

Inductive input_eqv : input → input → Prop :=
  | ieqv_map o o' : json_eqv (JObj o) (JObj o') → input_eqv (IMap o) (IMap o')
  | ieqv_seq l l' : Forall2 json_eqv l l' → input_eqv (ISeq l) (ISeq l').

Definition read_eqv {A} : relation (option (A * input)) :=
  option_Forall2 (prod_relation eq input_eqv).

(** A visitor that does not see the order of the fields. *)
Definition orderless {A} (f : Fields A) : Prop := Proper (input_eqv ==> read_eqv) f.

Definition typed {A} (P : A → Prop) (f : Fields A) : Prop := ∀ i a i', f i = Some (a, i') → P a.

Lemma orderless_ret {A} (a : A) : orderless (mret a).
Proof. intros i i' Hi. by constructor. Qed.

Lemma orderless_bind {A B} (m : Fields A) (k : A → Fields B) :
  orderless m → (∀ a, orderless (k a)) → orderless (m ≫= k).
Proof.
  intros Hm Hk i i' Hi. unfold mbind, fields_bind.
  destruct (Hm _ _ Hi) as [[a j] [b j'] [Heq Hj]|]; [|constructor].
  cbn in *. subst. by apply Hk.
Qed.

Lemma orderless_field {A} (dec : json → option A) absent short k :
  (∀ j j', json_eqv j j' → dec j = dec j') → orderless (field dec absent short k).
Proof.
  intros Hd i i' [o o' Ho|l l' Hl]; cbn.
  - pose proof (get_eqv k _ _ Ho) as Hg.
    destruct Hg as [|v v' ? ? Hv [|]]; [|rw (Hd _ _ Hv)|constructor].
    + destruct absent; constructor. by repeat constructor.
    + destruct (dec v'); constructor. by repeat constructor.
  - destruct Hl as [|v v' l l' Hv Hl].
    + destruct short; constructor. by repeat constructor.
    + rw (Hd _ _ Hv). destruct (dec v'); constructor. by repeat constructor.
Qed.

Lemma close_eqv {A} (r r' : option (A * input)) : read_eqv r r' → close r = close r'.
Proof.
  intros [[a i] [b i'] [Hab Hi]|]; [|done]. cbn in *. subst.
  destruct Hi as [o o' _|l l' Hl]; cbn; [done|]. by destruct Hl.
Qed.

Lemma close_typed {A} (P : A → Prop) f i a : typed P f → close (f i) = Some a → P a.
Proof.
  intros Hf. destruct (f i) as [[b i']|] eqn:Hi; cbn; [|done].
  destruct i' as [o|[|v l]]; intros [= <-]; by apply (Hf _ _ _ Hi).
Qed.

Lemma typed_ret {A} (P : A → Prop) a : P a → typed P (mret a).
Proof. by intros Ha i b i' [= <- _]. Qed.

Lemma typed_bind {A B} (P : A → Prop) (Q : B → Prop) (m : Fields A) (k : A → Fields B) :
  typed P m → (∀ a, P a → typed Q (k a)) → typed Q (m ≫= k).
Proof.
  intros Hm Hk i b i'. unfold mbind, fields_bind.
  destruct (m i) as [[a j]|] eqn:Hi; [|done]. apply Hk. by eapply Hm.
Qed.

Lemma typed_field {A} (P : A → Prop) (dec : json → option A) absent short k :
  (∀ j a, dec j = Some a → P a) → (∀ a, absent = Some a → P a) → (∀ a, short = Some a → P a) →
  typed P (field dec absent short k).
Proof.
  intros Hd Ha Hs i a i'. unfold field.
  destruct i as [o|[|v l]]; [destruct (get k o) as [|v [|]]|..]; cbn; intros H;
    repeat (apply fmap_Some in H as (x & Hx & [= -> ->])); eauto; done.
Qed.

(** ** The laws of the basic codecs *)

Section basic.
Context {A : Type} `{SerdeLaws A}.

#[export, program] Instance laws_option `{!NonNull A} : SerdeLaws (option A) := {|
  serde_wf o := ∀ a, o = Some a → serde_wf a |}.
Next Obligation.
  intros Hnn [a|] Hw; [|done]. cbn. specialize (Hnn a). specialize (Hw a eq_refl).
  pose proof (de_ser a Hw) as Hd. destruct (ser a); [done|..]; by rw Hd.
Qed.
Next Obligation.
  intros _ j [a|]; [|done]. cbn. intros Hd b [= <-]. destruct j; [done|..];
    apply fmap_Some in Hd as (x & Hx & [= ->]); by eapply de_typed.
Qed.
Next Obligation.
  intros _ j j' Hj. pose proof (de_proper j j' Hj) as Hd. cbn. by destruct Hj; rw ?Hd.
Qed.
Next Obligation. intros _ [a|] Hw; cbn; [by apply ser_document, Hw|constructor]. Qed.

#[export, program] Instance laws_vec : SerdeLaws (list A) := {| serde_wf := Forall serde_wf |}.
Next Obligation.
  intros l Hl. cbn. induction Hl as [|a l Ha _ IH]; [done|]. cbn. by rw (de_ser a Ha) /= IH.
Qed.
Next Obligation.
  intros j k. destruct j; try done. cbn. intros Hd%mapM_Some. induction Hd as [|j a ?? Hj _ IH]; [done|].
  constructor; [by eapply de_typed|done].
Qed.
Next Obligation.
  intros j j' Hj. destruct Hj as [| | | |l l' Hl|]; try done. cbn.
  induction Hl as [|v v' l l' Hv _ IH]; [done|]. cbn. by rw (de_proper _ _ Hv) IH.
Qed.
Next Obligation.
  intros l Hl. cbn. constructor. induction Hl as [|a l Ha _ IH]; constructor; [|done].
  by apply ser_document.
Qed.
End basic.

Lemma read_uint_Some m j n : read_uint m j = Some n → j = JNum (PosInt n) ∧ (n ≤ m)%N.
Proof.
  destruct j as [| |[k| |]| | |]; cbn; try done. case_eq (k <=? m)%N; [|done].
  by intros ?%N.leb_le [= <-].
Qed.

Lemma read_uint_ok m n : (n ≤ m)%N → read_uint m (JNum (PosInt n)) = Some n.
Proof. intros Hn%N.leb_le. cbn. by rw Hn. Qed.

Ltac uint_laws m :=
  refine {| serde_wf n := (n ≤ m)%N |};
    [apply read_uint_ok|by intros j n [_ ?]%read_uint_Some|by intros j j' []|constructor].

#[export] Instance laws_u16 : SerdeLaws u16. Proof. uint_laws U16_MAX. Defined.
#[export] Instance laws_u32 : SerdeLaws u32. Proof. uint_laws U32_MAX. Defined.
#[export] Instance laws_u64 : SerdeLaws u64. Proof. uint_laws U64_MAX. Defined.

#[export] Instance laws_bool : SerdeLaws bool.
Proof. refine {| serde_wf _ := True |}; [done..|by intros j j' []|constructor]. Defined.

#[export] Instance laws_string : SerdeLaws string.
Proof. refine {| serde_wf _ := True |}; [done..|by intros j j' []|constructor]. Defined.

#[export] Instance nonnull_u16 : NonNull u16. Proof. done. Qed.
#[export] Instance nonnull_u32 : NonNull u32. Proof. done. Qed.
#[export] Instance nonnull_u64 : NonNull u64. Proof. done. Qed.
#[export] Instance nonnull_bool : NonNull bool. Proof. done. Qed.
#[export] Instance nonnull_string : NonNull string. Proof. done. Qed.
#[export] Instance nonnull_vec {A} `{Serde A} : NonNull (list A). Proof. done. Qed.
#[export] Instance nonnull_struct {A} `{Struct A} : NonNull A. Proof. done. Qed.

Lemma mapM_perm {A B} (f : A → option B) l k :
  l ≡ₚ k → option_Forall2 Permutation (mapM f l) (mapM f k).
Proof.
  induction 1 as [|x l k _ IH|x y l|l k m _ IH1 _ IH2]; cbn.
  - by constructor.
  - destruct (f x); cbn; [|constructor]. destruct IH; cbn; constructor. by constructor.
  - destruct (f y), (f x), (mapM f l); cbn; constructor. constructor.
  - destruct IH1 as [a b Hab|]; inversion IH2; subst; constructor. by etransitivity.
Qed.

Lemma read_entry_keys o l : mapM read_entry o = Some l → l.*1 = o.*1.
Proof.
  intros H%mapM_Some. induction H as [|[k v] [k' s] o l He _ IH]; [done|]. cbn.
  cbn in He. destruct v; try done. injection He as <- _. by rw IH.
Qed.

Lemma read_entry_eqv (p o : list (string * json)) :
  p.*1 = o.*1 → Forall2 json_eqv p.*2 o.*2 → mapM read_entry p = mapM read_entry o.
Proof.
  revert o. induction p as [|[k1 v1] p IH]; intros [|[k2 v2] o]; cbn; try done.
  intros [= -> Hk] Hv. apply Forall2_cons in Hv as [Hv Hvs]. by destruct Hv; cbn; rw ?(IH o).
Qed.

Lemma list_to_map_rev (l : list (string * string)) :
  NoDup l.*1 → list_to_map (rev l) = (list_to_map l : gmap string string).
Proof.
  intros Hn. symmetry. apply list_to_map_proper; [done|]. by rw -Permutation_rev.
Qed.

#[export] Instance laws_hashmap : SerdeLaws (gmap string string).
Proof.
  refine {| serde_wf _ := True |}; [| |intros j j' Hj|].
  - intros m _. cbn.
    assert (mapM read_entry (prod_map id JStr <$> map_to_list m) = Some (map_to_list m)) as ->.
    { by induction (map_to_list m) as [|[k s] l IH]; cbn; rw ?IH. }
    cbn. rw list_to_map_rev; [apply NoDup_fst_map_to_list|]. by rw list_to_map_to_list.
  - done.
  - destruct Hj as [| | | | |o p o' Hn Hp Hk Hv]; try done. cbn.
    rw -(read_entry_eqv p o' Hk Hv). pose proof (read_entry_keys o) as Hks.
    destruct (mapM_perm read_entry o p Hp) as [l l' Hl|]; [|done]. cbn. f_equal.
    specialize (Hks l eq_refl). apply list_to_map_proper.
    + rw -Permutation_rev Hks. done.
    + by rw -!Permutation_rev.
  - intros m _. cbn. eapply eqv_obj; [|done..|].
    + assert ((prod_map id JStr <$> map_to_list m).*1 = (map_to_list m).*1) as ->;
        [|apply NoDup_fst_map_to_list]. rw -list_fmap_compose. by apply list_fmap_ext; intros ? [].
    + rw -!list_fmap_compose. apply Forall2_fmap_2. apply Forall_Forall2_diag, Forall_true.
      intros []. constructor.
Defined.

#[export] Instance nonnull_hashmap : NonNull (gmap string string). Proof. done. Qed.

(** ** The laws of structs *)

(** Every field written is a document. *)
Definition documents (l : list (string * option json)) : Prop :=
  NoDup l.*1 ∧ Forall (λ e, ∀ v, e.2 = Some v → json_eqv v v) l.

Class StructLaws (A : Type) `{Struct A} : Type := {
  struct_wf : A → Prop;
  struct_round a : struct_wf a →
    of_fields (IMap (emit (to_fields a))) = Some (a, IMap (emit (to_fields a)));
  struct_typed : typed struct_wf of_fields;
  struct_orderless : orderless of_fields;
  struct_documents a : struct_wf a → documents (to_fields a);
}.

Lemma read_struct_eqv {A} (f : Fields A) j j' :
  orderless f → json_eqv j j' → read_struct f j = read_struct f j'.
Proof.
  intros Hf Hj. pose proof Hj as Hj'. destruct Hj as [| | | |l l' Hl|]; try done; cbn.
  - by apply close_eqv, Hf, ieqv_seq.
  - by apply close_eqv, Hf, ieqv_map.
Qed.

#[export] Instance laws_struct {A} `{StructLaws A} : SerdeLaws A | 10.
Proof.
  refine {| serde_wf := struct_wf |}.
  - intros a Ha. cbn. by rw (struct_round a Ha).
  - intros j a. cbn. destruct j; try done; cbn; apply close_typed, struct_typed.
  - intros j j'. apply read_struct_eqv, struct_orderless.
  - intros a Ha. destruct (struct_documents a Ha). by apply emit_document.
Defined.

Lemma map_bind {A B} (m : Fields A) (k : A → Fields B) o a :
  m (IMap o) = Some (a, IMap o) → (m ≫= k) (IMap o) = k a (IMap o).
Proof. unfold mbind, fields_bind. by intros ->. Qed.

(** What was written under a key is what is read there. *)
Section written.
Context {A : Type} `{Serde A}.

Lemma req_written `{!SerdeLaws A} (a : A) k o :
  get k o = [ser a] → serde_wf a → req k (IMap o) = Some (a, IMap o).
Proof. intros Hg Ha. cbn. by rw Hg (de_ser a Ha). Qed.

Lemma dflt_written `{!SerdeLaws A} (d a : A) k o :
  get k o = [ser a] → serde_wf a → dflt d k (IMap o) = Some (a, IMap o).
Proof. intros Hg Ha. cbn. by rw Hg (de_ser a Ha). Qed.

Lemma vec_written `{!SerdeLaws A} (l : list A) k o :
  get k o = option_list (if decide (length l = 0) then None else Some (ser l)) →
  serde_wf l → dflt [] k (IMap o) = Some (l, IMap o).
Proof.
  intros Hg Hl. unfold dflt, field. rw Hg. case_decide as Hn.
  - by apply length_zero_iff_nil in Hn as ->.
  - change (option_list (Some (ser l))) with [ser l].
    cbv beta iota. by rw (de_ser l Hl).
Qed.

Context `{!SerdeLaws (option A)}.

Lemma opt_written_gen (x : option A) sh k o :
  get k o = option_list (ser <$> x) → serde_wf x → field de (Some None) sh k (IMap o) = Some (x, IMap o).
Proof.
  intros Hg Hx. unfold field. rw Hg. destruct x as [a|]; [|done].
  change (option_list (ser <$> Some a)) with [ser (Some a)]. cbv beta iota. by rw (de_ser (Some a) Hx).
Qed.

Lemma opt_written (x : option A) k o :
  get k o = option_list (ser <$> x) → serde_wf x → opt k (IMap o) = Some (x, IMap o).
Proof. apply opt_written_gen. Qed.

Lemma opt_default_written (x : option A) k o :
  get k o = option_list (ser <$> x) → serde_wf x → opt_default k (IMap o) = Some (x, IMap o).
Proof. apply opt_written_gen. Qed.
End written.

(** ** The laws of enums *)

Class UnitEnumLaws (A : Type) `{UnitEnum A} : Prop :=
  unit_round (a : A) : de (ser a) = Some a.

Lemma unit_name_eqv j j' : json_eqv j j' → unit_name j = unit_name j'.
Proof.
  destruct 1 as [| | | | |o p o' _ Hp Hk Hv]; try done. cbn.
  destruct o as [|[k v] [|e o]].
  - apply Permutation_nil_l in Hp as <-. by destruct o'.
  - apply Permutation_singleton_l in Hp as <-. destruct o' as [|[k' v'] [|e' o']]; try done.
    cbn in *. injection Hk as ->. apply Forall2_cons in Hv as [Hv _]. by destruct Hv.
  - apply Permutation_length in Hp. apply (f_equal length) in Hk. rw !length_fmap -Hp in Hk.
    destruct o' as [|[k' v'] [|e' o']]; try done. by destruct v, v'.
Qed.

#[export] Instance laws_unit_enum {A} `{UnitEnumLaws A} : SerdeLaws A | 30.
Proof.
  refine {| serde_wf _ := True |}; [by intros a _; apply unit_round|done| |constructor].
  intros j j' Hj. cbn. by rw (unit_name_eqv j j' Hj).
Defined.

#[export] Instance nonnull_unit_enum {A} `{UnitEnum A} : NonNull A. Proof. done. Qed.

Class TaggedLaws (A : Type) `{Tagged A} : Type := {
  tagged_wf : A → Prop;
  tagged_round a : tagged_wf a →
    variant (to_variant a).1 (IMap (emit (to_variant a).2)) (variants A) = Some a;
  tagged_typed : Forall (λ v, typed tagged_wf v.2) (variants A);
  tagged_orderless : Forall (λ v, orderless v.2) (variants A);
  tagged_documents a : tagged_wf a →
    documents ((tag_key A, Some (JStr (to_variant a).1)) :: (to_variant a).2);
}.

Lemma filter_other tag (o : list (string * json)) :
  tag ∉ o.*1 → filter (λ e, e.1 ≠ tag) o = o.
Proof.
  induction o as [|e o IH]; [done|]. rw fmap_cons not_elem_of_cons. intros [Hne Hn].
  rw filter_cons_True; [by auto|]. by rw IH.
Qed.

Lemma filter_eqv tag o o' :
  json_eqv (JObj o) (JObj o') →
  json_eqv (JObj (filter (λ e, e.1 ≠ tag) o)) (JObj (filter (λ e, e.1 ≠ tag) o')).
Proof.
  inversion 1 as [| | | | |? p ? Hn Hp Hk Hv]; subst.
  apply (eqv_obj _ (filter (λ e, e.1 ≠ tag) p)).
  - eapply sublist_NoDup; [|apply fmap_sublist, sublist_filter]. done.
  - by rw Hp.
  - clear -Hk. revert o' Hk. induction p as [|[k v] p IH]; intros [|[k' v'] o']; try done.
    rw !fmap_cons. intros [= -> Hk]. rw !filter_cons. cbn [fst].
    case_decide; [rw !fmap_cons (IH o' Hk) //|by apply IH].
  - clear -Hk Hv. revert o' Hk Hv. induction p as [|[k v] p IH]; intros [|[k' v'] o']; try done.
    rw !fmap_cons. intros [= -> Hk] [Hv Hvs]%Forall2_cons. rw !filter_cons. cbn [fst].
    case_decide; [constructor|]; auto.
Qed.

Lemma variant_eqv {A} name i i' (vs : list (string * Fields A)) :
  Forall (λ v, orderless v.2) vs → input_eqv i i' → variant name i vs = variant name i' vs.
Proof.
  intros Hv Hi. induction Hv as [|[n f] vs Hf _ IH]; [done|]. cbn in *.
  destruct (String.eqb n name); [|done]. by apply close_eqv, Hf.
Qed.

Lemma variant_typed {A} (P : A → Prop) name i (vs : list (string * Fields A)) a :
  Forall (λ v, typed P v.2) vs → variant name i vs = Some a → P a.
Proof.
  induction 1 as [|[n f] vs Hf _ IH]; [done|]. cbn in *.
  destruct (String.eqb n name); [|done]. by apply close_typed.
Qed.

Section tagged_laws.
Context {A : Type} `{TaggedLaws A}.

Lemma tagged_de_typed b j (a : A) : tagged_de b j = Some a → tagged_wf a.
Proof.
  unfold tagged_de. destruct (untag _ _ _) as [[name i]|]; [|done].
  apply variant_typed, tagged_typed.
Qed.

Lemma tagged_de_ser b (a : A) : tagged_wf a → tagged_de b (ser a) = Some a.
Proof.
  intros Ha. destruct (tagged_documents a Ha) as [Hn _].
  rw fmap_cons in Hn. apply NoDup_cons in Hn as [Hn _]. cbn [fst] in Hn.
  assert (tag_key A ∉ (emit (to_variant a).2).*1) as Hk.
  { intros Hin. apply Hn. by eapply elem_of_sublist; [|apply emit_keys]. }
  unfold tagged_de. cbn [ser serde_tagged tagged untag get]. rw String.eqb_refl (get_notin _ _ Hk).
  rw filter_cons_False; [by intros []|]. rw (filter_other _ _ Hk). by apply tagged_round.
Qed.

Lemma tagged_de_proper b j j' : json_eqv j j' → tagged_de (A:=A) b j = tagged_de b j'.
Proof.
  intros Hj. unfold tagged_de, untag. pose proof Hj as Hj'.
  destruct Hj as [| | | |l l' Hl|o p o' Hn Hp Hk Hv]; try done.
  - destruct Hl as [|t t' l l' Ht Hl]; [done|].
    destruct Ht as [| |[]| | |]; try done; cbn; [destruct (if b then _ else _)|]; try done;
      apply variant_eqv; [apply tagged_orderless|by constructor..|apply tagged_orderless|by constructor].
  - pose proof (get_eqv (tag_key A) _ _ Hj') as Hg.
    destruct Hg as [|t t' ? ? Ht [|]]; [done| |done].
    pose proof (filter_eqv (tag_key A) _ _ Hj') as Hf.
    destruct Ht as [| |[]| | |]; try done; cbn; [destruct (if b then _ else _)|]; try done;
      apply variant_eqv; try apply tagged_orderless; by constructor.
Qed.
End tagged_laws.

#[export] Instance laws_tagged {A} `{TaggedLaws A} : SerdeLaws A | 20.
Proof.
  refine {| serde_wf := tagged_wf |}; [apply tagged_de_ser|apply tagged_de_typed|apply tagged_de_proper|].
  intros a Ha. destruct (tagged_documents a Ha) as [Hn Hf]. by apply (emit_document _ Hn Hf).
Defined.

#[export] Instance nonnull_tagged {A} `{Tagged A} : NonNull A. Proof. done. Qed.

(** ** Automation: the laws of a declaration from those of its field types *)

Section visitors.
Context {A : Type} `{SerdeLaws A}.

Lemma orderless_req k : orderless (req (A:=A) k).
Proof. apply orderless_field, de_proper. Qed.
Lemma orderless_dflt (d : A) k : orderless (dflt d k).
Proof. apply orderless_field, de_proper. Qed.
Lemma typed_req k : typed serde_wf (req (A:=A) k).
Proof. apply typed_field; [apply de_typed|done..]. Qed.
Lemma typed_dflt (d : A) k : serde_wf d → typed serde_wf (dflt d k).
Proof. intros Hd. by apply typed_field; [apply de_typed|intros ? [= <-]..]. Qed.
End visitors.

Section visitors.
Context {A : Type} `{Serde A} `{!SerdeLaws (option A)}.
Hypothesis none_wf : serde_wf (@None A).

Lemma orderless_opt k : orderless (opt (A:=A) k).
Proof using SerdeLaws0. apply orderless_field, de_proper. Qed.
Lemma orderless_opt_default k : orderless (opt_default (A:=A) k).
Proof using SerdeLaws0. apply orderless_field, de_proper. Qed.
Lemma typed_opt k : typed serde_wf (opt (A:=A) k).
Proof using none_wf. by apply typed_field; [apply de_typed|intros ? [= <-]|]. Qed.
Lemma typed_opt_default k : typed serde_wf (opt_default (A:=A) k).
Proof using none_wf. by apply typed_field; [apply de_typed|intros ? [= <-]..]. Qed.
End visitors.

Lemma orderless_unit {A} (a : A) : orderless (unit_fields a).
Proof. intros i i' []; constructor; by repeat constructor. Qed.

Lemma typed_unit {A} (P : A → Prop) a : P a → typed P (unit_fields a).
Proof. by intros Ha [] b i' [= <- _]. Qed.

(** What is written under a key is a document. *)
Definition written (e : string * option json) : Prop := ∀ v, e.2 = Some v → json_eqv v v.

Lemma written_tag k s : written (k, Some (JStr s)).
Proof. intros v [= <-]. constructor. Qed.
Lemma written_some {A} `{SerdeLaws A} k (a : A) : serde_wf a → written (Some_f k a).
Proof. intros Ha v [= <-]. by apply ser_document. Qed.
Lemma written_opt {A} `{Serde A} `{!SerdeLaws (option A)} k (a : option A) :
  serde_wf a → written (opt_f k a).
Proof. intros Ha v. destruct a as [a|]; [|done]. intros [= <-]. exact (ser_document (Some a) Ha). Qed.
Lemma written_vec {A} `{SerdeLaws A} k (l : list A) : serde_wf l → written (vec_f k l).
Proof. intros Ha v. cbn. case_decide; [done|]. intros [= <-]. exact (ser_document l Ha). Qed.

(** A list of strings has no values to exclude. *)
Lemma strings_wf (l : list string) : serde_wf l.
Proof. by apply Forall_true. Qed.

(** Side conditions on values: the hypotheses, or nothing to show. *)
Ltac wf_side :=
  repeat match goal with H : ?P |- _ => progress hnf in H end;
  destruct_and?; try done; hnf; split_and?; intros; simplify_eq; eauto; try done;
  try apply strings_wf.

Ltac orderless_one :=
  first [apply orderless_req | apply orderless_opt | apply orderless_opt_default
        | apply orderless_dflt | apply orderless_ret | apply orderless_unit
        | apply struct_orderless].

Ltac orderless_tac :=
  cbn beta; repeat (apply orderless_bind; [orderless_one|intros ?]); orderless_one.

Ltac typed_one :=
  first [apply typed_req | apply struct_typed | apply typed_dflt | apply typed_opt
        | apply typed_opt_default]; wf_side.

Ltac typed_tac :=
  cbn beta; repeat (eapply typed_bind; [solve [typed_one]|intros ? ?]);
  first [apply typed_ret | apply typed_unit]; wf_side.

Ltac get_tac :=
  unfold Some_f, opt_f, vec_f; rw !get_cons; cbn [String.eqb Ascii.eqb Bool.eqb];
  rw get_nil ?app_nil_l ?app_nil_r;
  reflexivity.

Ltac round_tac :=
  repeat (erewrite map_bind;
    [|solve [apply req_written; [get_tac|wf_side]
            |apply opt_written; [get_tac|wf_side]
            |apply opt_default_written; [get_tac|wf_side]
            |apply dflt_written; [get_tac|wf_side]
            |apply vec_written; [get_tac|wf_side]
            |apply struct_round; wf_side]]);
  try done.

Ltac document_tac :=
  split; [apply (bool_decide_unpack _); by vm_compute|];
  repeat (apply Forall_cons; split;
    [solve [apply written_some; wf_side | apply written_opt; wf_side | apply written_vec; wf_side
           | apply written_tag]|]);
  by constructor.

(** The declaration behind the codec. *)
Ltac unfold_head t :=
  lazymatch t with ?f _ => unfold_head f | _ => unfold t end.

Ltac open_struct :=
  match goal with
  | |- context [@of_fields _ ?S] => unfold_head S
  | |- context [@to_fields _ ?S] => unfold_head S
  end; cbn [of_fields to_fields].

Ltac struct_laws :=
  [> intros [] ?; open_struct; round_tac
   | open_struct; typed_tac
   | open_struct; orderless_tac
   | intros [] ?; open_struct; document_tac].

Ltac open_tagged :=
  match goal with
  | |- context [@variants _ ?S] => unfold_head S
  | |- context [@to_variant _ ?S] => unfold_head S
  end; cbn [variants to_variant tag_key fst snd].

Ltac tagged_laws :=
  [> intros [] ?; open_tagged; cbn [variant String.eqb Ascii.eqb Bool.eqb]; round_tac
   | open_tagged; repeat (apply Forall_cons; split; [cbn [snd]; solve [typed_tac]|]); by constructor
   | open_tagged; repeat (apply Forall_cons; split; [cbn [snd]; solve [orderless_tac]|]); by constructor
   | intros [] ?; open_tagged; document_tac].
