(* ===== verification/Payloads.v ===== *)
(** * Typed command and event payloads

    The payload types of [src/wire/events/content.rs], [upload.rs],
    [payload.rs], [interaction.rs] and [src/wire/commands/lifecycle.rs] with the
    codecs their serde attributes derive.  Each type is a record or an inductive
    with the source's fields and variants, an instance with its wire form, and an
    instance of the laws; [.._wf] says which values the Rust type has (the widths
    of its integers). *)
From S2P Require Import Prelude Json.

(** ** Content parts ([content.rs]) *)

Definition default_part_type : string := "default".

Record FileRef : Type := mkFileRef {
  fr_remote_url : string;
  fr_local_uri : string;
  fr_remote_expires_at : option string;
  fr_mime_type : string;
  fr_require_organized : bool;
  fr_size_bytes : u64;
  fr_sha256 : string;
}.

#[export] Instance FileRef_struct : Struct FileRef := {|
  to_fields p :=
    [Some_f "remoteUrl" (fr_remote_url p); Some_f "localUri" (fr_local_uri p);
     opt_f "remoteExpiresAt" (fr_remote_expires_at p); Some_f "mimeType" (fr_mime_type p);
     Some_f "requireOrganized" (fr_require_organized p); Some_f "sizeBytes" (fr_size_bytes p);
     Some_f "sha256" (fr_sha256 p)];
  of_fields :=
    remote_url ← dflt EmptyString "remoteUrl";
    local_uri ← dflt EmptyString "localUri";
    remote_expires_at ← opt_default "remoteExpiresAt";
    mime_type ← dflt EmptyString "mimeType";
    require_organized ← dflt false "requireOrganized";
    size_bytes ← dflt (0%N : u64) "sizeBytes";
    sha256 ← dflt EmptyString "sha256";
    mret (mkFileRef remote_url local_uri remote_expires_at mime_type require_organized
            size_bytes sha256) |}.

Definition FileRef_wf (p : FileRef) : Prop := serde_wf (fr_size_bytes p).

#[export] Instance FileRef_laws : StructLaws FileRef.
Proof. refine {| struct_wf := FileRef_wf |}; struct_laws. Defined.

Record TextPart : Type := mkTextPart {
  tp_text : string;
  tp_part_id : option string;
  tp_part_type : string;
}.

#[export] Instance TextPart_struct : Struct TextPart := {|
  to_fields p :=
    [Some_f "text" (tp_text p); opt_f "partId" (tp_part_id p);
     Some_f "partType" (tp_part_type p)];
  of_fields :=
    text ← req "text";
    part_id ← opt_default "partId";
    part_type ← dflt default_part_type "partType";
    mret (mkTextPart text part_id part_type) |}.

#[export] Instance TextPart_laws : StructLaws TextPart.
Proof. refine {| struct_wf _ := True |}; struct_laws. Defined.

Record ImagePart : Type := mkImagePart {
  ip_source : FileRef;
  ip_detail : option string;
  ip_width : option u32;
  ip_height : option u32;
  ip_part_id : option string;
  ip_part_type : string;
}.

#[export] Instance ImagePart_struct : Struct ImagePart := {|
  to_fields p :=
    [Some_f "source" (ip_source p); opt_f "detail" (ip_detail p); opt_f "width" (ip_width p);
     opt_f "height" (ip_height p); opt_f "partId" (ip_part_id p);
     Some_f "partType" (ip_part_type p)];
  of_fields :=
    source ← req "source";
    detail ← opt_default "detail";
    width ← opt_default "width";
    height ← opt_default "height";
    part_id ← opt_default "partId";
    part_type ← dflt default_part_type "partType";
    mret (mkImagePart source detail width height part_id part_type) |}.

Definition ImagePart_wf (p : ImagePart) : Prop :=
  serde_wf (ip_source p) ∧ serde_wf (ip_width p) ∧ serde_wf (ip_height p).

#[export] Instance ImagePart_laws : StructLaws ImagePart.
Proof. refine {| struct_wf := ImagePart_wf |}; struct_laws. Defined.

Record AudioPart : Type := mkAudioPart {
  ap_source : FileRef;
  ap_sample_rate : option u32;
  ap_channels : option u16;
  ap_duration_ms : option u64;
  ap_part_id : option string;
  ap_part_type : string;
}.

#[export] Instance AudioPart_struct : Struct AudioPart := {|
  to_fields p :=
    [Some_f "source" (ap_source p); opt_f "sampleRate" (ap_sample_rate p);
     opt_f "channels" (ap_channels p); opt_f "durationMs" (ap_duration_ms p);
     opt_f "partId" (ap_part_id p); Some_f "partType" (ap_part_type p)];
  of_fields :=
    source ← req "source";
    sample_rate ← opt_default "sampleRate";
    channels ← opt_default "channels";
    duration_ms ← opt_default "durationMs";
    part_id ← opt_default "partId";
    part_type ← dflt default_part_type "partType";
    mret (mkAudioPart source sample_rate channels duration_ms part_id part_type) |}.

Definition AudioPart_wf (p : AudioPart) : Prop :=
  serde_wf (ap_source p) ∧ serde_wf (ap_sample_rate p) ∧ serde_wf (ap_channels p) ∧
  serde_wf (ap_duration_ms p).

#[export] Instance AudioPart_laws : StructLaws AudioPart.
Proof. refine {| struct_wf := AudioPart_wf |}; struct_laws. Defined.

Record VideoPart : Type := mkVideoPart {
  vp_source : FileRef;
  vp_duration_ms : option u64;
  vp_fps : option u32;
  vp_width : option u32;
  vp_height : option u32;
  vp_part_id : option string;
  vp_part_type : string;
}.

#[export] Instance VideoPart_struct : Struct VideoPart := {|
  to_fields p :=
    [Some_f "source" (vp_source p); opt_f "durationMs" (vp_duration_ms p);
     opt_f "fps" (vp_fps p); opt_f "width" (vp_width p); opt_f "height" (vp_height p);
     opt_f "partId" (vp_part_id p); Some_f "partType" (vp_part_type p)];
  of_fields :=
    source ← req "source";
    duration_ms ← opt_default "durationMs";
    fps ← opt_default "fps";
    width ← opt_default "width";
    height ← opt_default "height";
    part_id ← opt_default "partId";
    part_type ← dflt default_part_type "partType";
    mret (mkVideoPart source duration_ms fps width height part_id part_type) |}.

Definition VideoPart_wf (p : VideoPart) : Prop :=
  serde_wf (vp_source p) ∧ serde_wf (vp_duration_ms p) ∧ serde_wf (vp_fps p) ∧
  serde_wf (vp_width p) ∧ serde_wf (vp_height p).

#[export] Instance VideoPart_laws : StructLaws VideoPart.
Proof. refine {| struct_wf := VideoPart_wf |}; struct_laws. Defined.

Record FilePart : Type := mkFilePart {
  fp_source : FileRef;
  fp_part_id : option string;
  fp_part_type : string;
}.

#[export] Instance FilePart_struct : Struct FilePart := {|
  to_fields p :=
    [Some_f "source" (fp_source p); opt_f "partId" (fp_part_id p);
     Some_f "partType" (fp_part_type p)];
  of_fields :=
    source ← req "source";
    part_id ← opt_default "partId";
    part_type ← dflt default_part_type "partType";
    mret (mkFilePart source part_id part_type) |}.

Definition FilePart_wf (p : FilePart) : Prop := serde_wf (fp_source p).

#[export] Instance FilePart_laws : StructLaws FilePart.
Proof. refine {| struct_wf := FilePart_wf |}; struct_laws. Defined.

Inductive ContentPart : Type :=
  | Text (p : TextPart)
  | Image (p : ImagePart)
  | Audio (p : AudioPart)
  | Video (p : VideoPart)
  | File (p : FilePart).

#[export] Instance ContentPart_tagged : Tagged ContentPart := {|
  tag_key := "type";
  variants :=
    [("text", p ← of_fields; mret (Text p)); ("image", p ← of_fields; mret (Image p));
     ("audio", p ← of_fields; mret (Audio p)); ("video", p ← of_fields; mret (Video p));
     ("file", p ← of_fields; mret (File p))];
  to_variant c :=
    match c with
    | Text p => ("text", to_fields p)
    | Image p => ("image", to_fields p)
    | Audio p => ("audio", to_fields p)
    | Video p => ("video", to_fields p)
    | File p => ("file", to_fields p)
    end |}.

Definition ContentPart_wf (c : ContentPart) : Prop :=
  match c with
  | Text p => serde_wf p
  | Image p => serde_wf p
  | Audio p => serde_wf p
  | Video p => serde_wf p
  | File p => serde_wf p
  end.

#[export] Instance ContentPart_laws : TaggedLaws ContentPart.
Proof. refine {| tagged_wf := ContentPart_wf |}; tagged_laws. Defined.

(** ** Uploads and token usage ([upload.rs]) *)

Inductive UploadEvent : Type :=
  | Progress (name : string) (uploaded total : u64)
  | UploadCompleted (name : string) (media_source : FileRef)
  | UploadError (name error : string).

#[export] Instance UploadEvent_tagged : Tagged UploadEvent := {|
  tag_key := "upload_event";
  variants :=
    [("progress", name ← req "name"; uploaded ← req "uploaded"; total ← req "total";
                  mret (Progress name uploaded total));
     ("completed", name ← req "name"; media_source ← req "media_source";
                   mret (UploadCompleted name media_source));
     ("error", name ← req "name"; error ← req "error"; mret (UploadError name error))];
  to_variant e :=
    match e with
    | Progress name uploaded total =>
        ("progress", [Some_f "name" name; Some_f "uploaded" uploaded; Some_f "total" total])
    | UploadCompleted name media_source =>
        ("completed", [Some_f "name" name; Some_f "media_source" media_source])
    | UploadError name error => ("error", [Some_f "name" name; Some_f "error" error])
    end |}.

Definition UploadEvent_wf (e : UploadEvent) : Prop :=
  match e with
  | Progress _ uploaded total => serde_wf uploaded ∧ serde_wf total
  | UploadCompleted _ media_source => serde_wf media_source
  | UploadError _ _ => True
  end.

#[export] Instance UploadEvent_laws : TaggedLaws UploadEvent.
Proof. refine {| tagged_wf := UploadEvent_wf |}; tagged_laws. Defined.

Record TokenUsage : Type := mkTokenUsage {
  tu_id : string;
  tu_message : string;
  tu_prompt_tokens : u32;
  tu_completion_tokens : u32;
  tu_total_tokens : u32;
  tu_cache_hit_tokens : option u32;
}.

#[export] Instance TokenUsage_struct : Struct TokenUsage := {|
  to_fields p :=
    [Some_f "id" (tu_id p); Some_f "message" (tu_message p);
     Some_f "promptTokens" (tu_prompt_tokens p);
     Some_f "completionTokens" (tu_completion_tokens p);
     Some_f "totalTokens" (tu_total_tokens p); opt_f "cacheHitTokens" (tu_cache_hit_tokens p)];
  of_fields :=
    id ← req "id";
    message ← req "message";
    prompt_tokens ← req "promptTokens";
    completion_tokens ← req "completionTokens";
    total_tokens ← req "totalTokens";
    cache_hit_tokens ← opt "cacheHitTokens";
    mret (mkTokenUsage id message prompt_tokens completion_tokens total_tokens
            cache_hit_tokens) |}.

Definition TokenUsage_wf (p : TokenUsage) : Prop :=
  serde_wf (tu_prompt_tokens p) ∧ serde_wf (tu_completion_tokens p) ∧
  serde_wf (tu_total_tokens p) ∧ serde_wf (tu_cache_hit_tokens p).

#[export] Instance TokenUsage_laws : StructLaws TokenUsage.
Proof. refine {| struct_wf := TokenUsage_wf |}; struct_laws. Defined.

(** ** Event payloads ([payload.rs]) *)

Record ContentPartEvent : Type := mkContentPartEvent {
  cpe_round : string;
  cpe_pair : string;
  cpe_payload : ContentPart;
}.

#[export] Instance ContentPartEvent_struct : Struct ContentPartEvent := {|
  to_fields p :=
    [Some_f "round" (cpe_round p); Some_f "pair" (cpe_pair p); Some_f "payload" (cpe_payload p)];
  of_fields :=
    round ← req "round";
    pair ← req "pair";
    payload ← req "payload";
    mret (mkContentPartEvent round pair payload) |}.

Definition ContentPartEvent_wf (p : ContentPartEvent) : Prop := serde_wf (cpe_payload p).

#[export] Instance ContentPartEvent_laws : StructLaws ContentPartEvent.
Proof. refine {| struct_wf := ContentPartEvent_wf |}; struct_laws. Defined.

Record ContentDeltaEvent : Type := mkContentDeltaEvent {
  cde_round : string;
  cde_pair : string;
  cde_payload : ContentPart;
}.

#[export] Instance ContentDeltaEvent_struct : Struct ContentDeltaEvent := {|
  to_fields p :=
    [Some_f "round" (cde_round p); Some_f "pair" (cde_pair p); Some_f "payload" (cde_payload p)];
  of_fields :=
    round ← req "round";
    pair ← req "pair";
    payload ← req "payload";
    mret (mkContentDeltaEvent round pair payload) |}.

Definition ContentDeltaEvent_wf (p : ContentDeltaEvent) : Prop := serde_wf (cde_payload p).

#[export] Instance ContentDeltaEvent_laws : StructLaws ContentDeltaEvent.
Proof. refine {| struct_wf := ContentDeltaEvent_wf |}; struct_laws. Defined.

Record TraceableEvent : Type := mkTraceableEvent { te_title : string; te_content : string }.

#[export] Instance TraceableEvent_struct : Struct TraceableEvent := {|
  to_fields p := [Some_f "title" (te_title p); Some_f "content" (te_content p)];
  of_fields :=
    title ← req "title";
    content ← dflt EmptyString "content";
    mret (mkTraceableEvent title content) |}.

#[export] Instance TraceableEvent_laws : StructLaws TraceableEvent.
Proof. refine {| struct_wf _ := True |}; struct_laws. Defined.

Inductive AlertLevel : Type := Info | Warn | Critical.

#[export] Instance AlertLevel_enum : UnitEnum AlertLevel := {|
  unit_variants := [("info", Info); ("warn", Warn); ("critical", Critical)];
  to_unit a := match a with Info => "info" | Warn => "warn" | Critical => "critical" end |}.
#[export] Instance AlertLevel_laws : UnitEnumLaws AlertLevel. Proof. by intros []. Qed.

Inductive ActivityMode : Type := ModeDefault | Auto.

(** [#[default] Default]. *)
Definition ActivityMode_default : ActivityMode := ModeDefault.

#[export] Instance ActivityMode_enum : UnitEnum ActivityMode := {|
  unit_variants := [("default", ModeDefault); ("auto", Auto)];
  to_unit a := match a with ModeDefault => "default" | Auto => "auto" end |}.
#[export] Instance ActivityMode_laws : UnitEnumLaws ActivityMode. Proof. by intros []. Qed.

Record ToolUseEvent : Type := mkToolUseEvent {
  tue_request_id : string;
  tue_tool_name : string;
  tue_index : u32;
  tue_arguments : string;
  tue_intent : string;
}.

#[export] Instance ToolUseEvent_struct : Struct ToolUseEvent := {|
  to_fields p :=
    [Some_f "requestId" (tue_request_id p); Some_f "toolName" (tue_tool_name p);
     Some_f "index" (tue_index p); Some_f "arguments" (tue_arguments p);
     Some_f "intent" (tue_intent p)];
  of_fields :=
    request_id ← req "requestId";
    tool_name ← req "toolName";
    index ← req "index";
    arguments ← req "arguments";
    intent ← req "intent";
    mret (mkToolUseEvent request_id tool_name index arguments intent) |}.

Definition ToolUseEvent_wf (p : ToolUseEvent) : Prop := serde_wf (tue_index p).

#[export] Instance ToolUseEvent_laws : StructLaws ToolUseEvent.
Proof. refine {| struct_wf := ToolUseEvent_wf |}; struct_laws. Defined.

Inductive ToolResultStatus : Type := Completed | Running | Cancelled | StatusError.

#[export] Instance ToolResultStatus_enum : UnitEnum ToolResultStatus := {|
  unit_variants :=
    [("completed", Completed); ("running", Running); ("cancelled", Cancelled);
     ("error", StatusError)];
  to_unit a :=
    match a with
    | Completed => "completed" | Running => "running"
    | Cancelled => "cancelled" | StatusError => "error"
    end |}.
#[export] Instance ToolResultStatus_laws : UnitEnumLaws ToolResultStatus. Proof. by intros []. Qed.

Record ToolResultEvent : Type := mkToolResultEvent {
  tre_request_id : string;
  tre_tool_name : string;
  tre_index : u32;
  tre_parts : list ContentPart;
  tre_auto : bool;
  tre_status : option ToolResultStatus;
  tre_is_background : option bool;
  tre_is_error : bool;
}.

#[export] Instance ToolResultEvent_struct : Struct ToolResultEvent := {|
  to_fields p :=
    [Some_f "requestId" (tre_request_id p); Some_f "toolName" (tre_tool_name p);
     Some_f "index" (tre_index p); Some_f "parts" (tre_parts p); Some_f "auto" (tre_auto p);
     opt_f "status" (tre_status p); opt_f "isBackground" (tre_is_background p);
     Some_f "isError" (tre_is_error p)];
  of_fields :=
    request_id ← req "requestId";
    tool_name ← req "toolName";
    index ← req "index";
    parts ← req "parts";
    auto ← req "auto";
    status ← opt "status";
    is_background ← opt "isBackground";
    is_error ← req "isError";
    mret (mkToolResultEvent request_id tool_name index parts auto status is_background
            is_error) |}.

Definition ToolResultEvent_wf (p : ToolResultEvent) : Prop :=
  serde_wf (tre_index p) ∧ serde_wf (tre_parts p).

#[export] Instance ToolResultEvent_laws : StructLaws ToolResultEvent.
Proof. refine {| struct_wf := ToolResultEvent_wf |}; struct_laws. Defined.

Record SecurityAlertEvent : Type := mkSecurityAlertEvent {
  sae_event_id : string;
  sae_tool_name : string;
  sae_alert_level : AlertLevel;
  sae_description : string;
  sae_threat_type : option string;
  sae_matched_pattern : option string;
  sae_context_snippet : option string;
}.

#[export] Instance SecurityAlertEvent_struct : Struct SecurityAlertEvent := {|
  to_fields p :=
    [Some_f "eventId" (sae_event_id p); Some_f "toolName" (sae_tool_name p);
     Some_f "alertLevel" (sae_alert_level p); Some_f "description" (sae_description p);
     opt_f "threatType" (sae_threat_type p); opt_f "matchedPattern" (sae_matched_pattern p);
     opt_f "contextSnippet" (sae_context_snippet p)];
  of_fields :=
    event_id ← req "eventId";
    tool_name ← req "toolName";
    alert_level ← req "alertLevel";
    description ← req "description";
    threat_type ← opt_default "threatType";
    matched_pattern ← opt_default "matchedPattern";
    context_snippet ← opt_default "contextSnippet";
    mret (mkSecurityAlertEvent event_id tool_name alert_level description threat_type
            matched_pattern context_snippet) |}.

#[export] Instance SecurityAlertEvent_laws : StructLaws SecurityAlertEvent.
Proof. refine {| struct_wf _ := True |}; struct_laws. Defined.

Record ActivityStartEvent : Type := mkActivityStartEvent {
  ase_goal : string;
  ase_activity : string;
  ase_metadata : option (gmap string string);
}.

#[export] Instance ActivityStartEvent_struct : Struct ActivityStartEvent := {|
  to_fields p :=
    [Some_f "goal" (ase_goal p); Some_f "activity" (ase_activity p);
     opt_f "metadata" (ase_metadata p)];
  of_fields :=
    goal ← req "goal";
    activity ← req "activity";
    metadata ← opt_default "metadata";
    mret (mkActivityStartEvent goal activity metadata) |}.

#[export] Instance ActivityStartEvent_laws : StructLaws ActivityStartEvent.
Proof. refine {| struct_wf _ := True |}; struct_laws. Defined.

Record ActivityInfo : Type := mkActivityInfo {
  ai_activity : string;
  ai_agent : string;
  ai_title : option string;
  ai_description : option string;
  ai_updated_at : option string;
  ai_working_dir : option string;
  ai_mode : ActivityMode;
}.

#[export] Instance ActivityInfo_struct : Struct ActivityInfo := {|
  to_fields p :=
    [Some_f "activity" (ai_activity p); Some_f "agent" (ai_agent p); opt_f "title" (ai_title p);
     opt_f "description" (ai_description p); opt_f "updatedAt" (ai_updated_at p);
     opt_f "workingDir" (ai_working_dir p); Some_f "mode" (ai_mode p)];
  of_fields :=
    activity ← req "activity";
    agent ← req "agent";
    title ← opt "title";
    description ← opt_default "description";
    updated_at ← opt_default "updatedAt";
    working_dir ← opt_default "workingDir";
    mode ← dflt ActivityMode_default "mode";
    mret (mkActivityInfo activity agent title description updated_at working_dir mode) |}.

#[export] Instance ActivityInfo_laws : StructLaws ActivityInfo.
Proof. refine {| struct_wf _ := True |}; struct_laws. Defined.

Inductive ModelTier : Type := TierDefault | Lite | Expert.

#[export] Instance ModelTier_enum : UnitEnum ModelTier := {|
  unit_variants := [("default", TierDefault); ("lite", Lite); ("expert", Expert)];
  to_unit a := match a with TierDefault => "default" | Lite => "lite" | Expert => "expert" end |}.
#[export] Instance ModelTier_laws : UnitEnumLaws ModelTier. Proof. by intros []. Qed.

Record PairCompleteEvent : Type := mkPairCompleteEvent {
  pce_pair : string;
  pce_context_window : u32;
  pce_token_usage : TokenUsage;
  pce_tier : option ModelTier;
  pce_model : option string;
}.

#[export] Instance PairCompleteEvent_struct : Struct PairCompleteEvent := {|
  to_fields p :=
    [Some_f "pair" (pce_pair p); Some_f "contextWindow" (pce_context_window p);
     Some_f "tokenUsage" (pce_token_usage p); opt_f "tier" (pce_tier p);
     opt_f "model" (pce_model p)];
  of_fields :=
    pair ← req "pair";
    context_window ← req "contextWindow";
    token_usage ← req "tokenUsage";
    tier ← opt "tier";
    model ← opt "model";
    mret (mkPairCompleteEvent pair context_window token_usage tier model) |}.

Definition PairCompleteEvent_wf (p : PairCompleteEvent) : Prop :=
  serde_wf (pce_context_window p) ∧ serde_wf (pce_token_usage p).

#[export] Instance PairCompleteEvent_laws : StructLaws PairCompleteEvent.
Proof. refine {| struct_wf := PairCompleteEvent_wf |}; struct_laws. Defined.

Record CompleteEvent : Type := mkCompleteEvent {
  ce_round : string;
  ce_assistant_reply : list ContentPart;
  ce_abort_reason : option string;
  ce_canceled : bool;
}.

#[export] Instance CompleteEvent_struct : Struct CompleteEvent := {|
  to_fields p :=
    [Some_f "round" (ce_round p); Some_f "assistantReply" (ce_assistant_reply p);
     opt_f "abortReason" (ce_abort_reason p); Some_f "canceled" (ce_canceled p)];
  of_fields :=
    round ← req "round";
    assistant_reply ← req "assistantReply";
    abort_reason ← opt "abortReason";
    canceled ← req "canceled";
    mret (mkCompleteEvent round assistant_reply abort_reason canceled) |}.

Definition CompleteEvent_wf (p : CompleteEvent) : Prop := serde_wf (ce_assistant_reply p).

#[export] Instance CompleteEvent_laws : StructLaws CompleteEvent.
Proof. refine {| struct_wf := CompleteEvent_wf |}; struct_laws. Defined.

(** ** Interactions ([interaction.rs]) *)

Inductive ActionResponse : Type := Approve | ApproveAlways | Reject (reason : string).

#[export] Instance ActionResponse_tagged : Tagged ActionResponse := {|
  tag_key := "type";
  variants :=
    [("approve", unit_fields Approve); ("approve_always", unit_fields ApproveAlways);
     ("reject", reason ← req "reason"; mret (Reject reason))];
  to_variant a :=
    match a with
    | Approve => ("approve", [])
    | ApproveAlways => ("approve_always", [])
    | Reject reason => ("reject", [Some_f "reason" reason])
    end |}.

#[export] Instance ActionResponse_laws : TaggedLaws ActionResponse.
Proof. refine {| tagged_wf _ := True |}; tagged_laws. Defined.

Record ActionRequestPayload : Type := mkActionRequestPayload {
  arp_tool_name : string;
  arp_arguments : string;
  arp_action_id : string;
  arp_description : string;
  arp_alert : AlertLevel;
  arp_intent : string;
  arp_origin : list string;
  arp_request_id : string;
}.

#[export] Instance ActionRequestPayload_struct : Struct ActionRequestPayload := {|
  to_fields p :=
    [Some_f "toolName" (arp_tool_name p); Some_f "arguments" (arp_arguments p);
     Some_f "actionId" (arp_action_id p); Some_f "description" (arp_description p);
     Some_f "alert" (arp_alert p); Some_f "intent" (arp_intent p);
     Some_f "origin" (arp_origin p); Some_f "requestId" (arp_request_id p)];
  of_fields :=
    tool_name ← req "toolName";
    arguments ← req "arguments";
    action_id ← req "actionId";
    description ← req "description";
    alert ← req "alert";
    intent ← req "intent";
    origin ← dflt [] "origin";
    request_id ← dflt EmptyString "requestId";
    mret (mkActionRequestPayload tool_name arguments action_id description alert intent origin
            request_id) |}.

#[export] Instance ActionRequestPayload_laws : StructLaws ActionRequestPayload.
Proof. refine {| struct_wf _ := True |}; struct_laws. Defined.

Record NotifyPayload : Type := mkNotifyPayload { np_message : string }.

#[export] Instance NotifyPayload_struct : Struct NotifyPayload := {|
  to_fields p := [Some_f "message" (np_message p)];
  of_fields := message ← req "message"; mret (mkNotifyPayload message) |}.

#[export] Instance NotifyPayload_laws : StructLaws NotifyPayload.
Proof. refine {| struct_wf _ := True |}; struct_laws. Defined.

Inductive QuestionResponse : Type :=
  | Answer (content : string)
  | Skip (reason : option string).

#[export] Instance QuestionResponse_tagged : Tagged QuestionResponse := {|
  tag_key := "type";
  variants :=
    [("answer", content ← req "content"; mret (Answer content));
     ("skip", reason ← opt "reason"; mret (Skip reason))];
  to_variant a :=
    match a with
    | Answer content => ("answer", [Some_f "content" content])
    | Skip reason => ("skip", [Some_f "reason" reason])
    end |}.

#[export] Instance QuestionResponse_laws : TaggedLaws QuestionResponse.
Proof. refine {| tagged_wf _ := True |}; tagged_laws. Defined.

Record QuestionPayload : Type := mkQuestionPayload {
  qp_question : string;
  qp_options : list string;
  qp_origin : list string;
  qp_request_id : string;
}.

#[export] Instance QuestionPayload_struct : Struct QuestionPayload := {|
  to_fields p :=
    [Some_f "question" (qp_question p); Some_f "options" (qp_options p);
     Some_f "origin" (qp_origin p); Some_f "requestId" (qp_request_id p)];
  of_fields :=
    question ← req "question";
    options ← req "options";
    origin ← dflt [] "origin";
    request_id ← dflt EmptyString "requestId";
    mret (mkQuestionPayload question options origin request_id) |}.

#[export] Instance QuestionPayload_laws : StructLaws QuestionPayload.
Proof. refine {| struct_wf _ := True |}; struct_laws. Defined.

Inductive SensitiveInfoType : Type := Secret | EnvVar.

#[export] Instance SensitiveInfoType_enum : UnitEnum SensitiveInfoType := {|
  unit_variants := [("secret", Secret); ("env_var", EnvVar)];
  to_unit a := match a with Secret => "secret" | EnvVar => "env_var" end |}.
#[export] Instance SensitiveInfoType_laws : UnitEnumLaws SensitiveInfoType. Proof. by intros []. Qed.

Record SensitiveInfoItem : Type := mkSensitiveInfoItem {
  sii_id : option string;
  sii_key : string;
  sii_display_text : string;
  sii_hint : string;
  sii_si_type : SensitiveInfoType;
}.

#[export] Instance SensitiveInfoItem_struct : Struct SensitiveInfoItem := {|
  to_fields p :=
    [opt_f "id" (sii_id p); Some_f "key" (sii_key p); Some_f "displayText" (sii_display_text p);
     Some_f "hint" (sii_hint p); Some_f "siType" (sii_si_type p)];
  of_fields :=
    id ← opt_default "id";
    key ← req "key";
    display_text ← req "displayText";
    hint ← req "hint";
    si_type ← req "siType";
    mret (mkSensitiveInfoItem id key display_text hint si_type) |}.

#[export] Instance SensitiveInfoItem_laws : StructLaws SensitiveInfoItem.
Proof. refine {| struct_wf _ := True |}; struct_laws. Defined.

Inductive SensitiveInfoOperation : Type :=
  | Collect (items : list SensitiveInfoItem)
  | Delete (items : list SensitiveInfoItem).

#[export] Instance SensitiveInfoOperation_tagged : Tagged SensitiveInfoOperation := {|
  tag_key := "type";
  variants :=
    [("collect", items ← req "items"; mret (Collect items));
     ("delete", items ← req "items"; mret (Delete items))];
  to_variant a :=
    match a with
    | Collect items => ("collect", [Some_f "items" items])
    | Delete items => ("delete", [Some_f "items" items])
    end |}.

Lemma items_wf (l : list SensitiveInfoItem) : serde_wf l.
Proof. by apply Forall_true. Qed.
#[local] Hint Resolve items_wf : core.

#[export] Instance SensitiveInfoOperation_laws : TaggedLaws SensitiveInfoOperation.
Proof. refine {| tagged_wf _ := True |}; tagged_laws. Defined.

Inductive SensitiveInfoResult : Type :=
  | Provided (key value : string)
  | CollectSkipped (key : string) (reason : option string)
  | Deleted (id : string)
  | DeleteRejected (id : string) (reason : option string).

#[export] Instance SensitiveInfoResult_tagged : Tagged SensitiveInfoResult := {|
  tag_key := "type";
  variants :=
    [("provided", key ← req "key"; value ← req "value"; mret (Provided key value));
     ("collect_skipped", key ← req "key"; reason ← opt "reason"; mret (CollectSkipped key reason));
     ("deleted", id ← req "id"; mret (Deleted id));
     ("delete_rejected", id ← req "id"; reason ← opt "reason"; mret (DeleteRejected id reason))];
  to_variant a :=
    match a with
    | Provided key value => ("provided", [Some_f "key" key; Some_f "value" value])
    | CollectSkipped key reason => ("collect_skipped", [Some_f "key" key; Some_f "reason" reason])
    | Deleted id => ("deleted", [Some_f "id" id])
    | DeleteRejected id reason => ("delete_rejected", [Some_f "id" id; Some_f "reason" reason])
    end |}.

#[export] Instance SensitiveInfoResult_laws : TaggedLaws SensitiveInfoResult.
Proof. refine {| tagged_wf _ := True |}; tagged_laws. Defined.

Record SensitiveInfoOperationResponse : Type := mkSensitiveInfoOperationResponse {
  sior_results : list SensitiveInfoResult;
}.

#[export] Instance SensitiveInfoOperationResponse_struct : Struct SensitiveInfoOperationResponse := {|
  to_fields p := [Some_f "results" (sior_results p)];
  of_fields := results ← req "results"; mret (mkSensitiveInfoOperationResponse results) |}.

Lemma results_wf (l : list SensitiveInfoResult) : serde_wf l.
Proof. by apply Forall_true. Qed.
#[local] Hint Resolve results_wf : core.

#[export] Instance SensitiveInfoOperationResponse_laws : StructLaws SensitiveInfoOperationResponse.
Proof. refine {| struct_wf _ := True |}; struct_laws. Defined.

Record SensitiveInfoOperationPayload : Type := mkSensitiveInfoOperationPayload {
  siop_operation : SensitiveInfoOperation;
  siop_origin : list string;
}.

#[export] Instance SensitiveInfoOperationPayload_struct : Struct SensitiveInfoOperationPayload := {|
  to_fields p := [Some_f "operation" (siop_operation p); Some_f "origin" (siop_origin p)];
  of_fields :=
    operation ← req "operation";
    origin ← dflt [] "origin";
    mret (mkSensitiveInfoOperationPayload operation origin) |}.

#[export] Instance SensitiveInfoOperationPayload_laws : StructLaws SensitiveInfoOperationPayload.
Proof. refine {| struct_wf _ := True |}; struct_laws. Defined.

(** ** Lifecycle commands ([commands/lifecycle.rs]) *)

Record NewActivityPayload : Type := mkNewActivityPayload { nap_title : option string }.

#[export] Instance NewActivityPayload_struct : Struct NewActivityPayload := {|
  to_fields p := [opt_f "title" (nap_title p)];
  of_fields := title ← opt_default "title"; mret (mkNewActivityPayload title) |}.

#[export] Instance NewActivityPayload_laws : StructLaws NewActivityPayload.
Proof. refine {| struct_wf _ := True |}; struct_laws. Defined.

Record LastActivityPayload : Type := mkLastActivityPayload {}.

#[export] Instance LastActivityPayload_struct : Struct LastActivityPayload := {|
  to_fields _ := [];
  of_fields := mret mkLastActivityPayload |}.

#[export] Instance LastActivityPayload_laws : StructLaws LastActivityPayload.
Proof. refine {| struct_wf _ := True |}; struct_laws. Defined.

Record SwitchActivityPayload : Type := mkSwitchActivityPayload { swp_activity : string }.

#[export] Instance SwitchActivityPayload_struct : Struct SwitchActivityPayload := {|
  to_fields p := [Some_f "activity" (swp_activity p)];
  of_fields := activity ← req "activity"; mret (mkSwitchActivityPayload activity) |}.

#[export] Instance SwitchActivityPayload_laws : StructLaws SwitchActivityPayload.
Proof. refine {| struct_wf _ := True |}; struct_laws. Defined.

Record ListActivityPayload : Type := mkListActivityPayload {
  lap_query : option string;
  lap_page_num : option u32;
  lap_page_size : option u32;
}.

#[export] Instance ListActivityPayload_struct : Struct ListActivityPayload := {|
  to_fields p :=
    [opt_f "query" (lap_query p); opt_f "pageNum" (lap_page_num p);
     opt_f "pageSize" (lap_page_size p)];
  of_fields :=
    query ← opt_default "query";
    page_num ← opt_default "pageNum";
    page_size ← opt_default "pageSize";
    mret (mkListActivityPayload query page_num page_size) |}.

Definition ListActivityPayload_wf (p : ListActivityPayload) : Prop :=
  serde_wf (lap_page_num p) ∧ serde_wf (lap_page_size p).

#[export] Instance ListActivityPayload_laws : StructLaws ListActivityPayload.
Proof. refine {| struct_wf := ListActivityPayload_wf |}; struct_laws. Defined.

Record InvokeActivityPayload : Type := mkInvokeActivityPayload {
  inv_activity : string;
  inv_messages : list ContentPart;
}.

#[export] Instance InvokeActivityPayload_struct : Struct InvokeActivityPayload := {|
  to_fields p := [Some_f "activity" (inv_activity p); Some_f "messages" (inv_messages p)];
  of_fields :=
    activity ← req "activity";
    messages ← req "messages";
    mret (mkInvokeActivityPayload activity messages) |}.

Definition InvokeActivityPayload_wf (p : InvokeActivityPayload) : Prop := serde_wf (inv_messages p).

#[export] Instance InvokeActivityPayload_laws : StructLaws InvokeActivityPayload.
Proof. refine {| struct_wf := InvokeActivityPayload_wf |}; struct_laws. Defined.

Record CancelActivityPayload : Type := mkCancelActivityPayload {
  cap_activity : string;
  cap_reason : option string;
}.

#[export] Instance CancelActivityPayload_struct : Struct CancelActivityPayload := {|
  to_fields p := [Some_f "activity" (cap_activity p); opt_f "reason" (cap_reason p)];
  of_fields :=
    activity ← req "activity";
    reason ← opt_default "reason";
    mret (mkCancelActivityPayload activity reason) |}.

#[export] Instance CancelActivityPayload_laws : StructLaws CancelActivityPayload.
Proof. refine {| struct_wf _ := True |}; struct_laws. Defined.

Record CompactActivityPayload : Type := mkCompactActivityPayload { cop_activity : string }.

#[export] Instance CompactActivityPayload_struct : Struct CompactActivityPayload := {|
  to_fields p := [Some_f "activity" (cop_activity p)];
  of_fields := activity ← req "activity"; mret (mkCompactActivityPayload activity) |}.

#[export] Instance CompactActivityPayload_laws : StructLaws CompactActivityPayload.
Proof. refine {| struct_wf _ := True |}; struct_laws. Defined.

Record ArchiveActivityPayload : Type := mkArchiveActivityPayload { arc_activity : string }.

#[export] Instance ArchiveActivityPayload_struct : Struct ArchiveActivityPayload := {|
  to_fields p := [Some_f "activity" (arc_activity p)];
  of_fields := activity ← req "activity"; mret (mkArchiveActivityPayload activity) |}.

#[export] Instance ArchiveActivityPayload_laws : StructLaws ArchiveActivityPayload.
Proof. refine {| struct_wf _ := True |}; struct_laws. Defined.

Record DeleteActivityPayload : Type := mkDeleteActivityPayload { dap_activity : string }.

#[export] Instance DeleteActivityPayload_struct : Struct DeleteActivityPayload := {|
  to_fields p := [Some_f "activity" (dap_activity p)];
  of_fields := activity ← req "activity"; mret (mkDeleteActivityPayload activity) |}.

#[export] Instance DeleteActivityPayload_laws : StructLaws DeleteActivityPayload.
Proof. refine {| struct_wf _ := True |}; struct_laws. Defined.

Record SetActivityModePayload : Type := mkSetActivityModePayload {
  sam_activity : string;
  sam_mode : ActivityMode;
}.

#[export] Instance SetActivityModePayload_struct : Struct SetActivityModePayload := {|
  to_fields p := [Some_f "activity" (sam_activity p); Some_f "mode" (sam_mode p)];
  of_fields :=
    activity ← req "activity";
    mode ← req "mode";
    mret (mkSetActivityModePayload activity mode) |}.

#[export] Instance SetActivityModePayload_laws : StructLaws SetActivityModePayload.
Proof. refine {| struct_wf _ := True |}; struct_laws. Defined.

Record AvailableActivities : Type := mkAvailableActivities {
  aa_total : u64;
  aa_activities : list ActivityInfo;
}.

#[export] Instance AvailableActivities_struct : Struct AvailableActivities := {|
  to_fields p := [Some_f "total" (aa_total p); Some_f "activities" (aa_activities p)];
  of_fields :=
    total ← req "total";
    activities ← req "activities";
    mret (mkAvailableActivities total activities) |}.

Definition AvailableActivities_wf (p : AvailableActivities) : Prop := serde_wf (aa_total p).

Lemma infos_wf (l : list ActivityInfo) : serde_wf l.
Proof. by apply Forall_true. Qed.
#[local] Hint Resolve infos_wf : core.

#[export] Instance AvailableActivities_laws : StructLaws AvailableActivities.
Proof. refine {| struct_wf := AvailableActivities_wf |}; struct_laws. Defined.

(** ** What the codecs guarantee *)

(** A written value is read back, also when the fields of its objects arrive in
    another order. *)
Definition codec_sound (A : Type) `{SerdeLaws A} : Prop :=
  ∀ (a : A) j, serde_wf a → json_eqv (ser a) j → de j = Some a.

Lemma laws_sound A `{SerdeLaws A} : codec_sound A.
Proof. intros a j Ha Hj. rw -(de_proper _ _ Hj). by apply de_ser. Qed.

(** C21: typed payloads survive the wire.  For every payload type of the
    protocol, a value that is written is read back exactly, whatever order the
    fields of its objects arrive in. *)
Theorem payload_roundtrip :
  (codec_sound FileRef ∧ codec_sound ContentPart ∧ codec_sound UploadEvent ∧
   codec_sound TokenUsage) ∧
  (codec_sound ContentPartEvent ∧ codec_sound ContentDeltaEvent ∧ codec_sound TraceableEvent ∧
   codec_sound ToolUseEvent ∧ codec_sound ToolResultEvent ∧ codec_sound SecurityAlertEvent ∧
   codec_sound ActivityStartEvent ∧ codec_sound ActivityInfo ∧ codec_sound PairCompleteEvent ∧
   codec_sound CompleteEvent) ∧
  (codec_sound ActionResponse ∧ codec_sound ActionRequestPayload ∧ codec_sound NotifyPayload ∧
   codec_sound QuestionResponse ∧ codec_sound QuestionPayload ∧
   codec_sound SensitiveInfoOperationPayload ∧ codec_sound SensitiveInfoOperationResponse) ∧
  (codec_sound NewActivityPayload ∧ codec_sound LastActivityPayload ∧
   codec_sound SwitchActivityPayload ∧ codec_sound ListActivityPayload ∧
   codec_sound InvokeActivityPayload ∧ codec_sound CancelActivityPayload ∧
   codec_sound CompactActivityPayload ∧ codec_sound ArchiveActivityPayload ∧
   codec_sound DeleteActivityPayload ∧ codec_sound SetActivityModePayload ∧
   codec_sound AvailableActivities).
Proof. split_and!; apply laws_sound. Qed.

(** *** Required and optional fields *)

(** An object without the field is refused. *)
Definition requires (A : Type) `{Serde A} (k : string) : Prop :=
  ∀ o, get k o = [] → (de (JObj o) : option A) = None.

(** An object without the field gives no value, and writing the result does not
    bring the field back. *)
Definition leaves_unknown {A B : Type} `{Struct A} (k : string) (proj : A → option B) : Prop :=
  ∀ o (a : A), get k o = [] → de (JObj o) = Some a →
    proj a = None ∧ get k (emit (to_fields a)) = [].

Lemma field_map {A} (dec : json → option A) absent short k o :
  field dec absent short k (IMap o) = None ∨
  ∃ a, field dec absent short k (IMap o) = Some (a, IMap o).
Proof.
  cbn. destruct (get k o) as [|v [|]]; [destruct absent|destruct (dec v)|]; cbn; eauto.
Qed.

Lemma bind_None {A B} (m : Fields A) (k : A → Fields B) i : m i = None → (m ≫= k) i = None.
Proof. unfold mbind, fields_bind. by intros ->. Qed.

Lemma req_absent {A} `{Serde A} k o : get k o = [] → req (A:=A) k (IMap o) = None.
Proof. cbn. by intros ->. Qed.

Lemma opt_absent {A} `{Serde A} k o : get k o = [] → opt (A:=A) k (IMap o) = Some (None, IMap o).
Proof. cbn. by intros ->. Qed.

(** Step through the fields of a struct; a field known to be absent decides. *)
Ltac requires_tac :=
  intros o Hg; cbn [de serde_struct read_struct]; open_struct;
  repeat first
    [ rw bind_None; [by apply req_absent|done]
    | match goal with
      | |- close ((?m ≫= _) (IMap o)) = None =>
          let H := fresh in let a := fresh "a" in
          assert (m (IMap o) = None ∨ ∃ a, m (IMap o) = Some (a, IMap o)) as [H|[a H]]
            by apply field_map;
          [by rw (bind_None _ _ _ H)|rw (map_bind _ _ _ _ H); clear H; cbn beta]
      end ].

Ltac unknown_tac :=
  intros o a Hg; cbn [de serde_struct read_struct]; open_struct;
  repeat first
    [ rw (map_bind _ _ _ _ (opt_absent _ o Hg)); cbn beta
    | match goal with
      | |- close ((?m ≫= _) (IMap o)) = _ → _ =>
          let H := fresh in let x := fresh "x" in
          assert (m (IMap o) = None ∨ ∃ x, m (IMap o) = Some (x, IMap o)) as [H|[x H]]
            by apply field_map;
          [by rw (bind_None _ _ _ H)|rw (map_bind _ _ _ _ H); clear H; cbn beta]
      end ];
  intros [= <-]; split; [done|get_tac].

(** the event vocabulary's contract.  For [tool_result], [pair_complete]
    and [complete]: an object that lacks a required field (one whose value would
    be [false], [0] or [[]] included) is refused, never completed with a default;
    an absent optional field reads as unknown and stays absent when the value is
    written again. *)
Theorem event_contract :
  Forall (requires ToolResultEvent)
    ["requestId"; "toolName"; "index"; "parts"; "auto"; "isError"] ∧
  leaves_unknown "status" tre_status ∧ leaves_unknown "isBackground" tre_is_background ∧
  Forall (requires PairCompleteEvent) ["pair"; "contextWindow"; "tokenUsage"] ∧
  leaves_unknown "tier" pce_tier ∧ leaves_unknown "model" pce_model ∧
  Forall (requires TokenUsage)
    ["id"; "message"; "promptTokens"; "completionTokens"; "totalTokens"] ∧
  leaves_unknown "cacheHitTokens" tu_cache_hit_tokens ∧
  Forall (requires CompleteEvent) ["round"; "assistantReply"; "canceled"] ∧
  leaves_unknown "abortReason" ce_abort_reason.
Proof.
  split_and!; repeat (apply Forall_cons; split; [requires_tac|]);
    try apply Forall_nil_2; unknown_tac.
Qed.
