(* ===== verification/Crc.v ===== *)
(** * The CRC-32 hasher the frame codec links against

    [crc32fast::Hasher] is a third-party crate: the codec sees only [new],
    [update] and [finalize], and relies on the documented facts that updating
    piecewise is updating with the concatenation and that the digest is a
    [u32].  The codec is proved against this interface; [iso_hdlc] is the
    bitwise CRC-32/ISO-HDLC of the crate's documentation and discharges it. *)
From S2P Require Import Prelude.

Class Crc32 := {
  Hasher : Type;
  Hasher_new : Hasher;
  Hasher_update : Hasher → list byte → Hasher;
  Hasher_finalize : Hasher → N;
}.

Class Crc32Laws (C : Crc32) : Prop := {
  Hasher_update_app (h : Hasher) (a b : list byte) :
    Hasher_update (Hasher_update h a) b = Hasher_update h (a ++ b);
  Hasher_finalize_u32 (h : Hasher) : (Hasher_finalize h ≤ U32_MAX)%N;
}.

(** ** A concrete hasher *)

(** One bit of the reflected polynomial [0xEDB88320]. *)
Definition crc_bit (r : N) : N :=
  if N.odd r then N.lxor (N.shiftr r 1) 3988292384 else N.shiftr r 1.

Definition crc_byte (r : N) (b : byte) : N :=
  Nat.iter 8 crc_bit (N.lxor r (Byte.to_N b)).

#[export] Instance iso_hdlc : Crc32 := {|
  Hasher := N;
  Hasher_new := 4294967295%N;
  Hasher_update := foldl crc_byte;
  Hasher_finalize := λ r, as_u32 (N.lxor r 4294967295);
|}.

#[export] Instance iso_hdlc_laws : Crc32Laws iso_hdlc.
Proof.
  split.
  - intros h a b. cbn. by rw foldl_app.
  - intros h. apply as_u32_le.
Qed.

(** The interoperability anchor quoted at [frame.rs]: the digest of the ASCII
    digits 1 to 9 is [0xCBF43926]. *)
Example iso_hdlc_anchor :
  Hasher_finalize (Crc32 := iso_hdlc)
    (Hasher_update Hasher_new [x31;x32;x33;x34;x35;x36;x37;x38;x39])
  = 3421780262%N.
Proof. vm_compute. reflexivity. Qed.
