(* ===== verification/Frame.v ===== *)
(** * Binary wire frame codec ([src/wire/frame.rs])

    [FrameType], [Frame] and its [encode], the header check and the
    incremental [FrameDecoder]: a byte stream is cut into frames whatever the
    chunk boundaries the carrier chooses. *)
From S2P Require Import Prelude Crc.

(** ** Constants *)

(** ASCII [XACP]. *)
Definition MAGIC : list byte := [x58; x41; x43; x50].
Definition VERSION_MAJOR : byte := x01.
Definition VERSION_MINOR : byte := x02.
Definition HEADER_LEN : nat := 36.
Definition CRC_LEN : nat := 4.
Definition FRAME_OVERHEAD : N := 40.
Definition MAX_CONTROL_FRAME_LEN : N := 16 * 1024.
Definition MAX_DATA_JSON_FRAME_LEN : N := 1024 * 1024.
Definition MAX_DATA_BINARY_FRAME_LEN : N := 16 * 1024 * 1024.
Definition MAX_DECODE_TOTAL_CAP : N := 64 * 1024 * 1024.

(** ** Frame types *)

Inductive FrameType : Type :=
  | Negotiate | Ack | Nack | Resume | ResumeResponse | Heartbeat | Error
  | TransactionPause | TransactionAbort | TransactionCompleted
  | SecurityUpgrade | DataJson | DataBinary
  | Unknown (v : N).

#[export] Instance FrameType_eq_dec : EqDecision FrameType.
Proof. solve_decision. Defined.

Definition to_u16 (t : FrameType) : N :=
  match t with
  | Negotiate => 0x0001
  | Ack => 0x0002
  | Nack => 0x0003
  | Resume => 0x0004
  | ResumeResponse => 0x0008
  | Heartbeat => 0x0005
  | Error => 0x0006
  | TransactionPause => 0x0009
  | TransactionAbort => 0x000A
  | TransactionCompleted => 0x000B
  | SecurityUpgrade => 0x0007
  | DataJson => 0x1001
  | DataBinary => 0x1002
  | Unknown v => v
  end.

Definition from_u16 (v : N) : FrameType :=
  match v with
  | 0x0001 => Negotiate
  | 0x0002 => Ack
  | 0x0003 => Nack
  | 0x0004 => Resume
  | 0x0008 => ResumeResponse
  | 0x0005 => Heartbeat
  | 0x0006 => Error
  | 0x0009 => TransactionPause
  | 0x000A => TransactionAbort
  | 0x000B => TransactionCompleted
  | 0x0007 => SecurityUpgrade
  | 0x1001 => DataJson
  | 0x1002 => DataBinary
  | other => Unknown other
  end%N.

Definition max_frame_len (t : FrameType) : option N :=
  match t with
  | Negotiate | Ack | Nack | Resume | ResumeResponse | Heartbeat | Error
  | TransactionPause | TransactionAbort | TransactionCompleted
  | SecurityUpgrade => Some MAX_CONTROL_FRAME_LEN
  | DataJson => Some MAX_DATA_JSON_FRAME_LEN
  | DataBinary => Some MAX_DATA_BINARY_FRAME_LEN
  | Unknown _ => None
  end.

(** ** Frames *)

Record Frame : Type := Frame_new {
  frame_type : FrameType;
  transaction_id : txid;
  total_len : N;
  seq : N;
  payload : list byte;
}.

#[export] Instance Frame_eq_dec : EqDecision Frame.
Proof. solve_decision. Defined.

Inductive FrameError : Type :=
  | VersionMismatch (got expected : byte)
  | FrameTooLarge (frame_type : FrameType) (max actual : N)
  | CrcMismatch (expected actual : N)
  | FieldLength (expected actual : N).

#[export] Instance FrameError_eq_dec : EqDecision FrameError.
Proof. solve_decision. Defined.

(** [crc32(bytes)]. *)
Definition crc32 `{Crc32} (bytes : list byte) : N :=
  Hasher_finalize (Hasher_update Hasher_new bytes).

Definition write_header (t : FrameType) (id : txid) (total seq frame_len : N) :
    list byte :=
  MAGIC ++ [VERSION_MAJOR] ++ [VERSION_MINOR] ++ to_be_bytes 2 (to_u16 t) ++
  array_bytes id ++ to_be_bytes 4 total ++ to_be_bytes 4 seq ++
  to_be_bytes 4 (as_u32 frame_len).

(** The limit [encode] enforces: the per-type limit, or what the decode cap
    leaves for an unknown type. *)
Definition encode_limit (t : FrameType) : N :=
  default (MAX_DECODE_TOTAL_CAP - FRAME_OVERHEAD)%N (max_frame_len t).

Definition encode `{Crc32} (f : Frame) : result (list byte) FrameError :=
  let max := encode_limit (frame_type f) in
  if (max <? len (payload f))%N
  then Err (FrameTooLarge (frame_type f) max (len (payload f)))
  else
    let out :=
      write_header (frame_type f) (transaction_id f) (total_len f) (seq f)
        (len (payload f)) ++ payload f in
    Ok (out ++ to_be_bytes 4 (crc32 out)).

(** ** Header validation *)

Record HeaderInfo : Type := mkHeaderInfo {
  hi_frame_type : FrameType;
  hi_transaction_id : txid;
  hi_total_len : N;
  hi_seq : N;
  hi_frame_len : N;
}.

(** [hdr[i]] on a fully buffered header. *)
Definition byte_at (l : list byte) (i : nat) : byte := default x00 (l !! i).

(** [u32::from_be_bytes([l[i], l[i+1], l[i+2], l[i+3]])]. *)
Definition be32_at (l : list byte) (i : nat) : N :=
  from_be_bytes [byte_at l i; byte_at l (i+1); byte_at l (i+2); byte_at l (i+3)].

Definition check_header (hdr : list byte) : result HeaderInfo FrameError :=
  let major := byte_at hdr 4 in
  if decide (major ≠ VERSION_MAJOR)
  then Err (VersionMismatch major VERSION_MAJOR)
  else
    let t := from_u16 (from_be_bytes [byte_at hdr 6; byte_at hdr 7]) in
    let frame_len := be32_at hdr 32 in
    let? _ :=
      match max_frame_len t with
      | Some max =>
          if (max <? frame_len)%N then Err (FrameTooLarge t max frame_len)
          else Ok tt
      | None =>
          if (MAX_DECODE_TOTAL_CAP <? FRAME_OVERHEAD + frame_len)%N
          then Err (FrameTooLarge t (MAX_DECODE_TOTAL_CAP - FRAME_OVERHEAD) frame_len)
          else Ok tt
      end in
    let id_slice := take 16 (drop 8 hdr) in
    let? id :=
      match array_of_list 16 id_slice with
      | Some id => Ok id
      | None => Err (FieldLength 16 (len id_slice))
      end in
    Ok (mkHeaderInfo t id (be32_at hdr 24) (be32_at hdr 28) frame_len).

(** ** The incremental decoder *)

Inductive State : Type :=
  | Sync
  | Body (header : list byte) (frame_type : FrameType) (transaction_id : txid)
      (total_len seq frame_len : N).

Record FrameDecoder : Type := mkFrameDecoder {
  buf : list byte;
  state : State;
}.

Definition FrameDecoder_new : FrameDecoder := mkFrameDecoder [] Sync.

(** Sync state: find a magic candidate, validate its header.  [Ok false]
    asks for more input. *)
Definition progress_sync (d : FrameDecoder) : FrameDecoder * result bool FrameError :=
  match find_sub MAGIC (buf d) with
  | None =>
      let keep := Nat.min (length (buf d)) (length MAGIC - 1) in
      let drop_to := length (buf d) - keep in
      (mkFrameDecoder (drop drop_to (buf d)) (state d), Ok false)
  | Some pos =>
      let b := drop pos (buf d) in
      if Nat.ltb (length b) HEADER_LEN then (mkFrameDecoder b (state d), Ok false)
      else
        match check_header (take HEADER_LEN b) with
        | Err e => (mkFrameDecoder [] Sync, Err e)
        | Ok info =>
            (mkFrameDecoder (drop HEADER_LEN b)
               (Body (take HEADER_LEN b) (hi_frame_type info)
                  (hi_transaction_id info) (hi_total_len info) (hi_seq info)
                  (hi_frame_len info)),
             Ok true)
        end
  end.

Section decoder.
Context `{CRC : Crc32}.

(** Body state: accumulate payload and trailer, verify, emit. *)
Definition progress_body (d : FrameDecoder) (frames : list Frame)
    (header : list byte) (t : FrameType) (id : txid) (total sq flen : N) :
    FrameDecoder * list Frame * result bool FrameError :=
  let n := N.to_nat flen in
  let need := n + CRC_LEN in
  if Nat.ltb (length (buf d)) need then (d, frames, Ok false)
  else
    let actual :=
      Hasher_finalize
        (Hasher_update (Hasher_update Hasher_new header) (take n (buf d))) in
    let expected := be32_at (buf d) n in
    if decide (actual ≠ expected)
    then (mkFrameDecoder [] Sync, frames, Err (CrcMismatch expected actual))
    else
      (mkFrameDecoder (drop need (buf d)) Sync,
       frames ++ [Frame_new t id total sq (take n (buf d))], Ok true).

Definition progress (d : FrameDecoder) (frames : list Frame) :
    FrameDecoder * list Frame * result bool FrameError :=
  match state d with
  | Sync => let '(d', r) := progress_sync d in (d', frames, r)
  | Body header t id total sq flen =>
      progress_body d frames header t id total sq flen
  end.

(** [loop { if !self.progress(&mut frames)? { break } }].  Every step that
    asks for another consumes input, so the buffered length bounds the
    number of iterations ([feed_total]). *)
Fixpoint feed_loop (fuel : nat) (d : FrameDecoder) (frames : list Frame) :
    option (FrameDecoder * result (list Frame) FrameError) :=
  match fuel with
  | O => None
  | S fuel' =>
      match progress d frames with
      | (d', _, Err e) => Some (d', Err e)
      | (d', frames', Ok true) => feed_loop fuel' d' frames'
      | (d', frames', Ok false) => Some (d', Ok frames')
      end
  end.

Definition feed (d : FrameDecoder) (chunk : list byte) :
    option (FrameDecoder * result (list Frame) FrameError) :=
  let d' := mkFrameDecoder (buf d ++ chunk) (state d) in
  feed_loop (S (length (buf d'))) d' [].

(** The carriers' read loop: one [feed] per chunk read; the frames of each
    chunk are dispatched, the first decode error ends the stream. *)
Fixpoint feed_all (d : FrameDecoder) (chunks : list (list byte)) :
    option (FrameDecoder * list Frame * option FrameError) :=
  match chunks with
  | [] => Some (d, [], None)
  | c :: cs =>
      match feed d c with
      | Some (d', Ok fs) =>
          match feed_all d' cs with
          | Some (d'', gs, e) => Some (d'', fs ++ gs, e)
          | None => None
          end
      | Some (d', Err e) => Some (d', [], Some e)
      | None => None
      end
  end.
End decoder.

(** ** Frame types *)

(** A frame type as the wire can carry it: a 16-bit code, [Unknown] only for
    codes outside the registry. *)
Definition type_wf (t : FrameType) : Prop :=
  (to_u16 t ≤ U16_MAX)%N ∧ from_u16 (to_u16 t) = t.

(** A frame as the Rust types allow it: [u32] header fields, canonical type. *)
Definition frame_wf (f : Frame) : Prop :=
  type_wf (frame_type f) ∧ (total_len f ≤ U32_MAX)%N ∧ (seq f ≤ U32_MAX)%N.

Lemma to_from_u16 (v : N) : to_u16 (from_u16 v) = v.
Proof. unfold from_u16. repeat case_match; done. Qed.

Lemma from_u16_wf (v : N) : (v ≤ U16_MAX)%N → type_wf (from_u16 v).
Proof. intros. split; rw to_from_u16 //. Qed.

Lemma type_wf_known (t : FrameType) : (∀ v, t ≠ Unknown v) → type_wf t.
Proof. by destruct t; intros H; [..|destruct (H v)]. Qed.

Lemma encode_limit_bound (t : FrameType) :
  (encode_limit t ≤ MAX_DECODE_TOTAL_CAP - FRAME_OVERHEAD)%N.
Proof. by destruct t. Qed.

Lemma encode_limit_u32 (t : FrameType) (n : N) :
  (n ≤ encode_limit t)%N → (n ≤ U32_MAX)%N.
Proof.
  pose proof (encode_limit_bound t) as H. unfold U32_MAX.
  change (MAX_DECODE_TOTAL_CAP - FRAME_OVERHEAD)%N with 67108824%N in H. lia.
Qed.

(** ** The header, field by field *)

Lemma length_write_header t id total sq flen :
  length (write_header t id total sq flen) = HEADER_LEN.
Proof.
  unfold write_header. rw !length_app !length_to_be_bytes length_array_bytes //.
Qed.

Lemma byte_at_app_r (l k : list byte) (i : nat) :
  length l ≤ i → byte_at (l ++ k) i = byte_at k (i - length l).
Proof. intros. unfold byte_at. by rw lookup_app_r. Qed.

Lemma byte_at_app_l (l k : list byte) (i : nat) :
  i < length l → byte_at (l ++ k) i = byte_at l i.
Proof. intros. unfold byte_at. by rw lookup_app_l. Qed.

Lemma be32_at_app_r (l k : list byte) (i : nat) :
  length l ≤ i → be32_at (l ++ k) i = be32_at k (i - length l).
Proof.
  intros. unfold be32_at. rw !byte_at_app_r; [lia..|].
  repeat f_equal; lia.
Qed.

Lemma be32_at_u32 (l : list byte) (i : nat) : (be32_at l i ≤ U32_MAX)%N.
Proof. by apply from_be_bytes_u32. Qed.

Lemma be32_at_0 (l k : list byte) :
  length l = 4 → be32_at (l ++ k) 0 = from_be_bytes l.
Proof.
  intros Hl. destruct l as [|a [|b [|c [|d [|]]]]]; try discriminate. done.
Qed.

Lemma be32_at_to_be (n : N) (k : list byte) :
  (n ≤ U32_MAX)%N → be32_at (to_be_bytes 4 n ++ k) 0 = n.
Proof.
  intros. rw be32_at_0 ?length_to_be_bytes //. by apply from_to_be_u32.
Qed.

(** The first eight header bytes: magic, version, type. *)
Definition header_prefix (t : FrameType) : list byte :=
  MAGIC ++ [VERSION_MAJOR; VERSION_MINOR] ++ to_be_bytes 2 (to_u16 t).

Lemma write_header_split t id total sq flen :
  write_header t id total sq flen =
  header_prefix t ++ array_bytes id ++
  to_be_bytes 4 total ++ to_be_bytes 4 sq ++ to_be_bytes 4 (as_u32 flen).
Proof. done. Qed.

Lemma length_header_prefix t : length (header_prefix t) = 8.
Proof. done. Qed.

(** Every header field reads back. *)
Lemma header_fields t id total sq flen :
  type_wf t → (total ≤ U32_MAX)%N → (sq ≤ U32_MAX)%N → (flen ≤ U32_MAX)%N →
  let hdr := write_header t id total sq flen in
  byte_at hdr 4 = VERSION_MAJOR ∧
  from_u16 (from_be_bytes [byte_at hdr 6; byte_at hdr 7]) = t ∧
  take 16 (drop 8 hdr) = array_bytes id ∧
  be32_at hdr 24 = total ∧ be32_at hdr 28 = sq ∧ be32_at hdr 32 = flen.
Proof.
  intros [Hu16 Ht] Htot Hsq Hflen hdr. subst hdr. rw write_header_split.
  pose proof (length_array_bytes id) as Hid.
  assert (H24 : length (header_prefix t ++ array_bytes id) = 24)
    by rw length_app Hid //.
  split; [done|]. split; [|split; [|split; [|split]]].
  - change (from_u16 (from_be_bytes (to_be_bytes 2 (to_u16 t))) = t).
    by rw from_to_be_u16.
  - rw drop_app_length' // take_app_length' //.
  - rw app_assoc be32_at_app_r H24; [lia|]. by apply be32_at_to_be.
  - rw app_assoc be32_at_app_r H24; [lia|].
    rw be32_at_app_r ?length_to_be_bytes; [lia|]. by apply be32_at_to_be.
  - rw app_assoc be32_at_app_r H24; [lia|].
    rw be32_at_app_r ?length_to_be_bytes; [lia|].
    rw be32_at_app_r ?length_to_be_bytes; [lia|].
    rw -(app_nil_r (to_be_bytes 4 _)) as_u32_small //. by apply be32_at_to_be.
Qed.

(** [check_header] accepts what [write_header] writes, within the limits. *)
Lemma check_header_write t id total sq flen :
  type_wf t → (total ≤ U32_MAX)%N → (sq ≤ U32_MAX)%N →
  (flen ≤ encode_limit t)%N →
  check_header (write_header t id total sq flen) =
  Ok (mkHeaderInfo t id total sq flen).
Proof.
  intros Ht Htot Hsq Hlim. pose proof (encode_limit_u32 _ _ Hlim) as Hflen.
  destruct (header_fields t id total sq flen) as (H4 & H6 & H8 & H24 & H28 & H32);
    [done..|].
  unfold check_header. cbn zeta. rw H4 H6 H8 H24 H28 H32.
  case_decide; [done|]. rw array_of_list_bytes.
  unfold encode_limit in Hlim. destruct (max_frame_len t) as [m|]; cbn in Hlim.
  - by destruct (N.ltb_spec m flen); [lia|].
  - destruct (N.ltb_spec MAX_DECODE_TOTAL_CAP (FRAME_OVERHEAD + flen)) as [Hcap|]; [|done].
    unfold MAX_DECODE_TOTAL_CAP, FRAME_OVERHEAD in *. lia.
Qed.

(** What a header that passed the check promises. *)
Lemma check_header_Ok hdr info :
  check_header hdr = Ok info →
  (hi_frame_len info ≤ encode_limit (hi_frame_type info))%N ∧
  type_wf (hi_frame_type info) ∧
  (hi_total_len info ≤ U32_MAX)%N ∧ (hi_seq info ≤ U32_MAX)%N.
Proof.
  unfold check_header. case_decide; [done|]. cbn zeta.
  set (t := from_u16 _). set (fl := be32_at hdr 32).
  intros Hi. split.
  - unfold encode_limit.
    destruct (max_frame_len t) as [m|] eqn:Hm.
    + destruct (N.ltb_spec m fl); [done|].
      destruct (array_of_list 16 _); [|done]. injection Hi as <-. cbn. by rw Hm.
    + destruct (N.ltb_spec MAX_DECODE_TOTAL_CAP (FRAME_OVERHEAD + fl)); [done|].
      destruct (array_of_list 16 _); [|done]. injection Hi as <-. cbn [hi_frame_len hi_frame_type].
      rw Hm. clearbody fl. unfold default, MAX_DECODE_TOTAL_CAP, FRAME_OVERHEAD in *.
      cbn [from_option id]. lia.
  - assert (∃ id, info = mkHeaderInfo t id (be32_at hdr 24) (be32_at hdr 28) fl)
      as [id ->].
    { repeat case_match; simplify_eq; eauto. }
    cbn [hi_frame_type hi_total_len hi_seq].
    split; [|split; apply be32_at_u32].
    apply from_u16_wf.
    pose proof (from_be_bytes_bound [byte_at hdr 6; byte_at hdr 7]) as Hb.
    change (256 ^ len _)%N with 65536%N in Hb. unfold U16_MAX. lia.
Qed.

(** ** Decoder dynamics *)

(** More bytes arrive behind the buffered ones. *)
Definition extend (d : FrameDecoder) (x : list byte) : FrameDecoder :=
  mkFrameDecoder (buf d ++ x) (state d).

Lemma extend_nil d : extend d [] = d.
Proof. destruct d. unfold extend. cbn. by rw app_nil_r. Qed.

Lemma extend_app d x y : extend (extend d x) y = extend d (x ++ y).
Proof. unfold extend. cbn. by rw app_assoc. Qed.

Section dynamics.
Context `{CRC : Crc32}.

(** [feed]'s loop with the fuel [feed] gives it. *)
Definition run (d : FrameDecoder) (frames : list Frame) :=
  feed_loop (S (length (buf d))) d frames.

Lemma feed_run d chunk : feed d chunk = run (extend d chunk) [].
Proof. done. Qed.

Lemma progress_sync_shrinks d d' :
  progress_sync d = (d', Ok true) → length (buf d') < length (buf d).
Proof.
  unfold progress_sync. destruct (find_sub MAGIC (buf d)) as [p|]; [|done].
  destruct (Nat.ltb_spec (length (drop p (buf d))) HEADER_LEN) as [|Hge]; [done|].
  destruct (check_header _); [|done]. intros [= <-]. cbn [buf].
  rw !length_drop in Hge |- *. unfold HEADER_LEN in *. lia.
Qed.

(** Every step that asks to go on consumes input. *)
Lemma progress_shrinks d fr d' fr' :
  progress d fr = (d', fr', Ok true) → length (buf d') < length (buf d).
Proof.
  unfold progress. destruct (state d) as [|h t id total sq fl] eqn:Hs.
  - destruct (progress_sync d) as [d1 r] eqn:E. intros [= -> -> ->].
    by apply progress_sync_shrinks.
  - unfold progress_body.
    destruct (Nat.ltb_spec (length (buf d)) (N.to_nat fl + CRC_LEN)) as [|Hge];
      [done|].
    case_decide; [done|]. intros [= <- <-]. cbn [buf]. rw length_drop.
    unfold CRC_LEN in *. lia.
Qed.

Lemma feed_loop_fuel fuel d fr :
  length (buf d) < fuel → feed_loop fuel d fr = run d fr.
Proof.
  unfold run. revert d fr. induction fuel as [fuel IH] using lt_wf_ind.
  intros d fr Hlt. destruct fuel as [|fuel]; [lia|]. cbn [feed_loop].
  destruct (progress d fr) as [[d' fr'] [[|]|e]] eqn:E; [|done..].
  pose proof (progress_shrinks _ _ _ _ E).
  rw (IH fuel); [lia|lia|]. symmetry.
  destruct (decide (length (buf d) < fuel)).
  - rw (IH (length (buf d))); [lia|lia|done].
  - assert (length (buf d) = fuel) as -> by lia. rw (IH fuel); [lia|lia|done].
Qed.

Lemma run_unfold d fr :
  run d fr =
  match progress d fr with
  | (d', _, Err e) => Some (d', Err e)
  | (d', fr', Ok true) => run d' fr'
  | (d', fr', Ok false) => Some (d', Ok fr')
  end.
Proof.
  unfold run at 1. cbn [feed_loop].
  destruct (progress d fr) as [[d' fr'] [[|]|e]] eqn:E; [|done..].
  apply feed_loop_fuel. by apply progress_shrinks in E.
Qed.

(** Induction along the decoder's own steps. *)
Lemma run_ind (P : FrameDecoder → list Frame → Prop) :
  (∀ d fr,
     (∀ d' fr', progress d fr = (d', fr', Ok true) → P d' fr') → P d fr) →
  ∀ d fr, P d fr.
Proof.
  intros Hstep d. induction d as [d IH] using (induction_ltof1 _ (λ d, length (buf d))).
  intros fr. apply Hstep. intros d' fr' Hp. apply IH.
  by apply progress_shrinks in Hp.
Qed.

Lemma run_total d fr : is_Some (run d fr).
Proof.
  revert d fr. apply run_ind. intros d fr IH. rw run_unfold.
  destruct (progress d fr) as [[d' fr'] [[|]|e]] eqn:E; eauto.
Qed.

(** Frames already decoded are only ever appended to. *)
Lemma progress_frames d fr pre :
  progress d (pre ++ fr) =
  (let '(d', fr', r) := progress d fr in (d', pre ++ fr', r)).
Proof.
  unfold progress. destruct (state d).
  - by destruct (progress_sync d).
  - unfold progress_body. case_match; [done|]. case_decide; [done|].
    by rw app_assoc.
Qed.

Lemma run_frames d fr pre :
  run d (pre ++ fr) =
  match run d fr with
  | Some (d', Ok fr') => Some (d', Ok (pre ++ fr'))
  | r => r
  end.
Proof.
  revert d fr. apply run_ind. intros d fr IH.
  rw run_unfold [run d fr]run_unfold progress_frames.
  destruct (progress d fr) as [[d' fr'] [[|]|e]] eqn:E; [|done..].
  by apply IH.
Qed.

Lemma progress_sync_extend d x r d' :
  progress_sync d = (d', r) → r ≠ Ok false →
  progress_sync (extend d x) =
  (match r with Ok _ => extend d' x | Err _ => d' end, r).
Proof.
  intros E Hr. unfold progress_sync in *. cbn [buf extend].
  destruct (find_sub MAGIC (buf d)) as [p|] eqn:Hf; [|by simplify_eq].
  rw (find_sub_app_Some _ _ _ _ _ Hf) //.
  apply find_sub_Some_iff in Hf as (_ & Hp & _).
  rw drop_app_le //.
  destruct (Nat.ltb_spec (length (drop p (buf d))) HEADER_LEN) as [|Hge];
    [by simplify_eq|].
  destruct (Nat.ltb_spec (length (drop p (buf d) ++ x)) HEADER_LEN) as [Hlt|_];
    [rw length_app in Hlt; lia|].
  rw take_app_le // drop_app_le //.
  destruct (check_header (take HEADER_LEN (drop p (buf d)))); by simplify_eq.
Qed.

(** A step taken on the buffered bytes is the step taken when more bytes are
    already there behind them. *)
Lemma progress_extend d fr d' fr' r x :
  progress d fr = (d', fr', r) → r ≠ Ok false →
  progress (extend d x) fr =
  (match r with Ok _ => extend d' x | Err _ => d' end, fr', r).
Proof.
  unfold progress. cbn [state extend].
  destruct (state d) as [|h t id total sq fl] eqn:Hs.
  - destruct (progress_sync d) as [d1 r1] eqn:E. intros [= -> -> ->] Hr.
    by rw (progress_sync_extend _ _ _ _ E Hr).
  - unfold progress_body. cbn [buf extend].
    destruct (Nat.ltb_spec (length (buf d)) (N.to_nat fl + CRC_LEN)) as [|Hge];
      [by intros [= <- <- <-]|].
    destruct (Nat.ltb_spec (length (buf d ++ x)) (N.to_nat fl + CRC_LEN))
      as [Hlt|_]; [rw length_app in Hlt; lia|].
    unfold CRC_LEN in *. rw take_app_le; [lia|].
    assert (be32_at (buf d ++ x) (N.to_nat fl) = be32_at (buf d) (N.to_nat fl))
      as -> by (unfold be32_at; rw !byte_at_app_l //; lia).
    rw drop_app_le; [lia|]. by case_decide; intros [= <- <- <-].
Qed.

(** No magic in the buffer: only its last three bytes can start one. *)
Lemma sync_keep_tail (l x : list byte) :
  find_sub MAGIC l = None →
  let k := length l - Nat.min (length l) (length MAGIC - 1) in
  find_sub MAGIC (l ++ x) = Nat.add k <$> find_sub MAGIC (drop k l ++ x).
Proof.
  intros Hn k. assert (Hk : k ≤ length l) by lia.
  rw -drop_app_le //. apply find_sub_drop; [rw length_app; lia|].
  intros q Hq Ho. apply (proj1 (find_sub_None_iff _ _) Hn q); [lia|].
  apply occurs_at_app in Ho; [done|]. cbn [length MAGIC] in *. lia.
Qed.

Lemma progress_sync_need d d' x :
  progress_sync d = (d', Ok false) →
  progress_sync (extend d x) = progress_sync (extend d' x).
Proof.
  unfold progress_sync. cbn [buf state extend].
  destruct (find_sub MAGIC (buf d)) as [p|] eqn:Hf.
  - rw (find_sub_app_Some _ _ x _ _ Hf) //.
    apply find_sub_Some_iff in Hf as (Ho & Hp & _). rw drop_app_le //.
    destruct (Nat.ltb_spec (length (drop p (buf d))) HEADER_LEN) as [Hlt|];
      [|by destruct (check_header _)].
    intros [= <-]. cbn [buf state].
    rw (find_sub_app_Some MAGIC (drop p (buf d)) x 0) // ?drop_0 //.
    apply find_sub_Some_iff. unfold occurs_at in *. rw drop_0.
    split; [done|]. split; [lia|]. intros; lia.
  - set (k := length (buf d) - _). intros [= <-]. cbn [buf state].
    rw (sync_keep_tail _ x Hf). fold k.
    assert (Hk : k ≤ length (buf d)) by (unfold k; lia).
    destruct (find_sub MAGIC (drop k (buf d) ++ x)) as [p|]; cbn [fmap option_fmap option_map].
    + by rw -drop_app_le // !drop_drop.
    + do 2 f_equal. rw -drop_app_le // !drop_drop. f_equal.
      rw !length_drop !length_app. cbn [length MAGIC] in *. lia.
Qed.

(** Where the decoder asks for more input, it has only dropped bytes that
    cannot matter. *)
Lemma progress_need d fr d' fr' x :
  progress d fr = (d', fr', Ok false) →
  fr' = fr ∧ progress (extend d x) fr = progress (extend d' x) fr.
Proof.
  unfold progress. cbn [state extend].
  destruct (state d) as [|h t id total sq fl] eqn:Hs.
  - destruct (progress_sync d) as [d1 r1] eqn:E. intros [= -> -> ->].
    split; [done|].
    assert (state d' = Sync) as ->.
    { unfold progress_sync in E. repeat case_match; by simplify_eq. }
    by rw (progress_sync_need _ _ x E).
  - unfold progress_body. case_match; [|by case_decide].
    intros [= <- <-]. by rw Hs.
Qed.

(** The decoder's run over a buffer splits at any point of the input. *)
Lemma run_extend_Ok d fr d1 fr1 x :
  run d fr = Some (d1, Ok fr1) → run (extend d x) fr = run (extend d1 x) fr1.
Proof.
  revert d fr. apply (run_ind (λ d fr, run d fr = Some (d1, Ok fr1) → _)).
  intros d fr IH. rw run_unfold.
  destruct (progress d fr) as [[d' fr'] [[|]|e]] eqn:E; [| |done].
  - intros Hr. rw run_unfold (progress_extend _ _ _ _ _ x E) //. by apply IH.
  - intros [= -> ->]. destruct (progress_need _ _ _ _ x E) as [-> Hn].
    by rw run_unfold Hn -run_unfold.
Qed.

Lemma run_extend_Err d fr d1 e x :
  run d fr = Some (d1, Err e) → run (extend d x) fr = Some (d1, Err e).
Proof.
  revert d fr. apply (run_ind (λ d fr, run d fr = Some (d1, Err e) → _)).
  intros d fr IH. rw run_unfold.
  destruct (progress d fr) as [[d' fr'] [[|]|e']] eqn:E; [|done|].
  - intros Hr. rw run_unfold (progress_extend _ _ _ _ _ x E) //. by apply IH.
  - intros [= -> ->]. by rw run_unfold (progress_extend _ _ _ _ _ x E).
Qed.

Lemma feed_app d a b :
  feed d (a ++ b) =
  match feed d a with
  | Some (d1, Ok fa) =>
      match feed d1 b with
      | Some (d2, Ok fb) => Some (d2, Ok (fa ++ fb))
      | r => r
      end
  | r => r
  end.
Proof.
  rw !feed_run -extend_app.
  destruct (run (extend d a) []) as [[d1 [fa|e]]|] eqn:E.
  - rw (run_extend_Ok _ _ _ _ b E) feed_run -{1}(app_nil_r fa). by rw run_frames.
  - by rw (run_extend_Err _ _ _ _ b E).
  - destruct (run_total (extend d a) []) as [? H']. congruence.
Qed.
End dynamics.

(** ** Round trip, chunking, bounds *)

Section properties.
Context `{CRC : Crc32} `{!Crc32Laws CRC}.

Lemma encode_Ok f bs :
  encode f = Ok bs →
  (len (payload f) ≤ encode_limit (frame_type f))%N ∧
  bs = (write_header (frame_type f) (transaction_id f) (total_len f) (seq f)
          (len (payload f)) ++ payload f) ++
       to_be_bytes 4 (crc32 (write_header (frame_type f) (transaction_id f)
          (total_len f) (seq f) (len (payload f)) ++ payload f)).
Proof using Type.
  unfold encode. case_match eqn:Hlt; [done|]. apply N.ltb_ge in Hlt.
  by intros [= <-].
Qed.

Lemma encode_find_magic f bs rest :
  encode f = Ok bs → find_sub MAGIC (bs ++ rest) = Some 0.
Proof using Type. intros [_ ->]%encode_Ok. done. Qed.

(** The trailer verifies: the decoder hashes header and payload piecewise. *)
Lemma progress_body_encoded (t : FrameType) id total sq p rest fr :
  let hdr := write_header t id total sq (len p) in
  progress_body
    (mkFrameDecoder (p ++ to_be_bytes 4 (crc32 (hdr ++ p)) ++ rest)
       (Body hdr t id total sq (len p))) fr hdr t id total sq (len p) =
  (mkFrameDecoder rest Sync, fr ++ [Frame_new t id total sq p], Ok true).
Proof using All.
  intros hdr. set (crc := to_be_bytes 4 _).
  assert (Hcrc : length crc = 4) by apply length_to_be_bytes.
  unfold progress_body. cbn [buf]. unfold len. rw Nat2N.id.
  destruct (Nat.ltb_spec (length (p ++ crc ++ rest)) (length p + CRC_LEN)) as [Hlt|_].
  { rw length_app length_app Hcrc in Hlt. unfold CRC_LEN in Hlt. lia. }
  rw take_app_length be32_at_app_r // Nat.sub_diag Hasher_update_app.
  subst crc. rw be32_at_to_be; [apply Hasher_finalize_u32|].
  case_decide as Hne; [done|]. do 3 f_equal.
  rw -drop_drop drop_app_length drop_app_length' //.
Qed.

(** One encoded frame, wherever the decoder's magic scan finds it, is decoded
    and its bytes consumed. *)
Lemma run_encoded f bs g rest fr :
  frame_wf f → encode f = Ok bs → find_sub MAGIC (g ++ bs) = Some (length g) →
  run (mkFrameDecoder (g ++ bs ++ rest) Sync) fr =
  run (mkFrameDecoder rest Sync) (fr ++ [f]).
Proof using All.
  intros (Ht & Htot & Hsq) Henc Hf.
  destruct f as [t id total sq p]; cbn [frame_type transaction_id total_len seq payload] in *.
  destruct (encode_Ok _ _ Henc) as [Hlim Hbs]. cbn [frame_type transaction_id total_len seq payload] in *.
  set (hdr := write_header t id total sq (len p)) in *.
  assert (Hh : length hdr = HEADER_LEN) by apply length_write_header.
  assert (Hs : progress_sync (mkFrameDecoder (g ++ bs ++ rest) Sync) =
    (mkFrameDecoder (p ++ to_be_bytes 4 (crc32 (hdr ++ p)) ++ rest)
       (Body hdr t id total sq (len p)), Ok true)).
  { unfold progress_sync. cbn [buf].
    rw app_assoc (find_sub_app_Some _ _ _ _ _ Hf) // -app_assoc drop_app_length.
    assert (Hc := check_header_write t id total sq (len p) Ht Htot Hsq Hlim).
    fold hdr in Hc. clearbody hdr. rw Hbs -!app_assoc.
    destruct (Nat.ltb_spec
      (length (hdr ++ p ++ to_be_bytes 4 (crc32 (hdr ++ p)) ++ rest)) HEADER_LEN)
      as [Hlt|_]; [rw length_app Hh in Hlt; lia|].
    rw take_app_length' // drop_app_length' // Hc //. }
  rw run_unfold {1}/progress. cbn [state]. rw Hs.
  rw run_unfold {1}/progress. cbn [state]. by rw progress_body_encoded.
Qed.

Lemma run_sync_nil fr :
  run FrameDecoder_new fr = Some (FrameDecoder_new, Ok fr).
Proof using Type. rw run_unfold. done. Qed.

Lemma run_encoded_stream (items : list (list byte * Frame)) wires fr :
  Forall2 (λ gf w, frame_wf gf.2 ∧ ∃ bs, encode gf.2 = Ok bs ∧
             w = gf.1 ++ bs ∧ find_sub MAGIC w = Some (length gf.1)) items wires →
  run (mkFrameDecoder (concat wires) Sync) fr =
  Some (FrameDecoder_new, Ok (fr ++ items.*2)).
Proof using All.
  intros H. revert fr. induction H as [|[g f] w items wires (Hwf & bs & He & -> & Hf) _ IH];
    intros fr; cbn [concat].
  - rw app_nil_r. apply run_sync_nil.
  - rw -app_assoc (run_encoded _ _ _ _ _ Hwf He Hf) IH. cbn. by rw -app_assoc.
Qed.

(** Between two chunks the decoder has nothing left to do. *)
Lemma feed_quiescent d c d1 fa :
  feed d c = Some (d1, Ok fa) → run d1 [] = Some (d1, Ok []).
Proof using Type.
  rw feed_run. intros E. pose proof (run_extend_Ok _ _ _ _ [] E) as Hr.
  rw !extend_nil E -{2}(app_nil_r fa) run_frames in Hr.
  destruct (run d1 []) as [[d2 [fs|]]|]; [|done|done].
  injection Hr as -> Hfs. apply (f_equal length) in Hfs.
  rw length_app in Hfs. destruct fs; [done|]. cbn in Hfs. lia.
Qed.

Lemma feed_all_concat d chunks :
  run d [] = Some (d, Ok []) →
  feed_all d chunks =
  match feed d (concat chunks) with
  | Some (d', Ok fs) => Some (d', fs, None)
  | _ => feed_all d chunks
  end.
Proof using Type.
  revert d. induction chunks as [|c cs IH]; intros d Hd; cbn [concat feed_all].
  - by rw feed_run extend_nil Hd.
  - rw feed_app. destruct (feed d c) as [[d1 [fa|e]]|] eqn:E; [|done|done].
    specialize (IH d1 (feed_quiescent _ _ _ _ E)).
    destruct (feed d1 (concat cs)) as [[d2 [fb|e]]|] eqn:E2; [by rw IH|done|done].
Qed.

(** What the decoder keeps between two [feed]s: a validated header whose
    body is within the limit of its type. *)
Definition decoder_wf (d : FrameDecoder) : Prop :=
  match state d with
  | Sync => True
  | Body _ t _ total sq fl =>
      type_wf t ∧ (total ≤ U32_MAX)%N ∧ (sq ≤ U32_MAX)%N ∧
      (fl ≤ encode_limit t)%N
  end.

(** A frame the encoder accepts. *)
Definition encodable (f : Frame) : Prop :=
  frame_wf f ∧ (len (payload f) ≤ encode_limit (frame_type f))%N.

Lemma progress_sync_wf d d' r :
  progress_sync d = (d', r) → state d = Sync →
  decoder_wf d' ∧
  match r with
  | Ok true => True
  | Ok false => state d' = Sync ∧ length (buf d') < HEADER_LEN
  | Err _ => d' = FrameDecoder_new
  end.
Proof using Type.
  unfold progress_sync, decoder_wf. intros Hp Hs.
  destruct (find_sub MAGIC (buf d)) as [p|].
  - destruct (Nat.ltb_spec (length (drop p (buf d))) HEADER_LEN) as [Hlt|_].
    { injection Hp as <- <-. cbn [state buf]. rw Hs. done. }
    destruct (check_header _) as [info|e] eqn:Hc; injection Hp as <- <-;
      cbn [state buf]; [|done].
    by destruct (check_header_Ok _ _ Hc) as (? & ? & ? & ?).
  - injection Hp as <- <-. cbn [state buf]. rw Hs.
    split; [done|]. split; [done|]. rw length_drop.
    unfold HEADER_LEN. cbn [length MAGIC]. lia.
Qed.

Lemma progress_wf d fr d' fr' r :
  progress d fr = (d', fr', r) → decoder_wf d → Forall encodable fr →
  decoder_wf d' ∧ Forall encodable fr' ∧
  match r with
  | Ok true => True
  | Ok false => (len (buf d') < MAX_DECODE_TOTAL_CAP)%N
  | Err _ => d' = FrameDecoder_new
  end.
Proof using Type.
  unfold progress. intros Hp Hwf Hfr.
  destruct (state d) as [|h t id total sq fl] eqn:Hs.
  - destruct (progress_sync d) as [d1 r1] eqn:E. injection Hp as <- <- <-.
    destruct (progress_sync_wf _ _ _ E Hs) as [Hwf' Hr]. split; [done|].
    split; [done|]. destruct r1 as [[|]|]; [done| |done].
    destruct Hr as [_ Hr]. unfold len, MAX_DECODE_TOTAL_CAP, HEADER_LEN in *. lia.
  - unfold decoder_wf in Hwf. rw Hs in Hwf. destruct Hwf as (Ht & Htot & Hsq & Hfl).
    pose proof (encode_limit_bound t) as Hb. unfold progress_body in Hp.
    destruct (Nat.ltb_spec (length (buf d)) (N.to_nat fl + CRC_LEN)) as [Hlt|Hge].
    + injection Hp as <- <- <-. split; [unfold decoder_wf; by rw Hs|].
      split; [done|].
      unfold len, MAX_DECODE_TOTAL_CAP, FRAME_OVERHEAD, CRC_LEN in *. lia.
    + case_decide; injection Hp as <- <- <-; [done|].
      split; [done|]. split; [|done]. apply Forall_app. split; [done|].
      constructor; [|done]. split; [done|]. cbn [payload frame_type].
      unfold len. rw length_take. lia.
Qed.

Lemma run_wf d fr d' r :
  run d fr = Some (d', r) → decoder_wf d → Forall encodable fr →
  decoder_wf d' ∧
  match r with
  | Ok fs => Forall encodable fs ∧ (len (buf d') < MAX_DECODE_TOTAL_CAP)%N
  | Err _ => d' = FrameDecoder_new
  end.
Proof using Type.
  revert d fr. refine (run_ind _ _).
  intros d fr IH. rw run_unfold. intros Hr Hwf Hfr.
  destruct (progress d fr) as [[d1 fr1] [[|]|e]] eqn:E;
    destruct (progress_wf _ _ _ _ _ E Hwf Hfr) as (H1 & H2 & H3).
  - by apply (IH _ _ eq_refl).
  - by simplify_eq.
  - by simplify_eq.
Qed.

Lemma feed_all_concat_Err d chunks d' e :
  feed d (concat chunks) = Some (d', Err e) →
  run d [] = Some (d, Ok []) →
  ∃ fs, feed_all d chunks = Some (d', fs, Some e).
Proof using Type.
  revert d. induction chunks as [|c cs IH]; intros d; cbn [concat feed_all].
  - rw feed_run extend_nil. congruence.
  - rw feed_app. intros Hf Hd.
    destruct (feed d c) as [[d1 [fa|e1]]|] eqn:E; [|by simplify_eq; eexists|done].
    destruct (IH d1) as [fs Hfs].
    + destruct (feed d1 (concat cs)) as [[? []]|]; by simplify_eq.
    + by apply (feed_quiescent d c _ fa).
    + rw Hfs. by eexists.
Qed.
End properties.

(** ** Properties *)

Section theorems.
Context `{CRC : Crc32} `{!Crc32Laws CRC}.

(** a wire type code and its [FrameType] determine each other: every
    16-bit code survives classification (unknown codes included) and every
    canonical type survives encoding. *)
Theorem frame_type_codes :
  (∀ v, to_u16 (from_u16 v) = v ∧ ((v ≤ U16_MAX)%N → type_wf (from_u16 v))) ∧
  (∀ t, (∀ v, t ≠ Unknown v) → from_u16 (to_u16 t) = t ∧ (to_u16 t ≤ U16_MAX)%N).
Proof using Type.
  split; [split; [apply to_from_u16|apply from_u16_wf]|].
  intros t [Hle Heq]%type_wf_known. done.
Qed.

(** C29: a stream of encoded frames, each preceded by arbitrary line noise in
    which no magic can be found, decodes to exactly those frames, whatever
    the chunks the carrier reads them in, and leaves the decoder empty. *)
Theorem decode_dirty_stream (items : list (list byte * Frame))
    (wires chunks : list (list byte)) :
  Forall2 (λ gf w, frame_wf gf.2 ∧ ∃ bs, encode gf.2 = Ok bs ∧
             w = gf.1 ++ bs ∧ find_sub MAGIC w = Some (length gf.1)) items wires →
  concat chunks = concat wires →
  feed_all FrameDecoder_new chunks = Some (FrameDecoder_new, items.*2, None).
Proof using All.
  intros Hitems Hc. rw feed_all_concat; [apply run_sync_nil|].
  rw Hc feed_run. cbn [extend buf state FrameDecoder_new app].
  by rw (run_encoded_stream _ _ [] Hitems).
Qed.

Lemma decode_encode_core (fs : list Frame) (wires chunks : list (list byte)) :
  Forall frame_wf fs → collect encode fs = Ok wires →
  concat chunks = concat wires →
  feed_all FrameDecoder_new chunks = Some (FrameDecoder_new, fs, None).
Proof using All.
  intros Hwf Henc%collect_Forall2 Hc.
  assert (Hitems : Forall2 (λ gf w, frame_wf gf.2 ∧ ∃ bs, encode gf.2 = Ok bs ∧
    w = gf.1 ++ bs ∧ find_sub MAGIC w = Some (length gf.1))
    ((λ f, ([], f)) <$> fs) wires).
  { apply Forall2_fmap_l. clear Hc. revert Hwf.
    induction Henc as [|f w fs wires He _ IH]; intros Hwf; [constructor|].
    apply Forall_cons in Hwf as [Hf Hwf]. constructor; [|by apply IH].
    split; [done|]. exists w. split; [done|]. split; [done|].
    rw -(app_nil_r w). by apply (encode_find_magic f). }
  rw feed_all_concat; [apply run_sync_nil|].
  rw Hc feed_run. cbn [extend buf state FrameDecoder_new app].
  rw (run_encoded_stream _ _ [] Hitems). cbn [app].
  do 3 f_equal. rw -list_fmap_compose. apply list_fmap_id.
Qed.

(** C9: decoding the concatenation of encoded frames gives the frames back,
    whatever the chunk boundaries. *)
Theorem decode_encode_stream (fs : list Frame) (wires chunks : list (list byte)) :
  Forall frame_wf fs → collect encode fs = Ok wires →
  concat chunks = concat wires →
  feed_all FrameDecoder_new chunks = Some (FrameDecoder_new, fs, None).
Proof using All. apply decode_encode_core. Qed.

(** C30: chunk boundaries are irrelevant: two ways to cut the same byte stream
    end in the same decoder state with the same error, and, when there is no
    error, with the same frames. *)
Theorem feed_chunking (cs1 cs2 : list (list byte)) :
  concat cs1 = concat cs2 →
  ∃ d fs1 fs2 e,
    feed_all FrameDecoder_new cs1 = Some (d, fs1, e) ∧
    feed_all FrameDecoder_new cs2 = Some (d, fs2, e) ∧
    (e = None → fs1 = fs2).
Proof using Type.
  intros Hc. destruct (run_total (extend FrameDecoder_new (concat cs1)) [])
    as [[d [fs|e]] Hr].
  - exists d, fs, fs, None. rw -feed_run in Hr.
    rw feed_all_concat; [apply run_sync_nil|].
    rw (feed_all_concat _ cs2); [apply run_sync_nil|]. by rw -Hc Hr.
  - rw -feed_run in Hr. pose proof Hr as Hr2. rw Hc in Hr2.
    destruct (feed_all_concat_Err _ _ _ _ Hr (run_sync_nil [])) as [fs1 H1].
    destruct (feed_all_concat_Err _ _ _ _ Hr2 (run_sync_nil [])) as [fs2 H2].
    by exists d, fs1, fs2, (Some e).
Qed.

(** [feed] always returns, on any decoder state and any chunk; from a
    well-formed state it keeps the buffer below the 64 MiB decode cap, emits
    only frames the encoder accepts, and after an error the decoder is back
    in its initial state. *)
Theorem feed_safe (d : FrameDecoder) (chunk : list byte) :
  ∃ d' r, feed d chunk = Some (d', r) ∧
    (decoder_wf d →
     decoder_wf d' ∧
     match r with
     | Ok fs => Forall encodable fs ∧ (len (buf d') < MAX_DECODE_TOTAL_CAP)%N
     | Err _ => d' = FrameDecoder_new
     end).
Proof using Type.
  destruct (run_total (extend d chunk) []) as [[d' r] Hr].
  exists d', r. split; [done|]. intros Hwf.
  by apply (run_wf _ _ _ _ Hr).
Qed.

(** a fatal error discards the frames completed earlier in the same
    chunk: a good frame [f] followed by bytes that fail to decode is
    delivered when the two arrive in separate chunks and lost when they
    arrive in one. *)
Theorem feed_error_drops_frames (f : Frame) (bs bad : list byte)
    (d : FrameDecoder) (e : FrameError) :
  frame_wf f → encode f = Ok bs →
  feed FrameDecoder_new bad = Some (d, Err e) →
  feed_all FrameDecoder_new [bs; bad] = Some (d, [f], Some e) ∧
  feed_all FrameDecoder_new [bs ++ bad] = Some (d, [], Some e).
Proof using All.
  intros Hwf He Hbad.
  assert (Hg : feed FrameDecoder_new bs = Some (FrameDecoder_new, Ok [f])).
  { rw feed_run /extend. cbn [buf state FrameDecoder_new app].
    rw -(app_nil_r bs) (run_encoded f bs [] [] [] Hwf He) ?run_sync_nil //.
    rw -(app_nil_r ([] ++ bs)). by apply (encode_find_magic f). }
  cbn [feed_all]. by rw feed_app Hg Hbad.
Qed.
End theorems.

(** ** Witnesses

    A three-byte DATA_BINARY frame under the concrete CRC. *)

Definition demo_frame : Frame :=
  Frame_new DataBinary (txid_of_byte x07) 3 0 [x58; x41; x43].

Definition demo_wire : list byte :=
  match encode demo_frame with Ok w => w | Err _ => [] end.

Lemma demo_frame_wf : frame_wf demo_frame.
Proof. repeat split; by vm_compute. Qed.

Lemma demo_encode : encode demo_frame = Ok demo_wire.
Proof. vm_compute. reflexivity. Qed.

(** A corrupted copy: the last trailer byte is cut off and replaced. *)
Definition demo_corrupt : list byte := take 42 demo_wire ++ [x00].

Lemma decode_dirty_stream_witness :
  feed_all FrameDecoder_new [[x58; x41] ++ take 10 demo_wire; drop 10 demo_wire] =
  Some (FrameDecoder_new, [demo_frame], None).
Proof.
  apply (decode_dirty_stream [([x58; x41], demo_frame)] [[x58; x41] ++ demo_wire]).
  - constructor; [|constructor]. split; [apply demo_frame_wf|].
    exists demo_wire. split; [apply demo_encode|]. split; [done|].
    vm_compute. reflexivity.
  - vm_compute. reflexivity.
Defined.

Lemma decode_encode_stream_witness :
  feed_all FrameDecoder_new
    [take 20 demo_wire; drop 20 demo_wire ++ take 3 demo_wire; drop 3 demo_wire] =
  Some (FrameDecoder_new, [demo_frame; demo_frame], None).
Proof.
  apply (decode_encode_stream _ [demo_wire; demo_wire]).
  - repeat constructor; by vm_compute.
  - vm_compute. reflexivity.
  - vm_compute. reflexivity.
Defined.

Lemma feed_chunking_witness :
  ∃ d fs1 fs2 e,
    feed_all FrameDecoder_new [demo_corrupt] = Some (d, fs1, e) ∧
    feed_all FrameDecoder_new [take 5 demo_corrupt; drop 5 demo_corrupt] =
      Some (d, fs2, e) ∧
    (e = None → fs1 = fs2).
Proof. apply (feed_chunking [demo_corrupt]). vm_compute. reflexivity. Defined.

Lemma feed_error_drops_frames_witness :
  ∃ e,
    feed_all FrameDecoder_new [demo_wire; demo_corrupt] =
      Some (FrameDecoder_new, [demo_frame], Some e) ∧
    feed_all FrameDecoder_new [demo_wire ++ demo_corrupt] =
      Some (FrameDecoder_new, [], Some e).
Proof.
  eexists. apply (feed_error_drops_frames demo_frame).
  - apply demo_frame_wf.
  - apply demo_encode.
  - vm_compute. reflexivity.
Defined.
