(* ===== verification/Control.v ===== *)
(** * Control-frame payload codecs ([src/wire/control.rs])

    ACK, NACK, RESUME, RESUME_RESPONSE, HEARTBEAT, ERROR and the three
    transaction-id payloads.  Each payload type is an instance of
    [ControlPayload] (its wire frame type, [encode] and [decode]); the laws
    every layer above relies on are [ControlPayloadLaws]. *)
From S2P Require Import Prelude Crc Frame.

Definition CONTROL_PAYLOAD_CAP : N := MAX_CONTROL_FRAME_LEN.

(** [error_codes]. *)
Definition PROTOCOL_VERSION_UNSUPPORTED : N := 0x0001.
Definition TRANSACTION_EXPIRED : N := 0x0002.
Definition BACKPRESSURE_STALL : N := 0x0003.

(** ** Payload types *)

Record AckEntry : Type := mkAckEntry {
  ack_transaction_id : txid;
  highest_contiguous_seq : N;
  received_frames : N;
}.

Definition ACK_ENTRY_LEN : nat := 24.
Definition RESUME_STATUS_ENTRY_LEN : nat := 17.

Record AckPayload : Type := mkAckPayload { ack_entries : list AckEntry }.

Record NackEntry : Type := mkNackEntry {
  nack_transaction_id : txid;
  missing_seqs : list N;
}.

Record NackPayload : Type := mkNackPayload { nack_entries : list NackEntry }.

Record ResumeRequestPayload : Type := mkResumeRequestPayload {
  resume_entries : list AckEntry;
}.

(** [ResumeStatus]; its [Unknown] is [StatusUnknown] here. *)
Inductive ResumeStatus : Type := Resumed | Rejected | StatusUnknown.

Record ResumeStatusEntry : Type := mkResumeStatusEntry {
  rse_transaction_id : txid;
  rse_status : ResumeStatus;
}.

Record ResumeResponsePayload : Type := mkResumeResponsePayload {
  response_entries : list ResumeStatusEntry;
}.

Record TransactionPausePayload : Type := mkTransactionPausePayload {
  pause_transaction_id : txid;
}.

Record TransactionAbortPayload : Type := mkTransactionAbortPayload {
  abort_transaction_id : txid;
}.

Record TransactionCompletedPayload : Type := mkTransactionCompletedPayload {
  completed_transaction_id : txid;
}.

Record HeartbeatPayload : Type := mkHeartbeatPayload {
  monotonic_seq : N;
  sender_epoch_ms : N;
}.

Record ErrorPayload : Type := mkErrorPayload {
  code : N;
  message : rstring;
}.

#[export] Instance AckEntry_eq_dec : EqDecision AckEntry.
Proof. solve_decision. Defined.
#[export] Instance NackEntry_eq_dec : EqDecision NackEntry.
Proof. solve_decision. Defined.
#[export] Instance ResumeStatus_eq_dec : EqDecision ResumeStatus.
Proof. solve_decision. Defined.
#[export] Instance ResumeStatusEntry_eq_dec : EqDecision ResumeStatusEntry.
Proof. solve_decision. Defined.

Inductive ControlError : Type :=
  | CountOutOfRange (count min max : N)
  | LengthMismatch (expected actual : N)
  | MissingSeqOverflow (length max : N)
  | PayloadTooLarge (actual cap : N)
  | UnknownResumeStatus (value : byte)
  | InvalidUtf8
  | HeartbeatLength (actual : N).

#[export] Instance ControlError_eq_dec : EqDecision ControlError.
Proof. solve_decision. Defined.

Definition ResumeStatus_to_u8 (s : ResumeStatus) : byte :=
  match s with Resumed => x01 | Rejected => x02 | StatusUnknown => x03 end.

Definition ResumeStatus_from_u8 (value : byte) : result ResumeStatus ControlError :=
  match value with
  | x01 => Ok Resumed
  | x02 => Ok Rejected
  | x03 => Ok StatusUnknown
  | other => Err (UnknownResumeStatus other)
  end.

(** ** Shared helpers *)

Definition finish (out : list byte) : result (list byte) ControlError :=
  if (CONTROL_PAYLOAD_CAP <? len out)%N
  then Err (PayloadTooLarge (len out) CONTROL_PAYLOAD_CAP)
  else Ok out.

Definition fixed_field (n : nat) (bytes : list byte) :
    result (array n) ControlError :=
  match array_of_list n bytes with
  | Some a => Ok a
  | None => Err (LengthMismatch (N.of_nat n) (len bytes))
  end.

Definition check_count (count min max : N) : result unit ControlError :=
  if (count <? min)%N || (max <? count)%N
  then Err (CountOutOfRange count min max)
  else Ok tt.

(** [uN::from_be_bytes(fixed_field(bytes)?)]. *)
Definition be_field (n : nat) (bytes : list byte) : result N ControlError :=
  let? a := fixed_field n bytes in Ok (from_be_bytes (array_bytes a)).

(** [&chunk[lo..hi]]. *)
Definition slice (lo hi : nat) (l : list byte) : list byte :=
  take (hi - lo) (drop lo l).

(** ** ACK and RESUME *)

(** The bytes [write_ack_entries] appends for one entry. *)
Definition ack_entry_bytes (e : AckEntry) : list byte :=
  array_bytes (ack_transaction_id e) ++
  to_be_bytes 4 (highest_contiguous_seq e) ++
  to_be_bytes 4 (received_frames e).

Definition write_ack_entries (out : list byte) (entries : list AckEntry) :
    list byte :=
  out ++ concat (ack_entry_bytes <$> entries).

Definition read_ack_entry (chunk : list byte) : result AckEntry ControlError :=
  let? id := fixed_field 16 (slice 0 16 chunk) in
  let? hi := be_field 4 (slice 16 20 chunk) in
  let? rc := be_field 4 (slice 20 24 chunk) in
  Ok (mkAckEntry id hi rc).

Definition read_ack_entries (bytes : list byte) (count : N) :
    result (list AckEntry) ControlError :=
  collect read_ack_entry
    (take (N.to_nat count) (chunks_exact ACK_ENTRY_LEN bytes)).

Definition AckPayload_encode (p : AckPayload) : result (list byte) ControlError :=
  let? _ := check_count (len (ack_entries p)) 1 255 in
  finish (write_ack_entries [byte_of_N (len (ack_entries p))] (ack_entries p)).

(** The body [AckPayload::decode] and [ResumeRequestPayload::decode] share,
    up to the smallest legal count. *)
Definition decode_ack_entries (min : N) (bytes : list byte) :
    result (list AckEntry) ControlError :=
  match bytes with
  | [] => Err (LengthMismatch 1 0)
  | count_byte :: rest =>
      let count := Byte.to_N count_byte in
      let? _ := check_count count min 255 in
      let expected := (count * N.of_nat ACK_ENTRY_LEN)%N in
      if decide (len rest ≠ expected)
      then Err (LengthMismatch expected (len rest))
      else read_ack_entries rest count
  end.

Definition AckPayload_decode (bytes : list byte) : result AckPayload ControlError :=
  let? es := decode_ack_entries 1 bytes in Ok (mkAckPayload es).

Definition ResumeRequestPayload_encode (p : ResumeRequestPayload) :
    result (list byte) ControlError :=
  let? _ := check_count (len (resume_entries p)) 0 255 in
  finish
    (write_ack_entries [byte_of_N (len (resume_entries p))] (resume_entries p)).

Definition ResumeRequestPayload_decode (bytes : list byte) :
    result ResumeRequestPayload ControlError :=
  let? es := decode_ack_entries 0 bytes in Ok (mkResumeRequestPayload es).

(** ** NACK *)

Definition nack_entry_bytes (e : NackEntry) : result (list byte) ControlError :=
  let n := len (missing_seqs e) in
  if (U16_MAX <? n)%N then Err (MissingSeqOverflow n U16_MAX)
  else
    Ok (array_bytes (nack_transaction_id e) ++
        to_be_bytes 2 (as_u16 n) ++
        concat (to_be_bytes 4 <$> missing_seqs e)).

Definition NackPayload_encode (p : NackPayload) : result (list byte) ControlError :=
  let? _ := check_count (len (nack_entries p)) 1 255 in
  let? body := collect nack_entry_bytes (nack_entries p) in
  finish ([byte_of_N (len (nack_entries p))] ++ concat body).

(** One iteration of the entry loop: the entry and the remaining bytes. *)
Definition read_nack_entry (rest : list byte) :
    result (NackEntry * list byte) ControlError :=
  if Nat.ltb (length rest) 18 then Err (LengthMismatch 18 (len rest))
  else
    let? id := fixed_field 16 (slice 0 16 rest) in
    let missing_count := from_be_bytes [byte_at rest 16; byte_at rest 17] in
    let rest := drop 18 rest in
    let expected := (missing_count * 4)%N in
    if (len rest <? expected)%N
    then Err (LengthMismatch expected (len rest))
    else
      let? seqs :=
        collect (be_field 4) (chunks_exact 4 (take (N.to_nat expected) rest)) in
      Ok (mkNackEntry id seqs, drop (N.to_nat expected) rest).

Fixpoint read_nack_entries (count : nat) (rest : list byte) :
    result (list NackEntry * list byte) ControlError :=
  match count with
  | O => Ok ([], rest)
  | S count' =>
      let? er := read_nack_entry rest in
      let? esr := read_nack_entries count' er.2 in
      Ok (er.1 :: esr.1, esr.2)
  end.

Definition NackPayload_decode (bytes : list byte) : result NackPayload ControlError :=
  match bytes with
  | [] => Err (LengthMismatch 1 0)
  | count_byte :: rest =>
      let count := Byte.to_N count_byte in
      let? _ := check_count count 1 255 in
      let? esr := read_nack_entries (N.to_nat count) rest in
      match esr.2 with
      | [] => Ok (mkNackPayload esr.1)
      | rest => Err (LengthMismatch 0 (len rest))
      end
  end.

(** ** RESUME_RESPONSE *)

Definition status_entry_bytes (e : ResumeStatusEntry) : list byte :=
  array_bytes (rse_transaction_id e) ++ [ResumeStatus_to_u8 (rse_status e)].

Definition ResumeResponsePayload_encode (p : ResumeResponsePayload) :
    result (list byte) ControlError :=
  let? _ := check_count (len (response_entries p)) 0 255 in
  finish ([byte_of_N (len (response_entries p))] ++
          concat (status_entry_bytes <$> response_entries p)).

Definition read_status_entry (chunk : list byte) :
    result ResumeStatusEntry ControlError :=
  let? id := fixed_field 16 (slice 0 16 chunk) in
  let? status := ResumeStatus_from_u8 (byte_at chunk 16) in
  Ok (mkResumeStatusEntry id status).

Definition ResumeResponsePayload_decode (bytes : list byte) :
    result ResumeResponsePayload ControlError :=
  match bytes with
  | [] => Err (LengthMismatch 1 0)
  | count_byte :: rest =>
      let count := Byte.to_N count_byte in
      let? _ := check_count count 0 255 in
      let expected := (count * N.of_nat RESUME_STATUS_ENTRY_LEN)%N in
      if decide (len rest ≠ expected)
      then Err (LengthMismatch expected (len rest))
      else
        let? es :=
          collect read_status_entry (chunks_exact RESUME_STATUS_ENTRY_LEN rest) in
        Ok (mkResumeResponsePayload es)
  end.

(** ** HEARTBEAT, ERROR and the transaction-id payloads *)

Definition HeartbeatPayload_encode (p : HeartbeatPayload) :
    result (list byte) ControlError :=
  finish (to_be_bytes 4 (monotonic_seq p) ++ to_be_bytes 8 (sender_epoch_ms p)).

Definition HeartbeatPayload_decode (bytes : list byte) :
    result HeartbeatPayload ControlError :=
  if decide (len bytes ≠ 12%N) then Err (HeartbeatLength (len bytes))
  else
    let? s := be_field 4 (slice 0 4 bytes) in
    let? e := be_field 8 (slice 4 12 bytes) in
    Ok (mkHeartbeatPayload s e).

Definition ErrorPayload_encode (p : ErrorPayload) : result (list byte) ControlError :=
  finish (to_be_bytes 2 (code p) ++ rs_bytes (message p)).

Definition ErrorPayload_decode (bytes : list byte) : result ErrorPayload ControlError :=
  if Nat.ltb (length bytes) 2 then Err (LengthMismatch 2 (len bytes))
  else
    match rstring_of_bytes (drop 2 bytes) with
    | Some m =>
        Ok (mkErrorPayload (from_be_bytes [byte_at bytes 0; byte_at bytes 1]) m)
    | None => Err InvalidUtf8
    end.

(** [decode] of a payload that is exactly one transaction id. *)
Definition decode_txid (bytes : list byte) : result txid ControlError :=
  if decide (len bytes ≠ 16%N) then Err (LengthMismatch 16 (len bytes))
  else fixed_field 16 bytes.

Definition TransactionPausePayload_encode (p : TransactionPausePayload) :
    result (list byte) ControlError :=
  finish (array_bytes (pause_transaction_id p)).

Definition TransactionPausePayload_decode (bytes : list byte) :
    result TransactionPausePayload ControlError :=
  let? id := decode_txid bytes in Ok (mkTransactionPausePayload id).

Definition TransactionAbortPayload_encode (p : TransactionAbortPayload) :
    result (list byte) ControlError :=
  finish (array_bytes (abort_transaction_id p)).

Definition TransactionAbortPayload_decode (bytes : list byte) :
    result TransactionAbortPayload ControlError :=
  let? id := decode_txid bytes in Ok (mkTransactionAbortPayload id).

Definition TransactionCompletedPayload_encode (p : TransactionCompletedPayload) :
    result (list byte) ControlError :=
  finish (array_bytes (completed_transaction_id p)).

Definition TransactionCompletedPayload_decode (bytes : list byte) :
    result TransactionCompletedPayload ControlError :=
  let? id := decode_txid bytes in Ok (mkTransactionCompletedPayload id).

(** ** The payload interface *)

(** A payload type with its [FRAME_TYPE] constant and codec; [payload_wf] is
    what its Rust field types guarantee. *)
Class ControlPayload (P : Type) : Type := {
  FRAME_TYPE : FrameType;
  payload_encode : P → result (list byte) ControlError;
  payload_decode : list byte → result P ControlError;
  payload_wf : P → Prop;
}.

(** What a payload codec promises to the frame layer and to its peer. *)
Class ControlPayloadLaws (P : Type) `{ControlPayload P} : Prop := {
  frame_type_control : max_frame_len (FRAME_TYPE (P := P)) = Some CONTROL_PAYLOAD_CAP;
  payload_encode_cap (p : P) bs :
    payload_encode p = Ok bs → (len bs ≤ CONTROL_PAYLOAD_CAP)%N;
  payload_decode_encode (p : P) bs :
    payload_wf p → payload_encode p = Ok bs → payload_decode bs = Ok p;
  payload_encode_decode (p : P) bs :
    payload_decode bs = Ok p → (len bs ≤ CONTROL_PAYLOAD_CAP)%N →
    payload_wf p ∧ payload_encode p = Ok bs;
}.

Definition ack_entry_wf (e : AckEntry) : Prop :=
  (highest_contiguous_seq e ≤ U32_MAX)%N ∧ (received_frames e ≤ U32_MAX)%N.

Definition nack_entry_wf (e : NackEntry) : Prop :=
  Forall (λ s, (s ≤ U32_MAX)%N) (missing_seqs e).

#[export] Instance AckPayload_control : ControlPayload AckPayload := {|
  FRAME_TYPE := Ack;
  payload_encode := AckPayload_encode;
  payload_decode := AckPayload_decode;
  payload_wf p := Forall ack_entry_wf (ack_entries p);
|}.

#[export] Instance NackPayload_control : ControlPayload NackPayload := {|
  FRAME_TYPE := Nack;
  payload_encode := NackPayload_encode;
  payload_decode := NackPayload_decode;
  payload_wf p := Forall nack_entry_wf (nack_entries p);
|}.

#[export] Instance ResumeRequestPayload_control :
    ControlPayload ResumeRequestPayload := {|
  FRAME_TYPE := Resume;
  payload_encode := ResumeRequestPayload_encode;
  payload_decode := ResumeRequestPayload_decode;
  payload_wf p := Forall ack_entry_wf (resume_entries p);
|}.

#[export] Instance ResumeResponsePayload_control :
    ControlPayload ResumeResponsePayload := {|
  FRAME_TYPE := ResumeResponse;
  payload_encode := ResumeResponsePayload_encode;
  payload_decode := ResumeResponsePayload_decode;
  payload_wf _ := True;
|}.

#[export] Instance HeartbeatPayload_control : ControlPayload HeartbeatPayload := {|
  FRAME_TYPE := Heartbeat;
  payload_encode := HeartbeatPayload_encode;
  payload_decode := HeartbeatPayload_decode;
  payload_wf p := (monotonic_seq p ≤ U32_MAX)%N ∧ (sender_epoch_ms p ≤ U64_MAX)%N;
|}.

#[export] Instance ErrorPayload_control : ControlPayload ErrorPayload := {|
  FRAME_TYPE := Error;
  payload_encode := ErrorPayload_encode;
  payload_decode := ErrorPayload_decode;
  payload_wf p := (code p ≤ U16_MAX)%N;
|}.

#[export] Instance TransactionPausePayload_control :
    ControlPayload TransactionPausePayload := {|
  FRAME_TYPE := TransactionPause;
  payload_encode := TransactionPausePayload_encode;
  payload_decode := TransactionPausePayload_decode;
  payload_wf _ := True;
|}.

#[export] Instance TransactionAbortPayload_control :
    ControlPayload TransactionAbortPayload := {|
  FRAME_TYPE := TransactionAbort;
  payload_encode := TransactionAbortPayload_encode;
  payload_decode := TransactionAbortPayload_decode;
  payload_wf _ := True;
|}.

#[export] Instance TransactionCompletedPayload_control :
    ControlPayload TransactionCompletedPayload := {|
  FRAME_TYPE := TransactionCompleted;
  payload_encode := TransactionCompletedPayload_encode;
  payload_decode := TransactionCompletedPayload_decode;
  payload_wf _ := True;
|}.

(** ** Helper lemmas *)

Lemma finish_Ok out bs :
  finish out = Ok bs ↔ bs = out ∧ (len out ≤ CONTROL_PAYLOAD_CAP)%N.
Proof.
  unfold finish. destruct (N.ltb_spec CONTROL_PAYLOAD_CAP (len out)).
  - split; [done|]. lia.
  - split; [by intros [= <-]|by intros [-> _]].
Qed.

Lemma check_count_Ok count mn mx :
  check_count count mn mx = Ok tt ↔ (mn ≤ count ≤ mx)%N.
Proof.
  unfold check_count. destruct (N.ltb_spec count mn); cbn; [split; [done|lia]|].
  destruct (N.ltb_spec mx count); [split; [done|lia]|done].
Qed.

Lemma check_count_cases count mn mx :
  (mn ≤ count ≤ mx)%N ∧ check_count count mn mx = Ok tt ∨
  check_count count mn mx = Err (CountOutOfRange count mn mx).
Proof.
  destruct (check_count count mn mx) as [[]|] eqn:E; [left|right].
  - split; [|done]. by apply check_count_Ok.
  - unfold check_count in E. by case_match; simplify_eq.
Qed.

Lemma fixed_field_array {n} (a : array n) : fixed_field n (array_bytes a) = Ok a.
Proof. unfold fixed_field. by rw array_of_list_bytes. Qed.

Lemma fixed_field_Ok n l a : fixed_field n l = Ok a ↔ array_bytes a = l.
Proof.
  split; [|intros <-; apply fixed_field_array]. unfold fixed_field.
  destruct (array_of_list n l) eqn:E; [|done]. intros [= ->].
  by apply array_of_list_Some.
Qed.

Lemma be_field_to_be w n :
  (n < 256 ^ N.of_nat w)%N → be_field w (to_be_bytes w n) = Ok n.
Proof.
  intros Hn. unfold be_field, fixed_field.
  destruct (array_of_list_is_Some (to_be_bytes w n) (length_to_be_bytes w n)) as [a Ha].
  rw Ha. apply array_of_list_Some in Ha. rw Ha. by rw from_to_be_bytes.
Qed.

Lemma be_field_Ok w l n :
  be_field w l = Ok n → to_be_bytes w n = l ∧ (n < 256 ^ N.of_nat w)%N.
Proof.
  unfold be_field. destruct (fixed_field w l) as [a|] eqn:Ha; [|done].
  apply fixed_field_Ok in Ha as <-. intros [= <-].
  pose proof (length_array_bytes a) as Hl. split; [by apply to_from_be_bytes|].
  rw -{2}Hl. apply from_be_bytes_bound.
Qed.

Lemma byte_of_len n : (n ≤ 255)%N → Byte.to_N (byte_of_N n) = n.
Proof. intros. rw byte_of_N_spec. apply N.mod_small. lia. Qed.

Lemma slice_app (lo hi : nat) (a b c : list byte) :
  length a = lo → length b = hi - lo → slice lo hi (a ++ b ++ c) = b.
Proof. intros Ha Hb. unfold slice. rw drop_app_length' // take_app_length' //. Qed.

Lemma slice_app_last (lo hi : nat) (a b : list byte) :
  length a = lo → length b = hi - lo → slice lo hi (a ++ b) = b.
Proof. intros. rw -{1}(app_nil_r b). by apply slice_app. Qed.

Lemma slice_0_app (hi : nat) (a b : list byte) :
  length a = hi → slice 0 hi (a ++ b) = a.
Proof. intros. apply (slice_app 0 hi []); [done|]. lia. Qed.

Lemma slice_join (a b c : nat) (l : list byte) :
  a ≤ b → b ≤ c → slice a b l ++ slice b c l = slice a c l.
Proof.
  intros. unfold slice. rw -(take_drop (b - a) (take (c - a) (drop a l))).
  rw take_take skipn_firstn_comm drop_drop. f_equal.
  - f_equal. lia.
  - f_equal; [lia|]. f_equal. lia.
Qed.

Lemma slice_full (n : nat) (l : list byte) : length l = n → slice 0 n l = l.
Proof. intros <-. unfold slice. rw drop_0 Nat.sub_0_r. apply firstn_all. Qed.

(** A decoder that inverts an encoder element-wise inverts it on vectors. *)
Lemma collect_inverse {A B E} (f : A → result B E) (g : B → A)
    (Q : A → Prop) (P : B → Prop) l ys :
  (∀ x y, Q x → f x = Ok y → g y = x ∧ P y) →
  Forall Q l → collect f l = Ok ys → g <$> ys = l ∧ Forall P ys.
Proof.
  intros Hf HQ Hc%collect_Forall2. revert HQ.
  induction Hc as [|x y l ys Hxy _ IH]; intros HQ; [done|].
  apply Forall_cons in HQ as [Hx HQ]. destruct (IH HQ) as [IH1 IH2].
  destruct (Hf _ _ Hx Hxy) as [<- HP]. cbn. rw IH1. by split; [|constructor].
Qed.

(** ** ACK entries *)

Lemma length_ack_entry_bytes e : length (ack_entry_bytes e) = ACK_ENTRY_LEN.
Proof.
  unfold ack_entry_bytes. rw !length_app !length_to_be_bytes length_array_bytes //.
Qed.

Lemma read_write_ack_entry e :
  ack_entry_wf e → read_ack_entry (ack_entry_bytes e) = Ok e.
Proof.
  intros [Hh Hr]. unfold read_ack_entry, ack_entry_bytes.
  pose proof (length_array_bytes (ack_transaction_id e)) as Hid.
  rw slice_0_app // fixed_field_array.
  rw slice_app ?length_to_be_bytes // app_assoc.
  rw slice_app_last ?length_app ?length_to_be_bytes ?Hid //.
  unfold U32_MAX in *. rw !be_field_to_be; [cbn; lia..|]. by destruct e.
Qed.

Lemma read_ack_entry_Ok chunk e :
  length chunk = ACK_ENTRY_LEN → read_ack_entry chunk = Ok e →
  ack_entry_bytes e = chunk ∧ ack_entry_wf e.
Proof.
  intros Hl. unfold read_ack_entry.
  destruct (fixed_field 16 _) as [id|] eqn:Hid; [|done].
  destruct (be_field 4 (slice 16 20 chunk)) as [h|] eqn:Hh; [|done].
  destruct (be_field 4 (slice 20 24 chunk)) as [r|] eqn:Hr; [|done].
  intros [= <-]. apply fixed_field_Ok in Hid. apply be_field_Ok in Hh as [Hh Hh'].
  apply be_field_Ok in Hr as [Hr Hr']. split.
  - unfold ack_entry_bytes. cbn [ack_transaction_id highest_contiguous_seq received_frames].
    rw Hid Hh Hr !slice_join; [lia..|]. by apply slice_full.
  - change (256 ^ N.of_nat 4)%N with 4294967296%N in *.
    unfold ack_entry_wf, U32_MAX. cbn [highest_contiguous_seq received_frames]. lia.
Qed.

Lemma Forall_ack_lengths es :
  Forall (λ x, length x = ACK_ENTRY_LEN) (ack_entry_bytes <$> es).
Proof. apply Forall_fmap, Forall_true. apply length_ack_entry_bytes. Qed.

Lemma len_write_ack_entries b es :
  len (write_ack_entries [b] es) = (1 + len es * 24)%N.
Proof.
  unfold write_ack_entries. rw len_app. unfold len at 2.
  rw (length_concat_uniform _ _ (Forall_ack_lengths es)) length_fmap.
  unfold len, ACK_ENTRY_LEN. cbn [length]. lia.
Qed.

Lemma decode_write_ack_entries mn es :
  Forall ack_entry_wf es → (mn ≤ len es ≤ 255)%N →
  decode_ack_entries mn (write_ack_entries [byte_of_N (len es)] es) = Ok es.
Proof.
  intros Hwf Hn. unfold write_ack_entries. cbn [app decode_ack_entries].
  rw byte_of_len; [lia|]. rw (proj2 (check_count_Ok _ _ _) Hn).
  pose proof (Forall_ack_lengths es) as Hlen. case_decide as Hd.
  - destruct Hd. unfold len.
    rw (length_concat_uniform _ _ Hlen) length_fmap. lia.
  - unfold read_ack_entries. rw chunks_exact_concat //; [unfold ACK_ENTRY_LEN; lia|].
    rw take_ge; [rw length_fmap; unfold len; lia|].
    apply collect_Ok_map. eapply Forall_impl; [done|]. apply read_write_ack_entry.
Qed.

Lemma decode_ack_entries_Ok mn bs es :
  decode_ack_entries mn bs = Ok es →
  Forall ack_entry_wf es ∧ (mn ≤ len es ≤ 255)%N ∧
  bs = write_ack_entries [byte_of_N (len es)] es.
Proof.
  destruct bs as [|c rest]; [done|]. cbn [decode_ack_entries].
  destruct (check_count_cases (Byte.to_N c) mn 255) as [[Hc ->]| ->]; [|done].
  case_decide as Hd; [done|]. unfold read_ack_entries.
  destruct (chunks_exact_spec ACK_ENTRY_LEN (N.to_nat (Byte.to_N c)) rest)
    as (Hcat & Hn & Hall); [unfold ACK_ENTRY_LEN; lia|unfold len in Hd; lia|].
  rw take_ge; [lia|]. intros Hr.
  destruct (collect_inverse _ ack_entry_bytes _ _ _ _ read_ack_entry_Ok Hall Hr)
    as [Hes Hwf].
  assert (Hle : len es = Byte.to_N c).
  { rw -(len_fmap ack_entry_bytes) Hes /len Hn. lia. }
  split; [done|]. rw Hle. split; [done|].
  unfold write_ack_entries. rw Hes Hcat byte_of_to_N. done.
Qed.

Lemma ack_cap (es : list AckEntry) b :
  (len es ≤ 255)%N → (len (write_ack_entries [b] es) ≤ CONTROL_PAYLOAD_CAP)%N.
Proof.
  intros. rw len_write_ack_entries. unfold CONTROL_PAYLOAD_CAP, MAX_CONTROL_FRAME_LEN. lia.
Qed.

(** ** NACK entries *)

Lemma nack_entry_bytes_Ok e bs :
  nack_entry_bytes e = Ok bs ↔
  (len (missing_seqs e) ≤ U16_MAX)%N ∧
  bs = array_bytes (nack_transaction_id e) ++
       to_be_bytes 2 (len (missing_seqs e)) ++
       concat (to_be_bytes 4 <$> missing_seqs e).
Proof.
  unfold nack_entry_bytes. destruct (N.ltb_spec U16_MAX (len (missing_seqs e))).
  - split; [done|]. lia.
  - rw as_u16_small //. split; [by intros [= <-]|by intros [_ ->]].
Qed.

Lemma Forall_be4_lengths (l : list N) :
  Forall (λ x, length x = 4) (to_be_bytes 4 <$> l).
Proof. apply Forall_fmap, Forall_true. intros. apply length_to_be_bytes. Qed.

Lemma len_be4 (l : list N) : len (concat (to_be_bytes 4 <$> l)) = (len l * 4)%N.
Proof.
  unfold len. rw (length_concat_uniform _ _ (Forall_be4_lengths l)) length_fmap. lia.
Qed.

Lemma read_write_nack_entry e bs rest :
  nack_entry_wf e → nack_entry_bytes e = Ok bs →
  read_nack_entry (bs ++ rest) = Ok (e, rest).
Proof.
  intros Hwf [Hn ->]%nack_entry_bytes_Ok.
  destruct e as [id ms]; cbn [missing_seqs nack_transaction_id] in *.
  pose proof (length_array_bytes id) as Hid.
  set (body := concat (to_be_bytes 4 <$> ms)).
  assert (Hb : len body = (len ms * 4)%N) by apply len_be4.
  assert (H18 : length (array_bytes id ++ to_be_bytes 2 (len ms)) = 18)
    by rw length_app Hid length_to_be_bytes //.
  unfold read_nack_entry. rw -!app_assoc.
  destruct (Nat.ltb_spec (length
    (array_bytes id ++ to_be_bytes 2 (len ms) ++ body ++ rest)) 18) as [Hlt|_].
  { clearbody body. rw app_assoc length_app H18 in Hlt. lia. }
  rw slice_0_app // fixed_field_array.
  rw (byte_at_app_r (array_bytes id) _ 16) ?(byte_at_app_r (array_bytes id) _ 17)
    ?Hid; [lia..|]. cbn [Nat.sub].
  rw !byte_at_app_l ?length_to_be_bytes; [lia..|].
  change (from_be_bytes [_; _]) with (from_be_bytes (to_be_bytes 2 (len ms))).
  rw from_to_be_u16 // app_assoc drop_app_length' //.
  destruct (N.ltb_spec (len (body ++ rest)) (len ms * 4)) as [Hlt|_].
  { rw len_app in Hlt. lia. }
  assert (Hbl : length body = N.to_nat (len ms * 4)) by (rw -Hb /len Nat2N.id //).
  rw take_app_length' // drop_app_length' // /body chunks_exact_concat;
    [lia|apply Forall_be4_lengths|].
  rw collect_Ok_map //. eapply Forall_impl; [done|]. cbn.
  intros s Hs. apply be_field_to_be. unfold U32_MAX in Hs. cbn. lia.
Qed.

Lemma read_nack_entry_Ok l e rest :
  read_nack_entry l = Ok (e, rest) →
  nack_entry_wf e ∧ ∃ bs, nack_entry_bytes e = Ok bs ∧ l = bs ++ rest.
Proof.
  unfold read_nack_entry. destruct (Nat.ltb_spec (length l) 18) as [|H18]; [done|].
  destruct (fixed_field 16 _) as [id|] eqn:Hid; [|done].
  apply fixed_field_Ok in Hid. set (mc := from_be_bytes _).
  destruct (N.ltb_spec (len (drop 18 l)) (mc * 4)) as [|Hge]; [done|].
  set (body := take (N.to_nat (mc * 4)) (drop 18 l)).
  assert (Hbl : length body = N.to_nat mc * 4).
  { unfold body. rw length_take. unfold len in Hge. lia. }
  destruct (chunks_exact_spec 4 (N.to_nat mc) body) as (Hcat & Hlen & Hall); [lia|done|].
  destruct (collect (be_field 4) _) as [seqs|] eqn:Hc; [|done].
  intros [= <- <-].
  destruct (collect_inverse _ (to_be_bytes 4) _ (λ s, (s < 256 ^ N.of_nat 4)%N)
    _ _ (λ x y _ H, be_field_Ok 4 x y H) Hall Hc) as [Hseqs Hwf].
  assert (Hn : len seqs = mc) by (rw -(len_fmap (to_be_bytes 4)) Hseqs /len Hlen; lia).
  assert (Hmc : to_be_bytes 2 mc = slice 16 18 l ∧ (mc ≤ U16_MAX)%N).
  { assert (slice 16 18 l = [byte_at l 16; byte_at l 17]) as Hs.
    { unfold slice, byte_at. do 18 (destruct l as [|? l]; [cbn in H18; lia|]). done. }
    rw Hs. split; [by apply to_from_be_bytes|].
    pose proof (from_be_bytes_bound [byte_at l 16; byte_at l 17]) as Hb.
    change (256 ^ len _)%N with 65536%N in Hb. unfold U16_MAX, mc. lia. }
  destruct Hmc as [Hmc Hmax]. split.
  - unfold nack_entry_wf. cbn [missing_seqs]. eapply Forall_impl; [exact Hwf|].
    cbn. unfold U32_MAX. intros. lia.
  - eexists. split; [apply nack_entry_bytes_Ok; cbn [missing_seqs nack_transaction_id];
      rw Hn; split; [done|reflexivity]|].
    rw Hid Hmc Hseqs Hcat -!app_assoc app_assoc slice_join; [lia..|].
    unfold body. rw take_drop. unfold slice. rw drop_0 take_drop. done.
Qed.

Lemma read_write_nack_entries es body rest :
  Forall nack_entry_wf es → collect nack_entry_bytes es = Ok body →
  read_nack_entries (length es) (concat body ++ rest) = Ok (es, rest).
Proof.
  intros Hwf Hc%collect_Forall2. revert Hwf.
  induction Hc as [|e b es body Hb _ IH]; intros Hwf; [done|].
  apply Forall_cons in Hwf as [He Hwf]. cbn [length concat read_nack_entries].
  rw -app_assoc (read_write_nack_entry _ _ _ He Hb). cbn [fst snd]. by rw IH.
Qed.

Lemma read_nack_entries_Ok n l es rest :
  read_nack_entries n l = Ok (es, rest) →
  length es = n ∧ Forall nack_entry_wf es ∧
  ∃ body, collect nack_entry_bytes es = Ok body ∧ l = concat body ++ rest.
Proof.
  revert l es. induction n as [|n IH]; intros l es; cbn [read_nack_entries].
  - intros [= <- <-]. split; [done|]. split; [done|]. by exists [].
  - destruct (read_nack_entry l) as [[e r]|] eqn:He; [|done]. cbn [fst snd].
    destruct (read_nack_entries n r) as [[es' r']|] eqn:Hes; [|done].
    intros [= <- <-]. apply read_nack_entry_Ok in He as (Hwf & bs & Hbs & ->).
    apply IH in Hes as (Hl & Hwfs & body & Hbody & ->).
    split; [cbn; by rw Hl|]. split; [by constructor|].
    exists (bs :: body). cbn [collect concat]. rw Hbs Hbody. split; [done|].
    by rw -app_assoc.
Qed.

(** ** RESUME_RESPONSE entries *)

Lemma ResumeStatus_from_to s : ResumeStatus_from_u8 (ResumeStatus_to_u8 s) = Ok s.
Proof. by destruct s. Qed.

Lemma ResumeStatus_from_u8_Ok b s :
  ResumeStatus_from_u8 b = Ok s → ResumeStatus_to_u8 s = b.
Proof. by destruct b; intros [= <-]. Qed.

Lemma length_status_entry_bytes e :
  length (status_entry_bytes e) = RESUME_STATUS_ENTRY_LEN.
Proof. unfold status_entry_bytes. rw length_app length_array_bytes //. Qed.

Lemma Forall_status_lengths es :
  Forall (λ x, length x = RESUME_STATUS_ENTRY_LEN) (status_entry_bytes <$> es).
Proof. apply Forall_fmap, Forall_true. apply length_status_entry_bytes. Qed.

Lemma read_write_status_entry e :
  read_status_entry (status_entry_bytes e) = Ok e.
Proof.
  unfold read_status_entry, status_entry_bytes.
  pose proof (length_array_bytes (rse_transaction_id e)) as Hid.
  rw slice_0_app // fixed_field_array byte_at_app_r Hid //.
  change (byte_at [_] _) with (ResumeStatus_to_u8 (rse_status e)).
  rw ResumeStatus_from_to. by destruct e.
Qed.

Lemma read_status_entry_Ok chunk e :
  length chunk = RESUME_STATUS_ENTRY_LEN → read_status_entry chunk = Ok e →
  status_entry_bytes e = chunk ∧ True.
Proof.
  intros Hl. unfold read_status_entry.
  destruct (fixed_field 16 _) as [id|] eqn:Hid; [|done].
  destruct (ResumeStatus_from_u8 _) as [s|] eqn:Hs; [|done].
  intros [= <-]. apply fixed_field_Ok in Hid. apply ResumeStatus_from_u8_Ok in Hs.
  split; [|done]. unfold status_entry_bytes. cbn [rse_transaction_id rse_status].
  rw Hid Hs. unfold slice, byte_at. clear -Hl. unfold RESUME_STATUS_ENTRY_LEN in Hl.
  do 17 (destruct chunk as [|? chunk]; [cbn in Hl; lia|]).
  destruct chunk; [done|cbn in Hl; lia].
Qed.

(** ** The codecs satisfy the interface *)

(** The two count-prefixed ACK-entry payloads differ only in the smallest
    legal count. *)
Lemma ack_entries_encode_Ok mn es bs :
  (let? _ := check_count (len es) mn 255 in
   finish (write_ack_entries [byte_of_N (len es)] es)) = Ok bs ↔
  (mn ≤ len es ≤ 255)%N ∧ bs = write_ack_entries [byte_of_N (len es)] es.
Proof.
  destruct (check_count_cases (len es) mn 255) as [[Hc Hcc]|Hcc]; rw Hcc.
  - rw finish_Ok. split; [by intros [-> _]|]. intros [_ ->].
    split; [done|]. apply ack_cap. lia.
  - split; [done|]. intros [Hc _]. apply check_count_Ok in Hc. congruence.
Qed.

#[export] Instance AckPayload_laws : ControlPayloadLaws AckPayload.
Proof.
  split; [done|..].
  - intros [es] bs [Hn ->]%ack_entries_encode_Ok. apply ack_cap. cbn in *. lia.
  - intros [es] bs Hwf [Hn ->]%ack_entries_encode_Ok. cbn in *.
    unfold AckPayload_decode. by rw decode_write_ack_entries.
  - intros p bs. cbn. unfold AckPayload_decode.
    destruct (decode_ack_entries 1 bs) as [es|] eqn:E; [|done]. intros [= <-] _.
    apply decode_ack_entries_Ok in E as (Hwf & Hn & Hbs).
    split; [done|]. by apply ack_entries_encode_Ok.
Qed.

#[export] Instance ResumeRequestPayload_laws : ControlPayloadLaws ResumeRequestPayload.
Proof.
  split; [done|..].
  - intros [es] bs [Hn ->]%ack_entries_encode_Ok. apply ack_cap. cbn in *. lia.
  - intros [es] bs Hwf [Hn ->]%ack_entries_encode_Ok. cbn in *.
    unfold ResumeRequestPayload_decode. by rw decode_write_ack_entries.
  - intros p bs. cbn. unfold ResumeRequestPayload_decode.
    destruct (decode_ack_entries 0 bs) as [es|] eqn:E; [|done]. intros [= <-] _.
    apply decode_ack_entries_Ok in E as (Hwf & Hn & Hbs).
    split; [done|]. by apply ack_entries_encode_Ok.
Qed.

Lemma NackPayload_encode_Ok es bs :
  NackPayload_encode (mkNackPayload es) = Ok bs ↔
  (1 ≤ len es ≤ 255)%N ∧ (len bs ≤ CONTROL_PAYLOAD_CAP)%N ∧
  ∃ body, collect nack_entry_bytes es = Ok body ∧
          bs = byte_of_N (len es) :: concat body.
Proof.
  unfold NackPayload_encode. cbn [nack_entries].
  destruct (check_count_cases (len es) 1 255) as [[Hc Hcc]|Hcc]; rw Hcc.
  - destruct (collect nack_entry_bytes es) as [body|].
    + rw finish_Ok. split; [intros [-> Hcap]; eauto|].
      by intros (_ & Hcap & body' & [= <-] & ->).
    + split; [done|]. by intros (_ & _ & ? & ? & _).
  - split; [done|]. intros [Hc _]. apply check_count_Ok in Hc. congruence.
Qed.

#[export] Instance NackPayload_laws : ControlPayloadLaws NackPayload.
Proof.
  split; [done|..].
  - by intros [es] bs (_ & Hcap & _)%NackPayload_encode_Ok.
  - intros [es] bs Hwf (Hn & _ & body & Hb & ->)%NackPayload_encode_Ok.
    cbn in Hwf |- *. rw byte_of_len; [lia|].
    rw (proj2 (check_count_Ok _ _ _) Hn) /len Nat2N.id -(app_nil_r (concat body)).
    by rw (read_write_nack_entries _ _ _ Hwf Hb).
  - intros p bs. cbn. destruct bs as [|c rest]; [done|]. cbn [NackPayload_decode].
    destruct (check_count_cases (Byte.to_N c) 1 255) as [[Hc ->]| ->]; [|done].
    destruct (read_nack_entries _ rest) as [[es r]|] eqn:E; [|done]. cbn [fst snd].
    destruct r as [|]; [|done]. intros [= <-] Hcap.
    apply read_nack_entries_Ok in E as (Hl & Hwf & body & Hb & ->).
    split; [done|]. apply NackPayload_encode_Ok.
    assert (len es = Byte.to_N c) as -> by (unfold len; lia).
    rw app_nil_r in Hcap |- *. rw byte_of_to_N. eauto.
Qed.

#[export] Instance ResumeResponsePayload_laws :
  ControlPayloadLaws ResumeResponsePayload.
Proof.
  split; [done|..].
  - intros [es] bs. cbn. unfold ResumeResponsePayload_encode.
    destruct (check_count _ _ _); [|done]. by intros [-> ?]%finish_Ok.
  - intros [es] bs _. cbn. unfold ResumeResponsePayload_encode. cbn [response_entries].
    destruct (check_count_cases (len es) 0 255) as [[Hc Hcc]|Hcc]; rw Hcc; [|done].
    intros [-> _]%finish_Ok. cbn [app ResumeResponsePayload_decode].
    rw byte_of_len; [lia|]. rw Hcc. pose proof (Forall_status_lengths es) as Hl.
    case_decide as Hd.
    { destruct Hd. unfold len. rw (length_concat_uniform _ _ Hl) length_fmap. lia. }
    rw chunks_exact_concat //; [unfold RESUME_STATUS_ENTRY_LEN; lia|].
    rw collect_Ok_map //. apply Forall_true. apply read_write_status_entry.
  - intros p bs. cbn. destruct bs as [|c rest]; [done|].
    cbn [ResumeResponsePayload_decode].
    destruct (check_count_cases (Byte.to_N c) 0 255) as [[Hc Hcc]|Hcc]; rw Hcc; [|done].
    case_decide as Hd; [done|].
    destruct (chunks_exact_spec RESUME_STATUS_ENTRY_LEN (N.to_nat (Byte.to_N c)) rest)
      as (Hcat & Hn & Hall);
      [unfold RESUME_STATUS_ENTRY_LEN; lia|unfold len in Hd; lia|].
    destruct (collect _ _) as [es|] eqn:Hr; [|done]. intros [= <-] Hcap.
    destruct (collect_inverse _ status_entry_bytes _ _ _ _ read_status_entry_Ok Hall Hr)
      as [Hes _].
    assert (Hle : len es = Byte.to_N c)
      by (rw -(len_fmap status_entry_bytes) Hes /len Hn; lia).
    split; [done|]. unfold ResumeResponsePayload_encode. cbn [response_entries].
    rw Hle Hcc. apply finish_Ok. rw Hes Hcat byte_of_to_N. done.
Qed.

#[export] Instance HeartbeatPayload_laws : ControlPayloadLaws HeartbeatPayload.
Proof.
  split; [done|..].
  - by intros p bs [-> ?]%finish_Ok.
  - intros [s e] bs [Hs He] [-> _]%finish_Ok.
    cbn [payload_decode HeartbeatPayload_control monotonic_seq sender_epoch_ms] in *.
    unfold HeartbeatPayload_decode.
    case_decide as Hd; [by destruct Hd; rw len_app /len !length_to_be_bytes|].
    rw slice_0_app ?length_to_be_bytes // slice_app_last ?length_to_be_bytes //.
    unfold U32_MAX, U64_MAX in *. rw !be_field_to_be //; cbn; lia.
  - intros p bs. cbn. unfold HeartbeatPayload_decode. case_decide as Hd; [done|].
    destruct (be_field 4 _) as [s|] eqn:Hs; [|done].
    destruct (be_field 8 _) as [e|] eqn:He; [|done]. intros [= <-] Hcap.
    apply be_field_Ok in Hs as [Hs Hs'], He as [He He'].
    assert (Hbs : to_be_bytes 4 s ++ to_be_bytes 8 e = bs).
    { rw Hs He slice_join; [lia..|]. apply slice_full. unfold len in Hd. lia. }
    cbn in Hs', He'. unfold U32_MAX, U64_MAX. cbn [monotonic_seq sender_epoch_ms].
    split; [lia|]. apply finish_Ok. cbn [monotonic_seq sender_epoch_ms]. by rw Hbs.
Qed.

#[export] Instance ErrorPayload_laws : ControlPayloadLaws ErrorPayload.
Proof.
  split; [done|..].
  - by intros p bs [-> ?]%finish_Ok.
  - intros [c m] bs Hc [-> _]%finish_Ok. cbn in Hc |- *. unfold ErrorPayload_decode.
    destruct (Nat.ltb_spec (length (to_be_bytes 2 c ++ rs_bytes m)) 2) as [Hlt|_].
    { rw length_app length_to_be_bytes in Hlt. lia. }
    rw drop_app_length' ?length_to_be_bytes // rstring_of_bytes_bytes.
    rw !byte_at_app_l ?length_to_be_bytes; [lia..|].
    change (from_be_bytes [_; _]) with (from_be_bytes (to_be_bytes 2 c)).
    by rw from_to_be_u16.
  - intros p bs. cbn. unfold ErrorPayload_decode.
    destruct (Nat.ltb_spec (length bs) 2) as [|Hl]; [done|].
    destruct (rstring_of_bytes _) as [m|] eqn:Hm; [|done]. intros [= <-] Hcap.
    apply rstring_of_bytes_Some in Hm. cbn [code].
    destruct bs as [|a [|b bs]]; [cbn in Hl; lia..|].
    cbn [drop byte_at] in Hm. unfold byte_at. cbn [lookup list_lookup default from_option id].
    pose proof (from_be_bytes_bound [a; b]) as Hb.
    change (256 ^ len _)%N with 65536%N in Hb. unfold U16_MAX.
    split; [lia|]. apply finish_Ok. cbn [code message].
    rw to_from_be_bytes // Hm. done.
Qed.

Lemma decode_txid_array (id : txid) : decode_txid (array_bytes id) = Ok id.
Proof.
  unfold decode_txid. case_decide as Hd; [|apply fixed_field_array].
  destruct Hd. unfold len. by rw length_array_bytes.
Qed.

Lemma decode_txid_Ok bs id : decode_txid bs = Ok id → array_bytes id = bs.
Proof. unfold decode_txid. case_decide; [done|]. apply fixed_field_Ok. Qed.

(** The three payloads that are one transaction id. *)
Ltac txid_payload_laws dec :=
  split;
  [ done
  | by intros p bs [-> ?]%finish_Ok
  | intros [id] bs _ [-> _]%finish_Ok; cbn; unfold dec; by rw decode_txid_array
  | intros p bs; cbn; unfold dec;
    destruct (decode_txid bs) as [id|] eqn:E; [|done];
    intros [= <-] Hcap; apply decode_txid_Ok in E as <-;
    split; [done|]; by apply finish_Ok ].

#[export] Instance TransactionPausePayload_laws :
  ControlPayloadLaws TransactionPausePayload.
Proof. txid_payload_laws TransactionPausePayload_decode. Qed.

#[export] Instance TransactionAbortPayload_laws :
  ControlPayloadLaws TransactionAbortPayload.
Proof. txid_payload_laws TransactionAbortPayload_decode. Qed.

#[export] Instance TransactionCompletedPayload_laws :
  ControlPayloadLaws TransactionCompletedPayload.
Proof. txid_payload_laws TransactionCompletedPayload_decode. Qed.

(** ** Properties *)

(** Encoding a well-formed payload and decoding it gives the payload back,
    and the encoding fits the control cap. *)
Definition codec_roundtrip (P : Type) `{ControlPayload P} : Prop :=
  ∀ (p : P) bs, payload_wf p → payload_encode p = Ok bs →
    payload_decode bs = Ok p ∧ (len bs ≤ CONTROL_PAYLOAD_CAP)%N.

(** Decoding is strict: within the control cap, only the canonical encoding
    of a well-formed payload decodes. *)
Definition codec_strict (P : Type) `{ControlPayload P} : Prop :=
  ∀ (p : P) bs, payload_decode bs = Ok p → (len bs ≤ CONTROL_PAYLOAD_CAP)%N →
    payload_wf p ∧ payload_encode p = Ok bs.

Lemma laws_roundtrip P `{ControlPayloadLaws P} : codec_roundtrip P.
Proof.
  intros p bs Hwf He. split; [by apply payload_decode_encode|].
  by eapply payload_encode_cap.
Qed.

Lemma laws_strict P `{ControlPayloadLaws P} : codec_strict P.
Proof. intros p bs. apply payload_encode_decode. Qed.

(** C35: for every control payload type, [decode] inverts [encode] and the
    encoded bytes respect the 16 KiB control-frame cap. *)
Theorem control_payload_roundtrip :
  codec_roundtrip AckPayload ∧ codec_roundtrip NackPayload ∧
  codec_roundtrip ResumeRequestPayload ∧ codec_roundtrip ResumeResponsePayload ∧
  codec_roundtrip HeartbeatPayload ∧ codec_roundtrip ErrorPayload ∧
  codec_roundtrip TransactionPausePayload ∧
  codec_roundtrip TransactionAbortPayload ∧
  codec_roundtrip TransactionCompletedPayload.
Proof. repeat apply conj; apply laws_roundtrip; apply _. Qed.

(** decoding is strict for every control payload type: truncated or
    trailing bytes, counts out of range and unknown statuses are refused, so
    an accepted payload is exactly what the encoder writes for the value
    returned, and the value has in-range fields. *)
Theorem control_payload_strict :
  codec_strict AckPayload ∧ codec_strict NackPayload ∧
  codec_strict ResumeRequestPayload ∧ codec_strict ResumeResponsePayload ∧
  codec_strict HeartbeatPayload ∧ codec_strict ErrorPayload ∧
  codec_strict TransactionPausePayload ∧
  codec_strict TransactionAbortPayload ∧
  codec_strict TransactionCompletedPayload.
Proof. repeat apply conj; apply laws_strict; apply _. Qed.

Lemma is_ok_iff {A E} (r : result A E) : is_ok r = true ↔ ∃ a, r = Ok a.
Proof.
  destruct r as [a|e]; cbn; split; [by exists a|done|done|by intros [a [=]]].
Qed.

(** exactly which progress reports are encodable: an ACK needs 1 to 255
    entries and a RESUME declaration at most 255; the size cap never bites. *)
Theorem ack_entry_count_limits (es : list AckEntry) :
  (is_ok (AckPayload_encode (mkAckPayload es)) = true ↔ (1 ≤ len es ≤ 255)%N) ∧
  (is_ok (ResumeRequestPayload_encode (mkResumeRequestPayload es)) = true ↔
   (len es ≤ 255)%N).
Proof.
  split; rw is_ok_iff.
  - split; [by intros [bs [? _]%ack_entries_encode_Ok]|].
    intros Hn. eexists. by apply ack_entries_encode_Ok.
  - split; [intros [bs [? _]%ack_entries_encode_Ok]; cbn in *; lia|].
    intros Hn. eexists. apply ack_entries_encode_Ok. cbn. split; [lia|done].
Qed.
