(* ===== verification/Sender.v ===== *)
(** * Transaction sender ([src/reliability/transaction.rs])

    The copy holder: splits payloads into DATA_BINARY working frames, retains
    them until they are acknowledged, retransmits on timeout and NACK,
    enforces the backpressure cap and runs the holder side of the RESUME
    recovery discipline.  Every method of [TransactionSender] is a function
    of the sender state; time is an argument, as in the source. *)
From S2P Require Import Prelude Crc Frame Control.

(** ** Data *)

Record SenderConfig : Type := mkSenderConfig {
  frame_size : nat;
  rto_initial_ms : N;
  rto_max_ms : N;
  backpressure_cap_bytes : N;
}.

(** [impl Default for SenderConfig]. *)
Definition SenderConfig_default : SenderConfig :=
  mkSenderConfig (N.to_nat (1024 * 1024)) 2000 30000 (64 * 1024 * 1024).

Inductive BeginError : Type :=
  | Backpressured (unacked_bytes incoming_bytes cap_bytes : N)
  | EmptyPayload
  | BeginPayloadTooLarge (length max : N)
  | DuplicateTransaction
  | UnknownTransaction
  | TotalLenExceeded (total : N)
  | IncompletePayload (written declared : N).

#[export] Instance BeginError_eq_dec : EqDecision BeginError.
Proof. solve_decision. Defined.

Definition current_rto (rto_initial_ms rto_max_ms attempts : N) : N :=
  let shift := N.min attempts 62 in
  N.min (u64_saturating_mul rto_initial_ms (N.shiftl 1 shift)) rto_max_ms.

Record FrameState : Type := mkFrameState {
  confirmed : bool;
  last_sent_ms : N;
  attempts : N;
}.

Record PendingTxn : Type := mkPendingTxn {
  txn_total_len : N;
  txn_frames : list (option Frame);
  txn_states : list FrameState;
  txn_partial : list byte;
  txn_written : N;
  txn_bytes : N;
  txn_paused : bool;
  txn_awaiting_resume : bool;
  txn_declared_ms : option N;
  txn_acked_contiguous : option N;
  txn_acked_received : N;
  txn_last_progress_ms : N;
}.

Record ResumeVerdicts : Type := mkResumeVerdicts {
  v_retransmit : list Frame;
  v_confirmed : list txid;
  v_failed : list txid;
}.

Record TransactionSender : Type := mkTransactionSender {
  s_config : SenderConfig;
  s_pending : gmap txid PendingTxn;
}.

(** ** Field updates *)

Definition set_frames (frs : list (option Frame)) (sts : list FrameState)
    (partial : list byte) (t : PendingTxn) : PendingTxn :=
  mkPendingTxn (txn_total_len t) frs sts partial (txn_written t) (txn_bytes t)
    (txn_paused t) (txn_awaiting_resume t) (txn_declared_ms t)
    (txn_acked_contiguous t) (txn_acked_received t) (txn_last_progress_ms t).

Definition set_states (sts : list FrameState) (t : PendingTxn) : PendingTxn :=
  set_frames (txn_frames t) sts (txn_partial t) t.

Definition set_written_bytes (written bytes : N) (t : PendingTxn) : PendingTxn :=
  mkPendingTxn (txn_total_len t) (txn_frames t) (txn_states t) (txn_partial t)
    written bytes (txn_paused t) (txn_awaiting_resume t) (txn_declared_ms t)
    (txn_acked_contiguous t) (txn_acked_received t) (txn_last_progress_ms t).

Definition set_txn_paused (b : bool) (t : PendingTxn) : PendingTxn :=
  mkPendingTxn (txn_total_len t) (txn_frames t) (txn_states t) (txn_partial t)
    (txn_written t) (txn_bytes t) b (txn_awaiting_resume t) (txn_declared_ms t)
    (txn_acked_contiguous t) (txn_acked_received t) (txn_last_progress_ms t).

Definition set_gate (awaiting : bool) (declared : option N) (t : PendingTxn) :
    PendingTxn :=
  mkPendingTxn (txn_total_len t) (txn_frames t) (txn_states t) (txn_partial t)
    (txn_written t) (txn_bytes t) (txn_paused t) awaiting declared
    (txn_acked_contiguous t) (txn_acked_received t) (txn_last_progress_ms t).

Definition set_acked (contiguous : option N) (received : N) (t : PendingTxn) :
    PendingTxn :=
  mkPendingTxn (txn_total_len t) (txn_frames t) (txn_states t) (txn_partial t)
    (txn_written t) (txn_bytes t) (txn_paused t) (txn_awaiting_resume t)
    (txn_declared_ms t) contiguous received (txn_last_progress_ms t).

Definition set_progress (now : N) (t : PendingTxn) : PendingTxn :=
  mkPendingTxn (txn_total_len t) (txn_frames t) (txn_states t) (txn_partial t)
    (txn_written t) (txn_bytes t) (txn_paused t) (txn_awaiting_resume t)
    (txn_declared_ms t) (txn_acked_contiguous t) (txn_acked_received t) now.

Definition set_pending (s : TransactionSender) (id : txid) (t : PendingTxn) :
    TransactionSender :=
  mkTransactionSender (s_config s) (<[id := t]> (s_pending s)).

(** ** [impl PendingTxn] *)

Definition frame_count (t : PendingTxn) : N := as_u32 (len (txn_frames t)).

Definition is_fully_sent (t : PendingTxn) : bool :=
  (txn_written t =? txn_total_len t)%N && bool_decide (txn_partial t = []).

(** [n.checked_sub(1)]. *)
Definition checked_pred (n : N) : option N :=
  if (n =? 0)%N then None else Some (n - 1)%N.

Definition is_fully_acked (t : PendingTxn) : bool :=
  if negb (is_fully_sent t) then false
  else
    let last := checked_pred (frame_count t) in
    bool_decide (txn_acked_contiguous t = last) && bool_decide (is_Some last) &&
    (frame_count t <=? txn_acked_received t)%N.

(** ** [impl TransactionSender] *)

Definition TransactionSender_new (config : SenderConfig) : TransactionSender :=
  mkTransactionSender
    (mkSenderConfig (Nat.max (frame_size config) 1) (rto_initial_ms config)
       (rto_max_ms config) (backpressure_cap_bytes config)) ∅.

Definition contains_transaction (s : TransactionSender) (id : txid) : bool :=
  bool_decide (is_Some (s_pending s !! id)).

Definition unacked_bytes (s : TransactionSender) : N :=
  map_sum txn_bytes (s_pending s).

Definition is_paused (s : TransactionSender) : bool :=
  (backpressure_cap_bytes (s_config s) <=? unacked_bytes s)%N.

Definition open_transaction (s : TransactionSender) (id : txid)
    (total_len now_ms : N) : TransactionSender * result unit BeginError :=
  if contains_transaction s id then (s, Err DuplicateTransaction)
  else if (total_len =? 0)%N then (s, Err EmptyPayload)
  else
    (set_pending s id
       (mkPendingTxn total_len [] [] [] 0 0 false false None None 0 now_ms),
     Ok tt).

(** One DATA_BINARY working frame joins the transaction: the copy, its send
    state, and the frame to write. *)
Definition push_frame (id : txid) (now_ms : N) (payload partial : list byte)
    (t : PendingTxn) : PendingTxn * Frame :=
  let sq := as_u32 (len (txn_frames t)) in
  let f := Frame_new DataBinary id (txn_total_len t) sq payload in
  (set_frames (txn_frames t ++ [Some f])
     (txn_states t ++ [mkFrameState false now_ms 0]) partial t, f).

(** [while txn.partial.len() >= frame_size].  The constructor clamps the frame
    size to at least 1, so every iteration shortens the buffer and its length
    is enough fuel ([append_frames_exit]). *)
Fixpoint append_frames (fuel size : nat) (id : txid) (now_ms : N)
    (t : PendingTxn) (out : list Frame) : PendingTxn * list Frame :=
  match fuel with
  | O => (t, out)
  | S fuel' =>
      if Nat.leb size (length (txn_partial t))
      then
        let (t', f) :=
          push_frame id now_ms (take size (txn_partial t))
            (drop size (txn_partial t)) t in
        append_frames fuel' size id now_ms t' (out ++ [f])
      else (t, out)
  end.

Definition append_chunk (s : TransactionSender) (id : txid) (chunk : list byte)
    (now_ms : N) : TransactionSender * result (list Frame) BeginError :=
  let unacked := unacked_bytes s in
  match s_pending s !! id with
  | None => (s, Err UnknownTransaction)
  | Some txn =>
      let cap := backpressure_cap_bytes (s_config s) in
      if (cap <? unacked + len chunk)%N
      then (s, Err (Backpressured unacked (len chunk) cap))
      else if (txn_total_len txn <? txn_written txn + len chunk)%N
      then (s, Err (TotalLenExceeded (txn_total_len txn)))
      else
        let txn1 :=
          set_written_bytes (txn_written txn + len chunk)
            (txn_bytes txn + len chunk)
            (set_frames (txn_frames txn) (txn_states txn)
               (txn_partial txn ++ chunk) txn) in
        let (txn2, out) :=
          append_frames (length (txn_partial txn1)) (frame_size (s_config s))
            id now_ms txn1 [] in
        (set_pending s id txn2, Ok out)
  end.

Definition finish_transaction (s : TransactionSender) (id : txid) (now_ms : N) :
    TransactionSender * result (list Frame) BeginError :=
  match s_pending s !! id with
  | None => (s, Err UnknownTransaction)
  | Some txn =>
      let (txn', out) :=
        if bool_decide (txn_partial txn = []) then (txn, [])
        else
          let (t', f) := push_frame id now_ms (txn_partial txn) [] txn in (t', [f]) in
      let s' := set_pending s id txn' in
      if decide (txn_written txn' ≠ txn_total_len txn')
      then (s', Err (IncompletePayload (txn_written txn') (txn_total_len txn')))
      else (s', Ok out)
  end.

Definition begin_transaction (s : TransactionSender) (id : txid)
    (payload : list byte) (now_ms : N) :
    TransactionSender * result (list Frame) BeginError :=
  let incoming := len payload in
  let unacked := unacked_bytes s in
  let cap := backpressure_cap_bytes (s_config s) in
  if (cap <? unacked + incoming)%N
  then (s, Err (Backpressured unacked incoming cap))
  else
    match open_transaction s id (as_u32 (len payload)) now_ms with
    | (s1, Err e) => (s1, Err e)
    | (s1, Ok _) =>
        match append_chunk s1 id payload now_ms with
        | (s2, Err e) => (s2, Err e)
        | (s2, Ok frames) =>
            match finish_transaction s2 id now_ms with
            | (s3, Err e) => (s3, Err e)
            | (s3, Ok tail) => (s3, Ok (frames ++ tail))
            end
        end
    end.

Definition set_paused (s : TransactionSender) (id : txid) (paused : bool)
    (now_ms : N) : TransactionSender * bool :=
  match s_pending s !! id with
  | None => (s, false)
  | Some txn =>
      let rearm st :=
        if confirmed st then st else mkFrameState false now_ms (attempts st) in
      let sts :=
        if paused then txn_states txn else rearm <$> txn_states txn in
      (set_pending s id (set_states sts (set_txn_paused paused txn)), true)
  end.

Definition abort_transaction (s : TransactionSender) (id : txid) :
    TransactionSender * bool :=
  (mkTransactionSender (s_config s) (delete id (s_pending s)),
   contains_transaction s id).

Definition is_transaction_paused (s : TransactionSender) (id : txid) : bool :=
  match s_pending s !! id with Some txn => txn_paused txn | None => false end.

(** Confirm a state, keeping its clock. *)
Definition confirm (st : FrameState) : FrameState :=
  mkFrameState true (last_sent_ms st) (attempts st).

(** [if let Some(released) = frame.take() { bytes.saturating_sub(..) }]. *)
Definition release_bytes (bytes : N) (f : option Frame) : N :=
  match f with Some f => bytes - len (payload f) | None => bytes end.

(** The part of [handle_ack] that acts on the transaction itself. *)
Definition ack_txn (e : AckEntry) (now_ms : N) (txn : PendingTxn) : PendingTxn :=
  let acked :=
    match txn_acked_contiguous txn with
    | None => highest_contiguous_seq e
    | Some h => N.max h (highest_contiguous_seq e)
    end in
  let received := N.max (txn_acked_received txn) (received_frames e) in
  let last := (frame_count txn - 1)%N in
  let acked := N.min acked last in
  let upto := Nat.min (N.to_nat acked + 1) (length (txn_states txn)) in
  let sts := (confirm <$> take upto (txn_states txn)) ++ drop upto (txn_states txn) in
  let bytes := foldl release_bytes (txn_bytes txn) (take upto (txn_frames txn)) in
  let frs :=
    ((λ _, None) <$> take upto (txn_frames txn)) ++ drop upto (txn_frames txn) in
  set_written_bytes (txn_written txn) bytes
    (set_frames frs sts (txn_partial txn)
       (set_progress now_ms (set_acked (Some acked) received txn))).

Definition handle_ack (s : TransactionSender) (e : AckEntry) (now_ms : N) :
    TransactionSender * bool :=
  match s_pending s !! ack_transaction_id e with
  | None => (s, false)
  | Some txn =>
      let txn' := ack_txn e now_ms txn in
      if is_fully_acked txn'
      then (mkTransactionSender (s_config s)
              (delete (ack_transaction_id e) (s_pending s)), true)
      else (set_pending s (ack_transaction_id e) txn', false)
  end.

(** One iteration of the NACK loop over the listed seqs. *)
Definition nack_one (frs : list (option Frame)) (now_ms : N)
    (acc : list FrameState * list Frame) (sq : N) : list FrameState * list Frame :=
  let '(sts, out) := acc in
  match sts !! N.to_nat sq with
  | None => (sts, out)
  | Some st =>
      if confirmed st then (sts, out)
      else
        let sts' := <[N.to_nat sq := mkFrameState false now_ms (attempts st)]> sts in
        match frs !! N.to_nat sq with
        | Some (Some f) => (sts', out ++ [f])
        | _ => (sts', out)
        end
  end.

Definition handle_nack (s : TransactionSender) (id : txid) (missing : list N)
    (now_ms : N) : TransactionSender * list Frame :=
  match s_pending s !! id with
  | None => (s, [])
  | Some txn =>
      let txn := set_progress now_ms txn in
      if txn_paused txn then (set_pending s id txn, [])
      else
        let '(sts, out) :=
          foldl (nack_one (txn_frames txn) now_ms) (txn_states txn, []) missing in
        (set_pending s id (set_states sts txn), out)
  end.

(** [for (state, frame) in states.iter_mut().zip(frames.iter())]: every
    unconfirmed frame that is [due] is marked resent and cloned out. *)
Fixpoint resend_walk (due : FrameState → bool) (now_ms : N)
    (sts : list FrameState) (frs : list (option Frame)) :
    list FrameState * list Frame :=
  match sts, frs with
  | st :: sts', f :: frs' =>
      let '(rest, out) := resend_walk due now_ms sts' frs' in
      if confirmed st then (st :: rest, out)
      else if due st
      then (mkFrameState false now_ms (u32_succ (attempts st)) :: rest,
            match f with Some f => f :: out | None => out end)
      else (st :: rest, out)
  | _, _ => (sts, [])
  end.

Definition rto_elapsed (cfg : SenderConfig) (now_ms : N) (st : FrameState) : bool :=
  (current_rto (rto_initial_ms cfg) (rto_max_ms cfg) (attempts st)
     <=? now_ms - last_sent_ms st)%N.

Definition due_txn (cfg : SenderConfig) (now_ms : N) (txn : PendingTxn) :
    PendingTxn * list Frame :=
  if txn_paused txn || txn_awaiting_resume txn then (txn, [])
  else
    let '(sts, out) :=
      resend_walk (rto_elapsed cfg now_ms) now_ms (txn_states txn) (txn_frames txn) in
    (set_states sts txn, out).

Definition due_retransmissions (s : TransactionSender) (now_ms : N) :
    TransactionSender * list Frame :=
  let '(pending, out) := iter_mut (λ _, due_txn (s_config s) now_ms) (s_pending s) in
  (mkTransactionSender (s_config s) pending, out).

(** The progress entry a RESUME declaration carries for a held copy. *)
Definition declaration (id : txid) (txn : PendingTxn) : AckEntry :=
  mkAckEntry id (frame_count txn - 1) (frame_count txn).

Definition declare_txn (now_ms : N) (id : txid) (txn : PendingTxn) :
    PendingTxn * list AckEntry :=
  (set_gate true (Some now_ms) txn, [declaration id txn]).

Definition declare_pending (s : TransactionSender) (now_ms : N) :
    TransactionSender * list AckEntry :=
  let '(pending, out) := iter_mut (declare_txn now_ms) (s_pending s) in
  (mkTransactionSender (s_config s) pending, out).

Definition redeclare_txn (now_ms timeout_ms : N) (id : txid) (txn : PendingTxn) :
    PendingTxn * list AckEntry :=
  if negb (txn_awaiting_resume txn) then (txn, [])
  else
    match txn_declared_ms txn with
    | None => (txn, [])
    | Some declared =>
        if (now_ms - declared <? timeout_ms)%N then (txn, [])
        else (set_gate (txn_awaiting_resume txn) (Some now_ms) txn,
              [declaration id txn])
    end.

Definition timed_out_declarations (s : TransactionSender) (now_ms timeout_ms : N) :
    TransactionSender * list AckEntry :=
  let '(pending, out) := iter_mut (redeclare_txn now_ms timeout_ms) (s_pending s) in
  (mkTransactionSender (s_config s) pending, out).

Definition is_awaiting_resume (s : TransactionSender) (id : txid) : bool :=
  match s_pending s !! id with
  | Some txn => txn_awaiting_resume txn
  | None => false
  end.

(** [Resumed]: lift the gate; unless paused, resend every unconfirmed frame. *)
Definition resume_txn (now_ms : N) (txn : PendingTxn) : PendingTxn * list Frame :=
  let txn := set_progress now_ms (set_gate false None txn) in
  if txn_paused txn then (txn, [])
  else
    let '(sts, out) :=
      resend_walk (λ _, true) now_ms (txn_states txn) (txn_frames txn) in
    (set_states sts txn, out).

Definition apply_verdict (now_ms : N) (acc : TransactionSender * ResumeVerdicts)
    (e : ResumeStatusEntry) : TransactionSender * ResumeVerdicts :=
  let '(s, out) := acc in
  let id := rse_transaction_id e in
  match rse_status e with
  | Resumed =>
      match s_pending s !! id with
      | None => (s, out)
      | Some txn =>
          let '(txn', frs) := resume_txn now_ms txn in
          (set_pending s id txn',
           mkResumeVerdicts (v_retransmit out ++ frs) (v_confirmed out) (v_failed out))
      end
  | StatusUnknown | Rejected =>
      match s_pending s !! id with
      | None => (s, out)
      | Some txn =>
          let s' := mkTransactionSender (s_config s) (delete id (s_pending s)) in
          (s',
           if is_fully_sent txn
           then mkResumeVerdicts (v_retransmit out) (v_confirmed out ++ [id]) (v_failed out)
           else mkResumeVerdicts (v_retransmit out) (v_confirmed out) (v_failed out ++ [id]))
      end
  end.

Definition apply_resume_verdicts (s : TransactionSender)
    (entries : list ResumeStatusEntry) (now_ms : N) :
    TransactionSender * ResumeVerdicts :=
  foldl (apply_verdict now_ms) (s, mkResumeVerdicts [] [] []) entries.

(** ** The transaction invariant

    [pieces] is the abstract content of a transaction: the payloads of the
    working frames cut so far, in [seq] order. *)

Definition piece_frame (id : txid) (total : N) (i : nat) (p : list byte) : Frame :=
  Frame_new DataBinary id total (N.of_nat i) p.

(** [f] is the working frame some piece of the transaction was sent as. *)
Definition frame_of_piece (id : txid) (total : N) (pieces : list (list byte))
    (f : Frame) : Prop :=
  ∃ i p, pieces !! i = Some p ∧ f = piece_frame id total i p.

(** Payload bytes of the copies still held. *)
Definition held_bytes (frs : list (option Frame)) : N :=
  foldr (λ f acc, (from_option (len ∘ payload) 0 f + acc)%N) 0%N frs.

Record txn_inv (size : nat) (id : txid) (pieces : list (list byte))
    (t : PendingTxn) : Prop := {
  ti_total : (1 ≤ txn_total_len t ≤ U32_MAX)%N;
  ti_written : txn_written t = (len (concat pieces) + len (txn_partial t))%N;
  ti_written_le : (txn_written t ≤ txn_total_len t)%N;
  ti_partial : length (txn_partial t) < size;
  ti_pieces : Forall (λ p, 1 ≤ length p ≤ size) pieces;
  ti_len : length (txn_frames t) = length pieces;
  ti_copies : confirmed <$> txn_states t =
              (λ f, bool_decide (f = None)) <$> txn_frames t;
  ti_held : ∀ i f, txn_frames t !! i = Some (Some f) →
            ∃ p, pieces !! i = Some p ∧ f = piece_frame id (txn_total_len t) i p;
  ti_bytes : txn_bytes t = (held_bytes (txn_frames t) + len (txn_partial t))%N;
}.

Definition sender_inv (s : TransactionSender) : Prop :=
  1 ≤ frame_size (s_config s) ∧
  (unacked_bytes s ≤ backpressure_cap_bytes (s_config s))%N ∧
  map_Forall (λ id t, ∃ ps, txn_inv (frame_size (s_config s)) id ps t) (s_pending s).

Lemma held_bytes_app (a b : list (option Frame)) :
  held_bytes (a ++ b) = (held_bytes a + held_bytes b)%N.
Proof. induction a as [|f a IH]; cbn; [done|]. fold (held_bytes (a ++ b)). rw IH. unfold held_bytes. lia. Qed.

Lemma held_bytes_None (l : list (option Frame)) :
  held_bytes ((λ _, None) <$> l) = 0%N.
Proof. by induction l. Qed.

Lemma foldl_release (l : list (option Frame)) (r : N) :
  foldl release_bytes (held_bytes l + r)%N l = r.
Proof.
  induction l as [|f l IH]; [done|]. cbn. fold (held_bytes l).
  destruct f as [f|]; cbn; [|done].
  replace (len (payload f) + held_bytes l + r - len (payload f))%N
    with (held_bytes l + r)%N by lia. done.
Qed.

#[global] Arguments held_bytes : simpl never.

Section txn.
Context {size : nat} {id : txid}.
Implicit Types (t : PendingTxn) (ps : list (list byte)).

Lemma ti_states_len ps t : txn_inv size id ps t → length (txn_states t) = length ps.
Proof.
  intros Hi. rw -(ti_len _ _ _ _ Hi). pose proof (ti_copies _ _ _ _ Hi) as Hc.
  apply (f_equal length) in Hc. by rw !length_fmap in Hc.
Qed.

(** Every frame carries a byte, so [seq] numbers never overflow. *)
Lemma ti_count ps t : txn_inv size id ps t → (len (txn_frames t) ≤ U32_MAX)%N.
Proof.
  intros Hi. assert (len ps ≤ len (concat ps))%N.
  { apply len_concat_ge. eapply Forall_impl; [apply (ti_pieces _ _ _ _ Hi)|].
    cbn. intros. lia. }
  unfold len at 1. rw (ti_len _ _ _ _ Hi). fold (len ps).
  destruct Hi. lia.
Qed.

Lemma frame_count_len ps t : txn_inv size id ps t → frame_count t = len ps.
Proof.
  intros Hi. unfold frame_count. rw as_u32_small; [by eapply ti_count|].
  unfold len. by rw (ti_len _ _ _ _ Hi).
Qed.

Lemma ti_bytes_le ps t : txn_inv size id ps t → (txn_bytes t ≤ txn_written t)%N.
Proof.
  intros Hi. rw (ti_bytes _ _ _ _ Hi) (ti_written _ _ _ _ Hi).
  assert (held_bytes (txn_frames t) ≤ len (concat ps))%N; [|lia].
  pose proof (ti_held _ _ _ _ Hi) as Hh. pose proof (ti_len _ _ _ _ Hi) as Hl.
  clear Hi. revert ps Hh Hl. generalize (txn_frames t) as frs.
  intros frs. generalize (λ i, piece_frame id (txn_total_len t) i).
  cut (∀ ps, (∀ i f, frs !! i = Some (Some f) → ∃ p, ps !! i = Some p ∧ payload f = p) →
       length frs = length ps → (held_bytes frs ≤ len (concat ps))%N).
  { intros Hc _ ps Hh Hl. apply Hc; [|done]. intros i f Hf.
    destruct (Hh i f Hf) as (p & Hp & ->). by exists p. }
  induction frs as [|f frs IH]; intros ps Hh Hl; destruct ps as [|p ps]; try done.
  cbn in Hl. unfold held_bytes. cbn [foldr concat]. fold (held_bytes frs).
  rw len_app. specialize (IH ps (λ i, Hh (S i)) ltac:(lia)).
  destruct f as [f|]; cbn; [|lia].
  destruct (Hh 0 f eq_refl) as (p' & [= <-] & <-). lia.
Qed.

(** Updates of the send clocks alone keep the invariant. *)
Lemma txn_inv_states ps t sts :
  confirmed <$> sts = confirmed <$> txn_states t →
  txn_inv size id ps t → txn_inv size id ps (set_states sts t).
Proof. intros Hs []. split; cbn; try done. by rw Hs. Qed.

Lemma txn_inv_flags ps t p a d c r n :
  txn_inv size id ps t →
  txn_inv size id ps
    (mkPendingTxn (txn_total_len t) (txn_frames t) (txn_states t)
       (txn_partial t) (txn_written t) (txn_bytes t) p a d c r n).
Proof. by intros []; split. Qed.

Lemma resend_walk_confirmed due now sts frs :
  confirmed <$> (resend_walk due now sts frs).1 = confirmed <$> sts.
Proof.
  revert frs. induction sts as [|st sts IH]; intros [|f frs]; cbn; try done.
  specialize (IH frs). destruct (resend_walk due now sts frs) as [rest out].
  cbn in IH. destruct (confirmed st) eqn:Hc; cbn; [by rw IH Hc|].
  destruct (due st); cbn; by rw IH ?Hc.
Qed.

Lemma resend_walk_frames due now sts frs f :
  f ∈ (resend_walk due now sts frs).2 ↔
  ∃ i st, sts !! i = Some st ∧ frs !! i = Some (Some f) ∧
          confirmed st = false ∧ due st = true.
Proof.
  revert frs. induction sts as [|st sts IH]; intros [|fr frs]; cbn.
  1-3: split; [by intros ?%elem_of_nil|by intros ([|i] & ? & ? & ? & _)].
  specialize (IH frs). destruct (resend_walk due now sts frs) as [rest out].
  cbn in IH.
  assert (Hlater : (∃ i st', sts !! i = Some st' ∧ frs !! i = Some (Some f) ∧
            confirmed st' = false ∧ due st' = true) →
    ∃ i st', (st :: sts) !! i = Some st' ∧ (fr :: frs) !! i = Some (Some f) ∧
            confirmed st' = false ∧ due st' = true)
    by (intros (i & st' & ?); by exists (S i), st').
  destruct (confirmed st) eqn:Hc; [|destruct (due st) eqn:Hd]; cbn.
  - rw IH. split; [done|]. intros ([|i] & st' & Hst & Hf & Hc' & Hd'); cbn in *.
    + simplify_eq. congruence.
    + by exists i, st'.
  - destruct fr as [fr|].
    + rw elem_of_cons IH. split.
      * intros [->|?]; [by exists 0, st|by apply Hlater].
      * intros ([|i] & st' & Hst & Hf & Hc' & Hd'); cbn in *; [left; by simplify_eq|].
        right. by exists i, st'.
    + rw IH. split; [done|]. intros ([|i] & st' & Hst & Hf & Hc' & Hd'); cbn in *.
      * by simplify_eq.
      * by exists i, st'.
  - rw IH. split; [done|]. intros ([|i] & st' & Hst & Hf & Hc' & Hd'); cbn in *.
    + simplify_eq. congruence.
    + by exists i, st'.
Qed.

(** One NACKed seq: nothing is confirmed or forgotten, and the frame comes
    out exactly when it is unconfirmed and its copy is held. *)
Lemma nack_one_spec frs now sts out sq :
  let '(sts', out') := nack_one frs now (sts, out) sq in
  confirmed <$> sts' = confirmed <$> sts ∧
  ∀ f, f ∈ out' ↔ f ∈ out ∨
    ∃ st, sts !! N.to_nat sq = Some st ∧ confirmed st = false ∧
          frs !! N.to_nat sq = Some (Some f).
Proof.
  unfold nack_one. destruct (sts !! N.to_nat sq) as [st|] eqn:Hst.
  2:{ split; [done|]. intros f. split; [by left|]. by intros [?|(? & ? & _)]. }
  destruct (confirmed st) eqn:Hc.
  { split; [done|]. intros f. split; [by left|].
    intros [?|(st' & ? & ? & _)]; [done|]. simplify_eq. congruence. }
  assert (Hsts : confirmed <$> <[N.to_nat sq:=mkFrameState false now (attempts st)]> sts
                 = confirmed <$> sts).
  { rw list_fmap_insert. apply list_insert_id. rw list_lookup_fmap Hst. cbn. by rw Hc. }
  destruct (frs !! N.to_nat sq) as [[fr|]|] eqn:Hfr.
  all: split; [done|]; intros f.
  2,3: split; [by left|]; by intros [?|(st' & ? & ? & ?)].
  rw elem_of_app list_elem_of_singleton. split.
  - intros [?| ->]; [by left|right; by exists st].
  - intros [?|(st' & ? & ? & ?)]; [by left|right; by simplify_eq].
Qed.

(** Which states are unconfirmed depends only on the confirmation flags. *)
Lemma unconfirmed_ext (sts sts' : list FrameState) (i : nat) :
  confirmed <$> sts' = confirmed <$> sts →
  (∃ st, sts' !! i = Some st ∧ confirmed st = false) ↔
  (∃ st, sts !! i = Some st ∧ confirmed st = false).
Proof.
  intros Hc. apply (f_equal (.!! i)) in Hc. rw !list_lookup_fmap in Hc.
  split; intros (st & Hst & Hcf); rw Hst in Hc; cbn in Hc;
    [destruct (sts !! i) as [st'|]|destruct (sts' !! i) as [st'|]];
    try done; injection Hc as Hc; exists st'; split; congruence.
Qed.

Lemma nack_fold_spec frs now missing sts out :
  let '(sts', out') := foldl (nack_one frs now) (sts, out) missing in
  confirmed <$> sts' = confirmed <$> sts ∧
  ∀ f, f ∈ out' ↔ f ∈ out ∨
    ∃ sq st, sq ∈ missing ∧ sts !! N.to_nat sq = Some st ∧ confirmed st = false ∧
             frs !! N.to_nat sq = Some (Some f).
Proof.
  revert sts out. induction missing as [|sq missing IH]; intros sts out; cbn [foldl].
  { split; [done|]. intros f. split; [by left|].
    intros [?|(sq & st & H & _)]; [done|]. by apply elem_of_nil in H. }
  pose proof (nack_one_spec frs now sts out sq) as Hstep.
  destruct (nack_one frs now (sts, out) sq) as [sts1 out1].
  destruct Hstep as [Hc1 Hf1]. specialize (IH sts1 out1).
  destruct (foldl (nack_one frs now) (sts1, out1) missing) as [sts2 out2].
  destruct IH as [Hc2 Hf2]. split; [by rw Hc2|]. intros f. rw Hf2 Hf1. split.
  - intros [[?|(st & Hst)]|(sq' & st & Hin & Hst & Hcf & Hfr)]; [by left|right|right].
    + exists sq, st. split; [by left|]. tauto.
    + destruct (proj1 (unconfirmed_ext _ _ (N.to_nat sq') Hc1)) as (st' & ? & ?);
        [by exists st|].
      exists sq', st'. split; [by right|]. done.
  - intros [?|(sq' & st & Hin & Hst & Hcf & Hfr)]; [by left; left|].
    apply elem_of_cons in Hin as [->|Hin]; [left; right; by exists st|].
    destruct (proj2 (unconfirmed_ext _ _ (N.to_nat sq') Hc1)) as (st' & ? & ?);
      [by exists st|].
    right. by exists sq', st'.
Qed.

(** An ACK releases a prefix of the copies and nothing else. *)
Lemma ack_txn_inv ps t e now :
  txn_inv size id ps t → txn_inv size id ps (ack_txn e now t).
Proof.
  intros Hi. assert (Hsl : length (txn_states t) = length (txn_frames t))
    by rw (ti_states_len _ _ Hi) (ti_len _ _ _ _ Hi) //.
  unfold ack_txn. set (upto := Nat.min _ _). destruct Hi. split; cbn; try done.
  - rw length_app length_fmap -length_app take_drop. done.
  - rw !fmap_app -!list_fmap_compose. f_equal.
    + change (_ <$> take upto (txn_states t))
        with ((λ _, true) <$> take upto (txn_states t)).
      change ((_ ∘ _) <$> take upto (txn_frames t))
        with ((λ _, true) <$> take upto (txn_frames t)).
      rw !fmap_const_replicate !length_take Hsl. done.
    + rw !fmap_drop. by rw ti_copies0.
  - intros i f Hf. apply lookup_app_Some in Hf as [Hf|[Hge Hf]].
    + apply list_lookup_fmap_Some in Hf as (? & ? & _). done.
    + rw lookup_drop length_fmap length_take in Hf. apply ti_held0.
      rw length_fmap length_take in Hge.
      replace i with (upto + (i - upto `min` length (txn_frames t))) at 1;
        [done|]. unfold upto in *. lia.
  - rw held_bytes_app held_bytes_None ti_bytes0.
    rw -{1}(take_drop upto (txn_frames t)) held_bytes_app -N.add_assoc.
    by rw foldl_release.
Qed.
End txn.

(** ** Framing *)

(** The working frames of consecutive pieces, numbered from [start]. *)
Definition piece_frames (id : txid) (total : N) (start : nat)
    (new : list (list byte)) : list Frame :=
  imap (λ i p, piece_frame id total (start + i) p) new.
#[global] Arguments piece_frames : simpl never.

Definition fresh_state (now : N) : FrameState := mkFrameState false now 0.

(** [t] with the frames of [new] appended and [rest] left in the buffer. *)
Definition push_pieces (id : txid) (now : N) (new : list (list byte))
    (rest : list byte) (t : PendingTxn) : PendingTxn :=
  set_frames
    (txn_frames t ++
       (Some <$> piece_frames id (txn_total_len t) (length (txn_frames t)) new))
    (txn_states t ++ replicate (length new) (fresh_state now)) rest t.

Lemma piece_frames_cons id total start p new :
  piece_frames id total start (p :: new) =
  piece_frame id total start p :: piece_frames id total (S start) new.
Proof.
  unfold piece_frames. cbn. rw Nat.add_0_r. f_equal. apply imap_ext.
  intros i x _. cbn. f_equal. lia.
Qed.

Lemma piece_frames_app id total start a b :
  piece_frames id total start (a ++ b) =
  piece_frames id total start a ++ piece_frames id total (start + length a) b.
Proof.
  unfold piece_frames. rw imap_app. f_equal. apply imap_ext.
  intros i x _. cbn. f_equal. lia.
Qed.

Lemma length_piece_frames id total start new :
  length (piece_frames id total start new) = length new.
Proof. apply length_imap. Qed.

Lemma lookup_piece_frames id total start new i f :
  piece_frames id total start new !! i = Some f ↔
  ∃ p, new !! i = Some p ∧ f = piece_frame id total (start + i) p.
Proof.
  unfold piece_frames. rw list_lookup_imap. destruct (new !! i) as [p|]; cbn.
  - split; [intros [= <-]; by exists p|by intros (? & [= <-] & ->)].
  - split; [done|]. by intros (? & ? & _).
Qed.

Lemma push_frame_pieces id now p rest t :
  (len (txn_frames t) ≤ U32_MAX)%N →
  push_frame id now p rest t =
  (push_pieces id now [p] rest t,
   piece_frame id (txn_total_len t) (length (txn_frames t)) p).
Proof.
  intros Hn. unfold push_frame, push_pieces. rw as_u32_small //.
  rw piece_frames_cons. done.
Qed.

(** The buffer loop cuts whole frames off the front and stops with less than a
    frame left. *)
Lemma append_frames_spec fuel size id now t out :
  1 ≤ size → length (txn_partial t) ≤ fuel →
  (len (txn_frames t) + len (txn_partial t) ≤ U32_MAX)%N →
  ∃ new rest,
    txn_partial t = concat new ++ rest ∧ length rest < size ∧
    Forall (λ p, length p = size) new ∧
    append_frames fuel size id now t out =
    (push_pieces id now new rest t,
     out ++ piece_frames id (txn_total_len t) (length (txn_frames t)) new).
Proof.
  intros Hs. revert t out. induction fuel as [|fuel IH]; intros t out Hf Hn;
    cbn [append_frames].
  - exists [], []. destruct t as [? ? ? partial]; cbn in *.
    destruct partial; [|cbn in Hf; lia]. unfold push_pieces, set_frames; cbn.
    rw !app_nil_r. repeat split; [lia|done].
  - destruct (Nat.leb_spec size (length (txn_partial t))) as [Hle|Hlt].
    + rw push_frame_pieces; [unfold len in *; lia|].
      set (p := take size (txn_partial t)). set (r := drop size (txn_partial t)).
      assert (Hp : length p = size) by (unfold p; rw length_take; lia).
      assert (Hr : length r = length (txn_partial t) - size)
        by (unfold r; rw length_drop; lia).
      destruct (IH (push_pieces id now [p] r t)
        (out ++ [piece_frame id (txn_total_len t) (length (txn_frames t)) p]))
        as (new & rest & Hcut & Hrest & Hnew & Heq).
      { cbn. lia. }
      { cbn. rw len_app len_fmap. unfold len in *. rw length_piece_frames. cbn. lia. }
      exists (p :: new), rest. cbn in Hcut.
      split; [cbn; rw -app_assoc -Hcut /p /r take_drop //|].
      split; [done|]. split; [by constructor|]. rw Heq. f_equal.
      * unfold push_pieces, set_frames. cbn. rw (piece_frames_app _ _ _ [p] new) fmap_app.
        rw !length_app length_fmap length_piece_frames -!app_assoc. done.
      * rw (piece_frames_app _ _ _ [p] new). cbn.
        rw length_app length_fmap length_piece_frames -app_assoc. f_equal.
        rw piece_frames_cons. done.
    + exists [], (txn_partial t). split; [done|]. split; [done|]. split; [done|].
      unfold push_pieces. cbn. rw !app_nil_r. by destruct t.
Qed.

(** [t] once [chunk] was accepted and cut: [new] frames out, [rest] kept. *)
Definition extend_txn (id : txid) (now : N) (chunk : list byte)
    (new : list (list byte)) (rest : list byte) (t : PendingTxn) : PendingTxn :=
  push_pieces id now new rest
    (set_written_bytes (txn_written t + len chunk) (txn_bytes t + len chunk) t).

Lemma held_piece_frames id total n new :
  held_bytes (Some <$> piece_frames id total n new) = len (concat new).
Proof.
  revert n. induction new as [|p new IH]; intros n; [done|]. rw piece_frames_cons.
  unfold held_bytes. cbn [foldr fmap list_fmap from_option concat].
  fold (held_bytes (Some <$> piece_frames id total (S n) new)).
  rw IH len_app. done.
Qed.

Lemma extend_txn_inv size id now ps chunk new rest t :
  txn_inv size id ps t → txn_partial t ++ chunk = concat new ++ rest →
  length rest < size → Forall (λ p, 1 ≤ length p ≤ size) new →
  (txn_written t + len chunk ≤ txn_total_len t)%N →
  txn_inv size id (ps ++ new) (extend_txn id now chunk new rest t).
Proof.
  intros [] Hcut Hrest Hnew Hle.
  apply (f_equal len) in Hcut. rw !len_app in Hcut. split; cbn; try done.
  - rw ti_written0 concat_app !len_app. lia.
  - by apply Forall_app.
  - rw !length_app length_fmap length_piece_frames. lia.
  - rw !fmap_app ti_copies0. f_equal. rw -list_fmap_compose.
    change (_ <$> piece_frames _ _ _ new)
      with ((λ _, false) <$> piece_frames id (txn_total_len t) (length (txn_frames t)) new).
    rw fmap_const_replicate length_piece_frames fmap_replicate //.
  - intros i f Hf. apply lookup_app_Some in Hf as [Hf|[Hge Hf]].
    + destruct (ti_held0 i f Hf) as (p & Hp & ->). exists p. split; [|done].
      by apply lookup_app_l_Some.
    + rw list_lookup_fmap in Hf. apply fmap_Some in Hf as (f' & Hf & [= <-]).
      apply lookup_piece_frames in Hf as (p & Hp & ->). exists p.
      rw lookup_app_r; [lia|]. rw -ti_len0. split; [done|]. f_equal. lia.
  - rw held_bytes_app held_piece_frames ti_bytes0. lia.
Qed.

(** What a successful [append_chunk] does to its transaction. *)
Lemma append_chunk_Ok s id chunk now s' out :
  sender_inv s → append_chunk s id chunk now = (s', Ok out) →
  ∃ t new rest,
    s_pending s !! id = Some t ∧
    (unacked_bytes s + len chunk ≤ backpressure_cap_bytes (s_config s))%N ∧
    txn_partial t ++ chunk = concat new ++ rest ∧
    length rest < frame_size (s_config s) ∧
    Forall (λ p, length p = frame_size (s_config s)) new ∧
    (txn_written t + len chunk ≤ txn_total_len t)%N ∧
    out = piece_frames id (txn_total_len t) (length (txn_frames t)) new ∧
    s' = set_pending s id (extend_txn id now chunk new rest t).
Proof.
  intros (Hsz & Hcap & Hall). unfold append_chunk.
  destruct (s_pending s !! id) as [t|] eqn:Ht; [|done].
  destruct (Hall _ _ Ht) as [ps Hi].
  case_match eqn:Hb; [done|]. apply N.ltb_ge in Hb.
  case_match eqn:Hw; [done|]. apply N.ltb_ge in Hw.
  set (t1 := set_written_bytes _ _ _).
  destruct (append_frames_spec (length (txn_partial t1)) (frame_size (s_config s))
    id now t1 []) as (new & rest & Hcut & Hrest & Hnew & Heq); [done|lia| |].
  { cbn. pose proof (len_concat_ge ps) as Hge. destruct Hi.
    rw len_app. unfold len at 1. rw ti_len0. fold (len ps).
    assert (len ps ≤ len (concat ps))%N; [|lia].
    apply Hge. eapply Forall_impl; [exact ti_pieces0|]. cbn. intros. lia. }
  rw Heq. intros [= <- <-]. exists t, new, rest. cbn in Hcut. done.
Qed.

(** ** Histories

    A sender together with what its clients observed: the bytes accepted for
    each transaction since it was opened, and the frames handed to the egress
    for it.  A [sender_step] is one call of a state-changing method; calls
    that are refused leave the state as it is ([open_refused],
    [append_refused]). *)

Record history : Type := mkHistory {
  h_sender : TransactionSender;
  h_data : gmap txid (list byte);
  h_log : list Frame;
}.

(** The frames of earlier transactions that used the same id are forgotten. *)
Definition forget (id : txid) (l : list Frame) : list Frame :=
  filter (λ f, transaction_id f ≠ id) l.

(** The frames a fallible call hands to its caller. *)
Definition emitted_of {E} (r : result (list Frame) E) : list Frame :=
  match r with Ok out => out | Err _ => [] end.

Inductive sender_step : history → history → Prop :=
  | step_open s d l id total now s' :
      (total ≤ U32_MAX)%N → open_transaction s id total now = (s', Ok tt) →
      sender_step (mkHistory s d l) (mkHistory s' (<[id:=[]]> d) (forget id l))
  | step_append s d l id chunk now s' out bs :
      append_chunk s id chunk now = (s', Ok out) → d !! id = Some bs →
      sender_step (mkHistory s d l) (mkHistory s' (<[id:=bs ++ chunk]> d) (l ++ out))
  | step_finish s d l id now s' r :
      finish_transaction s id now = (s', r) →
      sender_step (mkHistory s d l) (mkHistory s' d (l ++ emitted_of r))
  | step_set_paused s d l id b now :
      sender_step (mkHistory s d l) (mkHistory (set_paused s id b now).1 d l)
  | step_abort s d l id :
      sender_step (mkHistory s d l) (mkHistory (abort_transaction s id).1 d l)
  | step_ack s d l e now :
      sender_step (mkHistory s d l) (mkHistory (handle_ack s e now).1 d l)
  | step_nack s d l id missing now s' out :
      handle_nack s id missing now = (s', out) →
      sender_step (mkHistory s d l) (mkHistory s' d (l ++ out))
  | step_due s d l now s' out :
      due_retransmissions s now = (s', out) →
      sender_step (mkHistory s d l) (mkHistory s' d (l ++ out))
  | step_declare s d l now :
      sender_step (mkHistory s d l) (mkHistory (declare_pending s now).1 d l)
  | step_redeclare s d l now timeout :
      sender_step (mkHistory s d l)
        (mkHistory (timed_out_declarations s now timeout).1 d l)
  | step_verdicts s d l entries now s' v :
      apply_resume_verdicts s entries now = (s', v) →
      sender_step (mkHistory s d l) (mkHistory s' d (l ++ v_retransmit v)).

Definition sender_init (cfg : SenderConfig) : history :=
  mkHistory (TransactionSender_new cfg) ∅ [].

(** The histories of a sender built by [TransactionSender::new]. *)
Definition sender_reach (cfg : SenderConfig) (h : history) : Prop :=
  rtc sender_step (sender_init cfg) h.

(** What the history says about one held transaction. *)
Definition txn_hist (size : nat) (d : gmap txid (list byte)) (l : list Frame)
    (id : txid) (t : PendingTxn) : Prop :=
  ∃ ps, txn_inv size id ps t ∧ d !! id = Some (concat ps ++ txn_partial t) ∧
    ∀ f, f ∈ l → transaction_id f = id → frame_of_piece id (txn_total_len t) ps f.

Definition hist_inv (h : history) : Prop :=
  let s := h_sender h in
  1 ≤ frame_size (s_config s) ∧
  (unacked_bytes s ≤ backpressure_cap_bytes (s_config s))%N ∧
  map_Forall (txn_hist (frame_size (s_config s)) (h_data h) (h_log h)) (s_pending s).

Lemma hist_sender_inv s d l : hist_inv (mkHistory s d l) → sender_inv s.
Proof.
  intros (Hs & Hc & Ha). split; [done|]. split; [done|].
  intros id t Ht. destruct (Ha id t Ht) as (ps & Hi & _). by exists ps.
Qed.

(** ** The transaction-level updates, with their emitted frames *)

(** [t'] continues [t] without new content: same pieces, no more bytes held,
    and everything it emits is a held copy. *)
Definition txn_continues (id : txid) (t t' : PendingTxn) (out : list Frame) : Prop :=
  txn_total_len t' = txn_total_len t ∧ txn_partial t' = txn_partial t ∧
  (txn_bytes t' ≤ txn_bytes t)%N ∧
  (∀ size ps, txn_inv size id ps t → txn_inv size id ps t') ∧
  (∀ f, f ∈ out → ∃ i, txn_frames t !! i = Some (Some f)).

Lemma held_is_piece size id ps t i f :
  txn_inv size id ps t → txn_frames t !! i = Some (Some f) →
  frame_of_piece id (txn_total_len t) ps f.
Proof.
  intros Hi Hf. destruct (ti_held _ _ _ _ Hi i f Hf) as (p & Hp & ->). by exists i, p.
Qed.

Lemma txn_continues_hist size d l id t t' out :
  txn_continues id t t' out →
  txn_hist size d l id t → txn_hist size d (l ++ out) id t'.
Proof.
  intros (Htot & Hpart & _ & Hinv & Hout) (ps & Hi & Hd & Hl).
  exists ps. split; [by apply Hinv|]. rw Hpart Htot. split; [done|].
  intros f [Hf|Hf]%elem_of_app Hid; [by apply Hl|].
  destruct (Hout f Hf) as [i Hf']. by eapply held_is_piece.
Qed.

(** Frames of other transactions do not matter. *)
Lemma txn_hist_other size d l out id t :
  (∀ f, f ∈ out → transaction_id f ≠ id) →
  txn_hist size d l id t → txn_hist size d (l ++ out) id t.
Proof.
  intros Hne (ps & Hi & Hd & Hl). exists ps. split; [done|]. split; [done|].
  intros f [Hf|Hf]%elem_of_app Hid; [by apply Hl|]. by destruct (Hne f Hf).
Qed.

Lemma piece_frame_id id total ps f :
  frame_of_piece id total ps f → transaction_id f = id.
Proof. by intros (i & p & _ & ->). Qed.

Lemma continues_refl id t : txn_continues id t t [].
Proof. split_and!; try done. by intros f ?%elem_of_nil. Qed.

Lemma continues_set_paused id t (b : bool) now :
  let rearm st :=
    if confirmed st then st else mkFrameState false now (attempts st) in
  txn_continues id t
    (set_states (if b then txn_states t else rearm <$> txn_states t)
       (set_txn_paused b t)) [].
Proof.
  split_and!; try done; [|by intros f ?%elem_of_nil].
  intros size ps Hi. apply txn_inv_states; [|by apply txn_inv_flags].
  destruct b; [done|]. cbn. rw -list_fmap_compose. apply list_fmap_ext.
  intros i st _. cbn. by destruct (confirmed st) eqn:Hc; cbn.
Qed.

Lemma continues_ack id t e now : txn_continues id t (ack_txn e now t) [].
Proof.
  split_and!; try done; [| |by intros f ?%elem_of_nil].
  - unfold ack_txn. cbn. generalize (take (Nat.min (N.to_nat (N.min
      (match txn_acked_contiguous t with
       | Some h => N.max h (highest_contiguous_seq e)
       | None => highest_contiguous_seq e end) (frame_count t - 1)) + 1)
      (length (txn_states t))) (txn_frames t)).
    generalize (txn_bytes t). intros b l. revert b.
    induction l as [|[f|] l IH]; intros b; cbn; [done| |done].
    specialize (IH (b - len (payload f))%N). lia.
  - intros size ps. apply ack_txn_inv.
Qed.

Lemma continues_nack id t missing now :
  let txn := set_progress now t in
  let r := foldl (nack_one (txn_frames txn) now) (txn_states txn, []) missing in
  txn_continues id t (set_states r.1 txn) r.2.
Proof.
  cbn. pose proof (nack_fold_spec (txn_frames t) now missing (txn_states t) []) as Hs.
  destruct (foldl _ _ missing) as [sts out]. destruct Hs as [Hc Hf].
  split_and!; try done.
  - intros size ps Hi. apply txn_inv_states; [done|by apply txn_inv_flags].
  - intros f [?%elem_of_nil|(sq & st & _ & _ & _ & Hfr)]%Hf; [done|]. eauto.
Qed.

Lemma continues_resend id t due now :
  let r := resend_walk due now (txn_states t) (txn_frames t) in
  txn_continues id t (set_states r.1 t) r.2.
Proof.
  cbn. split_and!; try done.
  - intros size ps Hi. apply txn_inv_states; [apply resend_walk_confirmed|done].
  - intros f (i & st & _ & Hf & _)%resend_walk_frames. eauto.
Qed.

Lemma continues_flags id t t1 t2 out p a d c r n :
  t1 = mkPendingTxn (txn_total_len t) (txn_frames t) (txn_states t)
         (txn_partial t) (txn_written t) (txn_bytes t) p a d c r n →
  txn_continues id t1 t2 out → txn_continues id t t2 out.
Proof.
  intros -> (H1 & H2 & H3 & H4 & H5). split_and!; try done.
  intros size ps Hi. apply H4. by apply txn_inv_flags.
Qed.

Lemma continues_due id t cfg now :
  txn_continues id t (due_txn cfg now t).1 (due_txn cfg now t).2.
Proof.
  unfold due_txn. case_match; [apply continues_refl|].
  pose proof (continues_resend id t (rto_elapsed cfg now) now) as Hr.
  cbn zeta in Hr. by destruct (resend_walk _ _ _ _).
Qed.

Lemma continues_resume id t now :
  txn_continues id t (resume_txn now t).1 (resume_txn now t).2.
Proof.
  unfold resume_txn. set (t1 := set_progress _ _).
  apply (continues_flags id t t1 _ _ (txn_paused t) false None
    (txn_acked_contiguous t) (txn_acked_received t) now); [done|].
  case_match; [apply continues_refl|].
  pose proof (continues_resend id t1 (λ _, true) now) as Hr.
  cbn zeta in Hr. by destruct (resend_walk _ _ _ _).
Qed.

Lemma continues_gate id t a d : txn_continues id t (set_gate a d t) [].
Proof.
  eapply (continues_flags id t (set_gate a d t)); [done|]. apply continues_refl.
Qed.

(** ** Every call preserves the history invariant *)

Lemma unacked_set_pending s id t t' :
  s_pending s !! id = Some t →
  (unacked_bytes (set_pending s id t') + txn_bytes t =
   unacked_bytes s + txn_bytes t')%N.
Proof. apply map_sum_insert_Some. Qed.

(** One transaction changes; the others keep their history. *)
Lemma hist_replace s d d' l out id t' :
  hist_inv (mkHistory s d l) →
  (∀ f, f ∈ out → transaction_id f = id) →
  (∀ id', id' ≠ id → d' !! id' = d !! id') →
  (unacked_bytes (set_pending s id t') ≤ backpressure_cap_bytes (s_config s))%N →
  txn_hist (frame_size (s_config s)) d' (l ++ out) id t' →
  hist_inv (mkHistory (set_pending s id t') d' (l ++ out)).
Proof.
  intros (Hs & _ & Hall) Hout Hd Hcap Ht'. split; [done|]. split; [done|].
  intros id' t0 Ht0. cbn in *. destruct (decide (id' = id)) as [->|Hne].
  - rw lookup_insert_eq in Ht0. by simplify_eq.
  - rw lookup_insert_ne // in Ht0. apply txn_hist_other.
    + intros f Hf Hid. rw (Hout f Hf) in Hid. congruence.
    + destruct (Hall _ _ Ht0) as (ps & Hi & Hd0 & Hl). exists ps. by rw Hd.
Qed.

Lemma hist_continue s d l out id t t' :
  hist_inv (mkHistory s d l) → s_pending s !! id = Some t →
  txn_continues id t t' out →
  hist_inv (mkHistory (set_pending s id t') d (l ++ out)).
Proof.
  intros Hh Ht Hc. pose proof Hh as (_ & Hcap & Hall). cbn in Hcap, Hall.
  pose proof (Hall _ _ Ht) as Hth. apply (hist_replace s d d); [done| |done| |].
  - intros f Hf. destruct Hc as (_ & _ & _ & _ & Hout).
    destruct (Hout f Hf) as [i Hi]. destruct Hth as (ps & Hinv & _).
    by eapply piece_frame_id, held_is_piece.
  - pose proof (unacked_set_pending s id t t' Ht). destruct Hc as (_ & _ & Hb & _). lia.
  - by eapply txn_continues_hist.
Qed.

Lemma hist_delete s d l id :
  hist_inv (mkHistory s d l) →
  hist_inv (mkHistory (mkTransactionSender (s_config s) (delete id (s_pending s))) d l).
Proof.
  intros (Hs & Hcap & Hall). cbn in *. split; [done|]. split.
  - cbn. pose proof (map_sum_delete_le txn_bytes (s_pending s) id) as Hle.
    unfold unacked_bytes in *. cbn. lia.
  - by apply map_Forall_delete.
Qed.

(** A loop over the whole pending table. *)
Lemma hist_iter_mut {O} s d l (body : txid → PendingTxn → PendingTxn * list O)
    (fr : txid → PendingTxn → list Frame) (out : list Frame) :
  hist_inv (mkHistory s d l) →
  (∀ id t, txn_continues id t (body id t).1 (fr id t) ∧
           txn_bytes (body id t).1 = txn_bytes t) →
  (∀ f, f ∈ out → ∃ id t, s_pending s !! id = Some t ∧ f ∈ fr id t) →
  hist_inv (mkHistory
    (mkTransactionSender (s_config s) (iter_mut body (s_pending s)).1) d (l ++ out)).
Proof.
  intros (Hs & Hcap & Hall) Hbody Hout. cbn [h_sender h_data h_log] in *.
  split; [done|]. split.
  - cbn [h_sender s_config]. unfold unacked_bytes in *. cbn [s_pending].
    rw map_sum_iter_mut //. intros id t _. apply Hbody.
  - cbn [h_sender s_config s_pending h_data h_log]. intros id t'.
    rw iter_mut_lookup. intros (t & Ht & ->)%fmap_Some.
    destruct (Hbody id t) as [Hc _].
    destruct (txn_continues_hist _ _ l _ _ _ _ Hc (Hall _ _ Ht)) as (ps & Hi & Hd & Hl).
    exists ps. split; [done|]. split; [done|].
    intros f [Hf|Hf]%elem_of_app Hid; [apply Hl; [apply elem_of_app; by left|done]|].
    destruct (Hout f Hf) as (id0 & t0 & Ht0 & Hf0).
    assert (id0 = id) as ->.
    { destruct (Hbody id0 t0) as [(_ & _ & _ & _ & H5) _].
      destruct (H5 f Hf0) as [i Hfi]. destruct (Hall _ _ Ht0) as (ps0 & Hi0 & _).
      rw -Hid. symmetry. by eapply piece_frame_id, held_is_piece. }
    assert (t0 = t) as -> by congruence.
    apply Hl; [|done]. apply elem_of_app. by right.
Qed.

Lemma verdict_step_hist now s d l v e :
  hist_inv (mkHistory s d (l ++ v_retransmit v)) →
  let r := apply_verdict now (s, v) e in
  hist_inv (mkHistory r.1 d (l ++ v_retransmit r.2)).
Proof.
  intros Hh. unfold apply_verdict. destruct (rse_status e).
  2,3: destruct (s_pending s !! rse_transaction_id e) as [t|]; [|done];
       destruct (is_fully_sent t); by apply hist_delete.
  destruct (s_pending s !! rse_transaction_id e) as [t|] eqn:Ht; [|done].
  pose proof (continues_resume (rse_transaction_id e) t now) as Hc.
  destruct (resume_txn now t) as [t' frs]. cbn in *. rw app_assoc.
  by eapply hist_continue.
Qed.

Lemma verdicts_hist now s d l v entries :
  hist_inv (mkHistory s d (l ++ v_retransmit v)) →
  let r := foldl (apply_verdict now) (s, v) entries in
  hist_inv (mkHistory r.1 d (l ++ v_retransmit r.2)).
Proof.
  revert s v. induction entries as [|e entries IH]; intros s v Hh; [done|].
  cbn [foldl]. pose proof (verdict_step_hist now s d l v e Hh) as H1.
  destruct (apply_verdict now (s, v) e) as [s1 v1]. by apply IH.
Qed.

Lemma extend_hist size d l id t chunk new rest now :
  txn_hist size d l id t → txn_partial t ++ chunk = concat new ++ rest →
  length rest < size → Forall (λ p, 1 ≤ length p ≤ size) new →
  (txn_written t + len chunk ≤ txn_total_len t)%N →
  ∃ bs, d !! id = Some bs ∧
    txn_hist size (<[id:=bs ++ chunk]> d)
      (l ++ piece_frames id (txn_total_len t) (length (txn_frames t)) new) id
      (extend_txn id now chunk new rest t).
Proof.
  intros (ps & Hi & Hd & Hl) Hcut Hrest Hnew Hw. eexists. split; [done|].
  exists (ps ++ new). split; [by apply extend_txn_inv|].
  rw lookup_insert_eq. split.
  { cbn. rw -app_assoc Hcut concat_app app_assoc. done. }
  intros f [Hf|Hf]%elem_of_app Hid; cbn.
  - destruct (Hl f Hf Hid) as (i & p & Hp & ->). exists i, p.
    split; [by apply lookup_app_l_Some|done].
  - apply list_elem_of_lookup in Hf as [i Hf].
    apply lookup_piece_frames in Hf as (p & Hp & ->).
    rw (ti_len _ _ _ _ Hi). exists (length ps + i), p. split; [|done].
    rw lookup_app_r; [lia|]. rw -Hp. f_equal. lia.
Qed.

Lemma in_piece_frames id total n new f :
  f ∈ piece_frames id total n new → transaction_id f = id.
Proof.
  intros [i Hf]%list_elem_of_lookup.
  by apply lookup_piece_frames in Hf as (p & _ & ->).
Qed.

Lemma append_hist s d l id chunk now s' out bs :
  hist_inv (mkHistory s d l) → append_chunk s id chunk now = (s', Ok out) →
  d !! id = Some bs →
  hist_inv (mkHistory s' (<[id:=bs ++ chunk]> d) (l ++ out)).
Proof.
  intros Hh Ha Hbs. pose proof (hist_sender_inv _ _ _ Hh) as Hsi.
  apply append_chunk_Ok in Ha as
    (t & new & rest & Ht & Hcap & Hcut & Hrest & Hnew & Hw & -> & ->); [|done].
  pose proof Hh as (Hsz & _ & Hall). cbn in Hsz, Hall.
  destruct (extend_hist _ _ _ _ _ chunk new rest now (Hall _ _ Ht)) as (bs' & Hbs' & Hth);
    [done|done| |done|].
  { eapply Forall_impl; [exact Hnew|]. cbn. intros. lia. }
  simplify_eq. apply (hist_replace s d); [done| | | |done].
  - intros f. apply in_piece_frames.
  - intros id' Hne. by rw lookup_insert_ne.
  - pose proof (unacked_set_pending s id t (extend_txn id now chunk new rest t) Ht) as Hu.
    cbn in Hu. lia.
Qed.

(** [finish] either has nothing to flush or cuts the buffer as one frame. *)
Lemma finish_cases s id now s' r :
  sender_inv s → finish_transaction s id now = (s', r) →
  s' = s ∧ r = Err UnknownTransaction ∧ s_pending s !! id = None ∨
  ∃ t new,
    s_pending s !! id = Some t ∧ txn_partial t = concat new ∧
    length new ≤ 1 ∧ Forall (λ p, 1 ≤ length p ≤ frame_size (s_config s)) new ∧
    s' = set_pending s id (extend_txn id now [] new [] t) ∧
    r = if decide (txn_written t ≠ txn_total_len t)
        then Err (IncompletePayload (txn_written t) (txn_total_len t))
        else Ok (piece_frames id (txn_total_len t) (length (txn_frames t)) new).
Proof.
  intros (Hsz & _ & Hall). unfold finish_transaction.
  destruct (s_pending s !! id) as [t|] eqn:Ht; [|intros [= <- <-]; by left].
  destruct (Hall _ _ Ht) as [ps Hi]. intros Hf. right. exists t.
  destruct (bool_decide (txn_partial t = [])) eqn:Hp.
  - apply bool_decide_eq_true in Hp. exists []. split; [done|].
    split; [done|]. split; [cbn; lia|]. split; [done|].
    assert (extend_txn id now [] [] [] t = t) as ->.
    { destruct t. cbn in *. subst. unfold extend_txn, push_pieces, set_frames. cbn.
      rw !app_nil_r !N.add_0_r. done. }
    by case_decide; simplify_eq.
  - apply bool_decide_eq_false in Hp. exists [txn_partial t]. split; [done|].
    split; [cbn; by rw app_nil_r|]. split; [cbn; lia|]. split.
    { constructor; [|done]. pose proof (ti_partial _ _ _ _ Hi).
      destruct (txn_partial t); [done|]. cbn in *. lia. }
    rw push_frame_pieces in Hf; [by eapply ti_count|].
    assert (extend_txn id now [] [txn_partial t] [] t =
            push_pieces id now [txn_partial t] [] t) as ->.
    { unfold extend_txn. cbn. rw !N.add_0_r. by destruct t. }
    rw piece_frames_cons. cbn in Hf. by case_decide; simplify_eq.
Qed.

Lemma finish_hist s d l id now s' r :
  hist_inv (mkHistory s d l) → finish_transaction s id now = (s', r) →
  hist_inv (mkHistory s' d (l ++ emitted_of r)).
Proof.
  intros Hh Hf. pose proof (hist_sender_inv _ _ _ Hh) as Hsi.
  apply finish_cases in Hf as [(-> & -> & _)|(t & new & Ht & Hp & _ & Hnew & -> & Hr)];
    [by rw app_nil_r|..|done].
  pose proof Hh as (Hsz & Hcap & Hall). cbn in Hsz, Hcap, Hall.
  assert (Hw : (txn_written t + len (@nil byte) ≤ txn_total_len t)%N).
  { destruct (Hall _ _ Ht) as (ps & Hi & _). rw len_nil N.add_0_r. by destruct Hi. }
  destruct (extend_hist _ _ _ _ _ [] new [] now (Hall _ _ Ht)) as (bs & Hbs & Hth);
    [by rw !app_nil_r|cbn; lia|done|done|].
  rw app_nil_r insert_id // in Hth.
  apply (hist_replace s d); [done| |done| |].
  - intros f Hf. subst r. case_decide; cbn in Hf; [by apply elem_of_nil in Hf|].
    by eapply in_piece_frames.
  - pose proof (unacked_set_pending s id t (extend_txn id now [] new [] t) Ht) as Hu.
    cbn in Hu. rw len_nil in Hu. lia.
  - destruct Hth as (ps & Hi & Hd & Hl). exists ps. split; [done|]. split; [done|].
    intros f Hf Hid. apply Hl; [|done]. apply elem_of_app in Hf as [Hf|Hf];
      apply elem_of_app; [by left|right]. subst r. by case_decide; cbn in Hf;
      [apply elem_of_nil in Hf|].
Qed.

Lemma open_hist s d l id total now s' :
  hist_inv (mkHistory s d l) → (total ≤ U32_MAX)%N →
  open_transaction s id total now = (s', Ok tt) →
  hist_inv (mkHistory s' (<[id:=[]]> d) (forget id l)).
Proof.
  intros (Hsz & Hcap & Hall) Ht32. cbn in Hsz, Hcap, Hall.
  unfold open_transaction, contains_transaction.
  case_match eqn:Hc; [done|]. apply bool_decide_eq_false, eq_None_not_Some in Hc.
  case_match eqn:Hz; [done|]. apply N.eqb_neq in Hz. intros [= <-].
  split; [done|]. split.
  { cbn. unfold unacked_bytes, set_pending. cbn. rw map_sum_insert_None //. }
  cbn. intros id' t' Ht'. destruct (decide (id' = id)) as [->|Hne].
  - rw lookup_insert_eq in Ht'. simplify_eq. exists []. split; [|split].
    + split; cbn; try done; lia.
    + by rw lookup_insert_eq.
    + intros f Hf Hid. by apply list_elem_of_filter in Hf as [? _].
  - rw lookup_insert_ne // in Ht'. destruct (Hall _ _ Ht') as (ps & Hi & Hd & Hl).
    exists ps. split; [done|]. rw lookup_insert_ne //. split; [done|].
    intros f Hf Hid. apply list_elem_of_filter in Hf as [_ Hf]. by apply Hl.
Qed.

Lemma nack_hist s d l id missing now s' out :
  hist_inv (mkHistory s d l) → handle_nack s id missing now = (s', out) →
  hist_inv (mkHistory s' d (l ++ out)).
Proof.
  intros Hh Hn. unfold handle_nack in Hn. destruct (s_pending s !! id) as [t|] eqn:Ht;
    [|simplify_eq; by rw app_nil_r].
  case_match.
  - simplify_eq. eapply hist_continue; [done..|].
    eapply continues_flags; [done|]. apply continues_refl.
  - pose proof (continues_nack id t missing now) as Hc. cbn zeta in Hc.
    destruct (foldl _ _ missing) as [sts out'] in Hn, Hc. simplify_eq.
    by eapply hist_continue.
Qed.

Lemma due_hist s d l now s' out :
  hist_inv (mkHistory s d l) → due_retransmissions s now = (s', out) →
  hist_inv (mkHistory s' d (l ++ out)).
Proof.
  intros Hh Hd. unfold due_retransmissions in Hd.
  destruct (iter_mut _ _) as [pending out'] eqn:Hm in Hd. simplify_eq.
  apply iter_mut_pair in Hm as [-> ->].
  eapply (hist_iter_mut _ _ _ _ (λ _ t, (due_txn (s_config s) now t).2)); [done|..].
  - intros id t. split; [apply continues_due|]. unfold due_txn.
    case_match; [done|]. by destruct (resend_walk _ _ _ _).
  - by intros f Hf%iter_mut_out.
Qed.

(** A loop over the transactions that hands out no frame. *)
Lemma silent_hist {O} (body : txid → PendingTxn → PendingTxn * list O) s d l :
  hist_inv (mkHistory s d l) →
  (∀ id t, txn_continues id t (body id t).1 [] ∧ txn_bytes (body id t).1 = txn_bytes t) →
  hist_inv (mkHistory (mkTransactionSender (s_config s) (iter_mut body (s_pending s)).1) d l).
Proof.
  intros Hh Hc. rw -(app_nil_r l). eapply (hist_iter_mut _ _ _ _ (λ _ _, [])); [done|..].
  - intros id t. apply Hc.
  - by intros f ?%elem_of_nil.
Qed.

Lemma declare_hist s d l now :
  hist_inv (mkHistory s d l) → hist_inv (mkHistory (declare_pending s now).1 d l).
Proof.
  intros Hh. pose proof (silent_hist (declare_txn now) s d l Hh) as H.
  unfold declare_pending. destruct (iter_mut _ _) as [pending out']. apply H.
  intros id t. split; [apply continues_gate|done].
Qed.

Lemma redeclare_hist s d l now timeout :
  hist_inv (mkHistory s d l) → hist_inv (mkHistory (timed_out_declarations s now timeout).1 d l).
Proof.
  intros Hh. pose proof (silent_hist (redeclare_txn now timeout) s d l Hh) as H.
  unfold timed_out_declarations. destruct (iter_mut _ _) as [pending out']. apply H.
  intros id t. unfold redeclare_txn.
  repeat case_match; cbn; (split; [apply continues_refl || apply continues_gate|done]).
Qed.

Lemma sender_step_inv h h' : sender_step h h' → hist_inv h → hist_inv h'.
Proof.
  destruct 1 as [s d l id total now s' Ht Ho|s d l id chunk now s' out bs Ha Hb
    |s d l id now s' r Hf|s d l id b now|s d l id|s d l e now
    |s d l id missing now s' out Hn|s d l now s' out Hd|s d l now|s d l now timeout
    |s d l entries now s' v Hv]; intros Hh.
  - by eapply open_hist.
  - by eapply append_hist.
  - by eapply finish_hist.
  - unfold set_paused. destruct (s_pending s !! id) as [t|] eqn:Ht; [|done].
    rw -(app_nil_r l). eapply hist_continue; [done..|]. apply continues_set_paused.
  - by apply hist_delete.
  - unfold handle_ack. destruct (s_pending s !! ack_transaction_id e) as [t|] eqn:Ht;
      [|done]. case_match; [by apply hist_delete|].
    rw -(app_nil_r l). eapply hist_continue; [done..|]. apply continues_ack.
  - by eapply nack_hist.
  - by eapply due_hist.
  - by apply declare_hist.
  - by apply redeclare_hist.
  - unfold apply_resume_verdicts in Hv.
    pose proof (verdicts_hist now s d l (mkResumeVerdicts [] [] []) entries) as Hr.
    cbn zeta in Hr. rw Hv in Hr. cbn in Hr. apply Hr. by rw app_nil_r.
Qed.

Lemma sender_reach_inv cfg h : sender_reach cfg h → hist_inv h.
Proof.
  unfold sender_reach. intros Hr.
  assert (Hi : hist_inv (sender_init cfg)).
  { split; [cbn; lia|]. split; [cbn; apply N.le_0_l|]. apply map_Forall_empty. }
  clear -Hr Hi. induction Hr as [|h1 h2 h3 Hs _ IH]; [done|].
  apply IH. by eapply sender_step_inv.
Qed.

Lemma open_refused s id total now s' e :
  open_transaction s id total now = (s', Err e) → s' = s.
Proof. unfold open_transaction. by repeat case_match; intros; simplify_eq. Qed.

Lemma append_refused s id chunk now s' e :
  append_chunk s id chunk now = (s', Err e) → s' = s.
Proof.
  unfold append_chunk. destruct (s_pending s !! id) as [t|]; [|by intros [= <- <-]].
  case_match; [by intros [= <- <-]|]. case_match; [by intros [= <- <-]|].
  by destruct (append_frames _ _ _ _ _ _).
Qed.

(** ** Framing does not depend on how the bytes were written *)

(** The reference split: full pieces of [size] bytes, then the remainder. *)
Definition split_pieces (size : nat) (l : list byte) : list (list byte) :=
  let full := chunks_exact size l in
  let rest := drop (length full * size) l in
  full ++ (if bool_decide (rest = []) then [] else [rest]).

Definition reference_frames (id : txid) (size : nat) (data : list byte) : list Frame :=
  piece_frames id (len data) 0 (split_pieces size data).

(** A writer's loop: [append_chunk] for each chunk, stopping at an error. *)
Fixpoint append_all (s : TransactionSender) (id : txid)
    (chunks : list (list byte * N)) :
    TransactionSender * result (list Frame) BeginError :=
  match chunks with
  | [] => (s, Ok [])
  | (c, now) :: rest =>
      match append_chunk s id c now with
      | (s1, Err e) => (s1, Err e)
      | (s1, Ok out) =>
          match append_all s1 id rest with
          | (s2, Err e) => (s2, Err e)
          | (s2, Ok outs) => (s2, Ok (out ++ outs))
          end
      end
  end.

Lemma split_pieces_cut size new rest :
  0 < size → Forall (λ p, length p = size) new → length rest < size →
  split_pieces size (concat new ++ rest) =
  new ++ (if bool_decide (rest = []) then [] else [rest]).
Proof.
  intros Hs Hnew Hr. unfold split_pieces. rw chunks_exact_rest //.
  rw -(length_concat_uniform size new Hnew) drop_app_length. done.
Qed.

(** The reference split is a cut of the data into non-empty pieces of at most
    the frame size. *)
Lemma split_pieces_spec size (data : list byte) :
  1 ≤ size →
  concat (split_pieces size data) = data ∧
  Forall (λ p, 1 ≤ length p ≤ size) (split_pieces size data).
Proof.
  intros Hs. set (k := length data / size). set (n := k * size).
  assert (Hn : n ≤ length data) by (unfold n, k; rw Nat.mul_comm; apply Nat.Div0.mul_div_le).
  pose proof (Nat.mod_upper_bound (length data) size) as Hm.
  pose proof (Nat.div_mod_eq (length data) size) as Hd. fold k in Hd.
  destruct (chunks_exact_spec size k (take n data)) as (Hc & _ & Hall);
    [lia|rw length_take; lia|].
  assert (Hr : length (drop n data) < size) by (rw length_drop; unfold n; lia).
  assert (Hsp : split_pieces size data =
    chunks_exact size (take n data) ++ (if bool_decide (drop n data = []) then [] else [drop n data])).
  { rw -(split_pieces_cut size _ _ Hs Hall Hr). by rw Hc take_drop. }
  rw Hsp. split.
  - rw concat_app Hc. case_bool_decide as He; cbn.
    + rw -{2}(take_drop n data) He. done.
    + by rw app_nil_r take_drop.
  - apply Forall_app. split.
    + eapply Forall_impl; [exact Hall|]. cbn. intros x Hx. lia.
    + case_bool_decide as He; [constructor|]. constructor; [|constructor].
      destruct (drop n data); [done|]. cbn in *. lia.
Qed.

(** A transaction that has only been appended to. *)
Definition appended (size : nat) (data : list byte) (t : PendingTxn)
    (new : list (list byte)) : Prop :=
  data = concat new ++ txn_partial t ∧ Forall (λ p, length p = size) new ∧
  length (txn_partial t) < size ∧ length (txn_frames t) = length new.

Lemma append_all_spec s d l id t data new chunks s' outs :
  hist_inv (mkHistory s d l) → s_pending s !! id = Some t →
  appended (frame_size (s_config s)) data t new →
  append_all s id chunks = (s', Ok outs) →
  ∃ d' l' t' new',
    hist_inv (mkHistory s' d' l') ∧ s_pending s' !! id = Some t' ∧
    s_config s' = s_config s ∧ txn_total_len t' = txn_total_len t ∧
    txn_written t' = (txn_written t + len (concat chunks.*1))%N ∧
    appended (frame_size (s_config s)) (data ++ concat chunks.*1) t' (new ++ new') ∧
    outs = piece_frames id (txn_total_len t) (length new) new'.
Proof.
  revert s d l t data new outs.
  induction chunks as [|[c now] chunks IH]; intros s d l t data new outs Hh Ht Hap;
    cbn [append_all].
  - intros [= <- <-]. exists d, l, t, []. rw N.add_0_r !app_nil_r. done.
  - destruct (append_chunk s id c now) as [s1 [out|e]] eqn:Ha; [|done].
    destruct (append_all s1 id chunks) as [s2 [outs'|e]] eqn:Hr; [|done].
    intros [= -> <-].
    pose proof Hh as (Hsz & _ & Hall). cbn in Hsz, Hall.
    destruct (Hall _ _ Ht) as (ps & _ & Hd & _).
    pose proof (append_hist _ _ _ _ _ _ _ _ _ Hh Ha Hd) as Hh1.
    apply append_chunk_Ok in Ha as
      (t0 & new1 & rest & Ht0 & _ & Hcut & Hrest & Hnew & _ & -> & ->);
      [|by eapply hist_sender_inv].
    simplify_eq. destruct Hap as (Hdata & Hn & Hp & Hl).
    eapply (IH _ _ _ (extend_txn id now c new1 rest t) (data ++ c) (new ++ new1))
      in Hr as (d' & l' & t' & new' & Hh' & Ht' & Hcfg & Htot & Hw & Hap' & ->).
    + exists d', l', t', (new1 ++ new'). split; [done|]. split; [done|].
      split; [done|]. split; [done|].
      cbn [fmap list_fmap fst concat extend_txn push_pieces set_frames set_written_bytes
        txn_written txn_total_len txn_frames] in Hw, Hap' |- *.
      split; [rw Hw len_app N.add_assoc //|].
      rw app_assoc app_assoc. split; [done|].
      rw piece_frames_app Hl length_app. done.
    + done.
    + cbn. by rw lookup_insert_eq.
    + cbn. split; [rw Hdata -app_assoc Hcut concat_app app_assoc //|].
      split; [by apply Forall_app|]. split; [done|].
      rw !length_app length_fmap length_piece_frames. cbn. lia.
Qed.

(** A fresh slot, appended to and finished, was cut into the reference frames. *)
Lemma framing_core s d l id total t0 chunks tf s1 s2 s3 outs tail :
  hist_inv (mkHistory s d l) → (total ≤ U32_MAX)%N →
  open_transaction s id total t0 = (s1, Ok tt) →
  append_all s1 id chunks = (s2, Ok outs) →
  finish_transaction s2 id tf = (s3, Ok tail) →
  len (concat chunks.*1) = total ∧
  outs ++ tail = reference_frames id (frame_size (s_config s)) (concat chunks.*1).
Proof.
  intros Hh Ht32 Ho Ha Hf.
  pose proof (open_hist _ _ _ _ _ _ _ Hh Ht32 Ho) as Hh1.
  assert (Hs1 : ∃ t, s1 = set_pending s id t ∧ txn_total_len t = total ∧
    txn_partial t = [] ∧ txn_frames t = [] ∧ txn_written t = 0%N).
  { unfold open_transaction in Ho. repeat case_match; simplify_eq. by eexists. }
  destruct Hs1 as (t & -> & Htot & Hpart & Hfr & Hw).
  assert (Hsz : 1 ≤ frame_size (s_config s)) by by destruct Hh.
  eapply (append_all_spec _ _ _ _ t [] []) in Ha
    as (d' & l' & t' & new & Hh2 & Ht' & Hcfg & Htot' & Hw' & Hap & ->);
    [|done|cbn; by rw lookup_insert_eq|].
  2:{ split; [by rw Hpart|]. split; [done|]. rw Hpart Hfr. split; [cbn; lia|done]. }
  cbn [app s_config set_pending length] in *. destruct Hap as (Hdata & Hnew & Hp & Hl).
  apply finish_cases in Hf as [(_ & ? & _)|(t1 & tl & Ht1 & Hcut & Hlen & Htl & _ & Hr)];
    [done| |by eapply hist_sender_inv].
  simplify_eq. case_decide as Hwd; [done|]. injection Hr as ->.
  assert (Hln : len (concat chunks.*1) = txn_total_len t) by (rw Htot' Hw' Hw in Hwd; lia).
  split; [done|]. rw Htot'. unfold reference_frames. rw Hln Hdata.
  rw split_pieces_cut; [lia|done|done|]. rw piece_frames_app Hl. cbn. f_equal. f_equal.
  rw Hcut. destruct tl as [|p [|]]; cbn in Hlen; [done| |lia].
  cbn. rw app_nil_r. apply Forall_cons in Htl as [[Hp1 _] _].
  by destruct p; [cbn in Hp1; lia|].
Qed.

Lemma begin_as_stream s id payload now s' frames :
  begin_transaction s id payload now = (s', Ok frames) →
  ∃ s1 s2 out tail,
    open_transaction s id (as_u32 (len payload)) now = (s1, Ok tt) ∧
    append_all s1 id [(payload, now)] = (s2, Ok out) ∧
    finish_transaction s2 id now = (s', Ok tail) ∧ frames = out ++ tail.
Proof.
  unfold begin_transaction. case_match; [done|].
  destruct (open_transaction _ _ _ _) as [s1 [[]|]] eqn:Ho; [|done].
  destruct (append_chunk s1 id payload now) as [s2 [out|]] eqn:Ha; [|done].
  destruct (finish_transaction s2 id now) as [s3 [tail|]] eqn:Hf; [|done].
  intros [= -> <-]. exists s1, s2, out, tail. cbn. rw Ha app_nil_r. done.
Qed.

(** [append_chunk] accepts whatever fits the cap and the declared total. *)
Lemma append_accepts s id t chunk now :
  s_pending s !! id = Some t →
  (unacked_bytes s + len chunk ≤ backpressure_cap_bytes (s_config s))%N →
  (txn_written t + len chunk ≤ txn_total_len t)%N →
  ∃ s' out, append_chunk s id chunk now = (s', Ok out).
Proof.
  intros Ht Hcap Hw. unfold append_chunk. rw Ht.
  cmp. destruct (append_frames _ _ _ _ _ _). eauto.
Qed.

(** After an accepted open, the append and the flush cannot fail. *)
Lemma begin_accepts s d l id payload now :
  hist_inv (mkHistory s d l) → s_pending s !! id = None →
  (1 ≤ len payload ≤ U32_MAX)%N →
  (unacked_bytes s + len payload ≤ backpressure_cap_bytes (s_config s))%N →
  ∃ s' frames, begin_transaction s id payload now = (s', Ok frames).
Proof.
  intros Hh Hn Hlen Hcap. unfold begin_transaction.
  rw as_u32_small; [lia|]. unfold open_transaction, contains_transaction.
  rw bool_decide_eq_false_2; [by rw Hn; intros []|]. cmp.
  set (t0 := mkPendingTxn _ _ _ _ _ _ _ _ _ _ _ _).
  assert (Ho : open_transaction s id (len payload) now = (set_pending s id t0, Ok tt)).
  { unfold open_transaction, contains_transaction.
    rw bool_decide_eq_false_2; [by rw Hn; intros []|].
    by cmp. }
  pose proof (open_hist _ _ _ _ _ _ _ Hh (proj2 Hlen) Ho) as Hh1.
  destruct (append_chunk (set_pending s id t0) id payload now) as [s2 [out|e]] eqn:Ha.
  - pose proof (append_hist _ _ _ _ _ _ _ _ [] Hh1 Ha (lookup_insert_eq _ _ _)) as Hh2.
    apply append_chunk_Ok in Ha as
      (t & new & rest & Ht & _ & _ & _ & _ & _ & _ & ->); [|by eapply hist_sender_inv].
    cbn in Ht. rw lookup_insert_eq in Ht. simplify_eq.
    destruct (finish_transaction _ id now) as [s3 r] eqn:Hf.
    apply finish_cases in Hf as [(_ & _ & Hno)|(t1 & tl & Ht1 & _ & _ & _ & -> & Hr)];
      [cbn in Hno; by rw lookup_insert_eq in Hno| |by eapply hist_sender_inv].
    cbn in Ht1. rw lookup_insert_eq in Ht1. injection Ht1 as <-. subst r.
    case_decide as Hd; [|by eauto]. destruct Hd. cbn. lia.
  - exfalso. destruct (append_accepts (set_pending s id t0) id t0 payload now)
      as (s3 & out & Ha'); [cbn; by rw lookup_insert_eq| |cbn; lia|congruence].
    unfold unacked_bytes. cbn. by rw map_sum_insert_None.
Qed.

(** ** Resume verdicts *)

(** Some entry closes [id] (the receiver does not hold it). *)
Definition closes (entries : list ResumeStatusEntry) (id : txid) : Prop :=
  ∃ e, e ∈ entries ∧ rse_transaction_id e = id ∧ rse_status e ≠ Resumed.

#[export] Instance closes_dec entries id : Decision (closes entries id).
Proof.
  refine (cast_if (decide (Exists (λ e, rse_transaction_id e = id ∧
    rse_status e ≠ Resumed) entries))); by rw /closes -Exists_exists.
Defined.

Lemma closes_cons e entries id :
  closes (e :: entries) id ↔
  (rse_transaction_id e = id ∧ rse_status e ≠ Resumed) ∨ closes entries id.
Proof.
  unfold closes. split.
  - intros (e' & [->|He]%elem_of_cons & Hid & Hs); [by left|right; eauto].
  - intros [[Hid Hs]|(e' & He & ?)]; [exists e|exists e']; (split; [|done]).
    + apply elem_of_cons. by left.
    + apply elem_of_cons. by right.
Qed.

Lemma resume_fully_sent now t : is_fully_sent (resume_txn now t).1 = is_fully_sent t.
Proof. unfold resume_txn. case_match; [done|]. by destruct (resend_walk _ _ _ _). Qed.

(** Which transactions are held, and whether they are fully sent. *)
Definition sent_flag (s : TransactionSender) (id : txid) : option bool :=
  is_fully_sent <$> s_pending s !! id.

Lemma apply_verdict_spec now s v e :
  let '(s', v') := apply_verdict now (s, v) e in
  let id := rse_transaction_id e in
  match rse_status e, sent_flag s id with
  | Resumed, _ =>
      (∀ id', sent_flag s' id' = sent_flag s id') ∧
      v_confirmed v' = v_confirmed v ∧ v_failed v' = v_failed v
  | _, Some b =>
      (∀ id', sent_flag s' id' = if decide (id' = id) then None else sent_flag s id') ∧
      v_confirmed v' = v_confirmed v ++ (if b then [id] else []) ∧
      v_failed v' = v_failed v ++ (if b then [] else [id])
  | _, None => s' = s ∧ v' = v
  end.
Proof.
  unfold apply_verdict, sent_flag. destruct (rse_status e).
  2,3: destruct (s_pending s !! rse_transaction_id e) as [t|] eqn:Ht; cbn; [|done];
       (split; [intros id'; case_decide as Hd;
          [subst; by rw lookup_delete_eq|by rw lookup_delete_ne]|]);
       destruct (is_fully_sent t); cbn; by rw ?app_nil_r.
  destruct (s_pending s !! rse_transaction_id e) as [t|] eqn:Ht; cbn; [|done].
  pose proof (resume_fully_sent now t) as Hr.
  destruct (resume_txn now t) as [t' frs]. cbn in *. split; [|done].
  intros id'. destruct (decide (id' = rse_transaction_id e)) as [->|].
  - rw lookup_insert_eq Ht. cbn. by rw Hr.
  - by rw lookup_insert_ne.
Qed.

(** A closing verdict on a held transaction. *)
Lemma apply_verdict_closing now s v e b s' v' :
  rse_status e ≠ Resumed → sent_flag s (rse_transaction_id e) = Some b →
  apply_verdict now (s, v) e = (s', v') →
  (∀ id, sent_flag s' id = if decide (id = rse_transaction_id e) then None else sent_flag s id) ∧
  v_confirmed v' = v_confirmed v ++ (if b then [rse_transaction_id e] else []) ∧
  v_failed v' = v_failed v ++ (if b then [] else [rse_transaction_id e]).
Proof.
  intros Hs Hb He. pose proof (apply_verdict_spec now s v e) as H. rw He in H. cbn zeta in H.
  rw Hb in H. by destruct (rse_status e).
Qed.

(** A fresh id filed under one of the two outcomes. *)
Lemma NoDup_filed (c f : list txid) id (b : bool) :
  NoDup (c ++ f) → id ∉ c ++ f →
  NoDup ((c ++ (if b then [id] else [])) ++ (f ++ (if b then [] else [id]))).
Proof.
  intros Hnd Hf. destruct b; rw app_nil_r.
  - rw -app_assoc. apply NoDup_app in Hnd as (? & ? & ?). apply NoDup_app.
    cbn. rw NoDup_cons. set_solver.
  - rw app_assoc. apply NoDup_app. split; [done|]. split; [set_solver|].
    apply NoDup_singleton.
Qed.

Lemma verdicts_fold now entries s v s' v' :
  foldl (apply_verdict now) (s, v) entries = (s', v') →
  (∀ id, id ∈ v_confirmed v ++ v_failed v → sent_flag s id = None) →
  NoDup (v_confirmed v ++ v_failed v) →
  NoDup (v_confirmed v' ++ v_failed v') ∧
  ∀ id,
    (id ∈ v_confirmed v' ↔
       id ∈ v_confirmed v ∨ (closes entries id ∧ sent_flag s id = Some true)) ∧
    (id ∈ v_failed v' ↔
       id ∈ v_failed v ∨ (closes entries id ∧ sent_flag s id = Some false)) ∧
    (closes entries id → sent_flag s' id = None) ∧
    (¬ closes entries id → sent_flag s' id = sent_flag s id).
Proof.
  revert s v. induction entries as [|e entries IH]; intros s v; cbn [foldl].
  { intros [= <- <-] _ Hnd. split; [done|]. intros id.
    assert (¬ closes [] id) by by intros (? & ?%elem_of_nil & _).
    tauto. }
  pose proof (apply_verdict_spec now s v e) as Hstep.
  pose proof (apply_verdict_closing now s v e) as Hst.
  destruct (apply_verdict now (s, v) e) as [s1 v1]. intros Hf Hout Hnd.
  specialize (IH s1 v1 Hf).
  destruct (decide (rse_status e = Resumed)) as [Hs|Hs].
  - rw Hs in Hstep. destruct Hstep as (Hsf & Hc & Hfl). rw Hc Hfl in IH.
    destruct IH as [Hnd' IH]; [intros; rw Hsf; by apply Hout|done|].
    split; [done|]. intros id. specialize (IH id). rw Hsf in IH.
    assert (Hcl : closes (e :: entries) id ↔ closes entries id)
      by (rw closes_cons; tauto).
    by rw Hcl.
  - cbn zeta in Hstep.
    destruct (sent_flag s (rse_transaction_id e)) as [b|] eqn:Hb in Hstep.
    2:{ assert (s1 = s ∧ v1 = v) as [-> ->] by by destruct (rse_status e).
        destruct IH as [Hnd' IH]; [done|done|]. split; [done|]. intros id.
        destruct (IH id) as (H1 & H2 & H3 & H4). rw H1 H2 closes_cons.
        destruct (decide (rse_transaction_id e = id)) as [Heq|Hne];
          [|split_and!; tauto].
        rw -Heq Hb in H3 H4 |- *. split_and!; [intuition congruence..| |];
          intros _; destruct (decide (closes entries (rse_transaction_id e))); auto. }
    clear Hstep. destruct (Hst b s1 v1 Hs Hb eq_refl) as (Hsf & Hc & Hfl). clear Hst.
    assert (Hfresh : rse_transaction_id e ∉ v_confirmed v ++ v_failed v)
      by (intros Hin; specialize (Hout _ Hin); congruence).
    destruct IH as [Hnd' IH].
    { intros id Hin. rw Hsf. case_decide; [done|]. apply Hout.
      rw Hc Hfl !elem_of_app in Hin. rw elem_of_app. destruct b; set_solver. }
    { rw Hc Hfl. by apply NoDup_filed. }
    split; [done|]. intros id. destruct (IH id) as (H1 & H2 & H3 & H4).
    rw Hsf in H1 H2 H4. rw H1 H2 Hc Hfl !elem_of_app closes_cons. clear H1 H2 Hnd' Hsf IH.
    destruct (decide (id = rse_transaction_id e)) as [->|Hne].
    + rw Hb. split_and!; [destruct b; set_solver..| |by intros []; left].
      intros _. destruct (decide (closes entries (rse_transaction_id e))); auto.
    + split_and!; [destruct b; set_solver..| |intros Hcl; apply H4; tauto].
      intros [[Heq _]|Hcl]; [by destruct Hne|by apply H3].
Qed.

Lemma elem_of_due s now f :
  f ∈ (due_retransmissions s now).2 ↔
  ∃ id t i st,
    s_pending s !! id = Some t ∧ txn_paused t = false ∧ txn_awaiting_resume t = false ∧
    txn_states t !! i = Some st ∧ txn_frames t !! i = Some (Some f) ∧
    confirmed st = false ∧
    (current_rto (rto_initial_ms (s_config s)) (rto_max_ms (s_config s)) (attempts st)
       ≤ now - last_sent_ms st)%N.
Proof.
  unfold due_retransmissions.
  destruct (iter_mut _ _) as [pending out] eqn:Hm. cbn [snd].
  replace out with (iter_mut (λ _, due_txn (s_config s) now) (s_pending s)).2 by by rw Hm.
  rw iter_mut_out. split.
  - intros (id & t & Ht & Hf). unfold due_txn in Hf.
    destruct (txn_paused t) eqn:Hp, (txn_awaiting_resume t) eqn:Ha; cbn in Hf;
      try by apply elem_of_nil in Hf.
    destruct (resend_walk _ _ _ _) as [sts fs] eqn:Hw. cbn in Hf.
    assert (Hf' : f ∈ (resend_walk (rto_elapsed (s_config s) now) now
      (txn_states t) (txn_frames t)).2) by by rw Hw.
    apply resend_walk_frames in Hf' as (i & st & Hst & Hfr & Hc & Hd).
    exists id, t, i, st. split_and!; try done. by apply N.leb_le.
  - intros (id & t & i & st & Ht & Hp & Ha & Hst & Hfr & Hc & Hd).
    exists id, t. split; [done|]. unfold due_txn. rw Hp Ha. cbn [orb].
    assert (Hf' : f ∈ (resend_walk (rto_elapsed (s_config s) now) now
      (txn_states t) (txn_frames t)).2).
    { apply resend_walk_frames. exists i, st. split_and!; try done. by apply N.leb_le. }
    by destruct (resend_walk _ _ _ _).
Qed.

(** ** Properties *)

(** C7: in every history of a sender, the unacknowledged bytes stay within the
    backpressure cap, and every held transaction is a faithful cut of the
    bytes its writer handed in: the accepted bytes are the frame payloads in
    [seq] order followed by the buffered tail, every frame ever handed to the
    egress (first transmission or retransmission) is one of those pieces under
    its own [seq] and the declared total, and once the transaction is fully
    sent the pieces are exactly the declared [total_len] bytes. *)
Theorem sender_content cfg s d l :
  sender_reach cfg (mkHistory s d l) →
  (unacked_bytes s ≤ backpressure_cap_bytes (s_config s))%N ∧
  ∀ id t, s_pending s !! id = Some t →
    ∃ ps, d !! id = Some (concat ps ++ txn_partial t) ∧
      (len (concat ps ++ txn_partial t) ≤ txn_total_len t)%N ∧
      (∀ f, f ∈ l → transaction_id f = id → frame_of_piece id (txn_total_len t) ps f) ∧
      (is_fully_sent t = true →
         d !! id = Some (concat ps) ∧ len (concat ps) = txn_total_len t).
Proof.
  intros (_ & Hcap & Hall)%sender_reach_inv. split; [done|].
  intros id t (ps & Hi & Hd & Hl)%Hall. exists ps. split; [done|].
  rw len_app -(ti_written _ _ _ _ Hi). split; [by apply (ti_written_le _ _ _ _ Hi)|].
  split; [done|]. intros [Hw%N.eqb_eq Hp%bool_decide_eq_true]%andb_true_iff.
  rw (ti_written _ _ _ _ Hi) Hp len_nil N.add_0_r in Hw.
  split; [|done]. by rw Hd Hp app_nil_r.
Qed.

(** what a streaming writer puts on the wire does not depend on how it cut
    its bytes into chunks: after open, any number of accepted appends and an
    accepted finish, the frames handed out are the reference split of the
    concatenated chunks, and their size is the declared total. *)
Theorem streaming_framing cfg s d l id total t0 chunks tf s1 s2 s3 outs tail :
  sender_reach cfg (mkHistory s d l) → (total ≤ U32_MAX)%N →
  open_transaction s id total t0 = (s1, Ok tt) →
  append_all s1 id chunks = (s2, Ok outs) →
  finish_transaction s2 id tf = (s3, Ok tail) →
  len (concat chunks.*1) = total ∧
  outs ++ tail = reference_frames id (frame_size (s_config s)) (concat chunks.*1).
Proof. intros Hr%sender_reach_inv. by eapply framing_core. Qed.

(** Acceptance and framing of the whole-payload form. *)
Lemma begin_core cfg s d l id payload now :
  sender_reach cfg (mkHistory s d l) →
  (is_ok (begin_transaction s id payload now).2 = true ↔
     s_pending s !! id = None ∧ (1 ≤ len payload ≤ U32_MAX)%N ∧
     (unacked_bytes s + len payload ≤ backpressure_cap_bytes (s_config s))%N) ∧
  ∀ s' frames, begin_transaction s id payload now = (s', Ok frames) →
    frames = reference_frames id (frame_size (s_config s)) payload.
Proof.
  intros Hr%sender_reach_inv.
  assert (Hok : ∀ s' frames, begin_transaction s id payload now = (s', Ok frames) →
    as_u32 (len payload) = len payload ∧
    s_pending s !! id = None ∧ as_u32 (len payload) ≠ 0%N ∧
    frames = reference_frames id (frame_size (s_config s)) payload).
  { intros s' frames (s1 & s2 & out & tail & Ho & Ha & Hf & ->)%begin_as_stream.
    pose proof (framing_core _ _ _ _ _ _ _ _ _ _ _ _ _ Hr
      (as_u32_le _) Ho Ha Hf) as [Hlen Hfr]. cbn in Hlen, Hfr. rw app_nil_r in Hlen Hfr.
    split; [done|]. unfold open_transaction, contains_transaction in Ho.
    case_match eqn:Hc; [done|]. apply bool_decide_eq_false, eq_None_not_Some in Hc.
    split; [done|]. case_match eqn:Hz; [done|]. by apply N.eqb_neq in Hz. }
  split; [|by intros s' frames (_ & _ & _ & ->)%Hok]. split.
  - destruct (begin_transaction s id payload now) as [s' [frames|]] eqn:Hb; [|done].
    intros _. destruct (Hok _ _ eq_refl) as (H1 & H2 & H3 & _). split; [done|].
    pose proof (as_u32_le (len payload)). split; [lia|].
    unfold begin_transaction in Hb. case_match eqn:Hcap; [done|].
    by apply N.ltb_ge in Hcap.
  - intros (Hn & Hlen & Hcap).
    destruct (begin_accepts s d l id payload now Hr Hn Hlen Hcap) as (s' & fr & ->). done.
Qed.

(** [begin_transaction] accepts exactly the non-empty payloads under a
    fresh id that fit [u32] and the backpressure cap, and then hands out the
    same reference split as the streaming form. *)
Theorem begin_framing cfg s d l id payload now :
  sender_reach cfg (mkHistory s d l) →
  (is_ok (begin_transaction s id payload now).2 = true ↔
     s_pending s !! id = None ∧ (1 ≤ len payload ≤ U32_MAX)%N ∧
     (unacked_bytes s + len payload ≤ backpressure_cap_bytes (s_config s))%N) ∧
  ∀ s' frames, begin_transaction s id payload now = (s', Ok frames) →
    frames = reference_frames id (frame_size (s_config s)) payload.
Proof. apply begin_core. Qed.

Lemma shiftl_1 a : N.shiftl 1 a = (2 ^ a)%N.
Proof. by rw N.shiftl_1_l. Qed.

(** the retransmission timeout backs off exponentially and is capped: it
    never exceeds the ceiling, never decreases with failed attempts, is
    [rto_initial * 2^attempts] while that is below the ceiling, and reaches
    the ceiling. *)
Theorem rto_backoff (i m a : N) :
  (1 ≤ i)%N → (m ≤ 2 ^ 62)%N →
  (current_rto i m a ≤ m)%N ∧
  (∀ b, a ≤ b → current_rto i m a ≤ current_rto i m b)%N ∧
  ((i * 2 ^ a ≤ m)%N → current_rto i m a = (i * 2 ^ a)%N) ∧
  ((62 ≤ a)%N → current_rto i m a = m).
Proof.
  intros Hi Hm. unfold current_rto, u64_saturating_mul. rw !shiftl_1.
  assert (H64 : (2 ^ 62 ≤ U64_MAX)%N) by by vm_compute.
  split_and!.
  - lia.
  - intros b Hab. rw shiftl_1.
    assert (2 ^ N.min a 62 ≤ 2 ^ N.min b 62)%N by (apply N.pow_le_mono_r; lia).
    assert (i * 2 ^ N.min a 62 ≤ i * 2 ^ N.min b 62)%N by (apply N.mul_le_mono_l; lia).
    lia.
  - intros Hle. assert (Ha : (a ≤ 62)%N).
    { apply (N.pow_le_mono_r_iff 2); [lia|]. nia. }
    replace (N.min a 62) with a by lia. lia.
  - intros Ha. replace (N.min a 62) with 62%N by lia.
    assert (2 ^ 62 ≤ i * 2 ^ 62)%N by nia. lia.
Qed.

(** C31: a retransmission tick resends exactly the held, unconfirmed frames
    whose timeout elapsed, of the transactions that are neither paused nor
    gated awaiting a resume verdict. *)
Theorem due_exact s now f :
  f ∈ (due_retransmissions s now).2 ↔
  ∃ id t i st,
    s_pending s !! id = Some t ∧ txn_paused t = false ∧ txn_awaiting_resume t = false ∧
    txn_states t !! i = Some st ∧ txn_frames t !! i = Some (Some f) ∧
    confirmed st = false ∧
    (current_rto (rto_initial_ms (s_config s)) (rto_max_ms (s_config s)) (attempts st)
       ≤ now - last_sent_ms st)%N.
Proof. apply elem_of_due. Qed.

(** C32: no unconfirmed frame is forgotten: its copy is held, and a tick that
    comes [rto_max] after its last transmission resends it, unless its
    transaction is paused or gated. *)
Theorem due_within_rto_max cfg s d l id t i st now :
  sender_reach cfg (mkHistory s d l) → s_pending s !! id = Some t →
  txn_paused t = false → txn_awaiting_resume t = false →
  txn_states t !! i = Some st → confirmed st = false →
  (rto_max_ms (s_config s) ≤ now - last_sent_ms st)%N →
  ∃ f, txn_frames t !! i = Some (Some f) ∧ transaction_id f = id ∧
       f ∈ (due_retransmissions s now).2.
Proof.
  intros (_ & _ & Hall)%sender_reach_inv Ht Hp Ha Hst Hc Hn.
  destruct (Hall _ _ Ht) as (ps & Hi & _).
  pose proof (ti_copies _ _ _ _ Hi) as Hcp. apply (f_equal (.!! i)) in Hcp.
  rw !list_lookup_fmap Hst in Hcp. cbn in Hcp. rw Hc in Hcp.
  destruct (txn_frames t !! i) as [[f|]|] eqn:Hf; [|done|done].
  exists f. split; [done|]. split.
  - by eapply piece_frame_id, held_is_piece.
  - apply elem_of_due. exists id, t, i, st. split_and!; try done.
    unfold current_rto. lia.
Qed.

(** The contiguous progress known after an ACK entry, before clamping. *)
Definition ack_progress (t : PendingTxn) (e : AckEntry) : N :=
  match txn_acked_contiguous t with
  | None => highest_contiguous_seq e
  | Some h => N.max h (highest_contiguous_seq e)
  end.

Lemma ack_txn_count size id ps t e now :
  txn_inv size id ps t → frame_count (ack_txn e now t) = len (txn_frames t).
Proof.
  intros Hi. pose proof (ack_txn_inv _ _ e now Hi) as Hi'.
  rw (frame_count_len _ _ Hi') /len (ti_len _ _ _ _ Hi). done.
Qed.

(** A fully sent transaction has at least one frame. *)
Lemma fully_sent_frames size id ps t :
  txn_inv size id ps t → is_fully_sent t = true → (1 ≤ len (txn_frames t))%N.
Proof.
  intros Hi [Hw%N.eqb_eq Hp%bool_decide_eq_true]%andb_true_iff.
  unfold len. rw (ti_len _ _ _ _ Hi). destruct ps; cbn [length]; [|lia].
  destruct Hi. rw Hp in ti_written0. cbn [concat] in ti_written0. rw !len_nil in ti_written0. lia.
Qed.

(** The frames of a fully sent transaction are its content. *)
Lemma sent_content cfg s d l id t data :
  sender_reach cfg (mkHistory s d l) → s_pending s !! id = Some t → is_fully_sent t = true →
  d !! id = Some data →
  ∃ ps, txn_inv (frame_size (s_config s)) id ps t ∧ concat ps = data ∧
    ∀ f, f ∈ l → transaction_id f = id → frame_of_piece id (txn_total_len t) ps f.
Proof.
  intros (_ & _ & Hpend)%sender_reach_inv Ht Hs Hd. destruct (Hpend id t Ht) as (ps & Hi & Hdp & Hl).
  apply andb_true_iff in Hs as [_ Hp%bool_decide_eq_true].
  rw Hd Hp app_nil_r in Hdp. injection Hdp as ->. by exists ps.
Qed.

Lemma ack_fully_acked size id ps t e now :
  txn_inv size id ps t →
  is_fully_acked (ack_txn e now t) = true ↔
  is_fully_sent t = true ∧ (len (txn_frames t) - 1 ≤ ack_progress t e)%N ∧
  (len (txn_frames t) ≤ N.max (txn_acked_received t) (received_frames e))%N.
Proof.
  intros Hi. unfold is_fully_acked. rw (ack_txn_count _ _ _ _ _ _ Hi).
  change (is_fully_sent (ack_txn e now t)) with (is_fully_sent t).
  change (txn_acked_received (ack_txn e now t))
    with (N.max (txn_acked_received t) (received_frames e)).
  change (txn_acked_contiguous (ack_txn e now t))
    with (Some (N.min (ack_progress t e) (frame_count t - 1))).
  destruct (is_fully_sent t) eqn:Hs; cbn [negb]; [|split; [done|by intros []]].
  pose proof (fully_sent_frames _ _ _ _ Hi Hs) as Hn.
  assert (Hfc : frame_count t = len (txn_frames t)).
  { rw (frame_count_len _ _ Hi) /len (ti_len _ _ _ _ Hi). done. }
  rw Hfc. unfold checked_pred. cmp.
  rw !andb_true_iff !bool_decide_eq_true N.leb_le. split.
  - intros [[He%(inj Some) _] Hr]. split; [done|]. split; [lia|done].
  - intros (_ & Hp & Hr). split_and!; [f_equal; lia|done|done].
Qed.

Lemma ack_txn_held size id ps t e now i f :
  txn_inv size id ps t →
  txn_frames (ack_txn e now t) !! i = Some (Some f) ↔
  txn_frames t !! i = Some (Some f) ∧ (ack_progress t e < N.of_nat i)%N.
Proof.
  intros Hi. pose proof (ti_states_len _ _ Hi) as Hsl. pose proof (ti_len _ _ _ _ Hi) as Hfl.
  pose proof (ti_count _ _ Hi) as Hcount.
  unfold ack_txn. cbn [txn_frames set_written_bytes set_frames].
  fold (ack_progress t e). set (upto := Nat.min _ _).
  assert (Hup : upto = Nat.min (N.to_nat (N.min (ack_progress t e)
    (len (txn_frames t) - 1)) + 1) (length ps)).
  { unfold upto, frame_count. rw as_u32_small // Hsl. done. }
  clearbody upto. unfold len in *. rw lookup_app. rw list_lookup_fmap.
  destruct (decide (i < upto)) as [Hlt|Hge].
  - destruct (lookup_lt_is_Some_2 (txn_frames t) i) as [x Hx]; [lia|].
    rw lookup_take_lt // Hx. cbn. split; [done|]. intros [_ ?]. lia.
  - rw lookup_take_ge; [lia|]. cbn. rw length_fmap length_take lookup_drop.
    rw Nat.min_l; [lia|]. replace (upto + (i - upto)) with i by lia. split; [|tauto].
    intros Hf. split; [done|]. apply lookup_lt_Some in Hf. lia.
Qed.

(** an ACK entry completes a transaction exactly when it is fully sent and
    the (cumulative) report covers its last frame and its frame count; the
    copy is then gone. Otherwise exactly the frames up to the reported prefix
    are released, whatever the peer reports, and no other transaction is
    touched. *)
Theorem ack_effect cfg s d l e t now :
  sender_reach cfg (mkHistory s d l) →
  s_pending s !! ack_transaction_id e = Some t →
  let id := ack_transaction_id e in
  let '(s', done_) := handle_ack s e now in
  (done_ = true ↔
     is_fully_sent t = true ∧ (len (txn_frames t) - 1 ≤ ack_progress t e)%N ∧
     (len (txn_frames t) ≤ N.max (txn_acked_received t) (received_frames e))%N) ∧
  (if done_ then s_pending s' !! id = None
   else ∃ t', s_pending s' !! id = Some t' ∧ txn_total_len t' = txn_total_len t ∧
          ∀ i f, txn_frames t' !! i = Some (Some f) ↔
                 txn_frames t !! i = Some (Some f) ∧ (ack_progress t e < N.of_nat i)%N) ∧
  (∀ id', id' ≠ id → s_pending s' !! id' = s_pending s !! id').
Proof.
  intros (_ & _ & Hall)%sender_reach_inv Ht. destruct (Hall _ _ Ht) as (ps & Hi & _).
  cbn zeta. unfold handle_ack. rw Ht.
  destruct (is_fully_acked (ack_txn e now t)) eqn:Ha.
  - split; [|split].
    + rw -(ack_fully_acked _ _ _ _ _ now Hi). done.
    + apply lookup_delete_eq.
    + intros id' Hne. by apply lookup_delete_ne.
  - split; [|split].
    + rw -(ack_fully_acked _ _ _ _ _ now Hi). by rw Ha.
    + exists (ack_txn e now t). split; [apply lookup_insert_eq|]. split; [done|].
      intros i f. by eapply ack_txn_held.
    + intros id' Hne. by apply lookup_insert_ne.
Qed.

(** adjudication of resume verdicts: an [unknown] or [rejected] entry closes
    a held transaction, reported once, as confirmed when every declared byte
    had been framed and as failed otherwise; nothing else is reported, nothing
    else leaves the table. *)
Theorem verdict_adjudication s entries now s' v :
  apply_resume_verdicts s entries now = (s', v) →
  NoDup (v_confirmed v ++ v_failed v) ∧
  ∀ id,
    (id ∈ v_confirmed v ↔
       closes entries id ∧ ∃ t, s_pending s !! id = Some t ∧ is_fully_sent t = true) ∧
    (id ∈ v_failed v ↔
       closes entries id ∧ ∃ t, s_pending s !! id = Some t ∧ is_fully_sent t = false) ∧
    (s_pending s' !! id = None ↔ s_pending s !! id = None ∨ closes entries id).
Proof.
  intros Hv. destruct (verdicts_fold now entries s (mkResumeVerdicts [] [] []) s' v Hv)
    as [Hnd Hspec]; [by intros id ?%elem_of_nil|constructor|].
  split; [done|]. intros id. destruct (Hspec id) as (Hc & Hf & Hcl & Hop).
  unfold sent_flag in *. rw Hc Hf !fmap_Some. cbn. rw elem_of_nil.
  split; [split; [intros [[]|(? & t & ? & ?)]; eauto|intros (? & t & ? & ?); right; eauto]|].
  split; [split; [intros [[]|(? & t & ? & ?)]; eauto|intros (? & t & ? & ?); right; eauto]|].
  destruct (decide (closes entries id)) as [Hcd|Hcd].
  - specialize (Hcl Hcd). apply fmap_None in Hcl. rw Hcl. tauto.
  - specialize (Hop Hcd). destruct (s_pending s' !! id), (s_pending s !! id); try done.
    all: cbn in Hop; tauto || naive_solver.
Qed.

(** a [resumed] verdict on a held, unpaused transaction lifts its gate and
    resends exactly its unconfirmed frames; on a paused one it lifts the gate
    and sends nothing. *)
Theorem resume_resends (t : PendingTxn) (now : N) :
  txn_awaiting_resume (resume_txn now t).1 = false ∧
  txn_declared_ms (resume_txn now t).1 = None ∧
  ∀ f, f ∈ (resume_txn now t).2 ↔
    txn_paused t = false ∧
    ∃ i st, txn_states t !! i = Some st ∧ txn_frames t !! i = Some (Some f) ∧
            confirmed st = false.
Proof.
  unfold resume_txn. change (txn_paused (set_progress _ _)) with (txn_paused t).
  destruct (txn_paused t).
  - cbn. split; [done|]. split; [done|]. intros f. rw elem_of_nil. split; [done|by intros []].
  - cbn [txn_states txn_frames set_progress set_gate].
    pose proof (resend_walk_frames (λ _, true) now (txn_states t) (txn_frames t)) as Hw.
    destruct (resend_walk _ _ _ _) as [sts fs]. cbn in *.
    split; [done|]. split; [done|]. intros f. rw Hw. naive_solver.
Qed.

(** ** Witnesses

    A sender with 4-byte working frames and one 6-byte transaction written in
    two chunks. *)

Definition demo_cfg : SenderConfig := mkSenderConfig 4 2000 30000 64.
Definition demo_id : txid := txid_of_byte x07.
Definition demo_chunks : list (list byte * N) :=
  [([x01; x02; x03], 10%N); ([x04; x05; x06], 20%N)].
Definition demo_new : TransactionSender := TransactionSender_new demo_cfg.
Definition demo_opened : TransactionSender := (open_transaction demo_new demo_id 6 0).1.
Definition demo_appended : TransactionSender :=
  (append_chunk demo_opened demo_id [x01; x02; x03; x04; x05] 10).1.

Lemma demo_reach_new : sender_reach demo_cfg (sender_init demo_cfg).
Proof. apply rtc_refl. Qed.

(** Five of six bytes written: one frame out, one byte buffered. *)
Definition demo_log : list Frame := [piece_frame demo_id 6 0 [x01; x02; x03; x04]].

Lemma demo_reach :
  sender_reach demo_cfg
    (mkHistory demo_appended {[demo_id := [x01; x02; x03; x04; x05]]} demo_log).
Proof.
  eapply rtc_l.
  { apply (step_open demo_new ∅ [] demo_id 6 0 demo_opened); [by vm_compute|].
    apply pair_snd. by vm_compute. }
  eapply rtc_l.
  { apply (step_append demo_opened _ _ demo_id [x01; x02; x03; x04; x05] 10
      demo_appended demo_log []); [apply pair_snd; by vm_compute|].
    by rw lookup_insert_eq. }
  rw insert_insert_eq. apply rtc_refl.
Qed.

Definition demo_txn : PendingTxn :=
  mkPendingTxn 6 [Some (piece_frame demo_id 6 0 [x01; x02; x03; x04])]
    [mkFrameState false 10 0] [x05] 5 5 false false None None 0 0.

Lemma demo_lookup : s_pending demo_appended !! demo_id = Some demo_txn.
Proof. by vm_compute. Qed.

Lemma sender_content_witness :
  (unacked_bytes demo_appended ≤ 64)%N ∧
  ∃ ps, [x01; x02; x03; x04; x05] = concat ps ++ [x05] ∧
    frame_of_piece demo_id 6 ps (piece_frame demo_id 6 0 [x01; x02; x03; x04]).
Proof.
  destruct (sender_content demo_cfg _ _ _ demo_reach) as [Hcap Hall].
  split; [exact Hcap|]. destruct (Hall _ _ demo_lookup) as (ps & Hd & _ & Hl & _).
  exists ps. split.
  - rw lookup_insert_eq in Hd. by injection Hd.
  - apply Hl; [by left|done].
Defined.

Lemma streaming_framing_witness :
  [piece_frame demo_id 6 0 [x01; x02; x03; x04]] ++
  [piece_frame demo_id 6 1 [x05; x06]] =
  reference_frames demo_id 4 [x01; x02; x03; x04; x05; x06].
Proof.
  apply (streaming_framing demo_cfg demo_new ∅ [] demo_id 6 0 demo_chunks 30
    demo_opened (append_all demo_opened demo_id demo_chunks).1
    (finish_transaction (append_all demo_opened demo_id demo_chunks).1 demo_id 30).1).
  - apply demo_reach_new.
  - by vm_compute.
  - apply pair_snd. by vm_compute.
  - apply pair_snd. by vm_compute.
  - apply pair_snd. by vm_compute.
Defined.

Lemma begin_framing_witness :
  is_ok (begin_transaction demo_new demo_id [x01; x02; x03; x04; x05] 0).2 = true.
Proof.
  apply (begin_framing demo_cfg demo_new ∅ [] demo_id [x01; x02; x03; x04; x05] 0
    demo_reach_new).
  split_and!; by vm_compute.
Defined.

Lemma rto_backoff_witness : current_rto 2000 30000 3 = 16000%N.
Proof. apply (rto_backoff 2000 30000 3); by vm_compute. Defined.

Lemma due_within_rto_max_witness :
  ∃ f, txn_frames demo_txn !! 0 = Some (Some f) ∧ transaction_id f = demo_id ∧
       f ∈ (due_retransmissions demo_appended 30010).2.
Proof.
  apply (due_within_rto_max demo_cfg demo_appended _ _ demo_id demo_txn 0
    (mkFrameState false 10 0) 30010 demo_reach demo_lookup); by vm_compute.
Defined.

Definition demo_ack : AckEntry := mkAckEntry demo_id 0 1.

Lemma ack_effect_witness :
  let '(s', done_) := handle_ack demo_appended demo_ack 40 in
  done_ = false ∧ is_Some (s_pending s' !! demo_id).
Proof.
  pose proof (ack_effect demo_cfg _ _ _ demo_ack demo_txn 40 demo_reach demo_lookup) as Hack.
  destruct (handle_ack demo_appended demo_ack 40) as [s' [|]] eqn:He; cbn in Hack.
  - destruct Hack as (Hiff & _ & _). by destruct (proj1 Hiff eq_refl) as (Hs & _).
  - destruct Hack as (_ & (t' & Ht' & _) & _). by split.
Defined.

Lemma verdict_adjudication_witness :
  demo_id ∈ v_failed
    (apply_resume_verdicts demo_appended [mkResumeStatusEntry demo_id StatusUnknown] 50).2.
Proof.
  destruct (apply_resume_verdicts demo_appended
    [mkResumeStatusEntry demo_id StatusUnknown] 50) as [s' v] eqn:Hv. cbn [snd].
  apply (verdict_adjudication _ _ _ _ _ Hv). split.
  - exists (mkResumeStatusEntry demo_id StatusUnknown). by split; [left|].
  - exists demo_txn. split; [apply demo_lookup|by vm_compute].
Defined.
