(* ===== verification/Reassemble.v ===== *)
(** * Transaction reassembly ([src/reliability/reassemble.rs])

    Per-transaction slots: frames arrive in any order and any number of times,
    the contiguous prefix advances, and the payload is handed out once the
    completion criterion holds. *)
From stdpp Require Import sorting.
From S2P Require Import Prelude Crc Frame Control.

(** ** [BTreeMap<u32, Vec<u8>>]: a finite map traversed in key order *)

Definition btree_keys {V} (m : gmap N V) : list N :=
  merge_sort N.le (map_to_list m).*1.

Definition btree_values {V} (m : gmap N V) : list V := omap (m !!.) (btree_keys m).

(** [a..b] over [u32]. *)
Definition n_range (a b : N) : list N :=
  N.of_nat <$> List.seq (N.to_nat a) (N.to_nat (b - a)).

(** ** Data *)

Inductive ReassemblyError : Type :=
  | TotalLenConflict (first got : N)
  | FrameLenMismatch (declared actual : N)
  | EmptyTotalLen
  | RxTotalLenExceeded (total : N).

Inductive ReceiveOutcome : Type :=
  | Accepted (complete : bool) (emitted : list (N * list byte))
  | Duplicate
  | SlotlessDropped.

#[export] Instance ReassemblyError_eq_dec : EqDecision ReassemblyError.
Proof. solve_decision. Defined.
#[export] Instance ReceiveOutcome_eq_dec : EqDecision ReceiveOutcome.
Proof. solve_decision. Defined.

Record Slot : Type := mkSlot {
  slot_total_len : N;
  slot_frames : gmap N (list byte);
  slot_received_frames : N;
  slot_received_bytes : N;
  slot_contiguous_prefix : option N;
}.

Record TransactionReassembler : Type := mkTransactionReassembler {
  slots : gmap txid Slot;
}.

(** ** [impl Slot] *)

(** [contiguous_prefix.map_or(0, |h| h + 1)]. *)
Definition prefix_end (prefix : option N) : N :=
  match prefix with None => 0 | Some h => u32_succ h end.

(** The [while] loop of [advance_contiguous]: every iteration consumes a
    distinct stored key, so the number of stored frames is enough fuel
    ([advance_loop_spec]). *)
Fixpoint advance_loop (fuel : nat) (frames : gmap N (list byte)) (next : N)
    (prefix : option N) : option N :=
  match fuel with
  | O => prefix
  | S fuel' =>
      match frames !! next with
      | Some _ => advance_loop fuel' frames (u32_succ next) (Some next)
      | None => prefix
      end
  end.

Definition advance_contiguous (s : Slot) : Slot :=
  let next := prefix_end (slot_contiguous_prefix s) in
  mkSlot (slot_total_len s) (slot_frames s) (slot_received_frames s)
    (slot_received_bytes s)
    (advance_loop (S (size (slot_frames s))) (slot_frames s) next
       (slot_contiguous_prefix s)).

Definition slot_is_complete (s : Slot) : bool :=
  bool_decide (is_Some (slot_contiguous_prefix s)) &&
  (slot_received_bytes s =? slot_total_len s)%N.

(** ** [impl TransactionReassembler] *)

Definition TransactionReassembler_new : TransactionReassembler :=
  mkTransactionReassembler ∅.

Definition rx_contains_transaction (r : TransactionReassembler) (id : txid) : bool :=
  bool_decide (is_Some (slots r !! id)).

(** The slot [entry().or_insert_with()] works on. *)
Definition slot_or_new (r : TransactionReassembler) (id : txid) (total_len : N) : Slot :=
  default (mkSlot total_len ∅ 0 0 None) (slots r !! id).

Definition put_slot (r : TransactionReassembler) (id : txid) (s : Slot) :
    TransactionReassembler :=
  mkTransactionReassembler (<[id := s]> (slots r)).

(** Store one frame: [insert], the counters, the prefix. *)
Definition store_frame (s : Slot) (sq : N) (payload : list byte) : Slot :=
  advance_contiguous
    (mkSlot (slot_total_len s) (<[sq := payload]> (slot_frames s))
       (u32_succ (slot_received_frames s))
       (slot_received_bytes s + len payload) (slot_contiguous_prefix s)).

(** The frames newly covered by the contiguous prefix, in [seq] order. *)
Definition newly_covered (previous_end : N) (s : Slot) : list (N * list byte) :=
  let new_end :=
    match slot_contiguous_prefix s with
    | None => previous_end - 1
    | Some h => u32_succ h
    end%N in
  omap (λ k, (λ b, (k, b)) <$> slot_frames s !! k) (n_range previous_end new_end).

Definition receive_frame (r : TransactionReassembler) (id : txid)
    (sq total_len frame_len : N) (payload : list byte) (now_ms : N) (emit : bool) :
    TransactionReassembler * result ReceiveOutcome ReassemblyError :=
  if decide (frame_len ≠ len payload)
  then (r, Err (FrameLenMismatch frame_len (len payload)))
  else if (total_len =? 0)%N then (r, Err EmptyTotalLen)
  else if (0 <? sq)%N && negb (rx_contains_transaction r id)
  then (r, Ok SlotlessDropped)
  else
    let previous_prefix_end :=
      match slots r !! id with
      | Some s => prefix_end (slot_contiguous_prefix s)
      | None => 0%N
      end in
    let slot := slot_or_new r id total_len in
    let r1 := put_slot r id slot in
    if decide (slot_total_len slot ≠ total_len)
    then (r1, Err (TotalLenConflict (slot_total_len slot) total_len))
    else if decide (is_Some (slot_frames slot !! sq)) then (r1, Ok Duplicate)
    else if (total_len <? slot_received_bytes slot + len payload)%N
    then (r1, Err (RxTotalLenExceeded total_len))
    else
      let slot' := store_frame slot sq payload in
      (put_slot r id slot',
       Ok (Accepted (slot_is_complete slot')
             (if emit then newly_covered previous_prefix_end slot' else []))).

Definition rx_is_complete (r : TransactionReassembler) (id : txid) : bool :=
  match slots r !! id with Some s => slot_is_complete s | None => false end.

Definition rx_byte_progress (r : TransactionReassembler) (id : txid) :
    option (N * N) :=
  (λ s, (slot_received_bytes s, slot_total_len s)) <$> slots r !! id.

Definition rx_take_completed (r : TransactionReassembler) (id : txid) :
    TransactionReassembler * option (list byte) :=
  match slots r !! id with
  | None => (r, None)
  | Some s =>
      if negb (slot_is_complete s) then (r, None)
      else (mkTransactionReassembler (delete id (slots r)),
            Some (concat (btree_values (slot_frames s))))
  end.

Definition rx_ack_entry (r : TransactionReassembler) (id : txid) : option AckEntry :=
  s ← slots r !! id;
  h ← slot_contiguous_prefix s;
  Some (mkAckEntry id h (slot_received_frames s)).

Definition rx_missing_seqs (r : TransactionReassembler) (id : txid)
    (max_entries : nat) : list N :=
  match slots r !! id with
  | None => []
  | Some s =>
      match last (btree_keys (slot_frames s)) with
      | None => []
      | Some highest =>
          take max_entries
            (filter (λ k, slot_frames s !! k = None)
               (n_range (prefix_end (slot_contiguous_prefix s)) highest))
      end
  end.

Definition rx_open_transactions (r : TransactionReassembler) : list txid :=
  (map_to_list (slots r)).*1.

Definition rx_discard (r : TransactionReassembler) (id : txid) :
    TransactionReassembler * bool :=
  (mkTransactionReassembler (delete id (slots r)), rx_contains_transaction r id).

Definition MAX_NACK_MISSING_ENTRIES : N := (CONTROL_PAYLOAD_CAP - 19) / 4.

(** ** Key order *)

Lemma elem_of_n_range a b k : k ∈ n_range a b ↔ (a ≤ k < b)%N.
Proof.
  unfold n_range. rw list_elem_of_fmap. split.
  - intros (i & -> & Hi%elem_of_seq). lia.
  - intros Hk. exists (N.to_nat k). rw elem_of_seq. lia.
Qed.

Lemma NoDup_n_range a b : NoDup (n_range a b).
Proof. unfold n_range. apply NoDup_fmap; [apply _|]. apply NoDup_seq. Qed.

Lemma length_n_range a b : length (n_range a b) = N.to_nat (b - a).
Proof. unfold n_range. rw length_fmap length_seq. done. Qed.

Lemma Sorted_n_range a b : StronglySorted N.le (n_range a b).
Proof.
  unfold n_range. generalize (N.to_nat a) as i. generalize (N.to_nat (b - a)) as n.
  induction n as [|n IH]; intros i; cbn; constructor; [apply IH|].
  apply Forall_forall. intros k (j & -> & Hj%elem_of_seq)%list_elem_of_fmap. lia.
Qed.

Lemma elem_of_btree_keys {V} (m : gmap N V) k : k ∈ btree_keys m ↔ is_Some (m !! k).
Proof.
  unfold btree_keys. rw merge_sort_Permutation list_elem_of_fmap. split.
  - intros ([k' v] & -> & Hkv%elem_of_map_to_list). eauto.
  - intros [v Hv]. exists (k, v). by rw elem_of_map_to_list.
Qed.

Lemma NoDup_btree_keys {V} (m : gmap N V) : NoDup (btree_keys m).
Proof. unfold btree_keys. rw merge_sort_Permutation. apply NoDup_fst_map_to_list. Qed.

#[export] Instance N_le_total : Total N.le.
Proof. intros x y. lia. Qed.

Lemma Sorted_btree_keys {V} (m : gmap N V) : StronglySorted N.le (btree_keys m).
Proof. apply StronglySorted_merge_sort; apply _. Qed.

(** The keys of a map without holes are [0..n]. *)
Lemma btree_keys_dense {V} (m : gmap N V) (n : N) :
  (∀ k, is_Some (m !! k) ↔ (k < n)%N) → btree_keys m = n_range 0 n.
Proof.
  intros Hm. apply (StronglySorted_unique N.le);
    [apply Sorted_btree_keys|apply Sorted_n_range|].
  apply NoDup_Permutation; [apply NoDup_btree_keys|apply NoDup_n_range|].
  intros k. rw elem_of_btree_keys elem_of_n_range Hm. lia.
Qed.

Lemma dense_le_size {V} (m : gmap N V) (n : N) :
  (∀ k, (k < n)%N → is_Some (m !! k)) → (n ≤ N.of_nat (size m))%N.
Proof.
  intros Hm. assert (Hs : list_to_set (n_range 0 n) ⊆@{gset N} dom m).
  { intros k. rw elem_of_list_to_set elem_of_n_range elem_of_dom.
    intros [_ ?]. by apply Hm. }
  apply subseteq_size in Hs. rw size_list_to_set in Hs; [apply NoDup_n_range|].
  rw length_n_range size_dom in Hs. lia.
Qed.

(** ** The contiguous prefix *)

(** First sequence number not covered by the prefix. *)
Definition pend (prefix : option N) : N :=
  match prefix with None => 0 | Some h => h + 1 end.

(** The prefix is exactly the leading run of stored frames. *)
Definition prefix_ok (m : gmap N (list byte)) (prefix : option N) : Prop :=
  (∀ k, (k < pend prefix)%N → is_Some (m !! k)) ∧ m !! pend prefix = None.

Lemma prefix_end_pend (m : gmap N (list byte)) prefix :
  (N.of_nat (size m) ≤ U32_MAX)%N →
  (∀ k, (k < pend prefix)%N → is_Some (m !! k)) → prefix_end prefix = pend prefix.
Proof.
  intros Hs Hm%dense_le_size. destruct prefix as [h|]; [|done].
  cbn in *. unfold u32_succ. rw as_u32_small; lia.
Qed.

Lemma advance_loop_spec fuel (m : gmap N (list byte)) prefix :
  (N.of_nat (size m) ≤ U32_MAX)%N →
  (∀ k, (k < pend prefix)%N → is_Some (m !! k)) →
  size m < fuel + N.to_nat (pend prefix) →
  let p := advance_loop fuel m (pend prefix) prefix in
  prefix_ok m p ∧ (pend prefix ≤ pend p)%N.
Proof.
  intros Hs. revert prefix. induction fuel as [|fuel IH]; intros prefix Hm Hf.
  { apply dense_le_size in Hm. lia. }
  cbn [advance_loop]. destruct (m !! pend prefix) as [v|] eqn:Hn.
  - assert (Hm' : ∀ k, (k < pend (Some (pend prefix)))%N → is_Some (m !! k)).
    { intros k Hk. cbn in Hk. destruct (decide (k = pend prefix)) as [->|]; [eauto|].
      apply Hm. lia. }
    pose proof (dense_le_size _ _ Hm') as Hle. cbn [pend] in Hle.
    unfold u32_succ. rw as_u32_small; [lia|].
    destruct (IH (Some (pend prefix)) Hm') as [H1 H2]; [cbn [pend]; lia|].
    cbn [pend] in *. split; [done|]. lia.
  - split; [done|]. lia.
Qed.

(** ** The slot invariant *)

Record slot_wf (s : Slot) : Prop := {
  sw_total : (1 ≤ slot_total_len s ≤ U32_MAX)%N;
  sw_keys : ∀ k, is_Some (slot_frames s !! k) → (k ≤ U32_MAX)%N;
  sw_size : (N.of_nat (size (slot_frames s)) ≤ U32_MAX)%N;
  sw_count : slot_received_frames s = N.of_nat (size (slot_frames s));
  sw_bytes : slot_received_bytes s = map_sum len (slot_frames s);
  sw_bytes_le : (slot_received_bytes s ≤ slot_total_len s)%N;
  sw_prefix : prefix_ok (slot_frames s) (slot_contiguous_prefix s);
}.

Lemma sw_prefix_end s : slot_wf s →
  prefix_end (slot_contiguous_prefix s) = pend (slot_contiguous_prefix s).
Proof.
  intros []. apply (prefix_end_pend (slot_frames s)); [done|]. apply sw_prefix0.
Qed.

Lemma new_slot_wf total : (1 ≤ total ≤ U32_MAX)%N → slot_wf (mkSlot total ∅ 0 0 None).
Proof.
  intros Ht. split; cbn [slot_total_len slot_frames slot_received_frames
    slot_received_bytes slot_contiguous_prefix].
  - done.
  - intros k [? Hk]. by rw lookup_empty in Hk.
  - by rw map_size_empty.
  - by rw map_size_empty.
  - by rw map_sum_empty.
  - lia.
  - split; [|apply lookup_empty]. cbn. intros. lia.
Qed.

Lemma store_frame_wf s sq p :
  slot_wf s → slot_frames s !! sq = None → (sq ≤ U32_MAX)%N →
  (N.of_nat (size (slot_frames s)) < U32_MAX)%N →
  (slot_received_bytes s + len p ≤ slot_total_len s)%N →
  slot_wf (store_frame s sq p) ∧
  (pend (slot_contiguous_prefix s) ≤ pend (slot_contiguous_prefix (store_frame s sq p)))%N.
Proof.
  intros Hwf Hn Hsq Hsz Hb. pose proof (sw_prefix_end _ Hwf) as Hpe. destruct Hwf.
  set (m := <[sq:=p]> (slot_frames s)).
  assert (Hsize : size m = S (size (slot_frames s))) by by apply map_size_insert_None.
  assert (Hcov : ∀ k, (k < pend (slot_contiguous_prefix s))%N → is_Some (m !! k)).
  { intros k Hk. apply lookup_insert_is_Some'. right. by apply sw_prefix0. }
  destruct (advance_loop_spec (S (size m)) m (slot_contiguous_prefix s))
    as [Hp Hge]; [rw Hsize; lia|done|lia|].
  unfold store_frame, advance_contiguous. cbn [slot_contiguous_prefix slot_frames].
  fold m. rw Hpe. split; [|done].
  split; cbn [slot_total_len slot_frames slot_received_frames slot_received_bytes
              slot_contiguous_prefix]; try done.
  - intros k [->|Hk]%lookup_insert_is_Some'; [done|]. by apply sw_keys0.
  - rw Hsize. lia.
  - rw sw_count0 Hsize. unfold u32_succ. rw as_u32_small; lia.
  - unfold m. rw map_sum_insert_None // sw_bytes0. lia.
Qed.

(** ** Honest slots: what a faithful sender's frames leave behind *)

(** The frames of a transaction whose working-frame payloads are [ps]. *)
Definition piece_map (ps : list (list byte)) : gmap N (list byte) :=
  kmap N.of_nat (map_seq (M := gmap nat (list byte)) 0 ps).

Lemma lookup_piece_map ps k : piece_map ps !! k = ps !! N.to_nat k.
Proof.
  unfold piece_map. rw -{1}(N2Nat.id k) lookup_kmap lookup_map_seq_0 //.
Qed.

Lemma piece_map_snoc ps p :
  piece_map (ps ++ [p]) = <[N.of_nat (length ps) := p]> (piece_map ps).
Proof. unfold piece_map. rw map_seq_snoc kmap_insert //. Qed.

Lemma size_piece_map ps : size (piece_map ps) = length ps.
Proof.
  induction ps as [|p l IH] using rev_ind; [done|].
  rw piece_map_snoc map_size_insert_None.
  - rw lookup_piece_map Nat2N.id. apply lookup_ge_None. lia.
  - rw IH length_app. cbn. lia.
Qed.

Lemma map_sum_piece_map ps : map_sum len (piece_map ps) = len (concat ps).
Proof.
  induction ps as [|p ps IH] using rev_ind; [apply map_sum_empty|].
  rw piece_map_snoc map_sum_insert_None.
  - rw lookup_piece_map Nat2N.id. apply lookup_ge_None. lia.
  - rw IH concat_app len_app. cbn. rw app_nil_r. lia.
Qed.

Lemma map_sum_subseteq (m1 m2 : gmap N (list byte)) :
  m1 ⊆ m2 → (map_sum len m2 = map_sum len m1 + map_sum len (m2 ∖ m1))%N.
Proof.
  intros Hs. revert m2 Hs. induction m1 as [|k v m Hk IH] using map_ind; intros m2 Hs.
  - rw map_sum_empty map_difference_empty. done.
  - assert (Hm2 : m2 !! k = Some v)
      by (eapply lookup_weaken; [apply lookup_insert_eq|done]).
    assert (Hs' : m ⊆ delete k m2).
    { apply map_subseteq_spec. intros k' v' Hk'.
      assert (k ≠ k') by congruence. rw lookup_delete_ne //.
      eapply lookup_weaken; [|done]. by rw lookup_insert_ne. }
    rw (map_sum_delete len m2 k v Hm2) (IH _ Hs') map_sum_insert_None //.
    rw -delete_difference N.add_assoc. f_equal. f_equal.
    apply map_eq. intros k'. apply option_eq. intros x.
    rw !lookup_delete_Some !lookup_difference_Some !lookup_delete_Some. tauto.
Qed.

(** A subset of non-empty pieces with all their bytes is all of them. *)
Lemma piece_map_full ps (m : gmap N (list byte)) :
  Forall (λ p, 1 ≤ length p) ps → m ⊆ piece_map ps →
  map_sum len m = len (concat ps) → m = piece_map ps.
Proof.
  intros Hne Hs Hsum. apply (anti_symm (⊆)); [done|].
  pose proof (map_sum_subseteq _ _ Hs) as Hd. rw map_sum_piece_map in Hd.
  assert (H0 : map_sum len (piece_map ps ∖ m) = 0%N) by lia.
  apply map_subseteq_spec. intros k v Hk.
  destruct (m !! k) as [v'|] eqn:Hmk.
  - eapply lookup_weaken in Hs; [|done]. congruence.
  - assert (Hdk : (piece_map ps ∖ m) !! k = Some v) by by apply lookup_difference_Some.
    apply (map_sum_lookup_le len) in Hdk. rw lookup_piece_map in Hk.
    eapply Forall_lookup_1 in Hne; [|done]. cbn in Hne. unfold len in *. lia.
Qed.

Lemma piece_map_keys ps k : is_Some (piece_map ps !! k) ↔ (k < len ps)%N.
Proof. rw lookup_piece_map lookup_lt_is_Some. unfold len. lia. Qed.

Lemma btree_values_piece_map ps : btree_values (piece_map ps) = ps.
Proof.
  unfold btree_values. rw (btree_keys_dense _ (len ps) (piece_map_keys ps)).
  unfold n_range. rw N.sub_0_r. unfold len. rw Nat2N.id. cbn [N.to_nat].
  induction ps as [|p ps IH] using rev_ind; [done|].
  rw length_app. cbn [length]. rw seq_app fmap_app omap_app. cbn.
  rw lookup_piece_map Nat2N.id list_lookup_middle //. cbn. f_equal.
  etrans; [|exact IH]. apply list_omap_ext, Forall2_same_length_lookup. split; [done|].
  intros i x y Hx Hy. assert (x = y) as -> by congruence.
  apply list_lookup_fmap_Some in Hx as (j & -> & Hj%lookup_seq).
  rw !lookup_piece_map Nat2N.id lookup_app_l; [lia|done].
Qed.

Record honest_slot (total : N) (ps : list (list byte)) (s : Slot) : Prop := {
  hs_wf : slot_wf s;
  hs_total : slot_total_len s = total;
  hs_sub : slot_frames s ⊆ piece_map ps;
}.

(** ** Receiving *)

Definition rx_wf (r : TransactionReassembler) : Prop :=
  map_Forall (λ _ s, slot_wf s) (slots r).

(** The branch that stores the frame. *)
Lemma receive_store r id sq total p now emit :
  let s := slot_or_new r id total in
  total ≠ 0%N → (sq = 0%N ∨ is_Some (slots r !! id)) → slot_total_len s = total →
  slot_frames s !! sq = None → (slot_received_bytes s + len p ≤ total)%N →
  receive_frame r id sq total (len p) p now emit =
  (put_slot r id (store_frame s sq p),
   Ok (Accepted (slot_is_complete (store_frame s sq p))
         (if emit then newly_covered (prefix_end (slot_contiguous_prefix s))
                         (store_frame s sq p) else []))).
Proof.
  intros s Ht Hs Htot Hf Hb. unfold receive_frame.
  case_decide; [done|]. destruct (N.eqb_spec total 0); [done|].
  assert (Hg : (0 <? sq)%N && negb (rx_contains_transaction r id) = false).
  { unfold rx_contains_transaction. destruct Hs as [->|Hs]; [done|].
    rw bool_decide_eq_true_2 //. apply andb_false_r. }
  rw Hg. fold s. cbn zeta. case_decide; [done|].
  case_decide as Hd; [rw Hf in Hd; by destruct Hd|].
  cmp.
  do 3 f_equal. destruct emit; [|done]. f_equal.
  unfold s, slot_or_new. by destruct (slots r !! id).
Qed.

(** Any frame, honest or not, leaves the reassembler well-formed. *)
Lemma receive_frame_wf r id sq total flen p now emit :
  rx_wf r → (sq ≤ U32_MAX)%N → (total ≤ U32_MAX)%N →
  (∀ s, slots r !! id = Some s → (N.of_nat (size (slot_frames s)) < U32_MAX)%N) →
  rx_wf (receive_frame r id sq total flen p now emit).1.
Proof.
  intros Hwf Hsq Ht Hsz. unfold receive_frame.
  case_decide; [done|]. destruct (N.eqb_spec total 0); [done|].
  case_match; [done|].
  assert (Hs : slot_wf (slot_or_new r id total)).
  { unfold slot_or_new. destruct (slots r !! id) eqn:Hs; cbn; [by eapply Hwf|].
    apply new_slot_wf. lia. }
  assert (Hput : ∀ s, slot_wf s → rx_wf (put_slot r id s)).
  { intros s Hs'. by apply map_Forall_insert_2. }
  case_decide as Htl; [by apply Hput|]. case_decide as Hd; [by apply Hput|].
  destruct (N.ltb_spec total (slot_received_bytes (slot_or_new r id total) + len p));
    [by apply Hput|].
  apply Hput. apply store_frame_wf; [done|by apply eq_None_not_Some|done| |lia].
  unfold slot_or_new. destruct (slots r !! id) eqn:Hs'; cbn; [by apply Hsz|].
  rw map_size_empty. done.
Qed.

(** ** Reassembly of an honest transaction *)

(** The chunks of [ps] with sequence numbers in [a..b]. *)
Definition stream_chunks (ps : list (list byte)) (a b : N) : list (N * list byte) :=
  omap (λ k, (λ p, (k, p)) <$> ps !! N.to_nat k) (n_range a b).

Lemma n_range_app a b c : (a ≤ b ≤ c)%N → n_range a b ++ n_range b c = n_range a c.
Proof.
  intros. unfold n_range. rw -fmap_app.
  replace (N.to_nat (c - a)) with (N.to_nat (b - a) + N.to_nat (c - b)) by lia.
  rw seq_app. do 3 f_equal; lia.
Qed.

Lemma stream_chunks_app ps a b c :
  (a ≤ b ≤ c)%N → stream_chunks ps a b ++ stream_chunks ps b c = stream_chunks ps a c.
Proof. intros. unfold stream_chunks. rw -omap_app n_range_app //. Qed.

Lemma stream_chunks_nil ps a : stream_chunks ps a a = [].
Proof. unfold stream_chunks, n_range. by rw N.sub_diag. Qed.

Lemma stream_chunks_full ps :
  (stream_chunks ps 0 (len ps)).*2 = ps.
Proof.
  etrans; [|apply btree_values_piece_map]. unfold btree_values, stream_chunks.
  rw (btree_keys_dense _ (len ps) (piece_map_keys ps)).
  induction (n_range 0 (len ps)) as [|k l IH]; [done|]. cbn.
  rw lookup_piece_map. destruct (ps !! N.to_nat k); cbn; [by f_equal|done].
Qed.

(** Frames of one transaction fed in arrival order with emission on; the
    emitted chunks are what a stream consumer sees. *)
Fixpoint receive_all (r : TransactionReassembler) (id : txid) (total : N)
    (fs : list (N * list byte)) (now : N) :
    TransactionReassembler * list (N * list byte) :=
  match fs with
  | [] => (r, [])
  | (sq, p) :: fs' =>
      let '(r1, o) := receive_frame r id sq total (len p) p now true in
      let '(r2, em) := receive_all r1 id total fs' now in
      (r2, match o with Ok (Accepted _ e) => e ++ em | _ => em end)
  end.

Section honest.
Context (total : N) (ps : list (list byte)).
Context (Hne : Forall (λ p, 1 ≤ length p) ps).
Context (Htotal : total = len (concat ps)) (Hu32 : (total ≤ U32_MAX)%N).

Lemma honest_count : (len ps ≤ total)%N.
Proof using All.
  rw Htotal. by apply len_concat_ge.
Qed.

Lemma honest_size s : honest_slot total ps s →
  (N.of_nat (size (slot_frames s)) ≤ len ps)%N.
Proof using All.
  intros [_ _ Hsub]. apply map_subseteq_size in Hsub.
  rw size_piece_map in Hsub. unfold len. lia.
Qed.

(** Bytes decide completeness exactly: the byte count reaches the total iff
    every piece is stored. *)
Lemma honest_complete s : honest_slot total ps s →
  slot_is_complete s = true ↔ slot_frames s = piece_map ps.
Proof using All.
  intros [Hwf Htot Hsub]. unfold slot_is_complete.
  rw andb_true_iff bool_decide_eq_true N.eqb_eq (sw_bytes _ Hwf) Htot Htotal.
  split.
  - intros [_ Hb]. by apply piece_map_full.
  - intros Hf. rw Hf map_sum_piece_map. split; [|done].
    destruct (sw_prefix _ Hwf) as [_ Hnone]. destruct (slot_contiguous_prefix s); [done|].
    cbn in Hnone. rw Hf lookup_piece_map in Hnone. cbn in Hnone.
    apply lookup_ge_None in Hnone. destruct Hwf. rw Htot Htotal in sw_total0.
    destruct ps; cbn in *; [|lia]. unfold len in sw_total0. cbn in sw_total0. lia.
Qed.

Lemma honest_complete_keys s : honest_slot total ps s →
  slot_is_complete s = true ↔ ∀ k, (k < len ps)%N → is_Some (slot_frames s !! k).
Proof using All.
  intros Hh. rw (honest_complete s Hh). split; [intros -> k; apply piece_map_keys|].
  intros Hstored. destruct Hh as [_ _ Hsub]. apply (anti_symm (⊆)); [done|].
  apply map_subseteq_spec. intros k v Hv.
  destruct (Hstored k) as [v' Hv']; [apply piece_map_keys; eauto|].
  eapply lookup_weaken in Hsub; [|done]. congruence.
Qed.

Lemma honest_complete_prefix s : honest_slot total ps s → slot_is_complete s = true →
  pend (slot_contiguous_prefix s) = len ps.
Proof using All.
  intros Hh Hc%honest_complete; [|done]. destruct Hh as [Hwf _ _].
  destruct (sw_prefix _ Hwf) as [Hcov Hnone]. rw Hc in Hcov Hnone.
  assert (¬ (pend (slot_contiguous_prefix s) < len ps)%N).
  { intros Hlt%piece_map_keys. rw Hnone in Hlt. by destruct Hlt. }
  destruct (decide (len ps < pend (slot_contiguous_prefix s))%N) as [Hlt|]; [|lia].
  apply Hcov, piece_map_keys in Hlt. lia.
Qed.

Lemma honest_new : ps ≠ [] → honest_slot total ps (mkSlot total ∅ 0 0 None).
Proof using All.
  intros Hps. pose proof honest_count. split; [|done|apply map_empty_subseteq].
  apply new_slot_wf. destruct ps; [done|]. rw len_cons in H. lia.
Qed.

(** Storing a new piece of an honest transaction always fits. *)
Lemma honest_store s sq p :
  honest_slot total ps s → ps !! N.to_nat sq = Some p → slot_frames s !! sq = None →
  (slot_received_bytes s + len p ≤ total)%N ∧
  honest_slot total ps (store_frame s sq p) ∧
  (pend (slot_contiguous_prefix s) ≤
   pend (slot_contiguous_prefix (store_frame s sq p)))%N.
Proof using All.
  intros Hs Hp Hn. pose proof (honest_size _ Hs) as Hsz. destruct Hs as [Hwf Htot Hsub].
  assert (Hsub' : <[sq:=p]> (slot_frames s) ⊆ piece_map ps).
  { apply insert_subseteq_l; [by rw lookup_piece_map|done]. }
  assert (Hb : (slot_received_bytes s + len p ≤ total)%N).
  { pose proof (map_sum_subseteq _ _ Hsub') as Hd.
    rw map_sum_piece_map map_sum_insert_None // -(sw_bytes _ Hwf) in Hd. lia. }
  split; [done|]. pose proof honest_count as Hc.
  assert (Hsq : (sq < len ps)%N) by (apply lookup_lt_Some in Hp; unfold len; lia).
  assert (Hsize : size (<[sq:=p]> (slot_frames s)) = S (size (slot_frames s)))
    by by apply map_size_insert_None.
  assert (Hsz' : (N.of_nat (size (<[sq:=p]> (slot_frames s))) ≤ len ps)%N).
  { apply map_subseteq_size in Hsub'.
    rw size_piece_map in Hsub'. unfold len. lia. }
  destruct (store_frame_wf s sq p Hwf Hn) as [Hwf' Hge]; [lia|lia|lia|].
  split; [|done]. by split.
Qed.

Lemma honest_covered s s' :
  honest_slot total ps s → honest_slot total ps s' →
  (pend (slot_contiguous_prefix s) ≤ pend (slot_contiguous_prefix s'))%N →
  newly_covered (prefix_end (slot_contiguous_prefix s)) s' =
  stream_chunks ps (pend (slot_contiguous_prefix s)) (pend (slot_contiguous_prefix s')).
Proof using All.
  intros [Hwf _ _] [Hwf' _ Hsub'] Hle. rw (sw_prefix_end _ Hwf).
  pose proof (sw_prefix_end _ Hwf') as Hpe. destruct (sw_prefix _ Hwf') as [Hcov _].
  unfold newly_covered, stream_chunks.
  assert (Hend : match slot_contiguous_prefix s' with
      | None => pend (slot_contiguous_prefix s) - 1 | Some h => u32_succ h end%N
    = pend (slot_contiguous_prefix s')).
  { destruct (slot_contiguous_prefix s'); [exact Hpe|]. cbn in *. lia. }
  rw Hend. apply list_omap_ext, Forall2_same_length_lookup. split; [done|].
  intros i k k' Hk Hk'. assert (k = k') as <- by congruence.
  apply list_elem_of_lookup_2, elem_of_n_range in Hk.
  destruct (Hcov k) as [v Hv]; [lia|]. rw Hv.
  eapply lookup_weaken in Hsub'; [|done]. rw lookup_piece_map in Hsub'. by rw Hsub'.
Qed.

(** One honest frame into an open slot. *)
Lemma honest_receive r id s sq p now emit :
  slots r !! id = Some s → honest_slot total ps s → ps !! N.to_nat sq = Some p →
  ∃ s' o,
    receive_frame r id sq total (len p) p now emit = (put_slot r id s', Ok o) ∧
    honest_slot total ps s' ∧ slot_frames s' = <[sq:=p]> (slot_frames s) ∧
    (pend (slot_contiguous_prefix s) ≤ pend (slot_contiguous_prefix s'))%N ∧
    match o with
    | Accepted c e =>
        c = slot_is_complete s' ∧ slot_frames s !! sq = None ∧
        e = if emit then stream_chunks ps (pend (slot_contiguous_prefix s))
                           (pend (slot_contiguous_prefix s')) else []
    | Duplicate => s' = s
    | SlotlessDropped => False
    end.
Proof using All.
  intros Hs Hh Hp. pose proof Hh as [Hwf Htot Hsub].
  assert (Ht0 : total ≠ 0%N) by (destruct Hwf; lia).
  assert (Hso : slot_or_new r id total = s) by (unfold slot_or_new; by rw Hs).
  destruct (slot_frames s !! sq) as [v|] eqn:Hst.
  - exists s, Duplicate. assert (v = p) as ->.
    { eapply lookup_weaken in Hsub; [|done]. rw lookup_piece_map in Hsub. congruence. }
    rw (insert_id (slot_frames s)) //. split_and!; [|done|done|lia|done].
    unfold receive_frame. case_decide; [done|]. destruct (N.eqb_spec total 0); [done|].
    unfold rx_contains_transaction. rw Hs bool_decide_eq_true_2; [by eexists|].
    rw andb_false_r Hso. case_decide; [done|].
    case_decide as Hd; [done|]. destruct Hd. by rw Hst.
  - destruct (honest_store s sq p Hh Hp Hst) as (Hb & Hh' & Hge).
    exists (store_frame s sq p). eexists. split; [|split; [done|split; [done|split; [done|]]]].
    + pose proof (receive_store r id sq total p now emit) as Hrs. cbn zeta in Hrs.
      rw Hso in Hrs. rw Hrs //. right. by eexists.
    + cbn. split; [done|]. split; [done|]. destruct emit; [|done].
      by apply honest_covered.
Qed.

Lemma honest_receive_all r id s fs now :
  slots r !! id = Some s → honest_slot total ps s →
  Forall (λ f, ps !! N.to_nat f.1 = Some f.2) fs →
  ∃ s', slots (receive_all r id total fs now).1 !! id = Some s' ∧
    honest_slot total ps s' ∧
    (pend (slot_contiguous_prefix s) ≤ pend (slot_contiguous_prefix s'))%N ∧
    (∀ k, is_Some (slot_frames s' !! k) ↔ is_Some (slot_frames s !! k) ∨ k ∈ fs.*1) ∧
    (receive_all r id total fs now).2 =
    stream_chunks ps (pend (slot_contiguous_prefix s)) (pend (slot_contiguous_prefix s')).
Proof using All.
  intros Hs Hh Hfs. revert r s Hs Hh.
  induction Hfs as [|[sq p] fs Hp _ IH]; intros r s Hs Hh.
  { exists s. split_and!; [done|done|lia| |by rw stream_chunks_nil].
    intros k. cbn. rw elem_of_nil. tauto. }
  cbn [receive_all]. cbn in Hp.
  destruct (honest_receive r id s sq p now true Hs Hh Hp)
    as (s1 & o & Hr & Hh1 & Hfr & Hge & Ho).
  rw Hr. destruct (IH (put_slot r id s1) s1) as (s' & Hs' & Hh' & Hge' & Hk & Hem);
    [apply lookup_insert_eq|done|].
  destruct (receive_all (put_slot r id s1) id total fs now) as [r2 em].
  cbn [fst snd] in *. exists s'. split_and!; [done|done|lia| |].
  - intros k. rw Hk Hfr lookup_insert_is_Some'. cbn. rw elem_of_cons. naive_solver.
  - subst em. destruct o as [c e| |]; [|by subst|done].
    destruct Ho as (_ & _ & ->). apply stream_chunks_app. lia.
Qed.
End honest.

(** The first frame of an honest transaction opens its slot. *)
Lemma honest_open total ps r id p0 now emit :
  Forall (λ p, 1 ≤ length p) ps → total = len (concat ps) → (total ≤ U32_MAX)%N →
  slots r !! id = None → ps !! 0 = Some p0 →
  ∃ s o,
    receive_frame r id 0 total (len p0) p0 now emit = (put_slot r id s, Ok o) ∧
    honest_slot total ps s ∧ slot_frames s = {[0%N := p0]} ∧
    o = Accepted (slot_is_complete s)
          (if emit then stream_chunks ps 0 (pend (slot_contiguous_prefix s)) else []).
Proof.
  intros Hne Ht Hu Hn Hp0. assert (Hps : ps ≠ []) by by intros ->.
  pose proof (honest_new total ps Hne Ht Hu Hps) as Hh0.
  set (s0 := mkSlot total ∅ 0 0 None) in *.
  destruct (honest_store total ps Hne Ht Hu s0 0 p0 Hh0) as (Hb & Hh & Hge);
    [done|apply lookup_empty|].
  exists (store_frame s0 0 p0). eexists. split; [|split; [done|split; [done|]]].
  - pose proof (receive_store r id 0 total p0 now emit) as Hrs. cbn zeta in Hrs.
    unfold slot_or_new in Hrs. rw Hn in Hrs. cbn [default from_option] in Hrs.
    apply Hrs; [|by left|done|apply lookup_empty|done].
    destruct Hh0 as [[] _ _]. cbn in *. lia.
  - cbn. f_equal. destruct emit; [|done].
    by apply (honest_covered total ps Hne Ht Hu s0).
Qed.

(** The slot a list of frames leaves, when it starts with the first frame. *)
Lemma receive_all_from_first total ps r id p0 fs now :
  Forall (λ p, 1 ≤ length p) ps → total = len (concat ps) → (total ≤ U32_MAX)%N →
  slots r !! id = None → Forall (λ f, ps !! N.to_nat f.1 = Some f.2) ((0%N, p0) :: fs) →
  ∃ s, slots (receive_all r id total ((0%N, p0) :: fs) now).1 !! id = Some s ∧
    honest_slot total ps s ∧
    (∀ k, is_Some (slot_frames s !! k) ↔ k ∈ ((0%N, p0) :: fs).*1) ∧
    (receive_all r id total ((0%N, p0) :: fs) now).2 =
    stream_chunks ps 0 (pend (slot_contiguous_prefix s)).
Proof.
  intros Hne Ht Hu Hn [Hp0 Hfs]%Forall_cons. cbn in Hp0. cbn [receive_all].
  destruct (honest_open total ps r id p0 now true Hne Ht Hu Hn Hp0)
    as (s1 & o & Hr & Hh1 & Hfr & Ho).
  rw Hr.
  destruct (honest_receive_all total ps Hne Ht Hu (put_slot r id s1) id s1 fs now)
    as (s & Hs & Hh & Hge & Hk & Hem); [apply lookup_insert_eq|done|done|].
  destruct (receive_all (put_slot r id s1) id total fs now) as [r2 em].
  cbn [fst snd] in *. exists s. split_and!; [done|done| |].
  - intros k. rw Hk Hfr lookup_singleton_is_Some. cbn. rw elem_of_cons. naive_solver.
  - subst o em. apply stream_chunks_app. lia.
Qed.

(** ** Properties *)

(** C8: reassembly of an honest transaction.  Its frames may arrive in any order
    and any number of times, as long as the first one (which opens the slot)
    comes first.  The chunks emitted to a stream consumer are then always a
    gap-free in-order prefix of the transaction; the transaction is reported
    complete exactly when every frame has arrived; and when it is, both the
    emitted chunks and the delivered payload are the sent content. *)
Theorem reassembly_correct total ps r id p0 fs now :
  Forall (λ p, 1 ≤ length p) ps → total = len (concat ps) → (total ≤ U32_MAX)%N →
  slots r !! id = None →
  Forall (λ f, ps !! N.to_nat f.1 = Some f.2) ((0%N, p0) :: fs) →
  let '(r', em) := receive_all r id total ((0%N, p0) :: fs) now in
  (∃ n, em = stream_chunks ps 0 n) ∧
  (rx_is_complete r' id = true ↔ ∀ k, (k < len ps)%N → k ∈ ((0%N, p0) :: fs).*1) ∧
  (rx_is_complete r' id = true →
     (rx_take_completed r' id).2 = Some (concat ps) ∧ em.*2 = ps).
Proof.
  intros Hne Ht Hu Hn Hfs.
  destruct (receive_all_from_first total ps r id p0 fs now Hne Ht Hu Hn Hfs)
    as (s & Hs & Hh & Hk & Hem).
  destruct (receive_all r id total ((0%N, p0) :: fs) now) as [r' em].
  cbn [fst snd] in Hs, Hem. split; [eauto|].
  pose proof (honest_complete total ps Hne Ht Hu s Hh) as Hc.
  unfold rx_is_complete, rx_take_completed. rw Hs.
  split; [rw (honest_complete_keys total ps Hne Ht Hu s Hh); by setoid_rewrite Hk|].
  intros Hcomp. rw Hcomp. cbn.
  rw (honest_complete_prefix total ps Hne Ht Hu s Hh Hcomp) in Hem.
  apply Hc in Hcomp. rw Hcomp btree_values_piece_map. split; [done|]. subst em.
  apply stream_chunks_full.
Qed.

(** whatever frames a peer sends, every slot stays well-formed: the byte
    count is the sum of the stored payloads and never exceeds the declared
    total, the frame count is exact, and the contiguous prefix is exactly the
    leading run of stored frames. *)
Theorem receive_frame_invariant r id sq total flen p now emit :
  rx_wf r → (sq ≤ U32_MAX)%N → (total ≤ U32_MAX)%N →
  (∀ s, slots r !! id = Some s → (N.of_nat (size (slot_frames s)) < U32_MAX)%N) →
  rx_wf (receive_frame r id sq total flen p now emit).1 ∧
  rx_wf (rx_take_completed r id).1 ∧ rx_wf (rx_discard r id).1.
Proof.
  intros Hwf Hsq Ht Hsz. split; [by apply receive_frame_wf|].
  assert (Hdel : rx_wf (mkTransactionReassembler (delete id (slots r))))
    by by apply map_Forall_delete.
  split; [|done]. unfold rx_take_completed.
  destruct (slots r !! id) as [s|]; [|done]. by destruct (slot_is_complete s).
Qed.

(** an exported ACK entry is true and sharp: every frame up to
    [highest_contiguous_seq] is stored and the next one is not, and
    [received_frames] counts the distinct frames; no entry is exported exactly
    when frame 0 is missing (or the transaction has no slot). *)
Theorem ack_entry_truth r id :
  rx_wf r →
  match rx_ack_entry r id with
  | Some e =>
      ack_transaction_id e = id ∧
      ∃ s, slots r !! id = Some s ∧
        (∀ k, (k ≤ highest_contiguous_seq e)%N → is_Some (slot_frames s !! k)) ∧
        slot_frames s !! (highest_contiguous_seq e + 1)%N = None ∧
        received_frames e = N.of_nat (size (slot_frames s))
  | None => ∀ s, slots r !! id = Some s → slot_frames s !! 0%N = None
  end.
Proof.
  intros Hwf. unfold rx_ack_entry. destruct (slots r !! id) as [s|] eqn:Hs; cbn; [|done].
  destruct (Hwf _ _ Hs) as [_ _ _ Hcount _ _ [Hcov Hnone]].
  destruct (slot_contiguous_prefix s) as [h|] eqn:Hp; cbn in *.
  - split; [done|]. exists s. split_and!; [done| |done|done].
    intros k Hk. apply Hcov. lia.
  - by intros s' [= <-].
Qed.

(** The seqs between the prefix and the highest stored frame that are missing. *)
Definition gap (s : Slot) (k : N) : Prop :=
  slot_frames s !! k = None ∧ ∃ h, (k < h)%N ∧ is_Some (slot_frames s !! h).

Lemma last_btree_keys {V} (m : gmap N V) h :
  last (btree_keys m) = Some h → is_Some (m !! h) ∧ ∀ k, is_Some (m !! k) → (k ≤ h)%N.
Proof.
  intros Hl. apply last_Some in Hl as [l Hl].
  pose proof (Sorted_btree_keys m) as Hs. rw Hl in Hs. split.
  - apply elem_of_btree_keys. rw Hl. apply elem_of_app. right. by left.
  - intros k Hk%elem_of_btree_keys. rw Hl in Hk.
    apply elem_of_app in Hk as [Hk|Hk%list_elem_of_singleton]; [|lia].
    clear Hl. induction l as [|x l IH]; [by apply elem_of_nil in Hk|].
    cbn in Hs. apply StronglySorted_inv in Hs as [Hs Hf].
    apply elem_of_cons in Hk as [->|Hk]; [|by apply IH].
    rw Forall_forall in Hf. apply Hf, elem_of_app. right. by left.
Qed.

Lemma elem_of_all_gaps s h k :
  slot_wf s → last (btree_keys (slot_frames s)) = Some h →
  k ∈ filter (λ k, slot_frames s !! k = None)
        (n_range (prefix_end (slot_contiguous_prefix s)) h) ↔ gap s k.
Proof.
  intros Hwf [Hh Hmax]%last_btree_keys. rw list_elem_of_filter elem_of_n_range.
  rw (sw_prefix_end _ Hwf). unfold gap. split.
  - intros (Hk & _ & Hlt). eauto.
  - intros (Hk & h' & Hlt & Hh'%Hmax). split; [done|]. split; [|lia].
    destruct (sw_prefix _ Hwf) as [Hcov _].
    destruct (decide (k < pend (slot_contiguous_prefix s))%N) as [Hc|]; [|lia].
    apply Hcov in Hc. rw Hk in Hc. by destruct Hc.
Qed.

(** the gap list of a transaction contains only true gaps (seqs that are
    missing although a later frame is stored), without repetition, all of them
    when the list is shorter than the limit; and with the limit the receiver
    uses, a non-empty list always fits one NACK control payload. *)
Theorem missing_seqs_exact r id s (max : nat) :
  rx_wf r → slots r !! id = Some s →
  let ms := rx_missing_seqs r id max in
  NoDup ms ∧ (∀ k, k ∈ ms → gap s k) ∧ (length ms ≤ max) ∧
  (length ms < max → ∀ k, gap s k → k ∈ ms) ∧
  (max = N.to_nat MAX_NACK_MISSING_ENTRIES →
   is_ok (NackPayload_encode (mkNackPayload [mkNackEntry id ms])) = true).
Proof.
  intros Hwf Hs ms. pose proof (Hwf _ _ Hs) as Hsw. cbn in Hsw.
  assert (Hms : ∃ l, ms = take max l ∧ NoDup l ∧ (∀ k, k ∈ l ↔ gap s k)).
  { unfold ms, rx_missing_seqs. rw Hs.
    destruct (last (btree_keys (slot_frames s))) as [h|] eqn:Hl.
    - eexists. split; [reflexivity|]. split.
      + apply NoDup_filter, NoDup_n_range.
      + intros k. by apply elem_of_all_gaps.
    - exists []. rw take_nil. split; [done|]. split; [constructor|].
      intros k. rw elem_of_nil. split; [done|]. intros (_ & h & _ & Hh%elem_of_btree_keys).
      apply last_None in Hl. rw Hl in Hh. by apply elem_of_nil in Hh. }
  destruct Hms as (l & -> & Hnd & Hl).
  assert (Hlen : length (take max l) ≤ max) by (rw length_take; lia).
  split_and!; [|..|done| |].
  - eapply sublist_NoDup; [done|]. apply sublist_take.
  - intros k Hk. apply Hl. rw -(take_drop max l). apply elem_of_app. by left.
  - intros Hlt k Hk%Hl. rw length_take in Hlt. rw take_ge //. lia.
  - intros ->. apply is_ok_iff.
    set (ms' := take _ l) in *. clearbody ms'.
    assert (Hn : (len ms' ≤ MAX_NACK_MISSING_ENTRIES)%N) by (unfold len; lia).
    change MAX_NACK_MISSING_ENTRIES with 4091%N in Hn.
    eexists. apply NackPayload_encode_Ok. split; [by vm_compute|].
    assert (He : nack_entry_bytes (mkNackEntry id ms') = Ok (array_bytes id ++
      to_be_bytes 2 (len ms') ++ concat (to_be_bytes 4 <$> ms'))).
    { apply nack_entry_bytes_Ok. unfold U16_MAX. cbn [missing_seqs]. split; [lia|done]. }
    split; [|eexists; split; [cbn [collect]; by rw He|reflexivity]].
    cbn [concat]. rw app_nil_r len_cons !len_app len_be4. unfold len at 1 2.
    rw length_array_bytes length_to_be_bytes.
    unfold CONTROL_PAYLOAD_CAP, MAX_CONTROL_FRAME_LEN. lia.
Qed.

(** byte equality stands in for frame coverage: frames 0 and 2 of a peer that
    declares 2 bytes in total complete the transaction although frame 1 never
    arrived, and their concatenation is delivered (the completion criterion
    checks only that some prefix exists, not that it covers the last frame). *)
Theorem completion_with_hole (id : txid) (a b : byte) (now : N) :
  let '(r1, _) := receive_frame TransactionReassembler_new id 0 2 1 [a] now false in
  let '(r2, o) := receive_frame r1 id 2 2 1 [b] now false in
  o = Ok (Accepted true []) ∧ rx_ack_entry r2 id = Some (mkAckEntry id 0 2) ∧
  rx_missing_seqs r2 id 10 = [1%N] ∧ (rx_take_completed r2 id).2 = Some [a; b].
Proof.
  set (s1 := store_frame (mkSlot 2 ∅ 0 0 None) 0 [a]).
  assert (H1 : receive_frame TransactionReassembler_new id 0 2 1 [a] now false =
    (put_slot TransactionReassembler_new id s1, Ok (Accepted (slot_is_complete s1) []))).
  { apply (receive_store TransactionReassembler_new id 0 2 [a] now false);
      unfold slot_or_new; cbn [slots TransactionReassembler_new]; try done; by left. }
  rw H1. set (s2 := store_frame s1 2 [b]).
  assert (Hs1 : slot_or_new (put_slot TransactionReassembler_new id s1) id 2 = s1).
  { unfold slot_or_new, put_slot. cbn [slots]. by rw lookup_insert_eq. }
  pose proof (receive_store (put_slot TransactionReassembler_new id s1) id 2 2 [b] now false)
    as H2. cbn zeta in H2. rw Hs1 in H2. rw H2; [done|right|done|done|done|].
  { exists s1. apply lookup_insert_eq. }
  unfold rx_ack_entry, rx_missing_seqs, rx_take_completed, put_slot. cbn [slots].
  rw !lookup_insert_eq. fold s2. by vm_compute.
Qed.

(** a settled transaction is not remembered: after a one-frame transaction
    was completed and taken, the reassembler is exactly as before, so a late
    retransmission of its first frame opens a fresh slot and completes it
    again (only [seq > 0] frames of settled transactions are dropped). *)
Theorem late_first_frame_redelivers r id p now :
  slots r !! id = None → (1 ≤ len p ≤ U32_MAX)%N →
  let '(r1, o) := receive_frame r id 0 (len p) (len p) p now false in
  o = Ok (Accepted true []) ∧ rx_take_completed r1 id = (r, Some p).
Proof.
  intros Hn Hp.
  assert (Hne : Forall (λ q : list byte, 1 ≤ length q) [p]).
  { constructor; [|done]. unfold len in Hp. lia. }
  assert (Ht : len p = len (concat [p])) by (cbn; by rw app_nil_r).
  destruct (honest_open (len p) [p] r id p now false Hne Ht (proj2 Hp) Hn eq_refl)
    as (s & o & Hr & Hh & Hfr & ->).
  rw Hr. assert (Hc : slot_is_complete s = true).
  { apply (honest_complete (len p) [p] Hne Ht (proj2 Hp) s Hh). rw Hfr. done. }
  split; [by rw Hc|]. unfold rx_take_completed, put_slot. cbn [slots].
  rw lookup_insert_eq Hc. cbn [negb]. f_equal.
  - rw delete_insert_id //. by destruct r.
  - apply (honest_complete (len p) [p] Hne Ht (proj2 Hp) s Hh) in Hc.
    rw Hc btree_values_piece_map. cbn. by rw app_nil_r.
Qed.

(** ** Witnesses: a three-piece transaction, out of order with a repeat. *)

Definition demo_pieces : list (list byte) := [[x01; x02]; [x03; x04]; [x05]].
Definition demo_arrival : list (N * list byte) :=
  [(2%N, [x05]); (0%N, [x01; x02]); (1%N, [x03; x04])].

Lemma reassembly_correct_witness :
  let '(r', em) :=
    receive_all TransactionReassembler_new (txid_of_byte x09) 5
      ((0%N, [x01; x02]) :: demo_arrival) 0 in
  (rx_take_completed r' (txid_of_byte x09)).2 = Some [x01; x02; x03; x04; x05] ∧
  em.*2 = demo_pieces.
Proof.
  pose proof (reassembly_correct 5 demo_pieces TransactionReassembler_new
    (txid_of_byte x09) [x01; x02] demo_arrival 0) as Hc.
  destruct (receive_all _ _ _ _ _) as [r' em].
  destruct Hc as (_ & Hiff & Hdone).
  - repeat constructor; cbn; lia.
  - done.
  - by vm_compute.
  - apply lookup_empty.
  - repeat constructor.
  - apply Hdone, Hiff. intros k Hk. change (len demo_pieces) with 3%N in Hk.
    assert (k = 0 ∨ k = 1 ∨ k = 2)%N as [->|[->| ->]] by lia; cbn; set_solver.
Defined.

Lemma rx_wf_new : rx_wf TransactionReassembler_new.
Proof. apply map_Forall_empty. Qed.

Lemma receive_frame_invariant_witness :
  rx_wf (receive_frame TransactionReassembler_new (txid_of_byte x09) 0 5 2 [x01; x02] 0 true).1.
Proof.
  apply (receive_frame_invariant TransactionReassembler_new (txid_of_byte x09) 0 5 2
    [x01; x02] 0 true rx_wf_new); [by vm_compute|by vm_compute|].
  intros s Hs. by rw lookup_empty in Hs.
Defined.

(** Frames 0 and 2 of 3 are in. *)
Definition demo_gapped : TransactionReassembler :=
  (receive_all TransactionReassembler_new (txid_of_byte x09) 5
     [(0%N, [x01; x02]); (2%N, [x05])] 0).1.

Definition demo_slot : Slot :=
  mkSlot 5 (<[2%N := [x05]]> {[0%N := [x01; x02]]}) 2 3 (Some 0%N).

Lemma demo_gapped_wf : rx_wf demo_gapped.
Proof.
  set (r1 := (receive_frame TransactionReassembler_new (txid_of_byte x09) 0 5
    (len [x01; x02]) [x01; x02] 0 true).1).
  assert (Hw1 : rx_wf r1).
  { apply receive_frame_wf; [apply rx_wf_new|by vm_compute|by vm_compute|].
    intros s Hs. by rw lookup_empty in Hs. }
  assert (Hn : (λ s, size (slot_frames s)) <$> slots r1 !! txid_of_byte x09 = Some 1)
    by by vm_compute.
  change demo_gapped
    with (receive_frame r1 (txid_of_byte x09) 2 5 (len [x05]) [x05] 0 true).1.
  apply receive_frame_wf; [done|by vm_compute|by vm_compute|].
  intros s Hs. rw Hs in Hn. injection Hn as ->. by vm_compute.
Qed.

Lemma ack_entry_truth_witness :
  ∃ s, slots demo_gapped !! txid_of_byte x09 = Some s ∧ slot_frames s !! 1%N = None.
Proof.
  pose proof (ack_entry_truth demo_gapped (txid_of_byte x09) demo_gapped_wf) as Ht.
  assert (Ha : rx_ack_entry demo_gapped (txid_of_byte x09) =
    Some (mkAckEntry (txid_of_byte x09) 0 2)) by by vm_compute.
  rw Ha in Ht. destruct Ht as (_ & s & Hs & _ & Hn & _). by exists s.
Defined.

Lemma missing_seqs_exact_witness :
  rx_missing_seqs demo_gapped (txid_of_byte x09) 10 = [1%N] ∧ gap demo_slot 1.
Proof.
  assert (Hm : rx_missing_seqs demo_gapped (txid_of_byte x09) 10 = [1%N]) by by vm_compute.
  split; [done|].
  destruct (missing_seqs_exact demo_gapped (txid_of_byte x09) demo_slot 10 demo_gapped_wf)
    as (_ & Hg & _); [by vm_compute|].
  apply Hg. rw Hm. by left.
Defined.

Lemma late_first_frame_redelivers_witness :
  let '(r1, o) :=
    receive_frame TransactionReassembler_new (txid_of_byte x09) 0 2 2 [x01; x02] 0 false in
  o = Ok (Accepted true []) ∧
  rx_take_completed r1 (txid_of_byte x09) = (TransactionReassembler_new, Some [x01; x02]).
Proof.
  apply (late_first_frame_redelivers TransactionReassembler_new (txid_of_byte x09)
    [x01; x02] 0); [apply lookup_empty|by vm_compute].
Defined.
