(* ===== verification/Errors.v ===== *)
(** * Error type and transaction-id text form
    ([src/wire/error.rs], [src/wire/fetch.rs])

    [XacppError] with its machine-readable codes, and the hexadecimal wire
    form of transaction ids shared by the fetch channel and the
    [transaction_expired] error. *)
From S2P Require Import Prelude Crc Frame Control Sender.

(** ** Error text

    Messages are rendered with [Display]; the rendered value stands for the
    text.  [Fmt s args] is [format!] with the literal [s] and its string
    arguments; debug renderings ([{:?}]) are left out of the text. *)
Inductive text : Type :=
  | Lit (s : string)
  | Fmt (s : string) (args : list string)
  | DisplayFrame (e : FrameError)
  | DisplayControl (e : ControlError)
  | DisplayBegin (e : BeginError)
  | DisplayError (e : XacppError)
  | MalformedTxid (s : list byte)
  | UnackedAtCap (unacked cap : N)

with XacppError : Type :=
  | NotConnected
  | AlreadyConnected
  | Closed
  | NoHandler
  | InvalidRequest (m : text)
  | EstablishReject (reason : text)
  | InvalidState (m : text)
  | Internal (m : text)
  | Application (code : string) (message : text).

Definition XacppError_code (e : XacppError) : string :=
  match e with
  | NotConnected => "not_connected"
  | AlreadyConnected => "already_connected"
  | Closed => "closed"
  | NoHandler => "no_handler"
  | InvalidRequest _ => "invalid_request"
  | EstablishReject _ => "establish_rejected"
  | InvalidState _ => "invalid_state"
  | Internal _ => "internal_error"
  | Application code _ => code
  end.

(** [Display] of a message; a message that is a string is itself. *)
Class Display : Type := {
  display : text → string;
  display_lit s : display (Lit s) = s;
}.

(** [e.to_string()]. *)
Definition XacppError_to_string {DISPLAY : Display} (e : XacppError) : string :=
  match e with
  | NotConnected => "not connected"
  | AlreadyConnected => "already connected"
  | Closed => "connection closed"
  | NoHandler => "no handler registered"
  | InvalidRequest m => "invalid request: " +:+ display m
  | EstablishReject reason => "establish rejected: " +:+ display reason
  | InvalidState m => "invalid state: " +:+ display m
  | Internal m => "internal error: " +:+ display m
  | Application code message => "[" +:+ code +:+ "] " +:+ display message
  end.

(** ** Transaction ids as 32 lowercase hex characters *)

(** [matches!(b, b'0'..=b'9' | b'a'..=b'f')]. *)
Definition is_lower_hex (b : byte) : bool := byte_in 48 57 b || byte_in 97 102 b.

(** [(b as char).to_digit(16)]: both letter cases are digits. *)
Definition to_digit16 (b : byte) : option N :=
  let n := Byte.to_N b in
  if byte_in 48 57 b then Some (n - 48)%N
  else if byte_in 97 102 b then Some (n - 87)%N
  else if byte_in 65 70 b then Some (n - 55)%N
  else None.

(** One output byte from its two characters. *)
Definition parse_hex_pair (s : list byte) (pair : list byte) : result byte XacppError :=
  match to_digit16 (byte_at pair 0) with
  | None => Err (Internal (MalformedTxid s))
  | Some hi =>
      match to_digit16 (byte_at pair 1) with
      | None => Err (Internal (MalformedTxid s))
      | Some lo => Ok (byte_of_N (N.lor (N.shiftl hi 4) lo))
      end
  end.

Definition parse_transaction_id (s : list byte) : result txid XacppError :=
  if decide (length s ≠ 32) then Err (Internal (MalformedTxid s))
  else if negb (forallb is_lower_hex s) then Err (Internal (MalformedTxid s))
  else
    let? out := collect (parse_hex_pair s) (chunks_exact 2 s) in
    match array_of_list 16 out with
    | Some id => Ok id
    | None => Err (Internal (MalformedTxid s))
    end.

(** A lowercase hex digit. *)
Definition hex_char (n : N) : byte :=
  byte_of_N (if n <? 10 then 48 + n else 87 + n)%N.

(** [write!(out, "{b:02x}")]. *)
Definition hex_byte (b : byte) : list byte :=
  let n := Byte.to_N b in [hex_char (N.shiftr n 4); hex_char (N.land n 15)].

Definition format_transaction_id (id : txid) : list byte :=
  concat (hex_byte <$> array_bytes id).

(** ** Properties *)

(** The byte-level facts, by inspection of the 256 bytes. *)
Lemma hex_byte_facts s b :
  parse_hex_pair s (hex_byte b) = Ok b ∧ forallb is_lower_hex (hex_byte b) = true.
Proof. by destruct b. Qed.

Lemma hex_digit_inv (b : byte) :
  is_lower_hex b = true → ∃ n, to_digit16 b = Some n ∧ (n < 16)%N ∧ hex_char n = b.
Proof.
  assert (Hall : ∀ b, is_lower_hex b = true →
    match to_digit16 b with Some n => (n <? 16)%N && bool_decide (hex_char n = b)
                          | None => false end = true) by by destruct b0.
  intros Hb. specialize (Hall b Hb). destruct (to_digit16 b) as [n|]; [|done].
  apply andb_true_iff in Hall as [Hn%N.ltb_lt Hc%bool_decide_eq_true]. eauto.
Qed.

(** The 16 nibbles. *)
Definition nibbles : list N := N.of_nat <$> List.seq 0 16.

Lemma elem_of_nibbles n : (n < 16)%N → n ∈ nibbles.
Proof.
  intros Hn. apply list_elem_of_fmap. exists (N.to_nat n).
  split; [lia|]. apply elem_of_seq. lia.
Qed.

Lemma nibbles_join hi lo :
  (hi < 16)%N → (lo < 16)%N →
  hex_byte (byte_of_N (N.lor (N.shiftl hi 4) lo)) = [hex_char hi; hex_char lo].
Proof.
  intros Hh%elem_of_nibbles Hl%elem_of_nibbles.
  assert (Hall : Forall (λ hi, Forall (λ lo,
    hex_byte (byte_of_N (N.lor (N.shiftl hi 4) lo)) = [hex_char hi; hex_char lo]) nibbles)
    nibbles) by (unfold nibbles; cbn; repeat constructor).
  rw Forall_forall in Hall. specialize (Hall hi Hh). rw Forall_forall in Hall.
  by apply Hall.
Qed.

Lemma parse_hex_pair_inv s pair b :
  length pair = 2 → forallb is_lower_hex pair = true →
  parse_hex_pair s pair = Ok b → hex_byte b = pair ∧ True.
Proof.
  intros Hl Hh. destruct pair as [|c1 [|c2 [|]]]; try done. cbn in Hh.
  apply andb_true_iff in Hh as [H1 [H2 _]%andb_true_iff].
  destruct (hex_digit_inv c1 H1) as (hi & Hhi & Hb1 & <-).
  destruct (hex_digit_inv c2 H2) as (lo & Hlo & Hb2 & <-).
  unfold parse_hex_pair. cbn [byte_at lookup list_lookup default from_option id].
  unfold byte_at. cbn. rw Hhi Hlo. intros [= <-]. by rw nibbles_join.
Qed.

Lemma Forall_hex_lengths l : Forall (λ x, length x = 2) (hex_byte <$> l).
Proof. by apply Forall_fmap, Forall_true. Qed.

Lemma length_format id : length (format_transaction_id id) = 32.
Proof.
  unfold format_transaction_id.
  rw (length_concat_uniform 2 _ (Forall_hex_lengths _)) length_fmap length_array_bytes //.
Qed.

Lemma format_lower_hex id : forallb is_lower_hex (format_transaction_id id) = true.
Proof.
  unfold format_transaction_id. induction (array_bytes id) as [|b l IH]; [done|].
  cbn [fmap list_fmap concat]. rw forallb_app IH andb_true_r. apply (hex_byte_facts []).
Qed.

(** [fold] of the hex test over pieces. *)
Lemma forallb_chunks (f : byte → bool) ls :
  forallb f (concat ls) = true → Forall (λ x, forallb f x = true) ls.
Proof.
  induction ls as [|x ls IH]; cbn; [done|]. rw forallb_app.
  intros [Hx Hr]%andb_true_iff. by constructor; [|apply IH].
Qed.

Lemma parse_format id : parse_transaction_id (format_transaction_id id) = Ok id.
Proof.
  unfold parse_transaction_id. case_decide as Hd; [by rw length_format in Hd|].
  rw format_lower_hex. cbn [negb]. unfold format_transaction_id at 2.
  rw chunks_exact_concat; [lia|apply Forall_hex_lengths|].
  rw collect_Ok_map; [apply Forall_true; intros; apply hex_byte_facts|].
  by rw array_of_list_bytes.
Qed.

Lemma lower_hex_ascii l : forallb is_lower_hex l = true → forallb (byte_in 0 127) l = true.
Proof.
  induction l as [|b l IH]; [done|]. cbn. intros [Hb Hl]%andb_true_iff.
  rw IH // andb_true_r. revert Hb. by destruct b.
Qed.

(** the text form of transaction ids is a bijection: every id parses back
    from its rendering, and only the exact 32 lowercase hex characters an id
    renders to are accepted. *)
Theorem txid_text_roundtrip :
  (∀ id, parse_transaction_id (format_transaction_id id) = Ok id) ∧
  (∀ s id, parse_transaction_id s = Ok id ↔ s = format_transaction_id id).
Proof.
  split; [apply parse_format|]. intros s id.
  split; [|intros ->; apply parse_format].
  unfold parse_transaction_id. case_decide as Hd; [done|].
  destruct (forallb is_lower_hex s) eqn:Hh; cbn [negb]; [|done].
  destruct (chunks_exact_spec 2 16 s) as (Hcat & _ & Hall); [lia|done|].
  destruct (collect _ _) as [out|] eqn:Hc; [|done].
  destruct (array_of_list 16 out) as [a|] eqn:Ha; [|done]. intros [= ->].
  apply array_of_list_Some in Ha as <-.
  rw -Hcat in Hh. apply forallb_chunks in Hh.
  destruct (collect_inverse (parse_hex_pair s) hex_byte
    (λ x, length x = 2 ∧ forallb is_lower_hex x = true) (λ _, True)
    (chunks_exact 2 s) (array_bytes id)) as [He _]; [| |done|].
  - intros x y [??]. by apply parse_hex_pair_inv.
  - by apply Forall_and.
  - unfold format_transaction_id. by rw He Hcat.
Qed.
