(* ===== verification/Stream.v ===== *)
(** * Receive-side streams ([src/reliability/stream.rs])

    [StreamInner] (state atomics and chunk channel), the consumer's
    [BinaryStream] view of it, and the transaction control frames of the
    sender.  The atomics are single stores and compare-exchanges, so each
    method is one atomic update of the record. *)
From S2P Require Import Prelude Crc Frame Control Sender Errors.

(** ** Stream states *)

Inductive StreamState : Type :=
  | Active | Paused | Stalled | Complete | Cancelled | Incomplete.

#[export] Instance StreamState_eq_dec : EqDecision StreamState.
Proof. solve_decision. Defined.

(** [state as u8]: the explicit discriminants. *)
Definition StreamState_to_u8 (s : StreamState) : N :=
  match s with
  | Active => 0 | Paused => 1 | Stalled => 4
  | Complete => 2 | Cancelled => 3 | Incomplete => 5
  end.

Definition StreamState_from_u8 (v : N) : StreamState :=
  match v with
  | 1 => Paused | 2 => Complete | 3 => Cancelled | 4 => Stalled | 5 => Incomplete
  | _ => Active
  end%N.

Definition is_terminal (s : StreamState) : bool :=
  match s with Complete | Cancelled | Incomplete => true | _ => false end.

Record IncompleteDetail : Type := mkIncompleteDetail {
  detail_received : N;
  detail_expected : N;
}.

Record StreamChunk : Type := mkStreamChunk {
  chunk_seq : N;
  chunk_bytes : list byte;
}.

(** [chunk_rx] is the queue of undelivered chunks; [tx_alive] says whether the
    channel's sender (owned by the session's stream table) still exists. *)
Record StreamInner : Type := mkStreamInner {
  si_txid : txid;
  si_total_len : N;
  si_state : N;
  si_stalled : bool;
  chunk_rx : list StreamChunk;
  tx_alive : bool;
  incomplete_received : N;
  incomplete_expected : N;
}.

Definition StreamInner_new (id : txid) (total_len : N) : StreamInner :=
  mkStreamInner id total_len (StreamState_to_u8 Active) false [] true 0 0.

Definition store_state (v : N) (s : StreamInner) : StreamInner :=
  mkStreamInner (si_txid s) (si_total_len s) v (si_stalled s) (chunk_rx s)
    (tx_alive s) (incomplete_received s) (incomplete_expected s).

Definition store_stalled (b : bool) (s : StreamInner) : StreamInner :=
  mkStreamInner (si_txid s) (si_total_len s) (si_state s) b (chunk_rx s)
    (tx_alive s) (incomplete_received s) (incomplete_expected s).

(** [state.compare_exchange(expected, new)], result ignored. *)
Definition compare_exchange (expected new : N) (s : StreamInner) : StreamInner :=
  if (si_state s =? expected)%N then store_state new s else s.

Definition stream_finish (state : StreamState) (s : StreamInner) : StreamInner :=
  store_state (StreamState_to_u8 state) s.

Definition finish_incomplete (received expected : N) (s : StreamInner) : StreamInner :=
  stream_finish Incomplete
    (mkStreamInner (si_txid s) (si_total_len s) (si_state s) (si_stalled s)
       (chunk_rx s) (tx_alive s) received expected).

Definition stream_set_paused (s : StreamInner) : StreamInner :=
  compare_exchange (StreamState_to_u8 Active) (StreamState_to_u8 Paused) s.

Definition clear_paused (s : StreamInner) : StreamInner :=
  compare_exchange (StreamState_to_u8 Paused) (StreamState_to_u8 Active) s.

Definition set_stalled (s : StreamInner) : StreamInner :=
  if negb (is_terminal (StreamState_from_u8 (si_state s)))
  then store_stalled true s else s.

Definition clear_stalled (s : StreamInner) : StreamInner := store_stalled false s.

(** [chunk_tx.send(chunk)] (the receiver lives in the same object). *)
Definition chunk_send (c : StreamChunk) (s : StreamInner) : StreamInner :=
  mkStreamInner (si_txid s) (si_total_len s) (si_state s) (si_stalled s)
    (chunk_rx s ++ [c]) (tx_alive s) (incomplete_received s) (incomplete_expected s).

(** The stream-table entry is dropped: its channel sender goes with it. *)
Definition drop_tx (s : StreamInner) : StreamInner :=
  mkStreamInner (si_txid s) (si_total_len s) (si_state s) (si_stalled s)
    (chunk_rx s) false (incomplete_received s) (incomplete_expected s).

(** ** [impl BinaryStream] *)

Definition BinaryStream_state (s : StreamInner) : StreamState :=
  let state := StreamState_from_u8 (si_state s) in
  if is_terminal state then state
  else if si_stalled s then Stalled
  else state.

(** [read().await]: a chunk, the end of the stream, or a suspended reader. *)
Inductive Read : Type :=
  | ReadChunk (c : StreamChunk)
  | ReadEnd
  | ReadPending.

Definition BinaryStream_read (s : StreamInner) : StreamInner * Read :=
  match chunk_rx s with
  | c :: rest =>
      (mkStreamInner (si_txid s) (si_total_len s) (si_state s) (si_stalled s)
         rest (tx_alive s) (incomplete_received s) (incomplete_expected s),
       ReadChunk c)
  | [] => (s, if tx_alive s then ReadPending else ReadEnd)
  end.

Definition incomplete_detail (s : StreamInner) : option IncompleteDetail :=
  if decide (BinaryStream_state s ≠ Incomplete) then None
  else Some (mkIncompleteDetail (incomplete_received s) (incomplete_expected s)).

(** ** Transaction control frames of the sender *)

(** A transaction control frame: zeroed header identity, the id in the payload. *)
Definition txn_control_frame {P} `{ControlPayload P} (p : P) : result Frame XacppError :=
  let? payload := map_err (λ e, Internal (DisplayControl e)) (payload_encode p) in
  Ok (Frame_new (FRAME_TYPE (P := P)) zero_txid 0 0 payload).

Definition pause_frame (id : txid) : result Frame XacppError :=
  txn_control_frame (mkTransactionPausePayload id).

Definition abort_frame (id : txid) : result Frame XacppError :=
  txn_control_frame (mkTransactionAbortPayload id).

Definition completed_frame (id : txid) : result Frame XacppError :=
  txn_control_frame (mkTransactionCompletedPayload id).

(** Transaction control frames always encode: the payload is the 16-byte id. *)
Lemma txn_control_frames_Ok id :
  pause_frame id = Ok (Frame_new TransactionPause zero_txid 0 0 (array_bytes id)) ∧
  abort_frame id = Ok (Frame_new TransactionAbort zero_txid 0 0 (array_bytes id)) ∧
  completed_frame id = Ok (Frame_new TransactionCompleted zero_txid 0 0 (array_bytes id)).
Proof.
  assert (Hf : finish (array_bytes id) = Ok (array_bytes id)).
  { apply finish_Ok. split; [done|]. unfold len. by rw length_array_bytes. }
  unfold pause_frame, abort_frame, completed_frame, txn_control_frame. cbn.
  unfold TransactionPausePayload_encode, TransactionAbortPayload_encode,
    TransactionCompletedPayload_encode. cbn. by rw Hf.
Qed.

(** ** The contract of a stream

    What the documentation promises a consumer: a flow that can be paused by
    the holder and stalled by the link, independently, until one terminal
    verdict. *)

Inductive flow : Type :=
  | Flowing (paused stalled : bool)
  | Ended (s : StreamState).

Inductive stream_event : Type :=
  | EvPause | EvResume | EvStall | EvUnstall | EvFinish (s : StreamState)
  | EvFinishIncomplete (received expected : N).

Definition flow_step (f : flow) (e : stream_event) : flow :=
  match f, e with
  | _, EvFinish s => Ended s
  | _, EvFinishIncomplete _ _ => Ended Incomplete
  | Ended s, _ => Ended s
  | Flowing _ st, EvPause => Flowing true st
  | Flowing _ st, EvResume => Flowing false st
  | Flowing p _, EvStall => Flowing p true
  | Flowing p _, EvUnstall => Flowing p false
  end.

(** What [BinaryStream::state] shows of a flow: terminal over stalled over
    paused over active. *)
Definition flow_state (f : flow) : StreamState :=
  match f with
  | Ended s => s
  | Flowing _ true => Stalled
  | Flowing true false => Paused
  | Flowing false false => Active
  end.

Definition stream_event_run (s : StreamInner) (e : stream_event) : StreamInner :=
  match e with
  | EvPause => stream_set_paused s
  | EvResume => clear_paused s
  | EvStall => set_stalled s
  | EvUnstall => clear_stalled s
  | EvFinish st => stream_finish st s
  | EvFinishIncomplete r x => finish_incomplete r x s
  end.

(** [finish] is for terminal states only (its debug assertion). *)
Definition event_ok (e : stream_event) : Prop :=
  match e with EvFinish s => is_terminal s = true | _ => True end.

(** The flow a stream object is in. *)
Definition stream_flow (s : StreamInner) : flow :=
  let st := StreamState_from_u8 (si_state s) in
  if is_terminal st then Ended st
  else Flowing (bool_decide (st = Paused)) (si_stalled s).

(** The stored byte is one of the five stored states ([Stalled] never is). *)
Definition stream_wf (s : StreamInner) : Prop :=
  ∃ st, si_state s = StreamState_to_u8 st ∧ st ≠ Stalled.

Lemma stream_from_to_u8 st : StreamState_from_u8 (StreamState_to_u8 st) = st.
Proof. by destruct st. Qed.

Lemma stream_event_wf s e : stream_wf s → event_ok e → stream_wf (stream_event_run s e).
Proof.
  intros (st & Hst & Hne) He. unfold stream_wf.
  destruct e; cbn.
  - unfold stream_set_paused, compare_exchange. case_match; cbn; [by exists Paused|eauto].
  - unfold clear_paused, compare_exchange. case_match; cbn; [by exists Active|eauto].
  - unfold set_stalled. case_match; cbn; eauto.
  - eauto.
  - exists s0. split; [done|]. by destruct s0.
  - by exists Incomplete.
Qed.

Lemma stream_event_flow s e :
  stream_wf s → event_ok e →
  stream_flow (stream_event_run s e) = flow_step (stream_flow s) e.
Proof.
  intros (st & Hst & Hne) He. unfold stream_flow.
  destruct e; cbn; unfold stream_set_paused, clear_paused, compare_exchange, set_stalled;
    rw ?Hst ?stream_from_to_u8; try by destruct st; cbn; rw ?Hst.
  cbn in He. by rw He; destruct st.
Qed.

(** ** Properties *)

(** C33: a stream object implements its contract: after any sequence of pause,
    resume, stall, unstall and terminal events the state a consumer reads is
    the one the abstract flow shows; a stall never erases a pause, nor a pause
    a stall, and terminal verdicts win over both. *)
Theorem stream_refines id total (es : list stream_event) :
  Forall event_ok es →
  BinaryStream_state (foldl stream_event_run (StreamInner_new id total) es) =
  flow_state (foldl flow_step (Flowing false false) es).
Proof.
  intros Hes.
  assert (Hgen : ∀ s, stream_wf s → stream_wf (foldl stream_event_run s es) ∧
    stream_flow (foldl stream_event_run s es) = foldl flow_step (stream_flow s) es).
  { induction Hes as [|e es He _ IH]; intros s Hs; [done|]. cbn.
    destruct (IH (stream_event_run s e)) as [Hw Hf]; [by apply stream_event_wf|].
    split; [done|]. by rw Hf stream_event_flow. }
  destruct (Hgen (StreamInner_new id total)) as [(st & Hst & Hne) Hf]; [by exists Active|].
  change (Flowing false false) with (stream_flow (StreamInner_new id total)).
  rw -Hf. revert Hst. generalize (foldl stream_event_run (StreamInner_new id total) es).
  intros s Hst. unfold BinaryStream_state, stream_flow. rw Hst stream_from_to_u8.
  by destruct st; cbn; destruct (si_stalled s).
Qed.

(** a terminal verdict is final for the flow events: once a stream reads a
    terminal state, no pause, resume, stall or unstall changes what it reads;
    the gap of an incomplete stream is the one recorded with the verdict, and
    only an incomplete stream has one. *)
Theorem terminal_is_final (s : StreamInner) (e : stream_event) :
  is_terminal (BinaryStream_state s) = true →
  (e = EvPause ∨ e = EvResume ∨ e = EvStall ∨ e = EvUnstall) →
  BinaryStream_state (stream_event_run s e) = BinaryStream_state s ∧
  incomplete_detail (stream_event_run s e) = incomplete_detail s ∧
  ∀ r x, incomplete_detail (finish_incomplete r x s) = Some (mkIncompleteDetail r x).
Proof.
  intros Ht He. assert (Hst : is_terminal (StreamState_from_u8 (si_state s)) = true).
  { unfold BinaryStream_state in Ht.
    destruct (is_terminal (StreamState_from_u8 (si_state s))) eqn:E; [done|].
    destruct (si_stalled s); [done|congruence]. }
  assert (Hce : ∀ x n, is_terminal (StreamState_from_u8 x) = false →
                compare_exchange x n s = s).
  { intros x n Hx. unfold compare_exchange. destruct (N.eqb_spec (si_state s) x); [|done].
    subst. congruence. }
  split_and!; [| |done]; destruct He as [->|[->|[->| ->]]]; cbn;
    unfold stream_set_paused, clear_paused, set_stalled, clear_stalled;
    rw ?Hce //; rw ?Hst //.
  - unfold BinaryStream_state. cbn. by rw Hst.
  - unfold incomplete_detail, BinaryStream_state. cbn. by rw Hst.
Qed.

(** Drain the channel until a read does not give a chunk. *)
Fixpoint read_all (fuel : nat) (s : StreamInner) : list StreamChunk * Read :=
  match fuel with
  | O => ([], ReadPending)
  | S f =>
      match BinaryStream_read s with
      | (s', ReadChunk c) => let '(cs, r) := read_all f s' in (c :: cs, r)
      | (_, r) => ([], r)
      end
  end.

Lemma read_all_spec s fuel :
  length (chunk_rx s) < fuel →
  read_all fuel s = (chunk_rx s, if tx_alive s then ReadPending else ReadEnd).
Proof.
  revert s. induction fuel as [|fuel IH]; intros s Hf; [lia|]. cbn [read_all].
  unfold BinaryStream_read. destruct (chunk_rx s) as [|c rest] eqn:Hc.
  - by destruct (tx_alive s).
  - rw IH; [cbn in *; lia|done].
Qed.

(** the chunk channel is lossless and ordered: a reader gets exactly the
    chunks sent, in order; it then suspends while the session still owns the
    sender, whatever the flow state (a stall never ends the stream), and gets
    the end of the stream once the table entry is dropped. *)
Theorem stream_channel (s : StreamInner) (cs : list StreamChunk) (es : list stream_event) :
  chunk_rx s = [] → tx_alive s = true →
  let s' := foldl stream_event_run (foldl (λ s c, chunk_send c s) s cs) es in
  read_all (S (length cs)) s' = (cs, ReadPending) ∧
  read_all (S (length cs)) (drop_tx s') = (cs, ReadEnd).
Proof.
  intros Hrx Htx s'.
  assert (Hev : ∀ s e, chunk_rx (stream_event_run s e) = chunk_rx s ∧
                       tx_alive (stream_event_run s e) = tx_alive s).
  { intros s1 e. destruct e; cbn;
      unfold stream_set_paused, clear_paused, compare_exchange, set_stalled;
      by repeat case_match. }
  assert (Hs' : chunk_rx s' = cs ∧ tx_alive s' = true).
  { unfold s'. clear s'. assert (Hsend : ∀ s,
      chunk_rx (foldl (λ s c, chunk_send c s) s cs) = chunk_rx s ++ cs ∧
      tx_alive (foldl (λ s c, chunk_send c s) s cs) = tx_alive s).
    { clear. induction cs as [|c cs IH]; intros s; cbn; [by rw app_nil_r|].
      destruct (IH (chunk_send c s)) as [H1 H2]. rw H1 H2. cbn. by rw -app_assoc. }
    destruct (Hsend s) as [H1 H2]. rw Hrx in H1. rw Htx in H2. cbn in H1.
    revert H1 H2. generalize (foldl (λ s c, chunk_send c s) s cs) as s1.
    clear -Hev. induction es as [|e es IH]; intros s1 H1 H2; [done|]. cbn.
    destruct (Hev s1 e) as [E1 E2]. apply IH; congruence. }
  destruct Hs' as [H1 H2]. split.
  - rw read_all_spec H1; [lia|]. by rw H2.
  - rw read_all_spec; [cbn; rw H1; lia|]. cbn. by rw H1.
Qed.

(** ** Witnesses *)

Lemma stream_refines_witness :
  BinaryStream_state (foldl stream_event_run (StreamInner_new zero_txid 5)
    [EvPause; EvStall; EvUnstall]) = Paused.
Proof.
  apply (stream_refines zero_txid 5 [EvPause; EvStall; EvUnstall]). repeat constructor.
Defined.

Lemma terminal_is_final_witness :
  BinaryStream_state (stream_event_run
    (finish_incomplete 3 5 (StreamInner_new zero_txid 5)) EvStall) = Incomplete.
Proof.
  apply (terminal_is_final (finish_incomplete 3 5 (StreamInner_new zero_txid 5)) EvStall);
    [done|by right; right; left].
Defined.

Lemma stream_channel_witness :
  read_all 2 (drop_tx (foldl stream_event_run
    (foldl (λ s c, chunk_send c s) (StreamInner_new zero_txid 1) [mkStreamChunk 0 [x01]])
    [EvStall; EvFinish Complete])) = ([mkStreamChunk 0 [x01]], ReadEnd).
Proof.
  apply (stream_channel (StreamInner_new zero_txid 1) [mkStreamChunk 0 [x01]]
    [EvStall; EvFinish Complete]); done.
Defined.
