(* ===== verification/Transfer.v ===== *)
(** * Transfer session: state and inbound dispatch
    ([src/transfer/core.rs], [src/transfer/inbound.rs])

    The session owns the sender, the reassembler, the stream table and the
    clock bookkeeping; a wired transport is its write surface.  Every handler
    runs under the session's state lock, so it is one step of the session
    state; what it delivers to the application (payloads, opened streams,
    completion callbacks) is returned in the order the code invokes it. *)
From S2P Require Import Prelude Crc Frame Control Sender Reassemble Errors Stream.

(** ** The write surface ([trait TransferWiring])

    [on_transfer_activity w b] registers the session's hooks or, with [false],
    removes them. *)

Class TransferWiring (W : Type) : Type := {
  write_control_frame : W → list byte → W * result unit XacppError;
  write_data_frame : W → Frame → W * result unit XacppError;
  on_transfer_activity : W → bool → W;
}.

(** The one [XacppTransport] method the transfer layer calls besides. *)
Class XacppTransport (W : Type) `{TransferWiring W} : Type := {
  disconnect : W → W * result unit XacppError;
}.

(** [uuid::Uuid::parse_str]: a third-party parser, of which the code uses only
    that 32 hex characters parse to the id they spell. *)
Class UuidLib : Type := { Uuid_parse_str : list byte → option txid }.

Class UuidLaws (U : UuidLib) : Prop := {
  Uuid_parse_simple (id : txid) : Uuid_parse_str (format_transaction_id id) = Some id;
}.

(** ** A transport that records

    It takes every frame and keeps what it was given: the write surface of the
    concrete runs. *)

Record Recorder : Type := mkRecorder {
  rec_control : list (list byte);
  rec_data : list Frame;
  rec_hooks : bool;
  rec_connected : bool;
}.

Definition Recorder_new : Recorder := mkRecorder [] [] true true.

#[export] Instance Recorder_wiring : TransferWiring Recorder := {|
  write_control_frame r b :=
    (mkRecorder (rec_control r ++ [b]) (rec_data r) (rec_hooks r) (rec_connected r), Ok tt);
  write_data_frame r f :=
    (mkRecorder (rec_control r) (rec_data r ++ [f]) (rec_hooks r) (rec_connected r), Ok tt);
  on_transfer_activity r b :=
    mkRecorder (rec_control r) (rec_data r) b (rec_connected r);
|}.

#[export] Instance Recorder_transport : XacppTransport Recorder := {|
  disconnect r := (mkRecorder (rec_control r) (rec_data r) (rec_hooks r) false, Ok tt);
|}.

(** A uuid parser that meets the law. *)
#[export] Instance hex_uuid : UuidLib := {|
  Uuid_parse_str l :=
    match parse_transaction_id l with Ok id => Some id | Err _ => None end;
|}.

#[export] Instance hex_uuid_laws : UuidLaws hex_uuid.
Proof. split. intros id. cbn [Uuid_parse_str hex_uuid]. by rw parse_format. Qed.

(** ** Session data *)

Record BinarySendResult : Type := mkBinarySendResult {
  bsr_transaction_id : txid;
  bsr_confirmed : bool;
}.

(** A completion callback, by the handle it was registered under. *)
Definition CompletionCallback : Type := nat.

Record TransferConfig : Type := mkTransferConfig {
  cfg_sender : SenderConfig;
  heartbeat_interval_ms : N;
  silent_timeout_ms : N;
  ack_batch_frames : N;
  ack_batch_interval_ms : N;
  nack_feedback_interval_ms : N;
  resume_verdict_timeout_ms : N;
  tick_interval_ms : N;
}.

(** [impl Default for TransferConfig]. *)
Definition TransferConfig_default : TransferConfig :=
  mkTransferConfig SenderConfig_default 30000 90000 64 500 500 2000 100.

(** Stream objects are shared with the consumers that hold their handles
    ([Arc<StreamInner>]): they live in a heap, the table holds locations. *)
Abbreviation loc := nat (only parsing).
Abbreviation stream_heap := (list StreamInner) (only parsing).

Record SessionState : Type := mkSessionState {
  st_sender : TransactionSender;
  st_reassembler : TransactionReassembler;
  st_completions : gmap txid CompletionCallback;
  st_streams : gmap txid loc;
  st_stream_owned : gset txid;
  st_pending_ack_frames : gmap txid N;
  st_last_ack_ms : N;
  st_last_nack_ms : N;
  st_heartbeat_seq : N;
  st_last_heartbeat_ms : N;
  st_last_peer_activity_ms : N;
  st_heap : stream_heap;
}.

(** What the session invokes on the application side. *)
Inductive AppEvent : Type :=
  | StreamOpened (l : loc)
  | PayloadDelivered (id : txid) (payload : list byte)
  | CompletionFired (cb : CompletionCallback) (r : BinarySendResult).

(** ** Field updates *)

Definition set_sender (s : TransactionSender) (st : SessionState) : SessionState :=
  mkSessionState s (st_reassembler st) (st_completions st) (st_streams st)
    (st_stream_owned st) (st_pending_ack_frames st) (st_last_ack_ms st)
    (st_last_nack_ms st) (st_heartbeat_seq st) (st_last_heartbeat_ms st)
    (st_last_peer_activity_ms st) (st_heap st).

Definition set_reassembler (r : TransactionReassembler) (st : SessionState) :
    SessionState :=
  mkSessionState (st_sender st) r (st_completions st) (st_streams st)
    (st_stream_owned st) (st_pending_ack_frames st) (st_last_ack_ms st)
    (st_last_nack_ms st) (st_heartbeat_seq st) (st_last_heartbeat_ms st)
    (st_last_peer_activity_ms st) (st_heap st).

Definition set_completions (m : gmap txid CompletionCallback) (st : SessionState) :
    SessionState :=
  mkSessionState (st_sender st) (st_reassembler st) m (st_streams st)
    (st_stream_owned st) (st_pending_ack_frames st) (st_last_ack_ms st)
    (st_last_nack_ms st) (st_heartbeat_seq st) (st_last_heartbeat_ms st)
    (st_last_peer_activity_ms st) (st_heap st).

Definition set_streams (m : gmap txid loc) (owned : gset txid) (h : stream_heap)
    (st : SessionState) : SessionState :=
  mkSessionState (st_sender st) (st_reassembler st) (st_completions st) m owned
    (st_pending_ack_frames st) (st_last_ack_ms st) (st_last_nack_ms st)
    (st_heartbeat_seq st) (st_last_heartbeat_ms st) (st_last_peer_activity_ms st) h.

Definition set_pending_acks (m : gmap txid N) (last_ack : N) (st : SessionState) :
    SessionState :=
  mkSessionState (st_sender st) (st_reassembler st) (st_completions st)
    (st_streams st) (st_stream_owned st) m last_ack (st_last_nack_ms st)
    (st_heartbeat_seq st) (st_last_heartbeat_ms st) (st_last_peer_activity_ms st)
    (st_heap st).

Definition set_clocks (last_nack hb_seq last_hb last_peer : N) (st : SessionState) :
    SessionState :=
  mkSessionState (st_sender st) (st_reassembler st) (st_completions st)
    (st_streams st) (st_stream_owned st) (st_pending_ack_frames st)
    (st_last_ack_ms st) last_nack hb_seq last_hb last_peer (st_heap st).

(** [st.last_peer_activity_ms = now]. *)
Definition touch_peer (now : N) (st : SessionState) : SessionState :=
  set_clocks (st_last_nack_ms st) (st_heartbeat_seq st) (st_last_heartbeat_ms st)
    now st.

Definition remove_pending_ack (id : txid) (st : SessionState) : SessionState :=
  set_pending_acks (delete id (st_pending_ack_frames st)) (st_last_ack_ms st) st.

(** [TransferSession::new]. *)
Definition SessionState_new (config : TransferConfig) (now : N) : SessionState :=
  mkSessionState (TransactionSender_new (cfg_sender config))
    TransactionReassembler_new ∅ ∅ ∅ ∅ now now 0 now now [].

(** ** Streams in the table *)

(** [entry.inner.f()] on the object an entry points to. *)
Definition heap_update (f : StreamInner → StreamInner) (l : loc) (h : stream_heap) :
    stream_heap :=
  alter f l h.

(** [if let Some(entry) = st.streams.get(&id) { entry.inner.f() }]. *)
Definition with_stream (f : StreamInner → StreamInner) (id : txid)
    (st : SessionState) : SessionState :=
  match st_streams st !! id with
  | None => st
  | Some l => set_streams (st_streams st) (st_stream_owned st)
                (heap_update f l (st_heap st)) st
  end.

(** [if let Some(entry) = st.streams.remove(&id) { f(entry.inner) }]: the entry
    is dropped at the end, closing the chunk channel. *)
Definition remove_stream (f : StreamInner → StreamInner) (id : txid)
    (st : SessionState) : SessionState :=
  match st_streams st !! id with
  | None => st
  | Some l => set_streams (delete id (st_streams st)) (st_stream_owned st)
                (heap_update (λ s, drop_tx (f s)) l (st_heap st)) st
  end.

(** [st.stream_owned.remove(&id)]. *)
Definition disown (id : txid) (st : SessionState) : SessionState :=
  set_streams (st_streams st) (st_stream_owned st ∖ {[id]}) (st_heap st) st.

(** [st.reassembler.discard(id)]. *)
Definition discard_slot (id : txid) (st : SessionState) : SessionState :=
  set_reassembler (rx_discard (st_reassembler st) id).1 st.

(** [StreamInner::new] plus [streams.insert]: an entry already under the id is
    dropped. *)
Definition install_stream (id : txid) (total : N) (chunks : list (N * list byte))
    (st : SessionState) : SessionState * loc :=
  let l := length (st_heap st) in
  let inner :=
    foldl (λ s c, chunk_send (mkStreamChunk c.1 c.2) s) (StreamInner_new id total) chunks in
  let h := match st_streams st !! id with
           | Some old => heap_update drop_tx old (st_heap st)
           | None => st_heap st
           end in
  (set_streams (<[id := l]> (st_streams st)) (st_stream_owned st ∪ {[id]})
     (h ++ [inner]) st, l).

(** ** The session *)

(** [SessionCore]: the handlers are known by their presence; [ts_wake] is the
    value of the backpressure watch; [ts_wiring] is the handle of the wired
    transport, whose own state the operations thread as [w]. *)
Record TransferSession : Type := mkTransferSession {
  ts_config : TransferConfig;
  ts_state : SessionState;
  ts_binary_handler : bool;
  ts_stream_handler : bool;
  ts_wake : N;
  ts_wiring : option nat;
  ts_clock : bool;
}.

Definition TransferSession_new (config : TransferConfig) (now : N) : TransferSession :=
  mkTransferSession config (SessionState_new config now) false false 0 None false.

Definition set_state (st : SessionState) (s : TransferSession) : TransferSession :=
  mkTransferSession (ts_config s) st (ts_binary_handler s) (ts_stream_handler s)
    (ts_wake s) (ts_wiring s) (ts_clock s).

(** [backpressure_watch.send_modify(|v| *v = v.wrapping_add(1))]. *)
Definition wake_writers (s : TransferSession) : TransferSession :=
  mkTransferSession (ts_config s) (ts_state s) (ts_binary_handler s)
    (ts_stream_handler s) ((ts_wake s + 1) mod 2 ^ 64)%N (ts_wiring s) (ts_clock s).

Definition on_binary (s : TransferSession) : TransferSession :=
  mkTransferSession (ts_config s) (ts_state s) true (ts_stream_handler s)
    (ts_wake s) (ts_wiring s) (ts_clock s).

Definition on_binary_stream (s : TransferSession) : TransferSession :=
  mkTransferSession (ts_config s) (ts_state s) (ts_binary_handler s) true
    (ts_wake s) (ts_wiring s) (ts_clock s).

Section wiring.
Context `{CRC : Crc32} `{UUID : UuidLib} {W : Type} `{WIRE : TransferWiring W}.
Implicit Types (w : W).

(** ** Control frames *)

Definition control_frame (t : FrameType) (bytes : list byte) :
    result (list byte) XacppError :=
  map_err (λ e, Internal (DisplayFrame e)) (encode (Frame_new t zero_txid 0 0 bytes)).

(** [payload.encode()], [control_frame(..)], [write_control_frame(..)]; every
    failure is logged and dropped. *)
Definition send_control {P} `{ControlPayload P} (w : W) (p : P) : W :=
  match payload_encode p with
  | Err _ => w
  | Ok bytes =>
      match control_frame (FRAME_TYPE (P := P)) bytes with
      | Err _ => w
      | Ok wire => (write_control_frame w wire).1
      end
  end.

Definition send_ack_entries (w : W) (entries : list AckEntry) : W :=
  match entries with
  | [] => w
  | _ => send_control w (mkAckPayload entries)
  end.

(** [for frame in frames { if write_data_frame(frame).is_err() { return } }]:
    the flag tells whether every write succeeded. *)
Fixpoint write_data_frames (w : W) (frames : list Frame) : W * bool :=
  match frames with
  | [] => (w, true)
  | f :: rest =>
      match write_data_frame w f with
      | (w', Ok _) => write_data_frames w' rest
      | (w', Err _) => (w', false)
      end
  end.

(** ** Handlers *)

Definition on_transaction_pause_frame (st : SessionState) (f : Frame) : SessionState :=
  match TransactionPausePayload_decode (payload f) with
  | Err _ => st
  | Ok p => with_stream stream_set_paused (pause_transaction_id p) st
  end.

Definition on_transaction_abort_frame (st : SessionState) (f : Frame) : SessionState :=
  match TransactionAbortPayload_decode (payload f) with
  | Err _ => st
  | Ok p =>
      let id := abort_transaction_id p in
      let st := remove_stream (stream_finish Cancelled) id st in
      let st := disown id st in
      let st := discard_slot id st in
      remove_pending_ack id st
  end.

Definition on_transaction_completed_frame (st : SessionState) (f : Frame) :
    SessionState :=
  match TransactionCompletedPayload_decode (payload f) with
  | Err _ => st
  | Ok p =>
      let id := completed_transaction_id p in
      if negb (rx_contains_transaction (st_reassembler st) id) then st
      else if rx_is_complete (st_reassembler st) id then
        match st_streams st !! id with
        | Some _ => disown id (remove_stream (stream_finish Complete) id st)
        | None => st
        end
      else
        let '(received, expected) :=
          default (0%N, total_len f) (rx_byte_progress (st_reassembler st) id) in
        let st := remove_stream (finish_incomplete received expected) id st in
        let st := disown id st in
        let st := discard_slot id st in
        remove_pending_ack id st
  end.

(** The stream side of an accepted frame. *)
Definition push_chunks (chunks : list (N * list byte)) (s : StreamInner) : StreamInner :=
  foldl (λ s c, chunk_send (mkStreamChunk c.1 c.2) s) s chunks.

(** An accepted frame opens its stream or feeds the one already open; a data
    frame also ends a pause. *)
Definition feed_stream (opens_stream : bool) (id : txid) (total : N)
    (emitted : list (N * list byte)) (st : SessionState) : SessionState * option loc :=
  if opens_stream
  then let '(st, l) := install_stream id total emitted st in (st, Some l)
  else (with_stream (λ s, push_chunks emitted (clear_paused s)) id st, None).

(** The byte count is reached: final ACK, then the stream is closed and its
    slot released, or the payload is taken for the aggregate handler. *)
Definition settle_complete (id : txid) (st : SessionState) (w : W)
    (handler_present : bool) : SessionState * W * list (txid * list byte) :=
  let w := match rx_ack_entry (st_reassembler st) id with
           | Some e => send_ack_entries w [e]
           | None => w
           end in
  let st := remove_pending_ack id st in
  if decide (id ∈ st_stream_owned st) then
    let st := disown id st in
    let st := remove_stream (stream_finish Complete) id st in
    (set_reassembler (rx_take_completed (st_reassembler st) id).1 st, w, [])
  else if handler_present then
    let '(r, out) := rx_take_completed (st_reassembler st) id in
    (set_reassembler r st, w, match out with Some p => [(id, p)] | None => [] end)
  else (st, w, []).

Definition on_data_frame (st : SessionState) (f : Frame) (w : W)
    (handler_present stream_present : bool) (now : N) :
    SessionState * W * list (txid * list byte) * option loc :=
  let id := transaction_id f in
  let opens_stream :=
    stream_present && (seq f =? 0)%N &&
    negb (rx_contains_transaction (st_reassembler st) id) in
  match receive_frame (st_reassembler st) id (seq f) (total_len f)
          (len (payload f)) (payload f) now stream_present with
  | (r, Ok (Accepted complete emitted)) =>
      let st := set_reassembler r st in
      let n := default 0%N (st_pending_ack_frames st !! id) in
      let st := set_pending_acks (<[id := u32_succ n]> (st_pending_ack_frames st))
                  (st_last_ack_ms st) st in
      let '(st, opened) := feed_stream opens_stream id (total_len f) emitted st in
      if complete
      then (settle_complete id st w handler_present, opened)
      else (st, w, [], opened)
  | (r, _) => (set_reassembler r st, w, [], None)
  end.

(** One ACK entry: the completion callback leaves the table when the final
    ACK released the copy. *)
Definition ack_one (now : N) (acc : SessionState * list AppEvent) (e : AckEntry) :
    SessionState * list AppEvent :=
  let '(st, out) := acc in
  let '(s, finished) := handle_ack (st_sender st) e now in
  let st := set_sender s st in
  if finished then
    match st_completions st !! ack_transaction_id e with
    | Some cb =>
        (set_completions (delete (ack_transaction_id e) (st_completions st)) st,
         out ++ [CompletionFired cb (mkBinarySendResult (ack_transaction_id e) true)])
    | None => (st, out)
    end
  else (st, out).

Definition on_ack_frame (st : SessionState) (f : Frame) (now : N) :
    SessionState * list AppEvent :=
  match AckPayload_decode (payload f) with
  | Err _ => (st, [])
  | Ok p => foldl (ack_one now) (st, []) (ack_entries p)
  end.

(** The entry loop of a NACK; a failed write ends it. *)
Fixpoint nack_entries_loop (st : SessionState) (w : W) (now : N)
    (es : list NackEntry) : SessionState * W :=
  match es with
  | [] => (st, w)
  | e :: rest =>
      let '(s, frames) :=
        handle_nack (st_sender st) (nack_transaction_id e) (missing_seqs e) now in
      let st := set_sender s st in
      let '(w, all_ok) := write_data_frames w frames in
      if all_ok then nack_entries_loop st w now rest else (st, w)
  end.

Definition on_nack_frame (st : SessionState) (f : Frame) (w : W) (now : N) :
    SessionState * W :=
  match NackPayload_decode (payload f) with
  | Err _ => (st, w)
  | Ok p => nack_entries_loop st w now (nack_entries p)
  end.

(** The verdict on one declared transaction. *)
Definition resume_status (r : TransactionReassembler) (id : txid) : ResumeStatus :=
  if rx_contains_transaction r id && negb (rx_is_complete r id)
  then Resumed else StatusUnknown.

(** Open incomplete slots the declaration does not cover. *)
Definition abandoned (r : TransactionReassembler) (declared : list AckEntry) :
    list txid :=
  filter (λ id, negb (rx_is_complete r id) = true ∧
                id ∉ (ack_transaction_id <$> declared)) (rx_open_transactions r).

(** Cancel one abandoned transaction. *)
Definition cancel_abandoned (st : SessionState) (id : txid) : SessionState :=
  disown id (remove_stream (stream_finish Cancelled) id (discard_slot id st)).

Definition on_resume_request_frame (st : SessionState) (f : Frame) (w : W) (now : N) :
    SessionState * W :=
  match ResumeRequestPayload_decode (payload f) with
  | Err _ => (st, w)
  | Ok req =>
      match resume_entries req with
      | [] => (st, w)
      | _ =>
          let entries :=
            (λ e, mkResumeStatusEntry (ack_transaction_id e)
                    (resume_status (st_reassembler st) (ack_transaction_id e)))
              <$> resume_entries req in
          let st' :=
            foldl cancel_abandoned st
              (abandoned (st_reassembler st) (resume_entries req)) in
          (st', send_control w (mkResumeResponsePayload entries))
      end
  end.

(** Fire the completion of a closed transaction, if one is registered. *)
Definition fire_completion (confirmed : bool) (acc : SessionState * list AppEvent)
    (id : txid) : SessionState * list AppEvent :=
  let '(st, out) := acc in
  match st_completions st !! id with
  | Some cb =>
      (set_completions (delete id (st_completions st)) st,
       out ++ [CompletionFired cb (mkBinarySendResult id confirmed)])
  | None => (st, out)
  end.

Definition on_resume_response_frame (st : SessionState) (f : Frame) (w : W) (now : N) :
    SessionState * W * list AppEvent :=
  match ResumeResponsePayload_decode (payload f) with
  | Err _ => (st, w, [])
  | Ok resp =>
      let '(s, v) := apply_resume_verdicts (st_sender st) (response_entries resp) now in
      let st := set_sender s st in
      let '(w, all_ok) := write_data_frames w (v_retransmit v) in
      if negb all_ok then (st, w, [])
      else
        let '(st, out) := foldl (fire_completion true) (st, []) (v_confirmed v) in
        let '(st, out) := foldl (fire_completion false) (st, out) (v_failed v) in
        (st, w, out)
  end.

(** [message.get(..32)] and the lowercase-hex test, then the uuid parser. *)
Definition parse_hex_txid_prefix (message : list byte) : option txid :=
  if Nat.ltb (length message) 32 then None
  else if Nat.ltb 32 (length message) && utf8_cont (byte_at message 32) then None
  else
    let prefix := take 32 message in
    if negb (forallb is_lower_hex prefix) then None
    else Uuid_parse_str prefix.

Definition on_error_frame (st : SessionState) (f : Frame) : SessionState :=
  match ErrorPayload_decode (payload f) with
  | Err _ => st
  | Ok p =>
      if (code p =? TRANSACTION_EXPIRED)%N then
        match parse_hex_txid_prefix (rs_bytes (message p)) with
        | Some id =>
            disown id (remove_stream (stream_finish Cancelled) id (discard_slot id st))
        | None => st
        end
      else st
  end.

(** ** Dispatch *)

(** [deliver]: the registered handler, if any, gets the payload. *)
Definition deliver (s : TransferSession) (d : txid * list byte) : list AppEvent :=
  if ts_binary_handler s then [PayloadDelivered d.1 d.2] else [].

(** One inbound non-envelope frame. *)
Definition handle_inbound (s : TransferSession) (f : Frame) (w : W) (now : N) :
    TransferSession * W * list AppEvent :=
  let st := touch_peer now (ts_state s) in
  let quiet st := (set_state st s, w, []) in
  match frame_type f with
  | DataJson => quiet st
  | DataBinary =>
      let '(st, w, delivered, opened) :=
        on_data_frame st f w (ts_binary_handler s) (ts_stream_handler s) now in
      let s := set_state st s in
      (s, w,
       match opened with Some l => if ts_stream_handler s then [StreamOpened l] else []
                       | None => [] end ++
       concat (deliver s <$> delivered))
  | Ack =>
      let '(st, out) := on_ack_frame st f now in
      (wake_writers (set_state st s), w, out)
  | Nack =>
      let '(st, w) := on_nack_frame st f w now in (set_state st s, w, [])
  | Resume =>
      let '(st, w) := on_resume_request_frame st f w now in (set_state st s, w, [])
  | ResumeResponse =>
      let '(st, w, out) := on_resume_response_frame st f w now in
      (wake_writers (set_state st s), w, out)
  | TransactionPause => quiet (on_transaction_pause_frame st f)
  | TransactionAbort => quiet (on_transaction_abort_frame st f)
  | TransactionCompleted => quiet (on_transaction_completed_frame st f)
  | Heartbeat => quiet st
  | Error => quiet (on_error_frame st f)
  | Negotiate | SecurityUpgrade | Unknown _ => quiet st
  end.
End wiring.


(** ** The stream table invariant

    A stream object is open exactly while the table owns it; an object that
    is no longer in the table has reached a terminal state.  Streamed
    transactions have an open, incomplete slot. *)

Definition stored_state (s : StreamInner) : StreamState := StreamState_from_u8 (si_state s).

Record streams_ok (r : TransactionReassembler) (m : gmap txid loc)
    (owned : gset txid) (h : stream_heap) : Prop := {
  so_owned : owned = dom m;
  so_entry : ∀ id l, m !! id = Some l →
    ∃ s, h !! l = Some s ∧ si_txid s = id ∧ tx_alive s = true ∧
         is_terminal (stored_state s) = false ∧
         rx_contains_transaction r id = true ∧ rx_is_complete r id = false;
  so_open : ∀ l s, h !! l = Some s → tx_alive s = true → m !! si_txid s = Some l;
  so_closed : ∀ l s, h !! l = Some s → tx_alive s = false →
    is_terminal (stored_state s) = true;
}.

Definition streams_inv (st : SessionState) : Prop :=
  streams_ok (st_reassembler st) (st_streams st) (st_stream_owned st) (st_heap st).

(** A flow update of a stream: same transaction, channel and liveness. *)
Definition flow_update (f : StreamInner → StreamInner) : Prop :=
  ∀ s, si_txid (f s) = si_txid s ∧ tx_alive (f s) = tx_alive s ∧
       is_terminal (stored_state (f s)) = is_terminal (stored_state s).

(** A terminal update: same transaction, terminal state. *)
Definition terminal_update (f : StreamInner → StreamInner) : Prop :=
  ∀ s, si_txid (f s) = si_txid s ∧ is_terminal (stored_state (f s)) = true.

Lemma flow_update_paused : flow_update stream_set_paused.
Proof.
  intros s. unfold stream_set_paused, compare_exchange, stored_state.
  destruct (N.eqb_spec (si_state s) (StreamState_to_u8 Active)) as [->|]; done.
Qed.

Lemma flow_update_clear_paused : flow_update clear_paused.
Proof.
  intros s. unfold clear_paused, compare_exchange, stored_state.
  destruct (N.eqb_spec (si_state s) (StreamState_to_u8 Paused)) as [->|]; done.
Qed.

Lemma flow_update_set_stalled : flow_update set_stalled.
Proof. intros s. unfold set_stalled. by case_match. Qed.

Lemma flow_update_clear_stalled : flow_update clear_stalled.
Proof. done. Qed.

Lemma flow_update_push chunks : flow_update (push_chunks chunks).
Proof.
  unfold push_chunks, flow_update. induction chunks as [|c chunks IH]; intros s; [done|].
  cbn. destruct (IH (chunk_send (mkStreamChunk c.1 c.2) s)) as (H1 & H2 & H3).
  by rw H1 H2 H3.
Qed.

Lemma flow_update_comp f g : flow_update f → flow_update g → flow_update (λ s, f (g s)).
Proof.
  intros Hf Hg s. destruct (Hf (g s)) as (H1 & H2 & H3), (Hg s) as (G1 & G2 & G3).
  by rw H1 H2 H3 G1 G2 G3.
Qed.

Lemma terminal_update_finish st : is_terminal st = true → terminal_update (stream_finish st).
Proof. intros Ht s. unfold stored_state. cbn. by rw stream_from_to_u8. Qed.

Lemma terminal_update_incomplete r x : terminal_update (finish_incomplete r x).
Proof. done. Qed.

Create HintDb streams.
#[export] Hint Resolve flow_update_paused flow_update_clear_paused
  flow_update_set_stalled flow_update_clear_stalled flow_update_push
  flow_update_comp terminal_update_finish terminal_update_incomplete : streams.
#[export] Hint Extern 0 (is_terminal _ = true) => reflexivity : streams.

(** The reassembler changes without closing or completing a streamed slot. *)
Lemma streams_ok_rx r r' m owned h :
  (∀ id, is_Some (m !! id) → rx_contains_transaction r' id = true ∧
                              rx_is_complete r' id = false) →
  streams_ok r m owned h → streams_ok r' m owned h.
Proof.
  intros Hr [Ho He Hop Hc]. split; [done| |done|done].
  intros id l Hl. destruct (He id l Hl) as (s & Hs & Hid & Ha & Ht & _).
  destruct (Hr id) as [H1 H2]; [by eexists|]. by exists s.
Qed.

Lemma streams_ok_update r m owned h f l :
  flow_update f → streams_ok r m owned h → streams_ok r m owned (heap_update f l h).
Proof.
  intros Hf [Ho He Hop Hc]. unfold heap_update. split; [done|..].
  - intros id' l' Hl'. destruct (He id' l' Hl') as (s & Hs & Hid & Ha & Ht & Hr).
    destruct (decide (l' = l)) as [->|Hne].
    + exists (f s). rw list_lookup_alter_eq Hs. destruct (Hf s) as (H1 & H2 & H3).
      split; [done|]. rw H1 H2 H3. done.
    + exists s. by rw list_lookup_alter_ne.
  - intros l' s Hs Ha. destruct (decide (l' = l)) as [->|Hne].
    + rw list_lookup_alter_eq in Hs. apply fmap_Some in Hs as (s0 & Hs0 & ->).
      destruct (Hf s0) as (H1 & H2 & _). rw H2 in Ha. rw H1. by apply Hop.
    + rw list_lookup_alter_ne // in Hs. by apply Hop.
  - intros l' s Hs Ha. destruct (decide (l' = l)) as [->|Hne].
    + rw list_lookup_alter_eq in Hs. apply fmap_Some in Hs as (s0 & Hs0 & ->).
      destruct (Hf s0) as (_ & H2 & H3). rw H2 in Ha. rw H3. by eapply Hc.
    + rw list_lookup_alter_ne // in Hs. by eapply Hc.
Qed.

Lemma streams_ok_close r r' m owned h f id l :
  terminal_update f → m !! id = Some l →
  (∀ id', id' ≠ id → rx_contains_transaction r' id' = rx_contains_transaction r id' ∧
                     rx_is_complete r' id' = rx_is_complete r id') →
  streams_ok r m owned h →
  streams_ok r' (delete id m) (owned ∖ {[id]}) (heap_update (λ s, drop_tx (f s)) l h).
Proof.
  intros Hf Hl Hr [Ho He Hop Hc]. unfold heap_update.
  destruct (He id l Hl) as (s & Hs & Hid & Ha & _). split.
  - rw Ho dom_delete_L. done.
  - intros id' l' Hl'. apply lookup_delete_Some in Hl' as [Hne Hl'].
    destruct (He id' l' Hl') as (s' & Hs' & Hid' & Ha' & Ht' & Hc1 & Hc2).
    destruct (Hr id') as [-> ->]; [done|]. exists s'.
    rw list_lookup_alter_ne; [|done]. intros <-. congruence.
  - intros l' s' Hs' Ha'. destruct (decide (l' = l)) as [->|Hne].
    + rw list_lookup_alter_eq Hs in Hs'. cbn in Hs'. by injection Hs' as <-.
    + rw list_lookup_alter_ne // in Hs'. pose proof (Hop _ _ Hs' Ha') as Hm.
      apply lookup_delete_Some. split; [|done]. intros Heq. rw -Heq in Hm. congruence.
  - intros l' s' Hs' Ha'. destruct (decide (l' = l)) as [->|Hne].
    + rw list_lookup_alter_eq Hs in Hs'. cbn in Hs'. injection Hs' as <-.
      change (stored_state (drop_tx (f s))) with (stored_state (f s)).
      by destruct (Hf s).
    + rw list_lookup_alter_ne // in Hs'. by eapply Hc.
Qed.

Lemma streams_ok_disown r m owned h id :
  m !! id = None → streams_ok r m owned h → streams_ok r m (owned ∖ {[id]}) h.
Proof.
  intros Hn [Ho He Hop Hc]. split; [|done..]. rw Ho.
  apply not_elem_of_dom in Hn. set_solver.
Qed.

Lemma streams_ok_install r m owned h id l inner :
  m !! id = None → l = length h →
  si_txid inner = id → tx_alive inner = true → is_terminal (stored_state inner) = false →
  rx_contains_transaction r id = true → rx_is_complete r id = false →
  streams_ok r m owned h → streams_ok r (<[id:=l]> m) (owned ∪ {[id]}) (h ++ [inner]).
Proof.
  intros Hn -> Hid Ha Ht Hr1 Hr2 [Ho He Hop Hc]. split.
  - rw Ho dom_insert_L. set_solver.
  - intros id' l' Hl'. destruct (decide (id' = id)) as [->|Hne].
    + rw lookup_insert_eq in Hl'. injection Hl' as <-. exists inner.
      rw list_lookup_middle //.
    + rw lookup_insert_ne // in Hl'.
      destruct (He id' l' Hl') as (s' & Hs' & ?). exists s'.
      split; [by apply lookup_app_l_Some|done].
  - intros l' s' Hs' Ha'. apply lookup_app_Some in Hs' as [Hs'|[Hge Hs']].
    + pose proof (Hop _ _ Hs' Ha') as Hm. rw lookup_insert_ne //.
      intros Heq. rw -Heq in Hm. congruence.
    + apply list_lookup_singleton_Some in Hs' as [Hl <-]. rw Hid lookup_insert_eq.
      f_equal. lia.
  - intros l' s' Hs' Ha'. apply lookup_app_Some in Hs' as [Hs'|[Hge Hs']].
    + by eapply Hc.
    + apply list_lookup_singleton_Some in Hs' as [_ <-]. congruence.
Qed.

(** ** The handlers preserve the table invariant *)

Lemma rx_discard_other r id id' :
  id' ≠ id →
  rx_contains_transaction (rx_discard r id).1 id' = rx_contains_transaction r id' ∧
  rx_is_complete (rx_discard r id).1 id' = rx_is_complete r id'.
Proof.
  intros Hne. unfold rx_contains_transaction, rx_is_complete, rx_discard. cbn.
  rw lookup_delete_ne //.
Qed.

(** [st'] is [st] with transaction [id] closed on the stream surface and its
    slot removed or untouched. *)
Definition stream_closed (f : StreamInner → StreamInner) (id : txid)
    (st st' : SessionState) : Prop :=
  st_streams st' = delete id (st_streams st) ∧
  st_stream_owned st' = st_stream_owned st ∖ {[id]} ∧
  st_heap st' = match st_streams st !! id with
                | Some l => heap_update (λ s, drop_tx (f s)) l (st_heap st)
                | None => st_heap st
                end.

Lemma streams_inv_close f id st st' :
  terminal_update f → stream_closed f id st st' →
  (∀ id', id' ≠ id →
     rx_contains_transaction (st_reassembler st') id' =
       rx_contains_transaction (st_reassembler st) id' ∧
     rx_is_complete (st_reassembler st') id' = rx_is_complete (st_reassembler st) id') →
  streams_inv st → streams_inv st'.
Proof.
  intros Hf (Hs & Ho & Hh) Hr Hi. unfold streams_inv. rw Hs Ho Hh.
  destruct (st_streams st !! id) as [l|] eqn:Hl.
  - by eapply streams_ok_close.
  - rw delete_id //. apply streams_ok_disown; [done|].
    eapply streams_ok_rx; [|exact Hi]. intros id' [l' Hl'].
    destruct Hi as [_ He _ _]. destruct (He _ _ Hl') as (s & _ & _ & _ & _ & H1 & H2).
    destruct (Hr id') as [-> ->]; [congruence|done].
Qed.

Lemma stream_closed_intro f id st :
  stream_closed f id st (disown id (remove_stream f id st)).
Proof.
  unfold stream_closed, remove_stream. destruct (st_streams st !! id) eqn:Hl; cbn; [done|].
  by rw delete_id.
Qed.

Lemma stream_closed_discard f id st :
  stream_closed f id st (disown id (remove_stream f id (discard_slot id st))).
Proof. apply (stream_closed_intro f id (discard_slot id st)). Qed.

Lemma with_stream_inv f id st :
  flow_update f → streams_inv st → streams_inv (with_stream f id st).
Proof.
  intros Hf Hi. unfold with_stream. destruct (st_streams st !! id) eqn:Hl; [|done].
  by eapply streams_ok_update.
Qed.

(** Close, discard, forget the pending ACKs: the shape of an aborted or
    incomplete transaction. *)
Lemma close_and_discard_inv f id st :
  terminal_update f → streams_inv st →
  streams_inv (remove_pending_ack id (discard_slot id (disown id (remove_stream f id st)))).
Proof.
  intros Hf Hi. eapply streams_inv_close; [done|apply stream_closed_intro| |done].
  intros id' Hne. cbn.
  replace (st_reassembler (remove_stream f id st)) with (st_reassembler st)
    by (unfold remove_stream; by case_match).
  by apply rx_discard_other.
Qed.

Lemma cancel_abandoned_inv st id : streams_inv st → streams_inv (cancel_abandoned st id).
Proof.
  intros Hi. eapply (streams_inv_close (stream_finish Cancelled));
    [auto with streams|apply stream_closed_discard| |done].
  intros id' Hne. cbn.
  replace (st_reassembler (remove_stream (stream_finish Cancelled) id (discard_slot id st)))
    with (rx_discard (st_reassembler st) id).1 by (unfold remove_stream; by case_match).
  by apply rx_discard_other.
Qed.

(** What one received frame does to the slots. *)
Lemma receive_frame_slots r id sq total flen p now emit r' o :
  receive_frame r id sq total flen p now emit = (r', o) →
  (∀ id', id' ≠ id → slots r' !! id' = slots r !! id') ∧
  (is_Some (slots r !! id) → is_Some (slots r' !! id)) ∧
  match o with
  | Ok (Accepted c e) => is_Some (slots r' !! id) ∧ rx_is_complete r' id = c
  | _ => rx_is_complete r' id = rx_is_complete r id
  end.
Proof.
  assert (Hput : ∀ s, (∀ id', id' ≠ id → slots (put_slot r id s) !! id' = slots r !! id')
    ∧ slots (put_slot r id s) !! id = Some s).
  { intros s. unfold put_slot. cbn. split; [|apply lookup_insert_eq].
    intros. by apply lookup_insert_ne. }
  assert (Hkeep : rx_is_complete (put_slot r id (slot_or_new r id total)) id =
    rx_is_complete r id ∨ total = 0%N).
  { destruct (decide (total = 0%N)) as [|Ht]; [by right|left].
    unfold rx_is_complete. rw (proj2 (Hput _)). unfold slot_or_new.
    by destruct (slots r !! id). }
  unfold receive_frame. case_decide; [by intros [= <- <-]|].
  destruct (N.eqb_spec total 0); [by intros [= <- <-]|].
  case_match; [by intros [= <- <-]|].
  destruct Hkeep as [Hkeep|]; [|done].
  destruct (Hput (slot_or_new r id total)) as [P1 P2].
  case_decide; [intros [= <- <-]; rw P2; by eauto|].
  case_decide; [intros [= <- <-]; rw P2; by eauto|].
  case_match; [intros [= <- <-]; rw P2; by eauto|].
  intros [= <- <-]. destruct (Hput (store_frame (slot_or_new r id total) sq p)) as [Q1 Q2].
  split; [done|]. rw Q2. split; [done|]. split; [done|]. unfold rx_is_complete. by rw Q2.
Qed.

Lemma rx_contains_ext r r' id :
  slots r' !! id = slots r !! id →
  rx_contains_transaction r' id = rx_contains_transaction r id ∧
  rx_is_complete r' id = rx_is_complete r id.
Proof. intros Hs. unfold rx_contains_transaction, rx_is_complete. by rw Hs. Qed.

Lemma rx_contains_true r id : rx_contains_transaction r id = true ↔ is_Some (slots r !! id).
Proof. apply bool_decide_eq_true. Qed.

Lemma rx_take_other r id id' :
  id' ≠ id → slots (rx_take_completed r id).1 !! id' = slots r !! id'.
Proof.
  intros Hne. unfold rx_take_completed. destruct (slots r !! id); [|done].
  case_match; [done|]. cbn. by rw lookup_delete_ne.
Qed.

(** The stream a first frame opens, before it enters the table. *)
Definition new_stream (id : txid) (total : N) (chunks : list (N * list byte)) :
    StreamInner := push_chunks chunks (StreamInner_new id total).

Lemma new_stream_facts id total chunks :
  si_txid (new_stream id total chunks) = id ∧
  tx_alive (new_stream id total chunks) = true ∧
  is_terminal (stored_state (new_stream id total chunks)) = false.
Proof. apply (flow_update_push chunks (StreamInner_new id total)). Qed.

Lemma install_stream_fresh id total chunks st :
  st_streams st !! id = None →
  install_stream id total chunks st =
  (set_streams (<[id := length (st_heap st)]> (st_streams st)) (st_stream_owned st ∪ {[id]})
     (st_heap st ++ [new_stream id total chunks]) st, length (st_heap st)).
Proof. intros Hn. unfold install_stream. by rw Hn. Qed.

Section data.
Context `{CRC : Crc32} {W : Type} `{WIRE : TransferWiring W}.

(** A received frame, seen from the table: other slots are untouched. *)
Lemma streams_inv_receive st f r' o now sp :
  receive_frame (st_reassembler st) (transaction_id f) (seq f) (total_len f)
    (len (payload f)) (payload f) now sp = (r', o) →
  match o with Ok (Accepted true _) => st_streams st !! transaction_id f = None
             | _ => True end →
  streams_inv st → streams_inv (set_reassembler r' st).
Proof using Type.
  intros Hr Hc Hi. destruct (receive_frame_slots _ _ _ _ _ _ _ _ _ _ Hr) as (H1 & H2 & H3).
  eapply streams_ok_rx; [|exact Hi].
  intros id' [l Hl]. cbn [st_streams st_reassembler set_reassembler] in *.
  destruct Hi as [_ He _ _]. destruct (He _ _ Hl) as (s & _ & _ & _ & _ & Hcon & Hinc).
  destruct (decide (id' = transaction_id f)) as [->|Hne].
  - split; [apply rx_contains_true, H2; by apply rx_contains_true|].
    destruct o as [[c e| |]|]; [|by rw H3..].
    destruct H3 as [_ H3]. rw H3. destruct c; [|done]. by rw Hl in Hc.
  - destruct (rx_contains_ext (st_reassembler st) r' id' (H1 id' Hne)) as [-> ->]. done.
Qed.

(** Feeding an open stream keeps the table; opening one adds an entry for a
    slot that just appeared. *)
Lemma feed_stream_inv b id total emitted st :
  (b = true → st_streams st !! id = None ∧
     rx_contains_transaction (st_reassembler st) id = true ∧
     rx_is_complete (st_reassembler st) id = false) →
  streams_inv st → streams_inv (feed_stream b id total emitted st).1.
Proof using Type.
  intros Hb Hi. unfold feed_stream. destruct b.
  - destruct (Hb eq_refl) as (Hn & H1 & H2). rw install_stream_fresh //.
    destruct (new_stream_facts id total emitted) as (N1 & N2 & N3).
    by eapply streams_ok_install.
  - apply with_stream_inv; [auto with streams|done].
Qed.

(** The receiving side just before a completion is settled: the invariant
    holds but for the completed slot, whose stream, if any, is still open. *)
Definition completing (id : txid) (st : SessionState) : Prop :=
  ∃ r, streams_ok r (st_streams st) (st_stream_owned st) (st_heap st) ∧
    ∀ id', id' ≠ id → slots (st_reassembler st) !! id' = slots r !! id'.

Lemma feed_stream_completing b id total emitted st :
  (b = true → st_streams st !! id = None) →
  completing id st → completing id (feed_stream b id total emitted st).1.
Proof using Type.
  intros Hb (r & Hi & Hoth). unfold completing, feed_stream. destruct b.
  - specialize (Hb eq_refl). rw install_stream_fresh //.
    set (r1 := put_slot r id (mkSlot 1 ∅ 0 0 None)).
    assert (H1 : ∀ id', id' ≠ id → slots r1 !! id' = slots r !! id')
      by (intros; by apply lookup_insert_ne).
    exists r1. destruct (new_stream_facts id total emitted) as (N1 & N2 & N3).
    split; [|intros id' Hne; cbn [fst st_reassembler set_streams]; by rw H1 // Hoth].
    eapply streams_ok_install; [done|done|done|done|done|..].
    + apply rx_contains_true. cbn. rw lookup_insert_eq. by eexists.
    + unfold rx_is_complete. cbn. by rw lookup_insert_eq.
    + eapply streams_ok_rx; [|exact Hi]. intros id' [l Hl].
      destruct Hi as [_ He _ _]. destruct (He _ _ Hl) as (s & _ & _ & _ & _ & E1 & E2).
      destruct (rx_contains_ext r r1 id') as [-> ->]; [|done]. apply H1. congruence.
  - exists r. unfold with_stream. destruct (st_streams st !! id) as [l|] eqn:Hl;
      [|by split]. split; [|done]. eapply streams_ok_update; [auto with streams|done].
Qed.

Lemma settle_complete_inv id st w hp :
  completing id st → streams_inv (settle_complete id st w hp).1.1.
Proof using Type.
  intros (r & Hi & Hoth). unfold settle_complete. case_decide as Hin.
  - set (st0 := set_reassembler r st).
    eapply (streams_inv_close (stream_finish Complete) id st0);
      [auto with streams| | |exact Hi].
    + unfold stream_closed, remove_stream. cbn.
      destruct (st_streams st !! id) eqn:Hl; cbn; [done|]. by rw delete_id.
    + intros id' Hne. apply rx_contains_ext.
      transitivity (slots (st_reassembler st) !! id'); [|by apply Hoth].
      unfold remove_stream. cbn. case_match; by apply rx_take_other.
  - assert (Hn : st_streams st !! id = None).
    { destruct Hi as [Ho _ _ _]. cbn in Hin. rw Ho in Hin. by apply not_elem_of_dom. }
    assert (Hrest : ∀ r', (∀ id', id' ≠ id → slots r' !! id' = slots r !! id') →
      streams_ok r' (st_streams st) (st_stream_owned st) (st_heap st)).
    { intros r' Hr'. eapply streams_ok_rx; [|exact Hi]. intros id' [l Hl].
      destruct Hi as [_ He _ _]. destruct (He _ _ Hl) as (s & _ & _ & _ & _ & H1 & H2).
      destruct (rx_contains_ext r r' id') as [-> ->]; [|done].
      apply Hr'. congruence. }
    destruct hp; [|by apply Hrest].
    destruct (rx_take_completed _ id) as [r2 out] eqn:Htk.
    apply Hrest. intros id' Hne. cbn. rw -Hoth //.
    replace r2 with (rx_take_completed (st_reassembler st) id).1 by by rw Htk.
    by apply rx_take_other.
Qed.

Lemma on_data_frame_inv st f w hp sp now :
  streams_inv st → streams_inv (on_data_frame st f w hp sp now).1.1.1.
Proof using Type.
  intros Hi. unfold on_data_frame. set (id := transaction_id f).
  destruct (receive_frame _ _ _ _ _ _ _ _) as [r' o] eqn:Hr.
  destruct o as [[complete emitted| |]|e];
    [|by eapply streams_inv_receive in Hr..].
  destruct (receive_frame_slots _ _ _ _ _ _ _ _ _ _ Hr) as (Hoth & _ & Hsome & Hcomp).
  assert (Hcon : rx_contains_transaction r' id = true) by by apply rx_contains_true.
  set (b := sp && _ && _). set (st1 := set_pending_acks _ _ _).
  assert (Hnone : b = true → st_streams st !! id = None).
  { intros [_ Hnc%negb_true_iff]%andb_true_iff.
    destruct (st_streams st !! id) as [l|] eqn:Hl; [|done].
    destruct Hi as [_ He _ _]. destruct (He _ _ Hl) as (s & _ & _ & _ & _ & Hcn & _).
    congruence. }
  pose proof (feed_stream_inv b id (total_len f) emitted st1) as Hfeed.
  destruct complete.
  - assert (completing id (feed_stream b id (total_len f) emitted st1).1) as Hc.
    { apply feed_stream_completing; [done|]. exists (st_reassembler st). by split. }
    destruct (feed_stream _ _ _ _ st1) as [st2 opened]. by apply settle_complete_inv.
  - assert (streams_inv (feed_stream b id (total_len f) emitted st1).1) as Hc.
    { apply Hfeed; [intros Hb; split_and!; auto|]. by eapply (streams_inv_receive st f). }
    by destruct (feed_stream _ _ _ _ st1) as [st2 opened].
Qed.
End data.

(** Handlers of the sending side leave the receiving side alone. *)
Definition same_rx (st st' : SessionState) : Prop :=
  st_reassembler st' = st_reassembler st ∧ st_streams st' = st_streams st ∧
  st_stream_owned st' = st_stream_owned st ∧ st_heap st' = st_heap st.

#[export] Instance same_rx_preorder : PreOrder same_rx.
Proof.
  split; [by intros st|]. intros a b c (H1 & H2 & H3 & H4) (G1 & G2 & G3 & G4).
  unfold same_rx. by rw G1 G2 G3 G4.
Qed.

Lemma same_rx_inv st st' : same_rx st st' → streams_inv st → streams_inv st'.
Proof. unfold same_rx, streams_inv. by intros (-> & -> & -> & ->). Qed.

Lemma ack_fold_same_rx now es st out :
  same_rx st (foldl (ack_one now) (st, out) es).1.
Proof.
  revert st out. induction es as [|e es IH]; intros st out; [done|]. cbn [foldl].
  assert (Hs : same_rx st (ack_one now (st, out) e).1).
  { unfold ack_one. destruct (handle_ack _ _ _) as [s []]; [|done]. by case_match. }
  destruct (ack_one now (st, out) e) as [st1 out1]. etrans; [exact Hs|apply IH].
Qed.

Lemma fire_fold_same_rx b ids st out :
  same_rx st (foldl (fire_completion b) (st, out) ids).1.
Proof.
  revert st out. induction ids as [|id ids IH]; intros st out; [done|]. cbn [foldl].
  assert (Hs : same_rx st (fire_completion b (st, out) id).1)
    by (unfold fire_completion; by case_match).
  destruct (fire_completion b (st, out) id) as [st1 out1]. etrans; [exact Hs|apply IH].
Qed.

Section dispatch.
Context `{CRC : Crc32} `{UUID : UuidLib} {W : Type} `{WIRE : TransferWiring W}.
Implicit Types (w : W) (s : TransferSession).

Lemma nack_loop_same_rx st w now es : same_rx st (nack_entries_loop st w now es).1.
Proof using Type.
  revert st w. induction es as [|e es IH]; intros st w; [done|].
  cbn [nack_entries_loop]. destruct (handle_nack _ _ _ _) as [s fr].
  destruct (write_data_frames w fr) as [w' []]; [|done].
  etrans; [|apply IH]. done.
Qed.

Lemma on_resume_response_same_rx st f w now :
  same_rx st (on_resume_response_frame st f w now).1.1.
Proof using Type.
  unfold on_resume_response_frame. destruct (ResumeResponsePayload_decode _); [|done].
  destruct (apply_resume_verdicts _ _ _) as [s v].
  destruct (write_data_frames w _) as [w' []]; [|done]. cbn [negb].
  pose proof (fire_fold_same_rx true (v_confirmed v) (set_sender s st) []) as H1.
  destruct (foldl (fire_completion true) _ _) as [st1 out1].
  pose proof (fire_fold_same_rx false (v_failed v) st1 out1) as H2.
  destruct (foldl (fire_completion false) _ _) as [st2 out2]. cbn.
  etrans; [|exact H2]. by etrans; [|exact H1].
Qed.

Lemma on_completed_inv st f :
  streams_inv st → streams_inv (on_transaction_completed_frame st f).
Proof using Type.
  intros Hi. unfold on_transaction_completed_frame.
  destruct (TransactionCompletedPayload_decode _) as [p|]; [|done].
  set (id := completed_transaction_id p). case_match; [done|]. case_match.
  - destruct (st_streams st !! id) eqn:Hl; [|done].
    eapply (streams_inv_close (stream_finish Complete) id st);
      [auto with streams|apply stream_closed_intro| |done].
    intros id' _. cbn. unfold remove_stream. by case_match.
  - destruct (default _ _) as [received expected].
    by apply close_and_discard_inv; [auto with streams|].
Qed.

Lemma on_abort_inv st f : streams_inv st → streams_inv (on_transaction_abort_frame st f).
Proof using Type.
  intros Hi. unfold on_transaction_abort_frame.
  destruct (TransactionAbortPayload_decode _) as [p|]; [|done].
  by apply close_and_discard_inv; [auto with streams|].
Qed.

Lemma on_resume_request_inv st f w now :
  streams_inv st → streams_inv (on_resume_request_frame st f w now).1.
Proof using Type.
  intros Hi. unfold on_resume_request_frame.
  destruct (ResumeRequestPayload_decode _) as [req|]; [|done].
  destruct (resume_entries req) as [|e es]; [done|]. cbn [fst].
  generalize (abandoned (st_reassembler st) (e :: es)) as ids. intros ids.
  revert st Hi. induction ids as [|id ids IH]; intros st Hi; [done|].
  cbn [foldl]. by apply IH, cancel_abandoned_inv.
Qed.

Lemma on_error_inv st f : streams_inv st → streams_inv (on_error_frame st f).
Proof using Type.
  intros Hi. unfold on_error_frame. destruct (ErrorPayload_decode _) as [p|]; [|done].
  case_match; [|done]. destruct (parse_hex_txid_prefix _) as [id|]; [|done].
  by apply cancel_abandoned_inv.
Qed.

Lemma on_ack_same_rx st f now : same_rx st (on_ack_frame st f now).1.
Proof using Type.
  unfold on_ack_frame. destruct (AckPayload_decode _); [apply ack_fold_same_rx|done].
Qed.

Lemma on_nack_same_rx st f w now : same_rx st (on_nack_frame st f w now).1.
Proof using Type.
  unfold on_nack_frame. destruct (NackPayload_decode _); [apply nack_loop_same_rx|done].
Qed.

(** The session state after one inbound frame, handler by handler. *)
Lemma handle_inbound_state s f w now :
  ts_state (handle_inbound s f w now).1.1 =
  let st := touch_peer now (ts_state s) in
  match frame_type f with
  | DataBinary =>
      (on_data_frame st f w (ts_binary_handler s) (ts_stream_handler s) now).1.1.1
  | Ack => (on_ack_frame st f now).1
  | Nack => (on_nack_frame st f w now).1
  | Resume => (on_resume_request_frame st f w now).1
  | ResumeResponse => (on_resume_response_frame st f w now).1.1
  | TransactionPause => on_transaction_pause_frame st f
  | TransactionAbort => on_transaction_abort_frame st f
  | TransactionCompleted => on_transaction_completed_frame st f
  | Error => on_error_frame st f
  | _ => st
  end.
Proof using Type.
  unfold handle_inbound. destruct (frame_type f); try done.
  - by destruct (on_ack_frame _ _ _).
  - by destruct (on_nack_frame _ _ _ _).
  - by destruct (on_resume_request_frame _ _ _ _).
  - by destruct (on_resume_response_frame _ _ _ _) as [[? ?] ?].
  - by destruct (on_data_frame _ _ _ _ _ _) as [[[? ?] ?] ?].
Qed.

Lemma inbound_keeps_streams s f w now :
  streams_inv (ts_state s) → streams_inv (ts_state (handle_inbound s f w now).1.1).
Proof using Type.
  intros Hi. rw handle_inbound_state. cbn zeta.
  assert (Hi' : streams_inv (touch_peer now (ts_state s))) by by eapply same_rx_inv.
  destruct (frame_type f); try done.
  - eapply same_rx_inv; [apply on_ack_same_rx|done].
  - eapply same_rx_inv; [apply on_nack_same_rx|done].
  - by apply on_resume_request_inv.
  - eapply same_rx_inv; [apply on_resume_response_same_rx|done].
  - by apply on_error_inv.
  - unfold on_transaction_pause_frame. case_match; [|done].
    apply with_stream_inv; [auto with streams|done].
  - by apply on_abort_inv.
  - by apply on_completed_inv.
  - by apply on_data_frame_inv.
Qed.
End dispatch.

(** ** Completion callbacks *)

(** Every event of [out] uses up the registration it fires: [c'] is [c] without
    them, and none fires twice. *)
Inductive fires : gmap txid CompletionCallback → list AppEvent →
    gmap txid CompletionCallback → Prop :=
  | fires_nil c : fires c [] c
  | fires_cons c id cb b out c' :
      c !! id = Some cb → fires (delete id c) out c' →
      fires c (CompletionFired cb (mkBinarySendResult id b) :: out) c'.

Lemma fires_app c c1 c2 out1 out2 :
  fires c out1 c1 → fires c1 out2 c2 → fires c (out1 ++ out2) c2.
Proof. induction 1; intros H2; cbn; [done|]. by econstructor; [|apply IHfires]. Qed.

Lemma fires_lookup c out c' id :
  fires c out c' →
  c' !! id = c !! id ∨
  ∃ cb b, CompletionFired cb (mkBinarySendResult id b) ∈ out.
Proof.
  induction 1 as [|c id' cb b out c' Hc _ IH]; [by left|].
  destruct IH as [IH|(cb' & b' & IH)].
  - destruct (decide (id = id')) as [->|Hne]; [right; exists cb, b; by left|].
    left. by rw IH lookup_delete_ne.
  - right. exists cb', b'. by right.
Qed.

Lemma fires_none c out c' id : fires c out c' → c !! id = None → c' !! id = None.
Proof.
  induction 1 as [|c id' cb b out c' Hc _ IH]; [done|]. intros Hn. apply IH.
  rw lookup_delete_None. by right.
Qed.

Lemma fires_removed c out c' cb id b :
  fires c out c' → CompletionFired cb (mkBinarySendResult id b) ∈ out → c' !! id = None.
Proof.
  induction 1 as [|c id' cb' b' out c' Hc Hf IH]; [by intros ?%elem_of_nil|].
  intros [[= -> -> ->]|Hin]%elem_of_cons; [|by apply IH].
  eapply fires_none; [exact Hf|]. apply lookup_delete_eq.
Qed.

(** One step of the sending side, as the completion bookkeeping sees it: [F] is
    the fully-sent flag of each held transaction.  Callbacks fire with the
    holder's own verdict on transactions that leave the sender, and, when
    [full], on every registered one that does. *)
Record completion_step (full : Prop) (F : txid → option bool)
    (c : gmap txid CompletionCallback) (F' : txid → option bool)
    (c' : gmap txid CompletionCallback) (out : list AppEvent) : Prop := {
  cs_fires : fires c out c';
  cs_true : ∀ cb id b, CompletionFired cb (mkBinarySendResult id b) ∈ out →
    F id = Some b ∧ F' id = None;
  cs_mono : ∀ id, F' id = F id ∨ F' id = None;
  cs_full : full → ∀ id b cb, F id = Some b → F' id = None → c !! id = Some cb →
    CompletionFired cb (mkBinarySendResult id b) ∈ out;
}.

Lemma completion_step_nil full F c : completion_step full F c F c [].
Proof.
  split; [constructor|by intros ??? ?%elem_of_nil|by left|]. intros. congruence.
Qed.

Lemma completion_step_ext full F c F' F'' c' out :
  (∀ id, F'' id = F' id) → completion_step full F c F' c' out →
  completion_step full F c F'' c' out.
Proof.
  intros He []. split; [done|..].
  - intros cb id b Hin. rw He. by eapply cs_true0.
  - intros id. rw He. apply cs_mono0.
  - intros Hf id b cb HF HF'. apply cs_full0; [done|done|]. by rw -He.
Qed.

Lemma completion_step_app full F c F1 c1 out1 F2 c2 out2 :
  completion_step full F c F1 c1 out1 → completion_step full F1 c1 F2 c2 out2 →
  completion_step full F c F2 c2 (out1 ++ out2).
Proof.
  intros [A1 A2 A3 A4] [B1 B2 B3 B4]. split.
  - by eapply fires_app.
  - intros cb id b [Hin|Hin]%elem_of_app.
    + destruct (A2 _ _ _ Hin) as [HF HF1]. split; [done|].
      destruct (B3 id) as [->| ->]; done.
    + destruct (B2 _ _ _ Hin) as [HF1 HF2]. split; [|done].
      destruct (A3 id); congruence.
  - intros id. destruct (B3 id) as [->|]; [apply A3|by right].
  - intros Hf id b cb HF HF2 Hc. apply elem_of_app.
    destruct (F1 id) as [b1|] eqn:HF1.
    + assert (b1 = b) as -> by (destruct (A3 id); congruence).
      right. apply B4; [done..|].
      destruct (fires_lookup _ _ _ id A1) as [->|(cb' & b' & Hin)]; [done|].
      destruct (A2 _ _ _ Hin). congruence.
    + left. by apply A4.
Qed.

Lemma handle_ack_flag s e now :
  let '(s', finished) := handle_ack s e now in
  if finished : bool then
    sent_flag s (ack_transaction_id e) = Some true ∧
    ∀ id, sent_flag s' id =
      if decide (id = ack_transaction_id e) then None else sent_flag s id
  else ∀ id, sent_flag s' id = sent_flag s id.
Proof.
  unfold handle_ack, sent_flag.
  destruct (s_pending s !! ack_transaction_id e) as [t|] eqn:Ht; [|done].
  destruct (is_fully_acked (ack_txn e now t)) eqn:Ha.
  - cbn. split.
    + unfold is_fully_acked in Ha.
      change (is_fully_sent (ack_txn e now t)) with (is_fully_sent t) in Ha.
      by destruct (is_fully_sent t).
    + intros id. case_decide as Hd; [subst; by rw lookup_delete_eq|by rw lookup_delete_ne].
  - intros id. cbn. destruct (decide (id = ack_transaction_id e)) as [->|].
    + by rw lookup_insert_eq Ht.
    + by rw lookup_insert_ne.
Qed.

Lemma ack_one_completion full now st e :
  let '(st', out) := ack_one now (st, []) e in
  completion_step full (sent_flag (st_sender st)) (st_completions st)
    (sent_flag (st_sender st')) (st_completions st') out.
Proof.
  unfold ack_one. pose proof (handle_ack_flag (st_sender st) e now) as Hf.
  destruct (handle_ack (st_sender st) e now) as [s' []].
  2:{ eapply completion_step_ext; [exact Hf|]. apply completion_step_nil. }
  destruct Hf as [HF HF']. cbn [st_completions set_sender].
  assert (Hgone : sent_flag s' (ack_transaction_id e) = None)
    by (rw HF'; by case_decide).
  destruct (st_completions st !! ack_transaction_id e) as [cb|] eqn:Hc; cbn.
  - split.
    + econstructor; [done|constructor].
    + intros cb' id b Hin%list_elem_of_singleton. by injection Hin as -> -> ->.
    + intros id. rw HF'. case_decide; [by right|by left].
    + intros _ id b cb' HFb HFn Hcb. rw HF' in HFn. case_decide; [|congruence].
      subst. assert (b = true) as -> by congruence.
      assert (cb' = cb) as -> by congruence. by left.
  - split.
    + constructor.
    + by intros ??? ?%elem_of_nil.
    + intros id. rw HF'. case_decide; [by right|by left].
    + intros _ id b cb' HFb HFn Hcb. rw HF' in HFn. case_decide; congruence.
Qed.

Lemma ack_one_out now st out e :
  ack_one now (st, out) e =
  (let '(st', new) := ack_one now (st, []) e in (st', out ++ new)).
Proof.
  unfold ack_one. destruct (handle_ack _ _ _) as [s []]; [|by rw app_nil_r].
  case_match; [done|]. by rw app_nil_r.
Qed.

Lemma ack_fold_completion full now es st out :
  let '(st', out') := foldl (ack_one now) (st, out) es in
  ∃ new, out' = out ++ new ∧
    completion_step full (sent_flag (st_sender st)) (st_completions st)
      (sent_flag (st_sender st')) (st_completions st') new.
Proof.
  revert st out. induction es as [|e es IH]; intros st out; cbn [foldl].
  { exists []. rw app_nil_r. split; [done|apply completion_step_nil]. }
  rw ack_one_out. pose proof (ack_one_completion full now st e) as H1.
  destruct (ack_one now (st, []) e) as [st1 new1]. specialize (IH st1 (out ++ new1)).
  destruct (foldl _ _ es) as [st2 out2]. destruct IH as (new2 & -> & H2).
  exists (new1 ++ new2). rw app_assoc. split; [done|]. by eapply completion_step_app.
Qed.

Lemma fire_fold_spec b ids st out :
  NoDup ids →
  let '(st', out') := foldl (fire_completion b) (st, out) ids in
  ∃ new, out' = out ++ new ∧ st_sender st' = st_sender st ∧
    fires (st_completions st) new (st_completions st') ∧
    (∀ cb id b', CompletionFired cb (mkBinarySendResult id b') ∈ new → b' = b ∧ id ∈ ids) ∧
    (∀ id cb, id ∈ ids → st_completions st !! id = Some cb →
       CompletionFired cb (mkBinarySendResult id b) ∈ new) ∧
    (∀ id, id ∉ ids → st_completions st' !! id = st_completions st !! id).
Proof.
  revert st out. induction ids as [|id ids IH]; intros st out Hnd; cbn [foldl].
  { exists []. rw app_nil_r. split_and!; [done|done|constructor| | |done].
    - by intros ??? ?%elem_of_nil.
    - by intros ?? ?%elem_of_nil. }
  apply NoDup_cons in Hnd as [Hni Hnd]. unfold fire_completion at 2.
  destruct (st_completions st !! id) as [cb|] eqn:Hc.
  - specialize (IH (set_completions (delete id (st_completions st)) st)
      (out ++ [CompletionFired cb (mkBinarySendResult id b)]) Hnd).
    destruct (foldl _ _ ids) as [st' out'].
    destruct IH as (new & -> & Hs & Hf & Ht & Hfull & Hoth). cbn in *.
    exists (CompletionFired cb (mkBinarySendResult id b) :: new). rw -app_assoc.
    split_and!; [done|done|by econstructor|..].
    + intros cb' id' b' [Heq|Hin]%elem_of_cons.
      * injection Heq as -> -> ->. split; [done|by left].
      * destruct (Ht _ _ _ Hin). split; [done|by right].
    + intros id' cb' [->|Hin]%elem_of_cons Hcb.
      * assert (cb' = cb) as -> by congruence. by left.
      * right. apply Hfull; [done|]. rw lookup_delete_ne //. intros ->. done.
    + intros id' Hni'. apply not_elem_of_cons in Hni' as [Hne Hni'].
      rw Hoth // lookup_delete_ne //.
  - specialize (IH st out Hnd). destruct (foldl _ _ ids) as [st' out'].
    destruct IH as (new & -> & Hs & Hf & Ht & Hfull & Hoth). exists new.
    split_and!; [done|done|done|..].
    + intros cb' id' b' Hin. destruct (Ht _ _ _ Hin). split; [done|by right].
    + intros id' cb' [->|Hin]%elem_of_cons Hcb; [congruence|by apply Hfull].
    + intros id' Hni'. apply Hoth. intros Hin. apply Hni'. by right.
Qed.

Lemma verdicts_mono tx entries now s v :
  apply_resume_verdicts tx entries now = (s, v) →
  ∀ id, sent_flag s id = sent_flag tx id ∨ sent_flag s id = None.
Proof.
  intros Hv id.
  destruct (verdicts_fold now entries tx (mkResumeVerdicts [] [] []) s v Hv)
    as [_ Hspec]; [by intros ? ?%elem_of_nil|constructor|].
  destruct (Hspec id) as (_ & _ & Hcl & Hop). destruct (decide (closes entries id)); auto.
Qed.

(** The verdicts of one response, with the callbacks they fire. *)
Lemma verdicts_completion full st s v entries now :
  apply_resume_verdicts (st_sender st) entries now = (s, v) →
  let '(st1, out1) := foldl (fire_completion true) (set_sender s st, []) (v_confirmed v) in
  let '(st2, out2) := foldl (fire_completion false) (st1, out1) (v_failed v) in
  completion_step full (sent_flag (st_sender st)) (st_completions st)
    (sent_flag (st_sender st2)) (st_completions st2) out2.
Proof.
  intros Hv.
  destruct (verdicts_fold now entries (st_sender st) (mkResumeVerdicts [] [] []) s v Hv)
    as [Hnd Hspec]; [by intros id ?%elem_of_nil|constructor|].
  apply NoDup_app in Hnd as (Hnd1 & Hdis & Hnd2).
  pose proof (fire_fold_spec true (v_confirmed v) (set_sender s st) [] Hnd1) as H1.
  destruct (foldl (fire_completion true) _ _) as [st1 out1].
  destruct H1 as (new1 & -> & Hs1 & Hf1 & Ht1 & Hfull1 & Hoth1). cbn [app] in *.
  pose proof (fire_fold_spec false (v_failed v) st1 new1 Hnd2) as H2.
  destruct (foldl (fire_completion false) _ _) as [st2 out2].
  destruct H2 as (new2 & -> & Hs2 & Hf2 & Ht2 & Hfull2 & Hoth2).
  rw Hs2 Hs1. cbn in *. split.
  - by eapply fires_app.
  - intros cb id b Hin. destruct (Hspec id) as (Hc & Hf & Hcl & _).
    rw elem_of_nil in Hc Hf. apply elem_of_app in Hin as [Hin|Hin].
    + destruct (Ht1 _ _ _ Hin) as [-> [[]|[? ?]]%Hc]. auto.
    + destruct (Ht2 _ _ _ Hin) as [-> [[]|[? ?]]%Hf]. auto.
  - by eapply verdicts_mono.
  - intros _ id b cb HF HF' Hcb. destruct (Hspec id) as (Hc & Hf & _ & Hop).
    rw elem_of_nil in Hc Hf.
    destruct (decide (closes entries id)) as [Hcl|Hcl]; [|rw Hop // in HF'; congruence].
    apply elem_of_app. destruct b.
    + left. apply Hfull1; [|done]. apply Hc. by right.
    + assert (Hid : id ∈ v_failed v) by (apply Hf; by right).
      right. apply Hfull2; [done|]. rw Hoth1 //.
      intros Hin. by apply (Hdis id Hin).
Qed.

(** The completion events among what the application observes. *)
Definition is_completion (e : AppEvent) : bool :=
  match e with CompletionFired _ _ => true | _ => false end.

Definition completion_events (out : list AppEvent) : list AppEvent :=
  filter (λ e, is_completion e = true) out.

Lemma fires_only c out c' : fires c out c' → completion_events out = out.
Proof.
  unfold completion_events. induction 1 as [|c id cb b out c' _ _ IH]; [done|].
  rw filter_cons_True; [done|]. by rw IH.
Qed.

Lemma elem_of_completion_events cb r out :
  CompletionFired cb r ∈ completion_events out ↔ CompletionFired cb r ∈ out.
Proof. unfold completion_events. rw list_elem_of_filter. naive_solver. Qed.

Section completions.
Context `{CRC : Crc32} `{UUID : UuidLib} {W : Type} `{WIRE : TransferWiring W}.
Implicit Types (w : W).

Lemma nack_flag (tx : TransactionSender) id missing now id' :
  sent_flag (handle_nack tx id missing now).1 id' = sent_flag tx id'.
Proof using Type.
  unfold handle_nack, sent_flag. destruct (s_pending tx !! id) as [t|] eqn:Ht; [|done].
  assert (Hset : ∀ t', is_fully_sent t' = is_fully_sent t →
    is_fully_sent <$> s_pending (set_pending tx id t') !! id' =
    is_fully_sent <$> s_pending tx !! id').
  { intros t' Heq. cbn. destruct (decide (id' = id)) as [->|].
    - rw lookup_insert_eq Ht. cbn. by rw Heq.
    - by rw lookup_insert_ne. }
  case_match; [by apply Hset|]. destruct (foldl _ _ _) as [sts out]. by apply Hset.
Qed.

Lemma nack_loop_completion st w now es :
  let st' := (nack_entries_loop st w now es).1 in
  st_completions st' = st_completions st ∧
  ∀ id, sent_flag (st_sender st') id = sent_flag (st_sender st) id.
Proof using Type.
  revert st w. induction es as [|e es IH]; intros st w; [done|].
  cbn [nack_entries_loop].
  pose proof (nack_flag (st_sender st) (nack_transaction_id e) (missing_seqs e) now) as Hf.
  destruct (handle_nack _ _ _ _) as [s fr].
  destruct (write_data_frames w fr) as [w' []]; [|done].
  destruct (IH (set_sender s st) w') as [H1 H2]. split; [done|].
  intros id. rw H2. apply Hf.
Qed.

Lemma write_all_ok w fr :
  (∀ w f, is_ok (write_data_frame w f).2 = true) → (write_data_frames w fr).2 = true.
Proof using Type.
  intros Hok. revert w. induction fr as [|f fr IH]; intros w; [done|]. cbn.
  specialize (Hok w f). destruct (write_data_frame w f) as [w' []]; [|done]. apply IH.
Qed.

(** A handler that touches neither the sender nor the completion table. *)
Definition same_tx (st st' : SessionState) : Prop :=
  st_sender st' = st_sender st ∧ st_completions st' = st_completions st.

Lemma same_tx_remove_stream f id st : same_tx st (remove_stream f id st).
Proof using Type. unfold remove_stream. by case_match. Qed.

Lemma same_tx_with_stream f id st : same_tx st (with_stream f id st).
Proof using Type. unfold with_stream. by case_match. Qed.

Lemma same_tx_cancel st id : same_tx st (cancel_abandoned st id).
Proof using Type. apply (same_tx_remove_stream _ id (discard_slot id st)). Qed.

Lemma same_tx_cancel_fold ids st : same_tx st (foldl cancel_abandoned st ids).
Proof using Type.
  revert st. induction ids as [|id ids IH]; intros st; [done|]. cbn [foldl].
  destruct (IH (cancel_abandoned st id)) as [H1 H2].
  destruct (same_tx_cancel st id) as [G1 G2]. split; congruence.
Qed.

Lemma same_tx_feed b id total e st : same_tx st (feed_stream b id total e st).1.
Proof using Type. destruct b; [done|]. apply same_tx_with_stream. Qed.

Lemma same_tx_settle id st w hp : same_tx st (settle_complete id st w hp).1.1.
Proof using Type.
  unfold settle_complete. case_decide.
  - apply (same_tx_remove_stream _ _ (disown id (remove_pending_ack id st))).
  - destruct hp; [|done]. by destruct (rx_take_completed _ _).
Qed.

Lemma same_tx_data st f w hp sp now :
  same_tx st (on_data_frame st f w hp sp now).1.1.1.
Proof using Type.
  unfold on_data_frame. destruct (receive_frame _ _ _ _ _ _ _ _) as [r o].
  destruct o as [[c e| |]|]; [|done..].
  set (b := sp && _ && _). set (st1 := set_pending_acks _ _ _).
  pose proof (same_tx_feed b (transaction_id f) (total_len f) e st1) as [H1 H2].
  destruct (feed_stream _ _ _ _ st1) as [st2 opened]. cbn in H1, H2.
  destruct c; [|done]. destruct (same_tx_settle (transaction_id f) st2 w hp) as [G1 G2].
  destruct (settle_complete _ _ _ _) as [[st3 w3] d]. cbn in *. split; congruence.
Qed.

Lemma same_tx_quiet full st st' :
  same_tx st st' →
  completion_step full (sent_flag (st_sender st)) (st_completions st)
    (sent_flag (st_sender st')) (st_completions st') [].
Proof using Type. intros [-> ->]. apply completion_step_nil. Qed.

Lemma same_tx_handlers st f w now :
  same_tx st (on_transaction_pause_frame st f) ∧
  same_tx st (on_transaction_abort_frame st f) ∧
  same_tx st (on_transaction_completed_frame st f) ∧
  same_tx st (on_error_frame st f) ∧
  same_tx st (on_resume_request_frame st f w now).1.
Proof using Type.
  split_and!.
  - unfold on_transaction_pause_frame. case_match; [|done]. apply same_tx_with_stream.
  - unfold on_transaction_abort_frame. case_match; [|done].
    apply (same_tx_remove_stream _ _ st).
  - unfold on_transaction_completed_frame. case_match; [|done].
    case_match; [done|]. case_match.
    + case_match; [|done]. apply (same_tx_remove_stream _ _ st).
    + destruct (default _ _) as [x y]. apply (same_tx_remove_stream _ _ st).
  - unfold on_error_frame. case_match; [|done]. case_match; [|done].
    case_match; [|done]. apply (same_tx_remove_stream _ _ (discard_slot _ st)).
  - unfold on_resume_request_frame. case_match; [|done]. case_match; [done|].
    apply same_tx_cancel_fold.
Qed.

Lemma resume_response_completion st f w now :
  let '(st', _, out) := on_resume_response_frame st f w now in
  completion_step (∀ w f, is_ok (write_data_frame w f).2 = true)
    (sent_flag (st_sender st)) (st_completions st)
    (sent_flag (st_sender st')) (st_completions st') out.
Proof using Type.
  unfold on_resume_response_frame.
  destruct (ResumeResponsePayload_decode _) as [p|]; [|apply completion_step_nil].
  destruct (apply_resume_verdicts _ _ _) as [tx v] eqn:Hv.
  pose proof (write_all_ok w (v_retransmit v)) as Hw.
  pose proof (verdicts_completion (∀ w f, is_ok (write_data_frame w f).2 = true)
    st tx v _ now Hv) as H.
  destruct (write_data_frames w (v_retransmit v)) as [w' ok]. cbn in Hw.
  destruct (foldl (fire_completion true) _ _) as [st1 out1].
  destruct (foldl (fire_completion false) _ _) as [st2 out2].
  destruct ok; cbn; [done|].
  split; [constructor|by intros ??? ?%elem_of_nil|by eapply verdicts_mono|].
  intros Hfull. by specialize (Hw Hfull).
Qed.

(** The bookkeeping of one inbound frame; [full] asks that a resume response
    gets all its retransmissions out. *)
Lemma handle_inbound_completion s f w now :
  let '(s', _, out) := handle_inbound s f w now in
  completion_step (∀ w f, is_ok (write_data_frame w f).2 = true)
    (sent_flag (st_sender (ts_state s))) (st_completions (ts_state s))
    (sent_flag (st_sender (ts_state s'))) (st_completions (ts_state s'))
    (completion_events out).
Proof using Type.
  unfold handle_inbound. set (st := touch_peer now (ts_state s)).
  change (st_sender (ts_state s)) with (st_sender st).
  change (st_completions (ts_state s)) with (st_completions st). clearbody st.
  pose proof (same_tx_handlers st f w now) as (Hp & Ha & Hc & He & Hr).
  destruct (frame_type f); cbn [ts_state set_state];
    try (by apply same_tx_quiet); try apply completion_step_nil.
  - unfold on_ack_frame. destruct (AckPayload_decode _) as [p|]; [|apply completion_step_nil].
    pose proof (ack_fold_completion (∀ w f, is_ok (write_data_frame w f).2 = true)
      now (ack_entries p) st []) as H.
    destruct (foldl _ _ _) as [st' out]. destruct H as (new & -> & H). cbn.
    by erewrite fires_only by apply H.
  - unfold on_nack_frame. destruct (NackPayload_decode _) as [p|]; [|apply completion_step_nil].
    pose proof (nack_loop_completion st w now (nack_entries p)) as [H1 H2].
    destruct (nack_entries_loop _ _ _ _) as [st' w']. cbn in *. rw H1.
    eapply completion_step_ext; [exact H2|]. apply completion_step_nil.
  - destruct (on_resume_request_frame st f w now) as [st' w']. by apply same_tx_quiet.
  - pose proof (resume_response_completion st f w now) as H.
    destruct (on_resume_response_frame st f w now) as [[st' w'] out]. cbn.
    by erewrite fires_only by apply H.
  - pose proof (same_tx_data st f w (ts_binary_handler s) (ts_stream_handler s) now) as Hd.
    destruct (on_data_frame _ _ _ _ _ _) as [[[st' w'] d] o]. cbn in *.
    replace (completion_events _) with (@nil AppEvent); [by apply same_tx_quiet|].
    symmetry. unfold completion_events. rw filter_app. apply app_nil. split.
    + destruct o; [|done]. by destruct (ts_stream_handler s).
    + induction d as [|x d IH]; [done|]. cbn. rw filter_app IH.
      unfold deliver. by destruct (ts_binary_handler _).
Qed.
End completions.

(** ** Properties *)

Section properties.
Context `{CRC : Crc32} `{UUID : UuidLib} {W : Type} `{WIRE : TransferWiring W}.
Implicit Types (w : W) (s : TransferSession).

(** *** What settles a transaction

    Said of the transaction and the frame alone, in terms of the recorded fields. *)

(** Every declared byte is framed. *)
Definition sent_whole (t : PendingTxn) : bool :=
  (txn_written t =? txn_total_len t)%N && bool_decide (txn_partial t = []).

Definition max_of (l : list N) : N := foldr N.max 0%N l.

(** The entries for [id], with what was acknowledged before, reach the last frame and
    count every frame. *)
Definition acked_in_full (id : txid) (t : PendingTxn) (es : list AckEntry) : bool :=
  let mine := filter (λ e, ack_transaction_id e = id) es in
  let n := frame_count t in
  negb (bool_decide (mine = [])) && sent_whole t && (0 <? n)%N &&
  (n - 1 <=? N.max (default 0%N (txn_acked_contiguous t)) (max_of (highest_contiguous_seq <$> mine)))%N &&
  (n <=? N.max (txn_acked_received t) (max_of (received_frames <$> mine)))%N.

(** An ACK settles as confirmed what it acknowledges in full; a RESUME response settles
    what it does not resume, as confirmed exactly when everything was sent. *)
Definition settlement (f : Frame) (id : txid) (t : PendingTxn) : option bool :=
  match frame_type f with
  | Ack =>
      match AckPayload_decode (payload f) with
      | Ok p => if acked_in_full id t (ack_entries p) then Some true else None
      | Err _ => None
      end
  | ResumeResponse =>
      match ResumeResponsePayload_decode (payload f) with
      | Ok p => if decide (closes (response_entries p) id) then Some (sent_whole t) else None
      | Err _ => None
      end
  | _ => None
  end.

(** The completions of [id] among the events. *)
Definition completes (id : txid) (e : AppEvent) : bool :=
  match e with CompletionFired _ r => bool_decide (bsr_transaction_id r = id) | _ => false end.

Definition completions_of (id : txid) (out : list AppEvent) : list AppEvent :=
  filter (λ e, completes id e = true) out.

Lemma fires_of c out c' id :
  fires c out c' →
  (completions_of id out = [] ∧ c' !! id = c !! id) ∨
  ∃ cb b, c !! id = Some cb ∧ c' !! id = None ∧
    completions_of id out = [CompletionFired cb (mkBinarySendResult id b)].
Proof using Type.
  unfold completions_of. induction 1 as [|c i cb b out c' Hc Hf IH]; [by left|]. rw filter_cons.
  cbn [completes bsr_transaction_id]. case_decide as Hi; rw bool_decide_eq_true in Hi.
  - subst i. right. exists cb, b. rw lookup_delete_eq in IH. split; [done|].
    destruct IH as [[-> ->]|(? & ? & ? & _)]; done.
  - rw lookup_delete_ne in IH; done.
Qed.

Lemma completions_of_events id out : completions_of id (completion_events out) = completions_of id out.
Proof using Type.
  unfold completions_of, completion_events. rw list_filter_filter. apply list_filter_iff.
  intros []; naive_solver.
Qed.

Lemma frame_count_acked e now t : frame_count (ack_txn e now t) = frame_count t.
Proof using Type.
  unfold frame_count, ack_txn, len. cbn [txn_frames set_frames set_written_bytes set_progress set_acked].
  do 2 f_equal. cbn. rw length_app length_fmap length_take length_drop. lia.
Qed.

Lemma acked_in_full_spec id t es :
  let mine := filter (λ e, ack_transaction_id e = id) es in
  acked_in_full id t es = true ↔
  mine ≠ [] ∧ sent_whole t = true ∧ (0 < frame_count t)%N ∧
  (frame_count t - 1 ≤ N.max (default 0 (txn_acked_contiguous t)) (max_of (highest_contiguous_seq <$> mine)))%N ∧
  (frame_count t ≤ N.max (txn_acked_received t) (max_of (received_frames <$> mine)))%N.
Proof using Type.
  unfold acked_in_full. rw !andb_true_iff negb_true_iff bool_decide_eq_false N.ltb_lt !N.leb_le. tauto.
Qed.

Lemma fully_acked_entry t e now :
  is_fully_acked (ack_txn e now t) = true ↔
  sent_whole t = true ∧ (0 < frame_count t)%N ∧ (frame_count t - 1 ≤ ack_progress t e)%N ∧
  (frame_count t ≤ N.max (txn_acked_received t) (received_frames e))%N.
Proof using Type.
  unfold is_fully_acked. rw frame_count_acked.
  change (is_fully_sent (ack_txn e now t)) with (sent_whole t).
  change (txn_acked_received (ack_txn e now t)) with (N.max (txn_acked_received t) (received_frames e)).
  change (txn_acked_contiguous (ack_txn e now t)) with (Some (N.min (ack_progress t e) (frame_count t - 1))).
  unfold checked_pred. destruct (sent_whole t); cbn [negb]; [|naive_solver].
  rw !andb_true_iff !bool_decide_eq_true N.leb_le. destruct (N.eqb_spec (frame_count t) 0) as [H0|H0].
  - split; [intros [[? []] _]; done|lia].
  - split; [intros [[[= ?] _] ?]; split_and!; done || lia|].
    intros (_ & _ & ? & ?). split_and!; [f_equal; lia|by eexists|done].
Qed.

(** One entry for [id], against the declarative reading of the list. *)
Lemma acked_in_full_entry id t e es now :
  ack_transaction_id e = id →
  acked_in_full id t (e :: es) = true ↔
  is_fully_acked (ack_txn e now t) = true ∨ acked_in_full id (ack_txn e now t) es = true.
Proof using Type.
  intros He. rw !acked_in_full_spec fully_acked_entry frame_count_acked filter_cons_True //.
  change (sent_whole (ack_txn e now t)) with (sent_whole t).
  change (txn_acked_received (ack_txn e now t)) with (N.max (txn_acked_received t) (received_frames e)).
  change (txn_acked_contiguous (ack_txn e now t)) with (Some (N.min (ack_progress t e) (frame_count t - 1))).
  set (mine := filter _ es). cbn [fmap list_fmap max_of foldr default from_option Datatypes.id].
  fold (max_of (highest_contiguous_seq <$> mine)) (max_of (received_frames <$> mine)).
  assert (Hp : ∀ m, N.max (default 0%N (txn_acked_contiguous t)) (N.max (highest_contiguous_seq e) m) =
    N.max (ack_progress t e) m) by (intros m; unfold ack_progress; destruct (txn_acked_contiguous t); cbn; lia).
  rw Hp. destruct (decide (mine = [])) as [->|Hm]; cbn [fmap list_fmap max_of foldr].
  - split; [intros (_ & ? & ? & ? & ?); left; split_and!; done || lia|].
    intros [(? & ? & ? & ?)|[? _]]; [split_and!; done || lia|done].
  - split; [intros (_ & ? & ? & ? & ?); right; split_and!; done || lia|].
    intros [(? & ? & ? & ?)|(_ & ? & ? & ? & ?)]; split_and!; done || lia.
Qed.

Lemma acked_in_full_other id t e es :
  ack_transaction_id e ≠ id → acked_in_full id t (e :: es) = acked_in_full id t es.
Proof using Type. intros He. unfold acked_in_full. by rw filter_cons_False. Qed.

(** An ACK frame's entries take [id] away exactly when they acknowledge it in full. *)
Lemma ack_fold_settles now es id st out :
  let st' := (foldl (ack_one now) (st, out) es).1 in
  match s_pending (st_sender st) !! id with
  | Some t => s_pending (st_sender st') !! id = None ↔ acked_in_full id t es = true
  | None => s_pending (st_sender st') !! id = None
  end.
Proof using Type.
  revert st out. induction es as [|e es IH]; intros st out.
  { cbn [foldl fst]. destruct (s_pending (st_sender st) !! id); [|done]. rw acked_in_full_spec. naive_solver. }
  cbn [foldl]. rw ack_one_out. destruct (ack_one now (st, []) e) as [st1 new] eqn:H1.
  assert (Hs1 : st_sender st1 = (handle_ack (st_sender st) e now).1).
  { unfold ack_one in H1. destruct (handle_ack _ e now) as [s1 []]; [case_match|]; by injection H1 as <- _. }
  specialize (IH st1 (out ++ new)). cbn zeta in IH. rw Hs1 in IH. unfold handle_ack in IH.
  destruct (decide (ack_transaction_id e = id)) as [He|He].
  - rw He in IH. destruct (s_pending (st_sender st) !! id) as [t|] eqn:Ht; [|by cbn in IH; rw Ht in IH].
    rw (acked_in_full_entry id t e es now He). destruct (is_fully_acked (ack_txn e now t)) eqn:Hf; cbn in IH.
    + rw lookup_delete_eq in IH. rw IH. naive_solver.
    + rw lookup_insert_eq in IH. rw IH. naive_solver.
  - destruct (s_pending (st_sender st) !! ack_transaction_id e) as [t'|] eqn:Ht'.
    + destruct (is_fully_acked _); cbn in IH; [rw lookup_delete_ne in IH; [done|]|rw lookup_insert_ne in IH; [done|]];
        destruct (s_pending (st_sender st) !! id); rw ?acked_in_full_other; done.
    + cbn in IH. destruct (s_pending (st_sender st) !! id); rw ?acked_in_full_other; done.
Qed.

Lemma fire_fold_sender b ids st out :
  st_sender (foldl (fire_completion b) (st, out) ids).1 = st_sender st.
Proof.
  revert st out. induction ids as [|id ids IH]; intros st out; [done|]. cbn [foldl].
  assert (Hs : st_sender (fire_completion b (st, out) id).1 = st_sender st)
    by (unfold fire_completion; by case_match).
  destruct (fire_completion b (st, out) id) as [st1 out1]. cbn in Hs. by rw IH.
Qed.

Lemma response_sender st f w now p :
  ResumeResponsePayload_decode (payload f) = Ok p →
  st_sender (on_resume_response_frame st f w now).1.1 =
  (apply_resume_verdicts (st_sender st) (response_entries p) now).1.
Proof using Type.
  intros Hd. unfold on_resume_response_frame. rw Hd. destruct (apply_resume_verdicts _ _ _) as [tx v].
  destruct (write_data_frames w (v_retransmit v)) as [w' []]; [|done]. cbn [negb].
  pose proof (fire_fold_sender true (v_confirmed v) (set_sender tx st) []) as H1.
  destruct (foldl (fire_completion true) _ _) as [st1 out1]. cbn in H1.
  pose proof (fire_fold_sender false (v_failed v) st1 out1) as H2.
  destruct (foldl (fire_completion false) _ _) as [st2 out2]. cbn in *. by rw H2 H1.
Qed.

(** What an inbound frame does to a held transaction. *)
Lemma inbound_settles s f w now id :
  let s' := (handle_inbound s f w now).1.1 in
  match s_pending (st_sender (ts_state s)) !! id with
  | Some t => s_pending (st_sender (ts_state s')) !! id = None ↔ is_Some (settlement f id t)
  | None => s_pending (st_sender (ts_state s')) !! id = None
  end.
Proof using Type.
  cbn zeta. rw handle_inbound_state. cbn zeta. set (st := touch_peer now (ts_state s)).
  change (st_sender (ts_state s)) with (st_sender st). clearbody st.
  pose proof (same_tx_handlers st f w now) as (Hp & Ha & Hc & He & Hr). unfold settlement.
  assert (Hsame : ∀ st', same_tx st st' → match s_pending (st_sender st) !! id with
    | Some _ => s_pending (st_sender st') !! id = None ↔ is_Some (@None bool)
    | None => s_pending (st_sender st') !! id = None end).
  { intros st' [-> _]. destruct (s_pending (st_sender st) !! id); [|done].
    split; [done|by intros []]. }
  assert (Hflag : ∀ st', sent_flag (st_sender st') id = sent_flag (st_sender st) id →
    match s_pending (st_sender st) !! id with
    | Some _ => s_pending (st_sender st') !! id = None ↔ is_Some (@None bool)
    | None => s_pending (st_sender st') !! id = None end).
  { intros st'. unfold sent_flag. destruct (s_pending (st_sender st) !! id), (s_pending (st_sender st') !! id); done. }
  destruct (frame_type f); try by apply Hsame.
  - unfold on_ack_frame. destruct (AckPayload_decode _) as [p|]; [|by apply Hsame].
    pose proof (ack_fold_settles now (ack_entries p) id st []) as H. cbn zeta in H.
    destruct (foldl _ _ _) as [st' out]. cbn [fst] in *. destruct (s_pending (st_sender st) !! id); [|done].
    rw H. case_match; split; intros; done || by eexists || by destruct H1.
  - unfold on_nack_frame. destruct (NackPayload_decode _) as [p|]; [|by apply Hsame].
    apply Hflag, nack_loop_completion.
  - destruct (ResumeResponsePayload_decode (payload f)) as [p|] eqn:Hd;
      [|unfold on_resume_response_frame; rw Hd; by apply Hsame].
    rw (response_sender st f w now p Hd). clear Hd.
    destruct (apply_resume_verdicts _ _ _) as [tx v] eqn:Hv. cbn [fst].
    destruct (verdicts_fold now (response_entries p) (st_sender st) (mkResumeVerdicts [] [] []) tx v Hv)
      as [_ Hspec]; [by intros ? ?%elem_of_nil|constructor|]. destruct (Hspec id) as (_ & _ & Hcl & Hop).
    case_decide as Hd; [specialize (Hcl Hd)|specialize (Hop Hd)]; unfold sent_flag in *.
    + apply fmap_None in Hcl. rw Hcl. destruct (s_pending (st_sender st) !! id); [|done]. split; [by eexists|done].
    + destruct (s_pending (st_sender st) !! id), (s_pending tx !! id); try done; split; done || by intros [].
  - apply Hsame, same_tx_data.
Qed.

Lemma settlement_sent f id t b : settlement f id t = Some b → b = is_fully_sent t.
Proof using Type.
  unfold settlement. destruct (frame_type f); try done; case_match; try done.
  - destruct (acked_in_full id t _) eqn:Ha; [|done]. intros [= <-].
    by apply acked_in_full_spec in Ha as (_ & Hs & _).
  - case_decide; [|done]. by intros [= <-].
Qed.

Lemma fires_settled c out c' id cb b :
  fires c out c' → c !! id = Some cb → CompletionFired cb (mkBinarySendResult id b) ∈ out →
  completions_of id out = [CompletionFired cb (mkBinarySendResult id b)] ∧ c' !! id = None.
Proof using Type.
  intros Hf Hc Hin.
  assert (Hmine : CompletionFired cb (mkBinarySendResult id b) ∈ completions_of id out).
  { apply list_elem_of_filter. split; [|done]. by apply bool_decide_eq_true. }
  destruct (fires_of c out c' id Hf) as [[H _]|(cb' & b' & _ & H' & H)]; rw H in Hmine.
  - by apply elem_of_nil in Hmine.
  - apply list_elem_of_singleton in Hmine. by rw Hmine.
Qed.

(** C13: a transaction's callback fires exactly when the transaction is settled, once, and
    with the settled result.  An ACK frame whose entries for the transaction, with what was
    acknowledged before, reach its last frame and count all its frames settles it as
    confirmed; a RESUME response that gives it any verdict but [resumed] settles it as
    confirmed if everything was sent and as unconfirmed otherwise (the comment on
    [BinarySendResult] promises unconfirmed for both).  The copy and the callback are then
    gone and that completion is the only one of the transaction among the events.  Any
    other frame, an ACK that is one frame short included, fires nothing for it and keeps
    both.  (The transport takes the retransmissions of a response; [Divergences] has the
    write failure that loses callbacks.) *)
Theorem inbound_completions s f w now id cb :
  (∀ w f, is_ok (write_data_frame w f).2 = true) →
  st_completions (ts_state s) !! id = Some cb →
  let '(s', _, out) := handle_inbound s f w now in
  match s_pending (st_sender (ts_state s)) !! id ≫= settlement f id with
  | Some b =>
      completions_of id out = [CompletionFired cb (mkBinarySendResult id b)] ∧
      st_completions (ts_state s') !! id = None ∧ s_pending (st_sender (ts_state s')) !! id = None
  | None =>
      completions_of id out = [] ∧ st_completions (ts_state s') !! id = Some cb ∧
      (is_Some (s_pending (st_sender (ts_state s')) !! id) ↔
       is_Some (s_pending (st_sender (ts_state s)) !! id))
  end.
Proof using Type.
  intros Hok Hcb. pose proof (handle_inbound_completion s f w now) as Hstep.
  pose proof (inbound_settles s f w now id) as Hset. cbn zeta in Hset.
  destruct (handle_inbound s f w now) as [[s' w'] out]. cbn [fst] in Hset.
  destruct Hstep as [Hf Htrue _ Hfull]. specialize (Hfull Hok id).
  rw -(completions_of_events id out). unfold sent_flag in *.
  destruct (fires_of _ _ _ id Hf) as [[Hnone Hsame]|(cb' & b & Hcb' & Hgone & Hone)].
  - rw Hnone Hsame. destruct (s_pending (st_sender (ts_state s)) !! id) as [t|] eqn:Ht; cbn [mbind option_bind].
    + destruct (settlement f id t) as [b|] eqn:Hse.
      * exfalso. assert (Hn : s_pending (st_sender (ts_state s')) !! id = None) by (apply Hset; by eexists).
        specialize (Hfull (is_fully_sent t) cb). rw Hn in Hfull.
        destruct (fires_settled _ _ _ id cb _ Hf Hcb (Hfull eq_refl eq_refl Hcb)) as [Hx _]. congruence.
      * split_and!; [done..|]. rw -!not_eq_None_Some Hset. rw -not_eq_None_Some. naive_solver.
    + split_and!; [done..|]. by rw Hset.
  - assert (Hin : CompletionFired cb' (mkBinarySendResult id b) ∈ completion_events out).
    { assert (H : CompletionFired cb' (mkBinarySendResult id b) ∈ completions_of id (completion_events out))
        by (rw Hone; by left). by apply list_elem_of_filter in H as [_ H]. }
    destruct (Htrue _ _ _ Hin) as [Hb Hn%fmap_None].
    destruct (s_pending (st_sender (ts_state s)) !! id) as [t|] eqn:Ht; [|done]. cbn [mbind option_bind].
    destruct (proj1 Hset Hn) as [b' Hse]. rw Hse (settlement_sent f id t b' Hse) Hone. split_and!; [|done..].
    injection Hb as ->. congruence.
Qed.
End properties.
