(* ===== verification/Delivery.v ===== *)
(** * What the receiving session delivers

    Session-level consequences of the inbound handlers of [Transfer]: an honest
    transaction reaches the aggregate handler or its stream exactly once and
    whole; recovery verdicts answer a declaration entry by entry and cancel what
    the holder no longer holds. *)
From S2P Require Import Prelude Crc Frame Control Sender Reassemble Errors Stream Transfer.

(** ** Cancelling abandoned transactions *)

Definition cancel_stream (s : StreamInner) : StreamInner := drop_tx (stream_finish Cancelled s).

Lemma cancel_abandoned_effect st id :
  let st' := cancel_abandoned st id in
  slots (st_reassembler st') = delete id (slots (st_reassembler st)) ∧
  st_streams st' = delete id (st_streams st) ∧
  st_heap st' = match st_streams st !! id with
                | Some l => heap_update cancel_stream l (st_heap st)
                | None => st_heap st
                end.
Proof.
  intros st'. destruct (stream_closed_discard (stream_finish Cancelled) id st)
    as (H1 & _ & H3).
  split; [|split; [exact H1|exact H3]].
  unfold st', cancel_abandoned, remove_stream. cbn. by case_match.
Qed.

Lemma cancel_fold_effect ids st :
  let st' := foldl cancel_abandoned st ids in
  (∀ id, slots (st_reassembler st') !! id =
     if decide (id ∈ ids) then None else slots (st_reassembler st) !! id) ∧
  (∀ id, st_streams st' !! id = if decide (id ∈ ids) then None else st_streams st !! id).
Proof.
  revert st. induction ids as [|i ids IH]; intros st; cbn zeta; cbn [foldl].
  { split; intros id; (case_decide as H; [by apply elem_of_nil in H|done]). }
  destruct (IH (cancel_abandoned st i)) as [H1 H2].
  destruct (cancel_abandoned_effect st i) as (E1 & E2 & _).
  split; intros id; [by rw H1 E1 delete_listed|by rw H2 E2 delete_listed].
Qed.

Lemma cancel_fold_untouched ids st l :
  (∀ id, st_streams st !! id ≠ Some l) →
  st_heap (foldl cancel_abandoned st ids) !! l = st_heap st !! l.
Proof.
  revert st. induction ids as [|i ids IH]; intros st Hl; cbn [foldl]; [done|].
  destruct (cancel_abandoned_effect st i) as (_ & E2 & E3). rw IH.
  - intros id. rw E2. intros [_ H]%lookup_delete_Some. by apply (Hl id).
  - rw E3. destruct (st_streams st !! i) as [l'|] eqn:Hi; [|done].
    unfold heap_update. rw list_lookup_alter_ne //. intros ->. by apply (Hl i).
Qed.

Lemma streams_inv_inj st id id' l :
  streams_inv st → st_streams st !! id = Some l → st_streams st !! id' = Some l → id = id'.
Proof.
  intros [_ He _ _] H1 H2. destruct (He _ _ H1) as (s & Hs & <- & _).
  destruct (He _ _ H2) as (s' & Hs' & <- & _). congruence.
Qed.

Lemma cancel_fold_heap ids st id l :
  streams_inv st → st_streams st !! id = Some l →
  st_heap (foldl cancel_abandoned st ids) !! l =
  if decide (id ∈ ids) then cancel_stream <$> st_heap st !! l else st_heap st !! l.
Proof.
  revert st. induction ids as [|i ids IH]; intros st Hi Hl; cbn [foldl].
  { case_decide as H; [by apply elem_of_nil in H|done]. }
  destruct (cancel_abandoned_effect st i) as (_ & E2 & E3).
  destruct (decide (id = i)) as [<-|Hne].
  - destruct (decide (id ∈ id :: ids)) as [_|Hin]; [|destruct Hin; by left]. rw Hl in E3.
    rw cancel_fold_untouched.
    + intros id'. rw E2. intros [Hne H]%lookup_delete_Some.
      by destruct Hne; eapply streams_inv_inj.
    + rw E3. unfold heap_update. apply list_lookup_alter_eq.
  - rw IH; [by apply cancel_abandoned_inv|by rw E2 lookup_delete_ne|].
    assert (Hh : st_heap (cancel_abandoned st i) !! l = st_heap st !! l).
    { rw E3. destruct (st_streams st !! i) as [l'|] eqn:Hl'; [|done].
      unfold heap_update. rw list_lookup_alter_ne //. intros ->.
      by destruct Hne; eapply streams_inv_inj. }
    clear IH. rw Hh. case_decide as H1; case_decide as H2; rw ?elem_of_cons in H2; tauto.
Qed.

(** ** Adjudicating a declaration *)

(** The slot of a transaction that can still continue. *)
Definition open_incomplete (r : TransactionReassembler) (id : txid) : Prop :=
  ∃ s, slots r !! id = Some s ∧ slot_is_complete s = false.

Lemma resume_status_resumed r id : resume_status r id = Resumed ↔ open_incomplete r id.
Proof.
  unfold resume_status, open_incomplete, rx_contains_transaction, rx_is_complete.
  destruct (slots r !! id) as [s|]; cbn; [|split; [done|by intros (? & ? & ?)]].
  destruct (slot_is_complete s) eqn:Hs; cbn; split; try done; eauto.
  intros (s' & [= <-] & ?). congruence.
Qed.

Lemma elem_of_abandoned r declared id :
  id ∈ abandoned r declared ↔
  open_incomplete r id ∧ id ∉ ack_transaction_id <$> declared.
Proof.
  unfold abandoned, open_incomplete, rx_open_transactions, rx_is_complete.
  rw list_elem_of_filter. split.
  - intros [[Hc Hd] Hin]. apply list_elem_of_fmap in Hin as ([id' s] & -> & Hs).
    apply elem_of_map_to_list in Hs. cbn in *.
    rw Hs in Hc. split; [|done]. exists s. split; [done|]. by apply negb_true_iff.
  - intros [(s & Hs & Hc) Hd]. rw Hs Hc. split; [done|].
    apply list_elem_of_fmap. exists (id, s). split; [done|]. by apply elem_of_map_to_list.
Qed.

Section resume.
Context `{CRC : Crc32} `{UUID : UuidLib} {W : Type} `{WIRE : TransferWiring W}.
Implicit Types (w : W).

Lemma resume_request_unfold st f w now req :
  ResumeRequestPayload_decode (payload f) = Ok req → resume_entries req ≠ [] →
  on_resume_request_frame st f w now =
  (foldl cancel_abandoned st (abandoned (st_reassembler st) (resume_entries req)),
   send_control w (mkResumeResponsePayload
     ((λ e, mkResumeStatusEntry (ack_transaction_id e)
              (resume_status (st_reassembler st) (ack_transaction_id e)))
        <$> resume_entries req))).
Proof using Type.
  intros Hd Hne. unfold on_resume_request_frame. rw Hd. by destruct (resume_entries req).
Qed.

(** a RESUME declaration is answered by one response with exactly one
    verdict per declared entry, in order: Resumed when the transaction has an
    open incomplete slot, Unknown otherwise.  Open incomplete transactions that
    are not declared are dropped and their streams end cancelled, with the
    chunks already received still readable; every other slot and stream is
    left as it was. *)
Theorem resume_request_adjudicates st f w now req :
  ResumeRequestPayload_decode (payload f) = Ok req → resume_entries req ≠ [] →
  streams_inv st →
  let declared := ack_transaction_id <$> resume_entries req in
  let '(st', w') := on_resume_request_frame st f w now in
  (∃ vs, w' = send_control w (mkResumeResponsePayload vs) ∧
     rse_transaction_id <$> vs = declared ∧
     Forall (λ v, rse_status v = Resumed ∧ open_incomplete (st_reassembler st) (rse_transaction_id v) ∨
                  rse_status v = StatusUnknown ∧
                  ¬ open_incomplete (st_reassembler st) (rse_transaction_id v)) vs) ∧
  (∀ id, open_incomplete (st_reassembler st) id → id ∉ declared →
     slots (st_reassembler st') !! id = None) ∧
  (∀ id, ¬ open_incomplete (st_reassembler st) id ∨ id ∈ declared →
     slots (st_reassembler st') !! id = slots (st_reassembler st) !! id) ∧
  (∀ id l s, st_streams st !! id = Some l → st_heap st !! l = Some s →
     if decide (id ∈ declared)
     then st_streams st' !! id = Some l ∧ st_heap st' !! l = Some s
     else st_streams st' !! id = None ∧
          ∃ s', st_heap st' !! l = Some s' ∧ BinaryStream_state s' = Cancelled ∧
                chunk_rx s' = chunk_rx s ∧ tx_alive s' = false).
Proof using Type.
  intros Hdec Hne Hi declared. rw (resume_request_unfold st f w now req) //.
  set (ids := abandoned (st_reassembler st) (resume_entries req)).
  assert (Hids : ∀ id, id ∈ ids ↔ open_incomplete (st_reassembler st) id ∧ id ∉ declared)
    by (intros id; apply elem_of_abandoned).
  destruct (cancel_fold_effect ids st) as [Hslots Hstreams].
  split_and!.
  - eexists. split; [done|]. split.
    + unfold declared. rw -list_fmap_compose. by apply list_fmap_ext.
    + apply Forall_fmap, Forall_forall. intros e _. cbn.
      pose proof (resume_status_resumed (st_reassembler st) (ack_transaction_id e)) as Hr.
      destruct (resume_status _ _) eqn:Hs; [left; tauto| |right].
      * unfold resume_status in Hs. by case_match.
      * split; [done|]. intros H. by apply Hr in H.
  - intros id H1 H2. rw Hslots. destruct (decide _) as [|Hn]; [done|].
    destruct Hn. by apply Hids.
  - intros id H. rw Hslots. destruct (decide _) as [Hin|]; [|done].
    apply Hids in Hin. tauto.
  - intros id l s Hl Hs. pose proof (cancel_fold_heap ids st id l Hi Hl) as Hh.
    specialize (Hstreams id). rw Hs in Hh.
    destruct (decide (id ∈ declared)) as [Hd|Hd].
    + destruct (decide (id ∈ ids)) as [Hin|_]; [apply Hids in Hin; tauto|].
      by rw Hstreams Hh.
    + destruct (decide (id ∈ ids)) as [_|Hin].
      * split; [done|]. eexists. by split.
      * destruct Hin. apply Hids. split; [|done]. destruct Hi as [_ He _ _].
        destruct (He _ _ Hl) as (s1 & _ & _ & _ & _ & Hc & Hinc).
        apply resume_status_resumed. unfold resume_status. by rw Hc Hinc.
Qed.
End resume.

(** ** An expiry report *)

Section expiry.
Context `{CRC : Crc32} `{UUID : UuidLib} `{LAWS : !UuidLaws UUID}.

(** The id at the head of an expiry message is found, whatever text follows. *)
Lemma parse_prefix_format (m : rstring) id rest :
  rs_bytes m = format_transaction_id id ++ rest →
  parse_hex_txid_prefix (rs_bytes m) = Some id.
Proof using LAWS.
  intros Hm. pose proof (rs_ok m) as Hok. rw Hm in Hok |- *. unfold parse_hex_txid_prefix.
  pose proof (length_format id) as Hl. rw length_app Hl.
  assert (Hc : Nat.ltb 32 (32 + length rest) &&
    utf8_cont (byte_at (format_transaction_id id ++ rest) 32) = false).
  { destruct rest as [|b r]; [done|]. apply andb_false_iff. right. unfold byte_at.
    rw list_lookup_middle //. cbn. eapply utf8_ascii_prefix; [exact Hok|].
    apply lower_hex_ascii, format_lower_hex. }
  rw Hc. cmp. rw take_app_length'; [done|]. rw format_lower_hex. apply Uuid_parse_simple.
Qed.

(** an ERROR frame with the code TRANSACTION_EXPIRED and a message that
    starts with the text form of an id ends that transaction at the receiver:
    its slot is dropped, its stream leaves the table reading as cancelled with
    its chunks still readable; every other slot and stream is untouched. *)
Theorem expired_error_cancels st f p id rest :
  ErrorPayload_decode (payload f) = Ok p → code p = TRANSACTION_EXPIRED →
  rs_bytes (message p) = format_transaction_id id ++ rest → streams_inv st →
  let st' := on_error_frame st f in
  slots (st_reassembler st') = delete id (slots (st_reassembler st)) ∧
  st_streams st' = delete id (st_streams st) ∧
  ∀ id' l s, st_streams st !! id' = Some l → st_heap st !! l = Some s →
    if decide (id' = id)
    then ∃ s', st_heap st' !! l = Some s' ∧ BinaryStream_state s' = Cancelled ∧
           chunk_rx s' = chunk_rx s ∧ tx_alive s' = false
    else st_heap st' !! l = Some s.
Proof using LAWS.
  intros Hd Hc Hm Hi. unfold on_error_frame. rw Hd Hc N.eqb_refl.
  rw (parse_prefix_format _ id rest Hm). fold (cancel_abandoned st id).
  destruct (cancel_abandoned_effect st id) as (E1 & E2 & _).
  split; [exact E1|]. split; [exact E2|]. intros id' l s Hl Hs.
  pose proof (cancel_fold_heap [id] st id' l Hi Hl) as Hh. cbn [foldl] in Hh. rw Hs in Hh.
  cbn zeta. rw Hh. destruct (decide (id' = id)) as [->|Hne].
  - case_decide as Hin; [by eexists|]. destruct Hin. by left.
  - case_decide as Hin; [|done]. by apply list_elem_of_singleton in Hin.
Qed.
End expiry.

(** ** An honest transaction at the session *)

Definition to_chunk (c : N * list byte) : StreamChunk := mkStreamChunk c.1 c.2.

Lemma push_chunks_rx chunks s :
  chunk_rx (push_chunks chunks s) = chunk_rx s ++ (to_chunk <$> chunks).
Proof.
  unfold push_chunks. revert s. induction chunks as [|c chunks IH]; intros s; cbn.
  - by rw app_nil_r.
  - rw IH. cbn. by rw -app_assoc.
Qed.

Lemma clear_paused_rx s : chunk_rx (clear_paused s) = chunk_rx s.
Proof. unfold clear_paused, compare_exchange. by case_match. Qed.

(** Which surface a transaction is on: its stream's location, or the aggregate. *)
Abbreviation surface := (option loc) (only parsing).

Section honest.
Context `{CRC : Crc32} `{UUID : UuidLib} {W : Type} `{WIRE : TransferWiring W}.
Context (id : txid) (total : N) (ps : list (list byte)).
Context (Hne : Forall (λ p, 1 ≤ length p) ps).
Context (Htotal : total = len (concat ps)) (Hu32 : (total ≤ U32_MAX)%N).
Implicit Types (w : W) (st : SessionState).

(** The stream side of the transaction, with the first [n] pieces emitted. *)
Definition surface_at (o : surface) (n : N) (st : SessionState) : Prop :=
  match o with
  | None => st_streams st !! id = None ∧ id ∉ st_stream_owned st
  | Some l =>
      st_streams st !! id = Some l ∧ id ∈ st_stream_owned st ∧
      ∃ s, st_heap st !! l = Some s ∧
        chunk_rx s = to_chunk <$> stream_chunks ps 0 n
  end.

(** The session holds the slot of the transaction, with the frames [seen]. *)
Definition receiving (o : surface) (seen : list N) (st : SessionState) : Prop :=
  ∃ sl, slots (st_reassembler st) !! id = Some sl ∧ honest_slot total ps sl ∧
    slot_is_complete sl = false ∧
    (∀ k, is_Some (slot_frames sl !! k) ↔ k ∈ seen) ∧
    surface_at o (pend (slot_contiguous_prefix sl)) st.

(** The transaction has been handed over, whole, on its surface. *)
Definition settled (o : surface) (w : W) (st' : SessionState) (w' : W)
    (d : list (txid * list byte)) : Prop :=
  slots (st_reassembler st') !! id = None ∧
  w' = send_ack_entries w [mkAckEntry id (len ps - 1) (len ps)] ∧
  match o with
  | None => d = [(id, concat ps)]
  | Some l =>
      d = [] ∧ st_streams st' !! id = None ∧
      ∃ s, st_heap st' !! l = Some s ∧ BinaryStream_state s = Complete ∧
        tx_alive s = false ∧ chunk_bytes <$> chunk_rx s = ps
  end.

Lemma feed_open_surface st n (sp : bool) :
  st_streams st !! id = None → id ∉ st_stream_owned st →
  let '(st', o) := feed_stream sp id total (if sp then stream_chunks ps 0 n else []) st in
  surface_at o n st' ∧ st_reassembler st' = st_reassembler st ∧
  o = if sp then Some (length (st_heap st)) else None.
Proof using Type.
  intros Hn Ho. unfold feed_stream. destruct sp.
  - rw install_stream_fresh //. cbn. split; [|done].
    split; [by rw lookup_insert_eq|]. split; [by apply elem_of_union_r, elem_of_singleton|].
    exists (new_stream id total (stream_chunks ps 0 n)).
    rw list_lookup_middle //. split; [done|]. apply push_chunks_rx.
  - unfold with_stream. rw Hn. done.
Qed.

Lemma feed_next_surface o st n n' (sp : bool) :
  (n ≤ n')%N → (o ≠ None → sp = true) → surface_at o n st →
  let '(st', o') := feed_stream false id total
                      (if sp then stream_chunks ps n n' else []) st in
  surface_at o n' st' ∧ st_reassembler st' = st_reassembler st ∧ o' = None.
Proof using Type.
  intros Hn Hsp Ho. unfold feed_stream, with_stream. destruct o as [l|].
  - destruct Ho as (Hl & Hin & s & Hs & Hrx). rw Hsp // Hl. split; [|done].
    split; [done|]. split; [done|]. eexists. unfold heap_update. cbn.
    rw list_lookup_alter_eq Hs. split; [done|].
    by rw push_chunks_rx clear_paused_rx Hrx -fmap_app stream_chunks_app; [split; [apply N.le_0_l|]|].
  - destruct Ho as [Hl Hin]. by rw Hl.
Qed.

Lemma complete_ack sl r :
  slots r !! id = Some sl → honest_slot total ps sl → slot_is_complete sl = true →
  rx_ack_entry r id = Some (mkAckEntry id (len ps - 1) (len ps)).
Proof using Hne Htotal Hu32.
  intros Hs Hh Hc. pose proof (honest_complete_prefix total ps Hne Htotal Hu32 sl Hh Hc) as Hp.
  unfold rx_ack_entry. rw Hs. cbn. pose proof Hh as [Hwf _ _].
  rw (sw_count _ Hwf). apply (honest_complete total ps Hne Htotal Hu32 sl Hh) in Hc as Hf.
  unfold slot_is_complete in Hc. apply andb_true_iff in Hc as [[h Hh']%bool_decide_eq_true _].
  rw Hh' in Hp. rw Hh' Hf size_piece_map. cbn in *. unfold len in *. do 2 f_equal. lia.
Qed.

Lemma settle_settles o st w sl hp :
  slots (st_reassembler st) !! id = Some sl → honest_slot total ps sl →
  slot_is_complete sl = true → surface_at o (pend (slot_contiguous_prefix sl)) st →
  (o = None → hp = true) →
  let '(st', w', d) := settle_complete id st w hp in settled o w st' w' d.
Proof using Hne Htotal Hu32.
  intros Hs Hh Hc Ho Hhp. unfold settle_complete. rw (complete_ack sl) //.
  rw (honest_complete_prefix total ps Hne Htotal Hu32 sl Hh Hc) in Ho.
  apply (honest_complete total ps Hne Htotal Hu32 sl Hh) in Hc as Hf.
  assert (Htk : ∀ r, slots r !! id = Some sl → rx_take_completed r id =
    (mkTransactionReassembler (delete id (slots r)), Some (concat ps))).
  { intros r Hr. unfold rx_take_completed. by rw Hr Hc Hf btree_values_piece_map. }
  unfold settled. destruct o as [l|].
  - destruct Ho as (Hl & Hin & s & Hsl & Hrx). case_decide as Hd; [|done].
    unfold remove_stream. cbn. rw Hl. cbn. rw Htk //. cbn. rw !lookup_delete_eq.
    split_and!; [done..|]. eexists. unfold heap_update. rw list_lookup_alter_eq Hsl.
    cbn. split_and!; [done..|]. rw Hrx -list_fmap_compose.
    etrans; [|apply (stream_chunks_full ps)]. by apply list_fmap_ext.
  - destruct Ho as [Hl Hin]. case_decide as Hd; [done|]. rw Hhp //. cbn. rw Htk //. cbn.
    by rw lookup_delete_eq.
Qed.

Definition all_seen (seen : list N) : Prop := ∀ k, (k < len ps)%N → k ∈ seen.

(** The two outcomes of a frame: the last missing one settles the
    transaction, any other leaves it in reception and says nothing. *)
Definition frame_outcome (o : surface) (seen : list N) (w : W) (st' : SessionState)
    (w' : W) (d : list (txid * list byte)) : Prop :=
  (all_seen seen ∧ settled o w st' w' d) ∨
  (¬ all_seen seen ∧ receiving o seen st' ∧ w' = w ∧ d = []).

Lemma after_feed o seen st w hp sl :
  slots (st_reassembler st) !! id = Some sl → honest_slot total ps sl →
  (∀ k, is_Some (slot_frames sl !! k) ↔ k ∈ seen) →
  surface_at o (pend (slot_contiguous_prefix sl)) st → (o = None → hp = true) →
  let '(st', w', d) :=
    if slot_is_complete sl then settle_complete id st w hp else (st, w, []) in
  frame_outcome o seen w st' w' d.
Proof using Hne Htotal Hu32.
  intros Hs Hh Hk Ho Hhp.
  assert (Hall : slot_is_complete sl = true ↔ all_seen seen).
  { rw (honest_complete_keys total ps Hne Htotal Hu32 sl Hh). by setoid_rewrite Hk. }
  destruct (slot_is_complete sl) eqn:Hc.
  - pose proof (settle_settles o st w sl hp Hs Hh Hc Ho Hhp) as Hset.
    destruct (settle_complete id st w hp) as [[st' w'] d]. left. by split; [apply Hall|].
  - right. split; [by intros H%Hall|]. split; [|done]. by exists sl.
Qed.

(** The first frame opens the slot and, with a stream handler, the stream. *)
Lemma first_frame_step st w hp sp now p0 :
  slots (st_reassembler st) !! id = None → st_streams st !! id = None →
  id ∉ st_stream_owned st → ps !! 0 = Some p0 → (sp = false → hp = true) →
  let '(st', w', d, o) := on_data_frame st (piece_frame id total 0 p0) w hp sp now in
  o = (if sp then Some (length (st_heap st)) else None) ∧
  frame_outcome o [0%N] w st' w' d.
Proof using Hne Htotal Hu32.
  intros Hn Hl Ho Hp Hhp.
  destruct (honest_open total ps (st_reassembler st) id p0 now sp Hne Htotal Hu32 Hn Hp)
    as (sl & oc & Hr & Hh & Hfr & ->).
  unfold on_data_frame, piece_frame. cbn [transaction_id seq total_len payload N.of_nat].
  rw Hr. unfold rx_contains_transaction. rw Hn.
  assert (Hb : sp && (0 =? 0)%N && negb (bool_decide (is_Some (@None Slot))) = sp)
    by by destruct sp.
  rw Hb. clear Hb. set (st1 := set_pending_acks _ _ _).
  pose proof (feed_open_surface st1 (pend (slot_contiguous_prefix sl)) sp Hl Ho) as Hf.
  destruct (feed_stream sp id total _ st1) as [st2 o]. destruct Hf as (Hsf & Hr2 & ->).
  set (o := if sp then Some _ else None) in *.
  assert (Hk : ∀ k, is_Some (slot_frames sl !! k) ↔ k ∈ [0%N]).
  { intros k. rw Hfr lookup_singleton_is_Some list_elem_of_singleton. naive_solver. }
  assert (Hs2 : slots (st_reassembler st2) !! id = Some sl)
    by (rw Hr2; apply lookup_insert_eq).
  assert (Hhp' : o = None → hp = true) by (unfold o; by destruct sp; auto).
  pose proof (after_feed o [0%N] st2 w hp sl Hs2 Hh Hk Hsf Hhp') as Haf.
  destruct (slot_is_complete sl); [|by split].
  by destruct (settle_complete id st2 w hp) as [[st' w'] d].
Qed.

(** One more frame of the transaction. *)
Lemma next_frame_step o seen st w hp sp now i p :
  receiving o seen st → ps !! i = Some p → (o = None → hp = true) →
  (o ≠ None → sp = true) →
  let '(st', w', d, opened) := on_data_frame st (piece_frame id total i p) w hp sp now in
  opened = None ∧ frame_outcome o (N.of_nat i :: seen) w st' w' d.
Proof using Hne Htotal Hu32.
  intros (sl & Hs & Hh & Hinc & Hk & Hsf) Hp Hhp Hsp.
  destruct (honest_receive total ps Hne Htotal Hu32 (st_reassembler st) id sl
    (N.of_nat i) p now sp Hs Hh) as (sl' & oc & Hr & Hh' & Hfr & Hge & Hoc);
    [by rw Nat2N.id|].
  assert (Hk' : ∀ k, is_Some (slot_frames sl' !! k) ↔ k ∈ N.of_nat i :: seen).
  { intros k. rw Hfr lookup_insert_is_Some' Hk elem_of_cons. naive_solver. }
  unfold on_data_frame, piece_frame. cbn [transaction_id seq total_len payload].
  rw Hr. unfold rx_contains_transaction. rw Hs.
  assert (Hb : sp && (N.of_nat i =? 0)%N && negb (bool_decide (is_Some (Some sl))) = false)
    by by rw andb_false_r.
  rw Hb. clear Hb. destruct oc as [c e| |]; [|subst sl'|done].
  - destruct Hoc as (-> & _ & ->). set (st1 := set_pending_acks _ _ _).
    pose proof (feed_next_surface o st1 _ _ sp Hge Hsp Hsf) as Hf.
    destruct (feed_stream false id total _ st1) as [st2 o']. destruct Hf as (Hsf' & Hr2 & ->).
    assert (Hs2 : slots (st_reassembler st2) !! id = Some sl')
      by (rw Hr2; apply lookup_insert_eq).
    pose proof (after_feed o _ st2 w hp sl' Hs2 Hh' Hk' Hsf' Hhp) as Haf.
    destruct (slot_is_complete sl'); [|by split].
    by destruct (settle_complete id st2 w hp) as [[st' w'] d].
  - split; [done|]. right. split.
    + intros H. assert (slot_is_complete sl = true); [|congruence].
      apply (honest_complete_keys total ps Hne Htotal Hu32 sl Hh).
      intros k Hk2. by apply Hk', H.
    + split; [|done]. exists sl. split_and!; [apply lookup_insert_eq|done..].
Qed.
End honest.

(** ** Isolation of transactions *)

(** What a handler may not change of a transaction it does not address: its
    slot, its table entry, the chunks of its stream. *)
Definition same_reception (id : txid) (st st' : SessionState) : Prop :=
  slots (st_reassembler st') !! id = slots (st_reassembler st) !! id ∧
  st_streams st' !! id = st_streams st !! id ∧
  (id ∈ st_stream_owned st' ↔ id ∈ st_stream_owned st) ∧
  ∀ l, st_streams st !! id = Some l →
    chunk_rx <$> st_heap st' !! l = chunk_rx <$> st_heap st !! l.

(** The stream object of a transaction is its own. *)
Definition own_stream (id : txid) (st : SessionState) : Prop :=
  ∀ l, st_streams st !! id = Some l →
    is_Some (st_heap st !! l) ∧ ∀ id', st_streams st !! id' = Some l → id' = id.

Definition isolated (id : txid) (st st' : SessionState) : Prop :=
  own_stream id st → own_stream id st' ∧ same_reception id st st'.

#[export] Instance isolated_preorder id : PreOrder (isolated id).
Proof.
  split; [by intros st|]. intros a b c Hab Hbc Ha.
  destruct (Hab Ha) as [Hb (A1 & A2 & A3 & A4)].
  destruct (Hbc Hb) as [Hc (B1 & B2 & B3 & B4)]. split; [done|].
  split_and!; [congruence|congruence|tauto|]. intros l Hl. rw B4; [congruence|by apply A4].
Qed.

(** Updates that leave the receiving side of [id] literally alone. *)
Lemma isolated_rx id st st' :
  slots (st_reassembler st') !! id = slots (st_reassembler st) !! id →
  st_streams st' = st_streams st → st_stream_owned st' = st_stream_owned st →
  st_heap st' = st_heap st → isolated id st st'.
Proof.
  intros H1 H2 H3 H4 Ho. unfold own_stream, same_reception. rw H2 H3 H4. by split.
Qed.

Lemma isolated_with_stream id f id' st :
  id' ≠ id ∨ (∀ s, chunk_rx (f s) = chunk_rx s) → isolated id st (with_stream f id' st).
Proof.
  intros Hf Ho. unfold with_stream. destruct (st_streams st !! id') as [l'|] eqn:Hl'; [|done].
  unfold own_stream, same_reception. cbn. split.
  - intros l Hl. destruct (Ho l Hl) as [Hs Hu]. split; [|done].
    unfold heap_update. by apply lookup_lt_is_Some; rw length_alter; apply lookup_lt_is_Some.
  - split_and!; [done..|]. intros l Hl. unfold heap_update.
    destruct (decide (l = l')) as [<-|]; [|by rw list_lookup_alter_ne].
    destruct (Ho l Hl) as [_ Hu]. rw (Hu id' Hl') in Hf. destruct Hf as [|Hf]; [done|].
    rw list_lookup_alter_eq. destruct (st_heap st !! l); cbn; [|done]. by rw Hf.
Qed.

Lemma isolated_remove_stream id f id' st :
  id' ≠ id → isolated id st (remove_stream f id' st).
Proof.
  intros Hne Ho. unfold remove_stream. destruct (st_streams st !! id') as [l'|] eqn:Hl'; [|done].
  unfold own_stream, same_reception. cbn. rw lookup_delete_ne //. split.
  - intros l Hl. destruct (Ho l Hl) as [Hs Hu]. split.
    + unfold heap_update. by apply lookup_lt_is_Some; rw length_alter; apply lookup_lt_is_Some.
    + intros id2 [_ H2]%lookup_delete_Some. by apply Hu.
  - split_and!; [done..|]. intros l Hl. unfold heap_update.
    destruct (decide (l = l')) as [<-|]; [|by rw list_lookup_alter_ne].
    destruct (Ho l Hl) as [_ Hu]. by rw (Hu id' Hl') in Hne.
Qed.

Lemma isolated_disown id id' st : id' ≠ id → isolated id st (disown id' st).
Proof. intros Hne Ho. split; [done|]. split_and!; [done|done|cbn; set_solver|done]. Qed.

Lemma isolated_discard id id' st : id' ≠ id → isolated id st (discard_slot id' st).
Proof. intros Hne. apply isolated_rx; [|done..]. cbn. by rw lookup_delete_ne. Qed.

Lemma isolated_pending_ack id id' st : isolated id st (remove_pending_ack id' st).
Proof. by apply isolated_rx. Qed.

Lemma isolated_install id id' total chunks st :
  id' ≠ id → isolated id st (install_stream id' total chunks st).1.
Proof.
  intros Hne Ho. unfold install_stream. cbn. set (h := match _ with Some _ => _ | None => _ end).
  assert (Hh : length h = length (st_heap st)).
  { unfold h, heap_update. case_match; [|done]. apply length_alter. }
  assert (Hl : ∀ l, st_streams st !! id = Some l → h !! l = st_heap st !! l).
  { intros l Hl. unfold h, heap_update. destruct (st_streams st !! id') as [l'|] eqn:Hl'; [|done].
    rw list_lookup_alter_ne //. intros ->. destruct (Ho l Hl) as [_ Hu]. by apply Hne, Hu. }
  assert (Hl2 : ∀ l, st_streams st !! id = Some l → (h ++ [foldl (λ s c,
    chunk_send (mkStreamChunk c.1 c.2) s) (StreamInner_new id' total) chunks]) !! l = st_heap st !! l).
  { intros l Hsl. rw lookup_app_l; [|by apply Hl]. rw Hh. apply lookup_lt_is_Some.
    by destruct (Ho l Hsl). }
  unfold own_stream, same_reception. cbn. rw lookup_insert_ne //. split.
  - intros l Hsl. rw Hl2 //. destruct (Ho l Hsl) as [Hs Hu]. split; [done|].
    intros id2 Hid2. destruct (decide (id2 = id')) as [->|].
    + rw lookup_insert_eq in Hid2. injection Hid2 as <-.
      apply lookup_lt_is_Some in Hs. lia.
    + rw lookup_insert_ne // in Hid2. by apply Hu.
  - split_and!; [done|done|set_solver|]. intros l Hsl. by rw Hl2.
Qed.

Create HintDb isolation.
#[export] Hint Resolve isolated_with_stream isolated_remove_stream isolated_disown
  isolated_discard isolated_pending_ack isolated_install : isolation.

Section isolation.
Context `{CRC : Crc32} `{UUID : UuidLib} {W : Type} `{WIRE : TransferWiring W}.
Implicit Types (w : W) (st : SessionState).

(** The inbound frames that address transaction [id]. *)
Definition touches (id : txid) (f : Frame) : Prop :=
  match frame_type f with
  | DataBinary => transaction_id f = id
  | TransactionAbort =>
      ∃ p, TransactionAbortPayload_decode (payload f) = Ok p ∧ abort_transaction_id p = id
  | TransactionCompleted =>
      ∃ p, TransactionCompletedPayload_decode (payload f) = Ok p ∧
           completed_transaction_id p = id
  | Resume =>
      ∃ req, ResumeRequestPayload_decode (payload f) = Ok req ∧ resume_entries req ≠ [] ∧
             id ∉ ack_transaction_id <$> resume_entries req
  | Error =>
      ∃ p, ErrorPayload_decode (payload f) = Ok p ∧ code p = TRANSACTION_EXPIRED ∧
           parse_hex_txid_prefix (rs_bytes (message p)) = Some id
  | _ => False
  end.

Lemma isolated_data id st f w hp sp now :
  transaction_id f ≠ id → isolated id st (on_data_frame st f w hp sp now).1.1.1.
Proof using Type.
  intros Hne. unfold on_data_frame.
  destruct (receive_frame _ _ _ _ _ _ _ _) as [r o] eqn:Hr.
  apply receive_frame_slots in Hr as (Hoth & _).
  destruct o as [[c e| |]|]; [|apply isolated_rx; auto..].
  set (b := sp && _ && _). set (st1 := set_pending_acks _ _ _).
  trans st1; [apply isolated_rx; [by apply Hoth|done..]|].
  trans (feed_stream b (transaction_id f) (total_len f) e st1).1.
  { unfold feed_stream. destruct b; [|cbn; auto with isolation].
    by apply (isolated_install id (transaction_id f) (total_len f) e st1). }
  destruct (feed_stream _ _ _ _ st1) as [st2 o]. cbn [fst]. destruct c; [|done].
  cbn [fst]. unfold settle_complete. case_decide; cbn [fst].
  - trans (remove_pending_ack (transaction_id f) st2); [auto with isolation|].
    trans (disown (transaction_id f) (remove_pending_ack (transaction_id f) st2));
      [auto with isolation|].
    set (st3 := disown _ _). trans (remove_stream (stream_finish Complete) (transaction_id f) st3);
      [auto with isolation|].
    apply isolated_rx; [|done..]. by apply rx_take_other.
  - destruct hp; [|by apply isolated_rx].
    destruct (rx_take_completed _ _) as [r2 out] eqn:Htk. cbn [fst].
    apply isolated_rx; [|done..]. cbn.
    change r2 with (r2, out).1. rw -Htk. by apply rx_take_other.
Qed.

Lemma isolated_cancel_fold id ids st : id ∉ ids → isolated id st (foldl cancel_abandoned st ids).
Proof using Type.
  revert st. induction ids as [|i ids IH]; intros st Hni; [done|]. cbn [foldl].
  apply not_elem_of_cons in Hni as [Hne Hni].
  trans (cancel_abandoned st i); [|by apply IH]. unfold cancel_abandoned.
  trans (discard_slot i st); [auto with isolation|].
  trans (remove_stream (stream_finish Cancelled) i (discard_slot i st)); auto with isolation.
Qed.

Lemma isolated_pause id st f : isolated id st (on_transaction_pause_frame st f).
Proof using Type.
  unfold on_transaction_pause_frame. case_match; [|done].
  apply isolated_with_stream. right. intros s.
  unfold stream_set_paused, compare_exchange. by case_match.
Qed.

(** Close and drop: abort, missing bytes, expiry. *)
Lemma isolated_close id id' f st : id' ≠ id →
  isolated id st (remove_pending_ack id' (discard_slot id' (disown id' (remove_stream f id' st)))).
Proof using Type.
  intros Hne. trans (remove_stream f id' st); [auto with isolation|].
  trans (disown id' (remove_stream f id' st)); [auto with isolation|].
  trans (discard_slot id' (disown id' (remove_stream f id' st))); auto with isolation.
Qed.

Lemma isolated_control id st f w now : ¬ touches id f →
  match frame_type f with
  | TransactionAbort => isolated id st (on_transaction_abort_frame st f)
  | TransactionCompleted => isolated id st (on_transaction_completed_frame st f)
  | Resume => isolated id st (on_resume_request_frame st f w now).1
  | Error => isolated id st (on_error_frame st f)
  | _ => True
  end.
Proof using Type.
  unfold touches. intros Ht. destruct (frame_type f); try done.
  - unfold on_resume_request_frame.
    destruct (ResumeRequestPayload_decode _) as [req|]; [|done].
    destruct (resume_entries req) as [|e es] eqn:Hes; [done|]. rw -Hes. cbn [fst].
    apply isolated_cancel_fold. intros [_ Hin]%elem_of_abandoned.
    apply Ht. exists req. split_and!; [done|by rw Hes|done].
  - unfold on_error_frame. destruct (ErrorPayload_decode _) as [p|]; [|done].
    destruct (N.eqb_spec (code p) TRANSACTION_EXPIRED); [|done].
    destruct (parse_hex_txid_prefix _) as [id'|] eqn:Hp; [|done].
    assert (Hne : id' ≠ id) by (intros ->; apply Ht; by exists p).
    trans (discard_slot id' st); [auto with isolation|].
    trans (remove_stream (stream_finish Cancelled) id' (discard_slot id' st));
      auto with isolation.
  - unfold on_transaction_abort_frame.
    destruct (TransactionAbortPayload_decode _) as [p|]; [|done].
    apply isolated_close. intros Heq. apply Ht. by exists p.
  - unfold on_transaction_completed_frame.
    destruct (TransactionCompletedPayload_decode _) as [p|]; [|done].
    assert (Hne : completed_transaction_id p ≠ id) by (intros Heq; apply Ht; by exists p).
    case_match; [done|]. case_match.
    + case_match; [|done]. trans (remove_stream (stream_finish Complete)
        (completed_transaction_id p) st); auto with isolation.
    + destruct (default _ _) as [x y]. by apply isolated_close.
Qed.

Lemma same_rx_isolated id st st' : same_rx st st' → isolated id st st'.
Proof using Type. intros (H1 & H2 & H3 & H4). by apply isolated_rx; [rw H1|..]. Qed.

Lemma handle_inbound_isolated id s f w now : ¬ touches id f →
  isolated id (ts_state s) (ts_state (handle_inbound s f w now).1.1).
Proof using Type.
  intros Ht. rw handle_inbound_state. cbn zeta. set (st := touch_peer now (ts_state s)).
  trans st; [by apply isolated_rx|]. pose proof (isolated_control id st f w now Ht) as Hc.
  unfold touches in Ht. destruct (frame_type f); try done.
  - apply same_rx_isolated, on_ack_same_rx.
  - apply same_rx_isolated, on_nack_same_rx.
  - apply same_rx_isolated, on_resume_response_same_rx.
  - apply isolated_pause.
  - by apply isolated_data.
Qed.

Lemma own_stream_of_inv id st : streams_inv st → own_stream id st.
Proof using Type.
  intros Hi l Hl. split; [|intros id' Hl'; by eapply streams_inv_inj].
  destruct Hi as [_ He _ _]. destruct (He _ _ Hl) as (s & Hs & _). by eexists.
Qed.

(** transactions are isolated at the receiver.  An inbound frame that does
    not address transaction [id] leaves its slot, its stream-table entry and the
    chunks queued in its stream untouched, whatever else it does and however
    malformed it is. *)
Theorem reception_isolated id s f w now :
  streams_inv (ts_state s) → ¬ touches id f →
  same_reception id (ts_state s) (ts_state (handle_inbound s f w now).1.1).
Proof using Type.
  intros Hi Ht. by apply handle_inbound_isolated, own_stream_of_inv.
Qed.
End isolation.

(** ** Exactly-once delivery *)

Section delivery.
Context `{CRC : Crc32} `{UUID : UuidLib} {W : Type} `{WIRE : TransferWiring W}.
Implicit Types (w : W) (s : TransferSession).

Definition inbound_step (acc : TransferSession * W * list AppEvent) (a : Frame * N) :
    TransferSession * W * list AppEvent :=
  let '(s, w, out) := acc in
  let '(s', w', new) := handle_inbound s a.1 w a.2 in (s', w', out ++ new).

(** A run of the session over arrivals (frame, arrival time). *)
Definition inbound_all s (arr : list (Frame * N)) w :
    TransferSession * W * list AppEvent :=
  foldl inbound_step (s, w, []) arr.

(** What the aggregate handler got for [id]. *)
Definition deliveries (id : txid) (out : list AppEvent) : list (list byte) :=
  omap (λ e, match e with
             | PayloadDelivered i p => if decide (i = id) then Some p else None
             | _ => None
             end) out.

(** Sequence numbers of the data frames of [id]. *)
Definition own_seqs (id : txid) (arr : list (Frame * N)) : list N :=
  omap (λ a, if decide (frame_type a.1 = DataBinary ∧ transaction_id a.1 = id)
             then Some (seq a.1) else None) arr.

Lemma fires_deliveries id c out c' : fires c out c' → deliveries id out = [].
Proof using Type. by induction 1. Qed.

Lemma deliveries_app id a b : deliveries id (a ++ b) = deliveries id a ++ deliveries id b.
Proof using Type. apply omap_app. Qed.

Lemma data_delivered st f w hp sp now :
  Forall (λ d, d.1 = transaction_id f) (on_data_frame st f w hp sp now).1.2.
Proof using Type.
  unfold on_data_frame. destruct (receive_frame _ _ _ _ _ _ _ _) as [r o].
  destruct o as [[c e| |]|]; [|constructor..].
  destruct (feed_stream _ _ _ _ _) as [st2 o]. destruct c; [|constructor].
  unfold settle_complete. cbn. case_decide; [constructor|].
  destruct hp; [|constructor]. destruct (rx_take_completed _ _) as [r2 [p|]]; cbn; auto.
Qed.

(** Events of a frame that does not carry data of [id]. *)
Lemma foreign_deliveries id s f w now : ¬ touches id f →
  deliveries id (handle_inbound s f w now).2 = [].
Proof using Type.
  intros Ht. unfold handle_inbound. set (st := touch_peer now (ts_state s)).
  unfold touches in Ht. destruct (frame_type f); try done.
  - unfold on_ack_frame. destruct (AckPayload_decode _) as [p|]; [|done].
    pose proof (ack_fold_completion True now (ack_entries p) st []) as H.
    destruct (foldl _ _ _) as [st' out]. destruct H as (new & -> & H).
    eapply fires_deliveries, H.
  - by destruct (on_nack_frame _ _ _ _).
  - by destruct (on_resume_request_frame _ _ _ _).
  - pose proof (resume_response_completion st f w now) as H.
    destruct (on_resume_response_frame _ _ _ _) as [[? ?] out].
    eapply fires_deliveries, H.
  - pose proof (data_delivered st f w (ts_binary_handler s) (ts_stream_handler s) now) as Hd.
    destruct (on_data_frame _ _ _ _ _ _) as [[[st' w'] d] o]. cbn in *.
    unfold deliveries. rw omap_app. apply app_nil. split.
    + destruct o; [|done]. by destruct (ts_stream_handler s).
    + induction Hd as [|[i p] d Hi _ IH]; [done|]. cbn. rw omap_app IH app_nil_r.
      unfold deliver. destruct (ts_binary_handler _); [|done]. cbn in *.
      case_decide; [|done]. congruence.
Qed.

Lemma handle_inbound_handlers s f w now :
  ts_stream_handler (handle_inbound s f w now).1.1 = ts_stream_handler s ∧
  ts_binary_handler (handle_inbound s f w now).1.1 = ts_binary_handler s.
Proof using Type.
  unfold handle_inbound. destruct (frame_type f); try done.
  - by destruct (on_ack_frame _ _ _).
  - by destruct (on_nack_frame _ _ _ _).
  - by destruct (on_resume_request_frame _ _ _ _).
  - by destruct (on_resume_response_frame _ _ _ _) as [[? ?] ?].
  - by destruct (on_data_frame _ _ _ _ _ _) as [[[? ?] ?] ?].
Qed.

Lemma handle_inbound_data s f w now : frame_type f = DataBinary →
  handle_inbound s f w now =
  let '(st', w', d, o) := on_data_frame (touch_peer now (ts_state s)) f w
                            (ts_binary_handler s) (ts_stream_handler s) now in
  (set_state st' s, w',
   match o with Some l => if ts_stream_handler s then [StreamOpened l] else []
              | None => [] end ++ concat (deliver s <$> d)).
Proof using Type. intros Ht. unfold handle_inbound. by rw Ht. Qed.

Section one.
Context (id : txid) (total : N) (ps : list (list byte)).
Context (Hne : Forall (λ p, 1 ≤ length p) ps).
Context (Htotal : total = len (concat ps)) (Hu32 : (total ≤ U32_MAX)%N).
Context (sp : bool).

(** Reception so far: nothing of the transaction, or an open slot with the
    frames [own] on its surface. *)
Record progress (out : list AppEvent) (own : list N) (s : TransferSession) : Prop := {
  pr_inv : streams_inv (ts_state s);
  pr_sp : ts_stream_handler s = sp;
  pr_hp : sp = false → ts_binary_handler s = true;
  pr_quiet : deliveries id out = [];
  pr_state :
    (own = [] ∧ slots (st_reassembler (ts_state s)) !! id = None) ∨
    (own ≠ [] ∧ ∃ o, receiving id total ps o own (ts_state s) ∧
       if sp then ∃ l, o = Some l ∧ StreamOpened l ∈ out else o = None);
}.

(** The transaction is handed over by the frame that produced [new]. *)
Definition handed_over (out new : list AppEvent) (w : W) (s' : TransferSession)
    (w' : W) : Prop :=
  slots (st_reassembler (ts_state s')) !! id = None ∧
  w' = send_ack_entries w [mkAckEntry id (len ps - 1) (len ps)] ∧
  if sp then
    deliveries id new = [] ∧
    ∃ l si, StreamOpened l ∈ out ++ new ∧ st_heap (ts_state s') !! l = Some si ∧
      BinaryStream_state si = Complete ∧ tx_alive si = false ∧
      chunk_bytes <$> chunk_rx si = ps
  else new = [PayloadDelivered id (concat ps)].

Lemma receiving_ext o own own' st :
  (∀ k, k ∈ own ↔ k ∈ own') → receiving id total ps o own st →
  receiving id total ps o own' st.
Proof using Type.
  intros He (sl & H1 & H2 & H3 & H4 & H5). exists sl. split_and!; [done..| |done].
  intros k. by rw H4 He.
Qed.

Lemma no_slot_no_stream st :
  streams_inv st → slots (st_reassembler st) !! id = None →
  st_streams st !! id = None ∧ id ∉ st_stream_owned st.
Proof using Type.
  intros [Ho He _ _] Hn. assert (Hs : st_streams st !! id = None).
  { destruct (st_streams st !! id) as [l|] eqn:Hl; [|done].
    destruct (He _ _ Hl) as (si & _ & _ & _ & _ & Hc & _).
    apply rx_contains_true in Hc as [? ?]. congruence. }
  split; [done|]. rw Ho. by apply not_elem_of_dom.
Qed.

(** What leaves the reception alone keeps the progress. *)
Lemma progress_same out out' own s s' :
  streams_inv (ts_state s') → ts_stream_handler s' = ts_stream_handler s →
  ts_binary_handler s' = ts_binary_handler s → deliveries id out' = [] → out ⊆ out' →
  same_reception id (ts_state s) (ts_state s') → progress out own s → progress out' own s'.
Proof using Type.
  intros Hi Hh1 Hh2 Hd Hsub (E1 & E2 & E3 & E4) [P1 P2 P3 P4 P5].
  split; [done|congruence|by rw Hh2|done|].
  rw E1. destruct P5 as [P5|(Hown & o & (sl & R1 & R2 & R3 & R4 & R5) & Ho)]; [by left|right].
  split; [done|]. exists o. split.
  - exists sl. split_and!; [by rw E1|done..|]. destruct o as [l|]; cbn in R5 |- *.
    + destruct R5 as (F1 & F2 & si & F3 & F4). rw E2. split; [done|]. split; [by apply E3|].
      specialize (E4 l F1). rw F3 in E4. cbn in E4.
      apply fmap_Some in E4 as (si' & F3' & F4'). exists si'. by rw -F4'.
    + rw E2. destruct R5. split; [done|]. by rw E3.
  - destruct sp; [|done]. destruct Ho as (l & -> & Hin). exists l. split; [done|]. by apply Hsub.
Qed.

(** A foreign frame keeps the progress. *)
Lemma progress_foreign out own s f w t :
  ¬ touches id f → progress out own s →
  let '(s', w', new) := handle_inbound s f w t in progress (out ++ new) own s'.
Proof using Type.
  intros Ht Hp. pose proof (handle_inbound_isolated id s f w t Ht) as Hiso.
  pose proof (inbound_keeps_streams s f w t (pr_inv _ _ _ Hp)) as Hi.
  pose proof (foreign_deliveries id s f w t Ht) as Hd.
  destruct (handle_inbound_handlers s f w t) as [Hh1 Hh2].
  destruct (handle_inbound s f w t) as [[s' w'] new]. cbn [fst snd] in *.
  destruct (Hiso (own_stream_of_inv id _ (pr_inv _ _ _ Hp))) as [_ Hs].
  apply (progress_same out (out ++ new) own s s'); try done.
  - by rw deliveries_app (pr_quiet _ _ _ Hp) Hd.
  - intros e He. apply elem_of_app. by left.
Qed.

(** The surface the transaction is on once its next frame is in, and the
    step itself. *)
Lemma own_step out own s w t i p :
  progress out own s → ps !! i = Some p → (own = [] → i = 0) →
  ∃ o,
    let '(st', w', d, opened) :=
      on_data_frame (touch_peer t (ts_state s)) (piece_frame id total i p) w
        (ts_binary_handler s) sp t in
    frame_outcome id total ps o (N.of_nat i :: own) w st' w' d ∧
    if sp then ∃ l, o = Some l ∧ (StreamOpened l ∈ out ∨ opened = Some l)
    else o = None ∧ opened = None.
Proof using Hne Htotal Hu32.
  intros [P1 P2 P3 P4 P5] Hp H0. set (st := touch_peer t (ts_state s)).
  destruct P5 as [[-> Hn]|(_ & o & Hrec & Ho)].
  - rw (H0 eq_refl) in Hp |- *. destruct (no_slot_no_stream st P1 Hn) as [N1 N2].
    pose proof (first_frame_step id total ps Hne Htotal Hu32 st w (ts_binary_handler s) sp
      t p Hn N1 N2 Hp P3) as Hf.
    exists (if sp then Some (length (st_heap st)) else None).
    destruct (on_data_frame _ _ _ _ _ _) as [[[st' w'] d] o]. destruct Hf as [-> Hf].
    split; [done|]. destruct sp; eauto.
  - pose proof (next_frame_step id total ps Hne Htotal Hu32 o own st w
      (ts_binary_handler s) sp t i p Hrec Hp) as Hf.
    exists o. destruct (on_data_frame _ _ _ _ _ _) as [[[st' w'] d] opened].
    destruct Hf as [-> Hf].
    + intros ->. apply P3. destruct sp; [|done]. by destruct Ho as (l & ? & _).
    + intros Hno. destruct sp; done.
    + split; [done|]. destruct sp; [|done]. destruct Ho as (l & -> & Hin). eauto.
Qed.

(** A frame of the transaction advances it or hands it over. *)
Lemma progress_own out own s w t i p :
  progress out own s → ps !! i = Some p → (own = [] → i = 0) →
  let f := piece_frame id total i p in
  let '(s', w', new) := handle_inbound s f w t in
  (¬ all_seen ps (own ++ [N.of_nat i]) ∧ w' = w ∧ progress (out ++ new) (own ++ [N.of_nat i]) s') ∨
  (all_seen ps (own ++ [N.of_nat i]) ∧ handed_over out new w s' w').
Proof using Hne Htotal Hu32.
  intros Hpr Hp H0 f.
  pose proof (inbound_keeps_streams s f w t (pr_inv _ _ _ Hpr)) as Hi'.
  destruct (own_step out own s w t i p Hpr Hp H0) as (o & Hout). revert Hout.
  rw (handle_inbound_data s f w t) // in Hi' |- *. destruct Hpr as [_ P2 P3 P4 _].
  rw P2 in Hi' |- *.
  destruct (on_data_frame _ _ _ _ _ _) as [[[st' w'] d] opened]. intros [Hout Ho].
  cbn [fst] in Hi'.
  assert (Hmem : ∀ k, k ∈ N.of_nat i :: own ↔ k ∈ own ++ [N.of_nat i])
    by (intros k; rw elem_of_cons elem_of_app list_elem_of_singleton; tauto).
  assert (Hall : all_seen ps (N.of_nat i :: own) ↔ all_seen ps (own ++ [N.of_nat i]))
    by (unfold all_seen; by setoid_rewrite Hmem).
  assert (Hopen : sp = true → ∃ l, o = Some l ∧
    StreamOpened l ∈ out ++ match opened with Some l => [StreamOpened l] | None => [] end).
  { intros Hsp. rw Hsp in Ho. destruct Ho as (l & -> & Hl). exists l. split; [done|].
    apply elem_of_app. destruct Hl as [Hl| ->]; [by left|right; by left]. }
  destruct Hout as [[Hs Hset]|(Hs & Hrec & -> & ->)].
  - right. split; [by apply Hall|]. destruct Hset as (S1 & S2 & S3).
    split; [done|]. split; [done|]. destruct sp.
    + destruct (Hopen eq_refl) as (l & -> & Hin). destruct S3 as (-> & _ & si & S3).
      cbn. rw app_nil_r. split; [by destruct opened|]. exists l, si. by split.
    + destruct Ho as [-> ->]. rw S3. cbn. unfold deliver. by rw P3.
  - left. split; [by rw -Hall|]. split; [done|]. cbn. rw app_nil_r.
    split; [done|done|done| |].
    + rw deliveries_app P4. destruct opened; [|done]. by destruct sp.
    + right. split; [by destruct own|]. exists o. split.
      * by eapply receiving_ext.
      * destruct sp; [by apply Hopen|]. by destruct Ho.
Qed.

(** An arrival is a frame of the transaction, or does not address it. *)
Definition arrival_ok (a : Frame * N) : Prop :=
  frame_of_piece id total ps a.1 ∨ ¬ touches id a.1.

Lemma own_seqs_piece i p t : own_seqs id [(piece_frame id total i p, t)] = [N.of_nat i].
Proof using Type. cbn. case_decide as Hd; [done|]. by destruct Hd. Qed.

Lemma own_seqs_foreign f t : ¬ touches id f → own_seqs id [(f, t)] = [].
Proof using Type.
  intros Ht. cbn. case_decide as Hd; [|done]. destruct Ht. unfold touches.
  by destruct Hd as [-> ->].
Qed.

Lemma progress_run s arr w :
  progress [] [] s → Forall arrival_ok arr →
  (own_seqs id arr ≠ [] → head (own_seqs id arr) = Some 0%N) →
  ¬ all_seen ps (own_seqs id arr) →
  let '(s1, _, out1) := inbound_all s arr w in progress out1 (own_seqs id arr) s1.
Proof using Hne Htotal Hu32.
  intros Hpr. unfold inbound_all. induction arr as [|[f t] arr IH] using rev_ind; [done|].
  intros [Harr Hf]%Forall_app Hhd Hns. rw Forall_singleton in Hf.
  unfold arrival_ok, frame_of_piece in Hf. cbn [fst] in Hf.
  assert (Happ : own_seqs id (arr ++ [(f, t)]) = own_seqs id arr ++ own_seqs id [(f, t)])
    by apply omap_app.
  rw Happ in Hhd Hns |- *. rw foldl_app. cbn [foldl].
  assert (Hprev : let '(s1, _, out1) := foldl inbound_step (s, w, []) arr in
    progress out1 (own_seqs id arr) s1).
  { apply IH; [done| |].
    - intros Hno. rw -Hhd; [by destruct (own_seqs id arr)|]. by destruct (own_seqs id arr).
    - intros Hall. apply Hns. intros k Hk. apply elem_of_app. left. by apply Hall. }
  destruct (foldl inbound_step (s, w, []) arr) as [[s1 w1] out1]. cbn [inbound_step].
  destruct Hf as [(i & p & Hp & Hfe)|Hfor]; cbn [fst] in *.
  - subst f. rw own_seqs_piece in Hhd Hns |- *.
    assert (H0 : own_seqs id arr = [] → i = 0).
    { intros Hnil. rw Hnil in Hhd. cbn in Hhd. specialize (Hhd ltac:(done)).
      injection Hhd. lia. }
    pose proof (progress_own out1 (own_seqs id arr) s1 w1 t i p Hprev Hp H0) as Hstep.
    cbn zeta in Hstep. cbn [fst snd].
    destruct (handle_inbound s1 _ w1 t) as [[s2 w2] new].
    by destruct Hstep as [(_ & _ & Hs)|[Hs _]].
  - rw (own_seqs_foreign f t Hfor) in Hhd Hns |- *. rw app_nil_r.
    pose proof (progress_foreign out1 (own_seqs id arr) s1 f w1 t Hfor Hprev) as Hstep.
    cbn [fst snd]. by destruct (handle_inbound s1 f w1 t) as [[s2 w2] new].
Qed.

Lemma delivery_core s arr w i p t :
  streams_inv (ts_state s) → slots (st_reassembler (ts_state s)) !! id = None →
  ts_stream_handler s = sp → (sp = false → ts_binary_handler s = true) →
  Forall arrival_ok arr → ps !! i = Some p →
  head (own_seqs id arr ++ [N.of_nat i]) = Some 0%N →
  ¬ all_seen ps (own_seqs id arr) → all_seen ps (own_seqs id arr ++ [N.of_nat i]) →
  let '(s1, w1, out1) := inbound_all s arr w in
  let '(s2, w2, out2) := handle_inbound s1 (piece_frame id total i p) w1 t in
  deliveries id out1 = [] ∧ handed_over out1 out2 w1 s2 w2.
Proof using Hne Htotal Hu32.
  intros Hi Hn Hsp Hhp Harr Hp Hhd Hns Hall.
  assert (Hpr : progress [] [] s) by (split; auto).
  pose proof (progress_run s arr w Hpr Harr) as Hrun.
  destruct (inbound_all s arr w) as [[s1 w1] out1].
  assert (Hp1 : progress out1 (own_seqs id arr) s1).
  { apply Hrun; [|done]. by destruct (own_seqs id arr). }
  assert (H0 : own_seqs id arr = [] → i = 0).
  { intros Hnil. rw Hnil in Hhd. cbn in Hhd. injection Hhd. lia. }
  pose proof (progress_own out1 (own_seqs id arr) s1 w1 t i p Hp1 Hp H0) as Hstep.
  cbn zeta in Hstep. destruct (handle_inbound s1 _ w1 t) as [[s2 w2] out2].
  split; [by apply (pr_quiet _ _ _ Hp1)|].
  by destruct Hstep as [[Hno _]|[_ Hs]].
Qed.

(** C4: end-to-end reception.  The frames of an honest transaction arrive, with
    duplicates and in any order once the first one has come, between any
    other traffic that does not address the transaction.  Nothing is
    delivered before the last missing frame; that frame hands the whole
    content over exactly once - to the aggregate handler as one payload, or
    to the stream opened for the transaction, which then reads as complete
    with every chunk in order and no aggregate delivery - and it is
    acknowledged with the final ACK.  The slot is released. *)
Theorem delivery_exactly_once s arr w i p t :
  streams_inv (ts_state s) → slots (st_reassembler (ts_state s)) !! id = None →
  ts_stream_handler s = sp → (sp = false → ts_binary_handler s = true) →
  Forall arrival_ok arr → ps !! i = Some p →
  head (own_seqs id arr ++ [N.of_nat i]) = Some 0%N →
  ¬ all_seen ps (own_seqs id arr) → all_seen ps (own_seqs id arr ++ [N.of_nat i]) →
  let '(s1, w1, out1) := inbound_all s arr w in
  let '(s2, w2, out2) := handle_inbound s1 (piece_frame id total i p) w1 t in
  deliveries id out1 = [] ∧ handed_over out1 out2 w1 s2 w2.
Proof using Hne Htotal Hu32. apply delivery_core. Qed.
End one.
End delivery.
