(* ===== verification/Clock.v ===== *)
(** * The session clock and the wiring life cycle
    ([src/transfer/clock.rs], [src/transfer/core.rs])

    One tick of the clock (batched ACK export, NACK feedback, retransmission,
    RESUME re-declaration, heartbeat, silence verdict), one turn of the clock
    loop, and attaching the session to a transport and detaching it. *)
From S2P Require Import Prelude Crc Frame Control Sender Reassemble Errors Stream Transfer.

(** ** Operations over every open stream *)

(** [for entry in st.streams.values() { entry.inner.f() }]. *)
Definition update_streams (f : StreamInner → StreamInner) (st : SessionState) :
    SessionState :=
  set_streams (st_streams st) (st_stream_owned st)
    (foldl (λ h l, heap_update f l h) (st_heap st) (map_to_list (st_streams st)).*2) st.

Definition stall_streams (st : SessionState) : SessionState := update_streams set_stalled st.

Definition clear_stalls (st : SessionState) : SessionState := update_streams clear_stalled st.

(** [impl Drop for SessionState]: the entries are drained, cancelled and
    dropped. *)
Definition SessionState_drop (st : SessionState) : SessionState :=
  let st' := update_streams (λ s, drop_tx (stream_finish Cancelled s)) st in
  set_streams ∅ ∅ (st_heap st') st'.

(** ** Field updates of the session core *)

Definition set_wiring (wiring : option nat) (s : TransferSession) : TransferSession :=
  mkTransferSession (ts_config s) (ts_state s) (ts_binary_handler s)
    (ts_stream_handler s) (ts_wake s) wiring (ts_clock s).

Definition set_clock (clock : bool) (s : TransferSession) : TransferSession :=
  mkTransferSession (ts_config s) (ts_state s) (ts_binary_handler s)
    (ts_stream_handler s) (ts_wake s) (ts_wiring s) clock.

Definition upd_state (f : SessionState → SessionState) (s : TransferSession) :
    TransferSession := set_state (f (ts_state s)) s.

Section clock.
Context `{CRC : Crc32} `{UUID : UuidLib} {W : Type} `{WIRE : TransferWiring W}.
Context `{TRANSPORT : !XacppTransport W}.
Implicit Types (w : W) (s : TransferSession) (st : SessionState).

(** ** RESUME declarations *)

Definition send_resume_frame w (entries : list AckEntry) : W :=
  send_control w (mkResumeRequestPayload entries).

Definition send_resume_declaration s w (now : N) : TransferSession * W :=
  let '(tx, entries) := declare_pending (st_sender (ts_state s)) now in
  let s := upd_state (set_sender tx) s in
  match entries with
  | [] => (s, w)
  | _ => (s, send_resume_frame w entries)
  end.

(** ** One tick *)

(** Step 1: [pending_ack_frames.values().sum::<u32>()] against the batch
    limits; transactions with no contiguous prefix keep their accounting. *)
Definition pending_total st : N := as_u32 (map_sum id (st_pending_ack_frames st)).

Definition ack_due (cfg : TransferConfig) st (now : N) : bool :=
  let total := pending_total st in
  (ack_batch_frames cfg <=? total)%N ||
  ((0 <? total)%N && (ack_batch_interval_ms cfg <=? now - st_last_ack_ms st)%N).

Definition export_acks (cfg : TransferConfig) st w (now : N) : SessionState * W :=
  if ack_due cfg st now then
    let ids := (map_to_list (st_pending_ack_frames st)).*1 in
    let entries := omap (rx_ack_entry (st_reassembler st)) ids in
    let exported :=
      filter (λ i, is_Some (rx_ack_entry (st_reassembler st) i)) ids in
    let left := foldl (λ m i, delete i m) (st_pending_ack_frames st) exported in
    (set_pending_acks left now st, send_ack_entries w entries)
  else (st, w).

(** Step 2: one NACK frame per transaction with gaps. *)
Definition nack_gaps (r : TransactionReassembler) w (id : txid) : W :=
  match rx_missing_seqs r id (N.to_nat MAX_NACK_MISSING_ENTRIES) with
  | [] => w
  | missing => send_control w (mkNackPayload [mkNackEntry id missing])
  end.

Definition send_nacks (cfg : TransferConfig) st w (now : N) : SessionState * W :=
  if (nack_feedback_interval_ms cfg <=? now - st_last_nack_ms st)%N then
    (set_clocks now (st_heartbeat_seq st) (st_last_heartbeat_ms st)
       (st_last_peer_activity_ms st) st,
     foldl (nack_gaps (st_reassembler st)) w (rx_open_transactions (st_reassembler st)))
  else (st, w).

(** Step 3b. *)
Definition redeclare (cfg : TransferConfig) st w (now : N) : SessionState * W :=
  let '(tx, entries) :=
    timed_out_declarations (st_sender st) now (resume_verdict_timeout_ms cfg) in
  let st := set_sender tx st in
  match entries with
  | [] => (st, w)
  | _ => (st, send_resume_frame w entries)
  end.

(** Step 4. *)
Definition heartbeat (cfg : TransferConfig) st w (now : N) : SessionState * W :=
  if (heartbeat_interval_ms cfg <=? now - st_last_heartbeat_ms st)%N then
    let sq := u32_succ (st_heartbeat_seq st) in
    (set_clocks (st_last_nack_ms st) sq now (st_last_peer_activity_ms st) st,
     send_control w (mkHeartbeatPayload sq now))
  else (st, w).

(** The tick; a failed retransmission ends it with the silent verdict. *)
Definition clock_tick s w (now : N) : TransferSession * W * bool :=
  let cfg := ts_config s in
  let '(st, w) := export_acks cfg (ts_state s) w now in
  let '(st, w) := send_nacks cfg st w now in
  let '(tx, frames) := due_retransmissions (st_sender st) now in
  let st := set_sender tx st in
  let '(w, all_ok) := write_data_frames w frames in
  if negb all_ok then (set_state st s, w, true)
  else
    let '(st, w) := redeclare cfg st w now in
    let '(st, w) := heartbeat cfg st w now in
    (set_state st s, w,
     (silent_timeout_ms cfg <=? now - st_last_peer_activity_ms st)%N).

(** ** Deferred delivery *)

(** [filter_map(|id| take_completed(id))] over the complete slots. *)
Definition drain_one (acc : TransactionReassembler * list (txid * list byte)) (id : txid) :
    TransactionReassembler * list (txid * list byte) :=
  let '(r, out) := acc in
  match rx_take_completed r id with
  | (r', Some p) => (r', out ++ [(id, p)])
  | (r', None) => (r', out)
  end.

Definition drain_completed s : TransferSession * list (txid * list byte) :=
  if negb (ts_binary_handler s) then (s, [])
  else
    let r := st_reassembler (ts_state s) in
    let completed := filter (λ i, rx_is_complete r i = true) (rx_open_transactions r) in
    let '(r', out) := foldl drain_one (r, []) completed in
    (upd_state (set_reassembler r') s, out).

(** ** Attaching and detaching *)

Definition is_wired s : bool := bool_decide (is_Some (ts_wiring s)).

Definition detach_connection s w : TransferSession * W :=
  (set_wiring None s,
   match ts_wiring s with Some _ => on_transfer_activity w false | None => w end).

(** The clock task is spawned (its handle stored), the hooks registered, the
    wiring stored; then every pending send is gated, the streams flow again
    and parked writers wake. *)
Definition wire s (transport : nat) w (now : N) :
    TransferSession * W * result unit XacppError :=
  match ts_wiring s with
  | Some _ =>
      (s, w, Err (InvalidState (Lit "transfer session already wired to a transport")))
  | None =>
      let s := upd_state (touch_peer now) s in
      let s := set_clock true s in
      let w := on_transfer_activity w true in
      let s := set_wiring (Some transport) s in
      let s := upd_state (λ st, set_sender (declare_pending (st_sender st) now).1 st) s in
      let s := upd_state clear_stalls s in
      (wake_writers s, w, Ok tt)
  end.

Definition declare_pending_sends s w (now : N) : TransferSession * W :=
  match ts_wiring s with
  | Some _ => send_resume_declaration s w now
  | None => (s, w)
  end.

Definition unwire s w : TransferSession * W :=
  let '(s, w) := detach_connection s w in
  (set_clock false (upd_state stall_streams s), w).

(** The hooks of [build_activity_handlers] while session and transport live:
    an envelope refreshes the silence clock, other frames are dispatched. *)
Definition on_activity s (now : N) : TransferSession := upd_state (touch_peer now) s.

(** ** One turn of the clock loop *)

(** [closed] is the connection watch; the flag of the result says whether the
    task exits. *)
Definition run_clock_turn s w (closed : bool) (now : N) :
    TransferSession * W * list AppEvent * bool :=
  if closed then
    let '(s, w) := detach_connection s w in
    (upd_state stall_streams s, w, [], true)
  else
    let '(s, w, silent) := clock_tick s w now in
    let s := if negb silent then wake_writers s else s in
    if silent then
      let '(s, w) := detach_connection s w in
      let s := upd_state stall_streams s in
      (s, (disconnect w).1, [], true)
    else
      let '(s, payloads) := drain_completed s in
      (s, w, concat (deliver s <$> payloads), false).
End clock.

(** ** Streams under [update_streams] *)

Lemma fold_heap_lookup f ls (h : stream_heap) l :
  NoDup ls →
  foldl (λ h l, heap_update f l h) h ls !! l =
  if decide (l ∈ ls) then f <$> h !! l else h !! l.
Proof.
  revert h. induction ls as [|l0 ls IH]; intros h Hnd; cbn.
  { case_decide as H; [by apply elem_of_nil in H|done]. }
  apply NoDup_cons in Hnd as [Hni Hnd]. rw IH //. unfold heap_update. clear IH.
  destruct (decide (l = l0)) as [->|Hne].
  - case_decide; [done|]. case_decide as Hin; [apply list_lookup_alter_eq|].
    destruct Hin. by left.
  - rw list_lookup_alter_ne //. case_decide as H1; case_decide as H2;
      rw ?elem_of_cons in H2; tauto.
Qed.

Lemma streams_locs_NoDup st : streams_inv st → NoDup (map_to_list (st_streams st)).*2.
Proof.
  intros [_ He _ _]. apply NoDup_fmap_2_strong; [|apply NoDup_map_to_list].
  intros [i l] [i' l'] H1%elem_of_map_to_list H2%elem_of_map_to_list. cbn. intros ->.
  destruct (He _ _ H1) as (s & Hs & <- & _). destruct (He _ _ H2) as (s' & Hs' & <- & _).
  congruence.
Qed.

Lemma elem_of_stream_locs st l :
  l ∈ (map_to_list (st_streams st)).*2 ↔ ∃ i, st_streams st !! i = Some l.
Proof.
  rw list_elem_of_fmap. split.
  - intros ([i l'] & -> & H%elem_of_map_to_list). by exists i.
  - intros [i Hi]. exists (i, l). split; [done|]. by apply elem_of_map_to_list.
Qed.

Lemma update_streams_heap f st l :
  streams_inv st →
  (∀ i, st_streams st !! i = Some l →
     st_heap (update_streams f st) !! l = f <$> st_heap st !! l) ∧
  ((∀ i, st_streams st !! i ≠ Some l) →
     st_heap (update_streams f st) !! l = st_heap st !! l).
Proof.
  intros Hi. unfold update_streams. cbn.
  rw (fold_heap_lookup f _ (st_heap st) l (streams_locs_NoDup st Hi)).
  split; [intros j H|intros H]; case_decide as Hd; rw elem_of_stream_locs in Hd;
    [done| | |done].
  - destruct Hd. by exists j.
  - destruct Hd as [i ?]. by destruct (H i).
Qed.

Lemma update_streams_inv f st :
  flow_update f → streams_inv st → streams_inv (update_streams f st).
Proof.
  intros Hf Hi. unfold streams_inv, update_streams in *. cbn. revert Hi.
  generalize (st_heap st) as h. induction (map_to_list (st_streams st)).*2 as [|l ls IH];
    intros h Hi; [done|]. cbn. by apply IH, streams_ok_update.
Qed.

(** Session death ends every stream. *)
Lemma drop_streams_ended st l s :
  streams_inv st → st_heap (SessionState_drop st) !! l = Some s →
  tx_alive s = false ∧ is_terminal (stored_state s) = true.
Proof.
  intros Hi Hs. pose proof Hi as [_ He Ho Hc].
  destruct (update_streams_heap (λ s, drop_tx (stream_finish Cancelled s)) st l Hi)
    as [U1 U2]. cbn in Hs, U1, U2.
  destruct (decide (l ∈ (map_to_list (st_streams st)).*2)) as [Hin|Hni];
    rw elem_of_stream_locs in Hin || rw elem_of_stream_locs in Hni.
  - destruct Hin as [i Hl]. rw (U1 i Hl) in Hs. by apply fmap_Some in Hs as (s0 & _ & ->).
  - rw U2 in Hs; [by intros i Hl; apply Hni; exists i|].
    destruct (tx_alive s) eqn:Ha; [|split; [done|by eapply Hc]].
    destruct Hni. eexists. by apply Ho.
Qed.

Lemma drop_streams_inv st : streams_inv st → streams_inv (SessionState_drop st).
Proof.
  intros Hi. split; [by cbn; rw dom_empty_L|done|..]; intros l s Hs Ha.
  - destruct (drop_streams_ended st l s Hi Hs). congruence.
  - by destruct (drop_streams_ended st l s Hi Hs).
Qed.

(** ** Deferred delivery *)

Definition slot_content (r : TransactionReassembler) (id : txid) : list byte :=
  match slots r !! id with Some sl => concat (btree_values (slot_frames sl)) | None => [] end.

Lemma take_complete r id :
  rx_is_complete r id = true →
  rx_take_completed r id =
  (mkTransactionReassembler (delete id (slots r)), Some (slot_content r id)).
Proof.
  unfold rx_is_complete, rx_take_completed, slot_content.
  destruct (slots r !! id) as [sl|]; [|done]. by intros ->.
Qed.

Lemma drain_fold ids r out :
  NoDup ids → (∀ i, i ∈ ids → rx_is_complete r i = true) →
  let '(r', out') := foldl drain_one (r, out) ids in
  out' = out ++ ((λ i, (i, slot_content r i)) <$> ids) ∧
  ∀ i, slots r' !! i = if decide (i ∈ ids) then None else slots r !! i.
Proof.
  revert r out. induction ids as [|j ids IH]; intros r out Hnd Hc; cbn [foldl].
  { split; [by rw app_nil_r|]. intros i. case_decide as H; [by apply elem_of_nil in H|done]. }
  apply NoDup_cons in Hnd as [Hni Hnd]. cbn [drain_one].
  rw take_complete; [apply Hc; by left|].
  set (r1 := mkTransactionReassembler (delete j (slots r))).
  assert (Hr1 : ∀ i, i ≠ j → slots r1 !! i = slots r !! i)
    by (intros; cbn; by rw lookup_delete_ne).
  specialize (IH r1 (out ++ [(j, slot_content r j)]) Hnd).
  destruct (foldl drain_one _ ids) as [r' out']. destruct IH as [-> Hr'].
  { intros i Hi. destruct (rx_contains_ext r r1 i) as [_ ->].
    - apply Hr1. intros ->. done.
    - apply Hc. by right. }
  split.
  - rw -app_assoc. cbn. do 2 f_equal. apply list_fmap_ext. intros k i Hk.
    unfold slot_content. rw Hr1 //. intros ->. apply list_elem_of_lookup_2 in Hk. done.
  - intros i. rw Hr'. apply delete_listed.
Qed.

Lemma elem_of_complete r i :
  i ∈ filter (λ i, rx_is_complete r i = true) (rx_open_transactions r) ↔
  rx_is_complete r i = true.
Proof.
  rw list_elem_of_filter. split; [by intros []|]. intros Hc. split; [done|].
  unfold rx_is_complete in Hc. destruct (slots r !! i) as [sl|] eqn:Hs; [|done].
  apply list_elem_of_fmap. exists (i, sl). split; [done|]. by apply elem_of_map_to_list.
Qed.

Lemma NoDup_complete r : NoDup (filter (λ i, rx_is_complete r i = true) (rx_open_transactions r)).
Proof. apply NoDup_filter, NoDup_fst_map_to_list. Qed.

(** deferred delivery is exact and exactly-once: with a handler registered a
    drain hands over, once each, precisely the completed transactions with their
    whole content, releases their slots and no other, and a second drain finds
    nothing; without a handler it leaves the session alone, so the payloads stay
    retained. *)
Theorem drain_exactly_once s :
  let '(s', out) := drain_completed s in
  let r := st_reassembler (ts_state s) in
  if ts_binary_handler s then
    NoDup out.*1 ∧
    (∀ id p, (id, p) ∈ out ↔ ∃ sl, slots r !! id = Some sl ∧ slot_is_complete sl = true ∧
                                   p = concat (btree_values (slot_frames sl))) ∧
    (∀ id, slots (st_reassembler (ts_state s')) !! id =
           if rx_is_complete r id then None else slots r !! id) ∧
    (drain_completed s').2 = []
  else s' = s ∧ out = [].
Proof.
  unfold drain_completed at 1. destruct (ts_binary_handler s) eqn:Hb; [|done]. cbn [negb].
  set (r := st_reassembler (ts_state s)).
  pose proof (drain_fold _ r [] (NoDup_complete r) (λ i, proj1 (elem_of_complete r i))) as Hd.
  destruct (foldl drain_one _ _) as [r' out]. destruct Hd as [-> Hr'].
  assert (Hsl : ∀ id, slots r' !! id = if rx_is_complete r id then None else slots r !! id).
  { intros id. rw Hr'. case_decide as Hin; rw elem_of_complete in Hin; [by rw Hin|].
    by destruct (rx_is_complete r id). }
  split_and!.
  - cbn [app]. rw -list_fmap_compose. rw list_fmap_id. apply NoDup_complete.
  - intros id p. cbn [app]. rw list_elem_of_fmap. split.
    + intros (i & [= -> ->] & Hin%elem_of_complete). unfold rx_is_complete in Hin.
      unfold slot_content. destruct (slots r !! i) as [sl|]; [|done]. by exists sl.
    + intros (sl & Hs & Hc & ->). exists id. unfold slot_content. rw Hs. split; [done|].
      apply elem_of_complete. unfold rx_is_complete. by rw Hs.
  - done.
  - unfold drain_completed. cbn. rw Hb. cbn.
    assert (filter (λ i, rx_is_complete r' i = true) (rx_open_transactions r') = []) as ->; [|done].
    apply elem_of_nil_inv. intros i Hin%elem_of_complete. unfold rx_is_complete in Hin.
    rw Hsl in Hin. destruct (rx_is_complete r i) eqn:Hc; [done|].
    unfold rx_is_complete in Hc. destruct (slots r !! i); congruence.
Qed.

(** ** The tick *)

Lemma fold_delete_lookup {V} (m : gmap txid V) ids i :
  foldl (λ m i, delete i m) m ids !! i = if decide (i ∈ ids) then None else m !! i.
Proof.
  revert m. induction ids as [|j ids IH]; intros m; cbn.
  { case_decide as H; [by apply elem_of_nil in H|done]. }
  rw IH. apply delete_listed.
Qed.

Section tick.
Context `{CRC : Crc32} `{UUID : UuidLib} {W : Type} `{WIRE : TransferWiring W}.
Context `{TRANSPORT : !XacppTransport W}.
Implicit Types (w : W) (s : TransferSession) (st : SessionState).

Lemma rx_ack_entry_id r i e : rx_ack_entry r i = Some e → ack_transaction_id e = i.
Proof using Type.
  unfold rx_ack_entry. intros H. apply bind_Some in H as (sl & _ & H).
  by apply bind_Some in H as (h & _ & [= <-]).
Qed.

(** a batched ACK export sends one entry for every transaction that got
    new frames and has a contiguous prefix - no more, no other, none twice -
    and clears exactly their accounting; transactions without a prefix keep
    theirs.  Below both batch limits it does nothing. *)
Theorem ack_export_exact cfg st w now :
  let '(st', w') := export_acks cfg st w now in
  let r := st_reassembler st in
  if ack_due cfg st now then
    ∃ entries, w' = send_ack_entries w entries ∧ NoDup (ack_transaction_id <$> entries) ∧
      (∀ e, e ∈ entries ↔ is_Some (st_pending_ack_frames st !! ack_transaction_id e) ∧
                          rx_ack_entry r (ack_transaction_id e) = Some e) ∧
      (∀ i, st_pending_ack_frames st' !! i =
            match rx_ack_entry r i with Some _ => None | None => st_pending_ack_frames st !! i end) ∧
      st_last_ack_ms st' = now
  else st' = st ∧ w' = w.
Proof using Type.
  unfold export_acks. destruct (ack_due cfg st now); [|done].
  set (r := st_reassembler st). set (ids := (map_to_list _).*1).
  assert (Hids : ∀ i, i ∈ ids ↔ is_Some (st_pending_ack_frames st !! i)).
  { intros i. unfold ids. rw list_elem_of_fmap. split.
    - intros ([i' n] & -> & H%elem_of_map_to_list). by exists n.
    - intros [n Hn]. exists (i, n). split; [done|]. by apply elem_of_map_to_list. }
  eexists. split; [done|]. split_and!; [..|done].
  - assert (Hmap : ack_transaction_id <$> omap (rx_ack_entry r) ids =
      filter (λ i, is_Some (rx_ack_entry r i)) ids).
    { clear Hids. induction ids as [|i ids IH]; [done|].
      destruct (rx_ack_entry r i) as [e|] eqn:He.
      - rw filter_cons_True; [by rw He|]. rw -IH. cbn. rw He. cbn.
        by rw (rx_ack_entry_id r i e He).
      - rw filter_cons_False; [by rw He; intros []|]. rw -IH. cbn. by rw He. }
    rw Hmap. apply NoDup_filter, NoDup_fst_map_to_list.
  - intros e. rw list_elem_of_omap. split.
    + intros (i & Hi & He). rw (rx_ack_entry_id r i e He). by rw -Hids.
    + intros [Hi He]. exists (ack_transaction_id e). by rw Hids.
  - intros i. cbn. rw fold_delete_lookup. case_decide as Hin.
    + apply list_elem_of_filter in Hin as [[e He] _]. by rw He.
    + destruct (rx_ack_entry r i) as [e|] eqn:He; [|done].
      destruct (st_pending_ack_frames st !! i) eqn:Hp; [|done].
      destruct Hin. apply list_elem_of_filter. rw He Hids Hp. by split.
Qed.

(** What a tick leaves alone. *)
Definition tick_frame (st st' : SessionState) : Prop :=
  same_rx st st' ∧ st_completions st' = st_completions st ∧
  st_last_peer_activity_ms st' = st_last_peer_activity_ms st.

Lemma tick_steps cfg st w now :
  tick_frame st (export_acks cfg st w now).1 ∧ tick_frame st (send_nacks cfg st w now).1 ∧
  tick_frame st (redeclare cfg st w now).1 ∧ tick_frame st (heartbeat cfg st w now).1.
Proof using Type.
  unfold export_acks, send_nacks, redeclare, heartbeat.
  split_and!; [by case_match|by case_match| |by case_match].
  destruct (timed_out_declarations _ _ _) as [tx es]. by destruct es.
Qed.

Lemma tick_frame_trans a b c : tick_frame a b → tick_frame b c → tick_frame a c.
Proof using Type.
  intros (H1 & H2 & H3) (G1 & G2 & G3). split; [by trans b|]. split; congruence.
Qed.

Lemma clock_tick_frame s w now :
  let '(s', _, silent) := clock_tick s w now in
  tick_frame (ts_state s) (ts_state s') ∧
  (silent = (silent_timeout_ms (ts_config s) <=?
               now - st_last_peer_activity_ms (ts_state s))%N ∨
   silent = true ∧ ∃ w f, is_ok (write_data_frame w f).2 = false).
Proof using Type.
  unfold clock_tick. set (cfg := ts_config s).
  destruct (tick_steps cfg (ts_state s) w now) as (T1 & _).
  destruct (export_acks cfg (ts_state s) w now) as [st1 w1].
  destruct (tick_steps cfg st1 w1 now) as (_ & T2 & _).
  destruct (send_nacks cfg st1 w1 now) as [st2 w2].
  destruct (due_retransmissions (st_sender st2) now) as [tx fr]. cbn [fst] in *.
  assert (T3 : tick_frame (ts_state s) (set_sender tx st2)).
  { eapply tick_frame_trans; [exact T1|]. by eapply tick_frame_trans. }
  pose proof (write_all_ok w2 fr) as Hw.
  destruct (write_data_frames w2 fr) as [w3 ok] eqn:Hwr. destruct ok; cbn [negb].
  - destruct (tick_steps cfg (set_sender tx st2) w3 now) as (_ & _ & T4 & _).
    destruct (redeclare cfg _ w3 now) as [st4 w4].
    destruct (tick_steps cfg st4 w4 now) as (_ & _ & _ & T5).
    destruct (heartbeat cfg st4 w4 now) as [st5 w5]. cbn [fst] in *.
    assert (T : tick_frame (ts_state s) st5).
    { eapply tick_frame_trans; [exact T3|]. by eapply tick_frame_trans. }
    split; [done|]. left. destruct T as (_ & _ & ->). done.
  - split; [done|]. right. split; [done|].
    clear -Hwr. revert w2 Hwr. induction fr as [|f fr IH]; intros w; cbn; [done|].
    destruct (write_data_frame w f) as [w' [u|e]] eqn:Hf; [by apply IH|].
    intros _. exists w, f. by rw Hf.
Qed.

(** the silence verdict.  While the transport takes the data frames, a tick
    declares the peer silent exactly when no inbound frame refreshed the
    activity clock for [silent_timeout_ms]; whatever happens, the tick touches
    no slot, stream, or completion registration. *)
Theorem clock_tick_silence s w now :
  (∀ w f, is_ok (write_data_frame w f).2 = true) →
  let '(s', _, silent) := clock_tick s w now in
  (silent = true ↔ (silent_timeout_ms (ts_config s) ≤
                      now - st_last_peer_activity_ms (ts_state s))%N) ∧
  same_rx (ts_state s) (ts_state s') ∧
  st_completions (ts_state s') = st_completions (ts_state s).
Proof using Type.
  intros Hok. pose proof (clock_tick_frame s w now) as H.
  destruct (clock_tick s w now) as [[s' w'] silent].
  destruct H as [(H1 & H2 & _) [->|[_ (w1 & f & Hf)]]]; [|by rw Hok in Hf].
  split; [|done]. by rw N.leb_le.
Qed.
End tick.

(** ** Attaching and detaching *)

Lemma declare_pending_lookup s now id :
  s_pending (declare_pending s now).1 !! id = set_gate true (Some now) <$> s_pending s !! id.
Proof.
  unfold declare_pending. pose proof (iter_mut_lookup (declare_txn now) (s_pending s) id) as H.
  destruct (iter_mut _ _) as [p out]. exact H.
Qed.

Lemma gated_sends_nothing s now :
  map_Forall (λ _ t, txn_awaiting_resume t = true) (s_pending s) →
  (due_retransmissions s now).2 = [].
Proof.
  intros Hg. apply elem_of_nil_inv. intros f (id & t & i & st & Ht & _ & Ha & _)%elem_of_due.
  specialize (Hg id t Ht). cbn in Hg. congruence.
Qed.

Lemma stalled_view s :
  is_terminal (stored_state s) = false →
  BinaryStream_state (set_stalled s) = Stalled ∧
  BinaryStream_state (clear_stalled s) = stored_state s ∧
  BinaryStream_state (clear_stalled (set_stalled s)) = stored_state s ∧
  chunk_rx (set_stalled s) = chunk_rx s.
Proof.
  unfold BinaryStream_state, set_stalled, clear_stalled, stored_state. intros Ht.
  rw Ht. cbn. by rw Ht.
Qed.

Lemma streams_inv_open st id l si :
  streams_inv st → st_streams st !! id = Some l → st_heap st !! l = Some si →
  is_terminal (stored_state si) = false ∧ tx_alive si = true.
Proof.
  intros [_ He _ _] Hl Hs. destruct (He _ _ Hl) as (s0 & Hs0 & _ & Ha & Ht & _).
  by assert (s0 = si) as -> by congruence.
Qed.

Section lifecycle.
Context `{CRC : Crc32} `{UUID : UuidLib} {W : Type} `{WIRE : TransferWiring W}.
Context `{TRANSPORT : !XacppTransport W}.
Implicit Types (w : W) (s : TransferSession) (st : SessionState).

Lemma wire_core s tr w now :
  streams_inv (ts_state s) →
  let '(s', w', res) := wire s tr w now in
  if is_wired s then s' = s ∧ w' = w ∧ is_ok res = false
  else
    res = Ok tt ∧ ts_wiring s' = Some tr ∧
    ts_wake s' = ((ts_wake s + 1) mod 2 ^ 64)%N ∧
    st_last_peer_activity_ms (ts_state s') = now ∧
    (∀ id, s_pending (st_sender (ts_state s')) !! id =
           set_gate true (Some now) <$> s_pending (st_sender (ts_state s)) !! id) ∧
    (∀ t, (due_retransmissions (st_sender (ts_state s')) t).2 = []) ∧
    (∀ id l si, st_streams (ts_state s) !! id = Some l → st_heap (ts_state s) !! l = Some si →
       st_streams (ts_state s') !! id = Some l ∧
       ∃ si', st_heap (ts_state s') !! l = Some si' ∧
         BinaryStream_state si' = stored_state si ∧ chunk_rx si' = chunk_rx si).
Proof using Type.
  intros Hi. unfold wire, is_wired. destruct (ts_wiring s) as [tr0|]; [done|].
  set (st := ts_state s). set (tx := (declare_pending (st_sender (touch_peer now st)) now).1).
  cbn -[declare_pending clear_stalls].
  assert (Hp : ∀ id, s_pending tx !! id = set_gate true (Some now) <$> s_pending (st_sender st) !! id)
    by (intros id; apply declare_pending_lookup).
  split_and!; [done|done|done|done|exact Hp| |].
  - intros t. apply (gated_sends_nothing tx). intros id x. rw Hp.
    by intros (x0 & _ & ->)%fmap_Some.
  - intros id l si Hl Hs. split; [exact Hl|]. exists (clear_stalled si).
    set (st1 := set_sender tx (touch_peer now st)).
    destruct (update_streams_heap clear_stalled st1 l) as [Hu _]; [exact Hi|].
    specialize (Hu id Hl). change (st_heap st1) with (st_heap st) in Hu. rw Hs in Hu.
    split; [exact Hu|]. split; [|done]. apply stalled_view.
    by eapply streams_inv_open.
Qed.

(** wiring a detached session.  It succeeds, gates every held transaction
    behind a resume verdict (so no retransmission can leave before one), keeps
    the held copies, reopens the silence window, clears the flow stall of every
    stream back to its active or paused state without touching its chunks, and
    bumps the wake counter; a session already wired is refused unchanged. *)
Theorem wire_recovers s tr w now :
  streams_inv (ts_state s) →
  let '(s', w', res) := wire s tr w now in
  if is_wired s then s' = s ∧ w' = w ∧ is_ok res = false
  else
    res = Ok tt ∧ ts_wiring s' = Some tr ∧
    ts_wake s' = ((ts_wake s + 1) mod 2 ^ 64)%N ∧
    st_last_peer_activity_ms (ts_state s') = now ∧
    (∀ id, s_pending (st_sender (ts_state s')) !! id =
           set_gate true (Some now) <$> s_pending (st_sender (ts_state s)) !! id) ∧
    (∀ t, (due_retransmissions (st_sender (ts_state s')) t).2 = []) ∧
    (∀ id l si, st_streams (ts_state s) !! id = Some l → st_heap (ts_state s) !! l = Some si →
       st_streams (ts_state s') !! id = Some l ∧
       ∃ si', st_heap (ts_state s') !! l = Some si' ∧
         BinaryStream_state si' = stored_state si ∧ chunk_rx si' = chunk_rx si).
Proof using Type. apply wire_core. Qed.

Lemma stall_core s tr w now id l si :
  streams_inv (ts_state s) →
  st_streams (ts_state s) !! id = Some l → st_heap (ts_state s) !! l = Some si →
  let '(s1, w1) := unwire s w in
  let '(s2, _, _) := wire s1 tr w1 now in
  ts_wiring s1 = None ∧ ts_clock s1 = false ∧
  (∃ si1, st_streams (ts_state s1) !! id = Some l ∧ st_heap (ts_state s1) !! l = Some si1 ∧
     BinaryStream_state si1 = Stalled ∧ chunk_rx si1 = chunk_rx si ∧ tx_alive si1 = true) ∧
  (∃ si2, st_streams (ts_state s2) !! id = Some l ∧ st_heap (ts_state s2) !! l = Some si2 ∧
     BinaryStream_state si2 = stored_state si ∧ chunk_rx si2 = chunk_rx si ∧
     tx_alive si2 = true).
Proof using Type.
  intros Hi Hl Hs. unfold unwire, detach_connection, wire. cbn -[update_streams declare_pending].
  set (st := ts_state s) in *.
  destruct (streams_inv_open st id l si Hi Hl Hs) as [Ht Ha].
  destruct (stalled_view si Ht) as (V1 & _ & V3 & V4).
  destruct (update_streams_heap set_stalled st l Hi) as [U1 _]. specialize (U1 id Hl).
  rw Hs in U1. cbn in U1.
  set (st1 := stall_streams st).
  assert (Hi1 : streams_inv st1) by (apply update_streams_inv; [auto with streams|done]).
  set (tx := (declare_pending (st_sender (touch_peer now st1)) now).1).
  set (st2 := set_sender tx (touch_peer now st1)).
  destruct (update_streams_heap clear_stalled st2 l Hi1) as [U2 _]. specialize (U2 id Hl).
  change (st_heap st2) with (st_heap st1) in U2. unfold st1, stall_streams in U2.
  rw U1 in U2. cbn in U2.
  assert (Ha1 : tx_alive (set_stalled si) = true)
    by (destruct (flow_update_set_stalled si) as (_ & -> & _); done).
  split; [done|]. split; [done|]. split.
  - exists (set_stalled si). split; [exact Hl|]. split; [exact U1|]. done.
  - exists (clear_stalled (set_stalled si)). split; [exact Hl|]. split; [exact U2|].
    split; [done|]. split; [exact V4|exact Ha1].
Qed.

(** a disconnect never ends a stream.  Unwiring leaves every open stream in
    the table with its chunks, reading as stalled; wiring again shows it in the
    state it had before, paused intent included. *)
Theorem disconnect_stalls s tr w now id l si :
  streams_inv (ts_state s) →
  st_streams (ts_state s) !! id = Some l → st_heap (ts_state s) !! l = Some si →
  let '(s1, w1) := unwire s w in
  let '(s2, _, _) := wire s1 tr w1 now in
  ts_wiring s1 = None ∧ ts_clock s1 = false ∧
  (∃ si1, st_streams (ts_state s1) !! id = Some l ∧ st_heap (ts_state s1) !! l = Some si1 ∧
     BinaryStream_state si1 = Stalled ∧ chunk_rx si1 = chunk_rx si ∧ tx_alive si1 = true) ∧
  (∃ si2, st_streams (ts_state s2) !! id = Some l ∧ st_heap (ts_state s2) !! l = Some si2 ∧
     BinaryStream_state si2 = stored_state si ∧ chunk_rx si2 = chunk_rx si ∧
     tx_alive si2 = true).
Proof using Type. apply stall_core. Qed.
End lifecycle.
