(* ===== verification/Reception.v ===== *)
(** * A reception across frames, duplicates and connections

    The receiving half of a recovery: a transaction that is being received, or that
    has been handed over, stays in one of these two states whatever arrives, and the
    acknowledgements a run of data frames sends are known. *)
From S2P Require Import Prelude Crc Frame Control Sender Reassemble Errors Stream Transfer.
From S2P Require Import Delivery Clock.

(** ** Streams that left the table *)

(** No table entry points to the stream object at [l]. *)
Definition loose (l : loc) (st : SessionState) : Prop := ∀ id, st_streams st !! id ≠ Some l.

(** A stream object outside the table is never touched again. *)
Definition kept (st st' : SessionState) : Prop :=
  ∀ l s, loose l st → st_heap st !! l = Some s → loose l st' ∧ st_heap st' !! l = Some s.

#[export] Instance kept_preorder : PreOrder kept.
Proof.
  split; [by intros st l s|]. intros a b c Hab Hbc l s Hl Hs.
  destruct (Hab l s Hl Hs) as [Hl' Hs']. by apply Hbc.
Qed.

Lemma kept_same st st' :
  st_streams st' = st_streams st → st_heap st' = st_heap st → kept st st'.
Proof. unfold kept, loose. by intros -> ->. Qed.

Lemma kept_with_stream f id st : kept st (with_stream f id st).
Proof.
  intros l s Hl Hs. unfold with_stream. destruct (st_streams st !! id) as [l'|] eqn:Hid; [|done].
  split; [done|]. cbn. unfold heap_update. rw list_lookup_alter_ne //.
  intros ->. by apply (Hl id).
Qed.

Lemma kept_remove_stream f id st : kept st (remove_stream f id st).
Proof.
  intros l s Hl Hs. unfold remove_stream. destruct (st_streams st !! id) as [l'|] eqn:Hid; [|done].
  split; [intros i; cbn; intros [_ Hi]%lookup_delete_Some; by apply (Hl i)|].
  cbn. unfold heap_update. rw list_lookup_alter_ne //. intros ->. by apply (Hl id).
Qed.

Lemma kept_install id total chunks st : kept st (install_stream id total chunks st).1.
Proof.
  intros l s Hl Hs. unfold install_stream. cbn.
  assert (Hlt : l < length (st_heap st)) by by eapply lookup_lt_Some.
  split.
  - intros i. cbn. destruct (decide (i = id)) as [->|].
    + rw lookup_insert_eq. intros [= ?]. lia.
    + rw lookup_insert_ne //.
  - apply lookup_app_l_Some. destruct (st_streams st !! id) as [old|] eqn:Ho; [|done].
    unfold heap_update. rw list_lookup_alter_ne //. intros ->. by apply (Hl id).
Qed.

Create HintDb kept.
#[export] Hint Resolve kept_with_stream kept_remove_stream kept_install : kept.
#[export] Hint Extern 5 (kept _ _) => by apply kept_same : kept.

Lemma kept_cancel_fold ids st : kept st (foldl cancel_abandoned st ids).
Proof.
  revert st. induction ids as [|i ids IH]; intros st; [done|]. cbn [foldl].
  trans (cancel_abandoned st i); [|apply IH]. unfold cancel_abandoned.
  trans (remove_stream (stream_finish Cancelled) i (discard_slot i st)); [|auto with kept].
  apply (kept_remove_stream _ i (discard_slot i st)).
Qed.

Lemma kept_update_streams f st : kept st (update_streams f st).
Proof.
  intros l s Hl Hs. split; [done|]. unfold update_streams. cbn.
  assert (Hni : l ∉ (map_to_list (st_streams st)).*2).
  { rw elem_of_stream_locs. intros [i Hi]. by apply (Hl i). }
  revert Hs. generalize (st_heap st). induction (map_to_list (st_streams st)).*2 as [|l' ls IH];
    intros h Hh; [done|]. apply not_elem_of_cons in Hni as [Hne Hni]. cbn. apply IH; [done|].
  unfold heap_update. rw list_lookup_alter_ne //.
Qed.

Section inbound.
Context `{CRC : Crc32} `{UUID : UuidLib} {W : Type} `{WIRE : TransferWiring W}.
Implicit Types (w : W) (st : SessionState) (s : TransferSession).

Lemma kept_data st f w hp sp now : kept st (on_data_frame st f w hp sp now).1.1.1.
Proof using Type.
  unfold on_data_frame. destruct (receive_frame _ _ _ _ _ _ _ _) as [r o].
  destruct o as [[c e| |]|]; [|by apply kept_same..].
  set (b := sp && _ && _). set (st1 := set_pending_acks _ _ _).
  trans st1; [by apply kept_same|].
  assert (Hf : kept st1 (feed_stream b (transaction_id f) (total_len f) e st1).1).
  { unfold feed_stream. destruct b; cbn; [|auto with kept].
    apply (kept_install (transaction_id f) (total_len f) e st1). }
  destruct (feed_stream _ _ _ _ st1) as [st2 o]. cbn [fst] in *. trans st2; [done|].
  destruct c; [|done]. unfold settle_complete. case_decide; cbn [fst].
  - trans (remove_stream (stream_finish Complete) (transaction_id f)
      (disown (transaction_id f) (remove_pending_ack (transaction_id f) st2)));
      [|by apply kept_same].
    apply (kept_remove_stream _ _ (disown _ (remove_pending_ack (transaction_id f) st2))).
  - destruct hp; [|by apply kept_same]. destruct (rx_take_completed _ _). by apply kept_same.
Qed.

Lemma kept_control st f w now :
  kept st (on_transaction_pause_frame st f) ∧ kept st (on_transaction_abort_frame st f) ∧
  kept st (on_transaction_completed_frame st f) ∧ kept st (on_error_frame st f) ∧
  kept st (on_resume_request_frame st f w now).1.
Proof using Type.
  assert (Hclose : ∀ g i st0 st', st_streams st' = st_streams (remove_stream g i st0) →
    st_heap st' = st_heap (remove_stream g i st0) → kept st0 st').
  { intros g i st0 st' H1 H2. trans (remove_stream g i st0); [auto with kept|by apply kept_same]. }
  split_and!.
  - unfold on_transaction_pause_frame. case_match; auto with kept.
  - unfold on_transaction_abort_frame. case_match; [|done]. by eapply Hclose.
  - unfold on_transaction_completed_frame. case_match; [|done]. case_match; [done|]. case_match.
    + case_match; [|done]. by eapply Hclose.
    + destruct (default _ _) as [x y]. by eapply Hclose.
  - unfold on_error_frame. case_match; [|done]. case_match; [|done]. case_match; [|done].
    by eapply (Hclose _ _ (discard_slot _ st)).
  - unfold on_resume_request_frame. case_match; [|done]. case_match; [done|].
    apply kept_cancel_fold.
Qed.

Lemma same_rx_kept st st' : same_rx st st' → kept st st'.
Proof using Type. intros (_ & H1 & _ & H2). by apply kept_same. Qed.

Lemma inbound_kept s f w now :
  kept (ts_state s) (ts_state (handle_inbound s f w now).1.1).
Proof using Type.
  rw handle_inbound_state. cbn zeta. set (st := touch_peer now (ts_state s)).
  trans st; [by apply kept_same|].
  pose proof (kept_control st f w now) as (H1 & H2 & H3 & H4 & H5).
  destruct (frame_type f); try done.
  - apply same_rx_kept, on_ack_same_rx.
  - apply same_rx_kept, on_nack_same_rx.
  - apply same_rx_kept, on_resume_response_same_rx.
  - apply kept_data.
Qed.

(** ** What a data frame makes the receiver send *)

Definition send_acks w (es : list AckEntry) : W := foldl (λ w e, send_ack_entries w [e]) w es.

Lemma data_acks s f w now : frame_type f = DataBinary →
  ∃ es, (handle_inbound s f w now).1.2 = send_acks w es ∧
    Forall (λ e, ack_transaction_id e = transaction_id f) es.
Proof using Type.
  intros Ht. rw handle_inbound_data //. unfold on_data_frame.
  destruct (receive_frame _ _ _ _ _ _ _ _) as [r o].
  destruct o as [[c e| |]|]; [|by exists []..].
  destruct (feed_stream _ _ _ _ _) as [st2 opened]. destruct c; [|by exists []].
  unfold settle_complete. destruct (rx_ack_entry (st_reassembler st2) (transaction_id f)) as [a|] eqn:Ha.
  - exists [a]. split; [|constructor; [by eapply rx_ack_entry_id|constructor]].
    case_decide; [done|]. destruct (ts_binary_handler s); [|done].
    by destruct (rx_take_completed _ _).
  - exists []. split; [|constructor]. case_decide; [done|].
    destruct (ts_binary_handler s); [|done]. by destruct (rx_take_completed _ _).
Qed.
End inbound.

(** ** The two states of a reception *)

(** The sequence numbers [ks] of a transaction of [n] frames arrive after [own]: the
    first frame comes first, and does not come again once all have arrived. *)
Fixpoint orderly (n : N) (own ks : list N) : Prop :=
  match ks with
  | [] => True
  | k :: ks =>
      (own = [] → k = 0%N) ∧ ((∀ i, (i < n)%N → i ∈ own) → k ≠ 0%N) ∧ orderly n (own ++ [k]) ks
  end.

Lemma orderly_app n own ks1 ks2 :
  orderly n own (ks1 ++ ks2) ↔ orderly n own ks1 ∧ orderly n (own ++ ks1) ks2.
Proof.
  revert own. induction ks1 as [|k ks1 IH]; intros own; cbn; [by rw app_nil_r; tauto|].
  rw IH -app_assoc. cbn. tauto.
Qed.

(** A frame that arrives: one the sender emitted for [id], or one that does not
    address [id]. *)
Definition from_sender `{Crc32} `{UuidLib} (id : txid) (l : list Frame) (a : Frame * N) : Prop :=
  (a.1 ∈ l ∧ transaction_id a.1 = id) ∨ ¬ touches id a.1.

(** The application has the content, once: as one payload, or as the bytes of one
    complete stream. *)
Definition got (id : txid) (sp : bool) (data : list byte) (out : list AppEvent)
    (s : TransferSession) : Prop :=
  if sp then
    deliveries id out = [] ∧
    ∃ l si, StreamOpened l ∈ out ∧ st_heap (ts_state s) !! l = Some si ∧
      BinaryStream_state si = Complete ∧ tx_alive si = false ∧
      concat (chunk_bytes <$> chunk_rx si) = data
  else deliveries id out = [data].

Section reception.
Context `{CRC : Crc32} `{UUID : UuidLib} {W : Type} `{WIRE : TransferWiring W}.
Context (id : txid) (total : N) (ps : list (list byte)).
Context (Hne : Forall (λ p, 1 ≤ length p) ps).
Context (Htotal : total = len (concat ps)) (Hu32 : (total ≤ U32_MAX)%N).
Context (sp : bool).
Implicit Types (w : W) (s : TransferSession).

Record finished (out : list AppEvent) (s : TransferSession) : Prop := {
  fin_inv : streams_inv (ts_state s);
  fin_sp : ts_stream_handler s = sp;
  fin_hp : sp = false → ts_binary_handler s = true;
  fin_slot : slots (st_reassembler (ts_state s)) !! id = None;
  fin_got : got id sp (concat ps) out s;
}.

(** Some frames are missing, or the content has been handed over. *)
Definition reception (out : list AppEvent) (own : list N) (s : TransferSession) : Prop :=
  (¬ all_seen ps own ∧ progress id total ps sp out own s) ∨ (all_seen ps own ∧ finished out s).

(** A stream that ended is outside the table. *)
Lemma ended_loose st l si :
  streams_inv st → st_heap st !! l = Some si → tx_alive si = false → loose l st.
Proof using Type.
  intros [_ He _ _] Hl Ha i Hi. destruct (He i l Hi) as (s' & Hs' & _ & Ha' & _). congruence.
Qed.

Lemma got_kept out new s s' :
  streams_inv (ts_state s) → kept (ts_state s) (ts_state s') → deliveries id new = [] →
  got id sp (concat ps) out s → got id sp (concat ps) (out ++ new) s'.
Proof using Type.
  intros Hi Hk Hn. unfold got. destruct sp; rw deliveries_app Hn app_nil_r; [|done].
  intros (Hd & l & si & Ho & Hh & Hc & Ha & Hb). split; [done|]. exists l, si.
  destruct (Hk l si) as [_ Hh']; [by eapply ended_loose|done|].
  split_and!; try done. apply elem_of_app. by left.
Qed.

Lemma finished_kept out new s s' :
  finished out s → streams_inv (ts_state s') → kept (ts_state s) (ts_state s') →
  ts_stream_handler s' = ts_stream_handler s → ts_binary_handler s' = ts_binary_handler s →
  slots (st_reassembler (ts_state s')) !! id = slots (st_reassembler (ts_state s)) !! id →
  deliveries id new = [] → finished (out ++ new) s'.
Proof using Type.
  intros [F1 F2 F3 F4 F5] Hi Hk H1 H2 H3 Hn. split; [done|congruence|by rw H2|congruence|].
  by apply (got_kept out new s s').
Qed.

Lemma finished_foreign out s f w t :
  ¬ touches id f → finished out s →
  let '(s', w', new) := handle_inbound s f w t in finished (out ++ new) s'.
Proof using Type.
  intros Ht Hf. pose proof (inbound_keeps_streams s f w t (fin_inv _ _ Hf)) as Hi.
  pose proof (inbound_kept s f w t) as Hk. pose proof (foreign_deliveries id s f w t Ht) as Hd.
  destruct (handle_inbound_handlers s f w t) as [H1 H2].
  destruct (handle_inbound_isolated id s f w t Ht) as [_ (Hs & _)];
    [by eapply own_stream_of_inv, fin_inv|].
  destruct (handle_inbound s f w t) as [[s' w'] new]. cbn [fst snd] in *. by apply (finished_kept out new s s').
Qed.

(** A late frame, other than the first, of a transaction handed over. *)
Lemma finished_late out s w t i p :
  finished out s → i ≠ 0 →
  let '(s', w', new) := handle_inbound s (piece_frame id total i p) w t in
  finished (out ++ new) s' ∧ w' = w.
Proof using Htotal Hu32.
  intros Hf H0. pose proof (fin_slot _ _ Hf) as Hn. rw handle_inbound_data //.
  unfold on_data_frame, piece_frame. cbn [transaction_id seq total_len payload].
  assert (Hr : ∃ o, receive_frame (st_reassembler (touch_peer t (ts_state s))) id (N.of_nat i) total
    (len p) p t (ts_stream_handler s) = (st_reassembler (ts_state s), o) ∧
    ∀ c e, o ≠ Ok (Accepted c e)).
  { unfold receive_frame. case_decide; [done|]. case_match; [by eexists|].
    assert (Hc : (0 <? N.of_nat i)%N && negb (rx_contains_transaction
      (st_reassembler (touch_peer t (ts_state s))) id) = true).
    { unfold rx_contains_transaction. cbn. rw Hn. cmp. done. }
    rw Hc. by eexists. }
  destruct Hr as (o & -> & Ho).
  assert (Hres : finished (out ++ []) (set_state (set_reassembler (st_reassembler (ts_state s))
    (touch_peer t (ts_state s))) s)).
  { destruct Hf as [F1 F2 F3 F4 F5]. apply (finished_kept out [] s); [by split|done|by apply kept_same|done..]. }
  destruct o as [[c e| |]|]; [by destruct (Ho c e)|by split..].
Qed.

(** The final acknowledgement. *)
Definition final_ack : AckEntry := mkAckEntry id (len ps - 1) (len ps).

(** The acknowledgements of a run of data frames: of those for [id] only the final
    one, and that one when the run completed the transaction. *)
Definition acks_of_run (own own' : list N) (es : list AckEntry) : Prop :=
  (∀ e, e ∈ es → ack_transaction_id e = id → e = final_ack) ∧
  (¬ all_seen ps own → all_seen ps own' → final_ack ∈ es).

Lemma handed_finished out new own s s' w w' :
  progress id total ps sp out own s →
  streams_inv (ts_state s') → ts_stream_handler s' = ts_stream_handler s →
  ts_binary_handler s' = ts_binary_handler s →
  handed_over id ps sp out new w s' w' → finished (out ++ new) s' ∧ w' = send_acks w [final_ack].
Proof using Type.
  intros [_ P2 P3 P4 _] Hi H1 H2 (Hs & -> & Hg). split; [|done].
  split; [done|congruence|by rw H2|done|].
  unfold got. rw deliveries_app P4. destruct sp.
  - destruct Hg as (Hn & l & si & Ho & Hh & Hc & Ha & Hb). split; [done|]. exists l, si.
    by rw Hb.
  - rw Hg. cbn. by case_decide.
Qed.

(** One frame. *)
Lemma reception_step out own s f w t :
  reception out own s → arrival_ok id total ps (f, t) → orderly (len ps) own (own_seqs id [(f, t)]) →
  let '(s', w', new) := handle_inbound s f w t in
  let own' := own ++ own_seqs id [(f, t)] in
  reception (out ++ new) own' s' ∧
  (frame_type f = DataBinary → ∃ es, w' = send_acks w es ∧ acks_of_run own own' es).
Proof using Hne Htotal Hu32.
  intros Hrec Harr Hord. destruct Harr as [(i & p & Hp & Hf)|Hfor]; cbn [fst] in *.
  - subst f. rw own_seqs_piece in Hord |- *. destruct Hord as (H0 & Hlate & _).
    destruct Hrec as [[Hns Hpr]|[Hall Hfin]].
    + pose proof (progress_own id total ps Hne Htotal Hu32 sp out own s w t i p Hpr Hp) as Hstep.
      pose proof (inbound_keeps_streams s (piece_frame id total i p) w t (pr_inv _ _ _ _ _ _ _ Hpr)) as Hi.
      pose proof (handle_inbound_handlers s (piece_frame id total i p) w t) as [Hh1 Hh2].
      cbn zeta in Hstep. destruct (handle_inbound _ _ _ _) as [[s' w'] new]. cbn [fst snd] in *.
      destruct Hstep as [(Hn & -> & Hp')|[Ha Hh]]; [intros Ho; specialize (H0 Ho); lia|..].
      * split; [by left|]. intros _. exists []. split; [done|]. split; [by intros e He%elem_of_nil|done].
      * destruct (handed_finished out new own s s' w w' Hpr Hi Hh1 Hh2 Hh) as [Hfin ->].
        split; [by right|]. intros _. exists [final_ack]. split; [done|]. split.
        -- by intros e ->%list_elem_of_singleton.
        -- intros _ _. by left.
    + pose proof (finished_late out s w t i p Hfin) as Hl.
      destruct (handle_inbound _ _ _ _) as [[s' w'] new].
      destruct Hl as [Hf' ->]; [intros ->; by apply Hlate|]. split.
      * right. split; [|done]. intros k Hk. apply elem_of_app. left. by apply Hall.
      * intros _. exists []. split; [done|]. split; [by intros e He%elem_of_nil|done].
  - rw own_seqs_foreign // app_nil_r. clear Hord.
    assert (Hnew : let '(s', w', new) := handle_inbound s f w t in reception (out ++ new) own s').
    { destruct Hrec as [[Hns Hpr]|[Hall Hfin]].
      - pose proof (progress_foreign id total ps sp out own s f w t Hfor Hpr) as H.
        destruct (handle_inbound _ _ _ _) as [[s' w'] new]. by left.
      - pose proof (finished_foreign out s f w t Hfor Hfin) as H.
        destruct (handle_inbound _ _ _ _) as [[s' w'] new]. by right. }
    pose proof (data_acks s f w t) as Hd. destruct (handle_inbound _ _ _ _) as [[s' w'] new].
    split; [done|]. intros Hty. destruct (Hd Hty) as (es & Hw & Hes). exists es. split; [done|].
    split; [|done]. intros e He Hid. exfalso. apply Hfor. unfold touches. rw Hty.
    rw -Hid. symmetry. by apply (proj1 (Forall_forall _ _) Hes).
Qed.

Lemma acks_of_run_app own own1 own2 es1 es2 :
  (¬ all_seen ps own1 ∨ all_seen ps own1) →
  acks_of_run own own1 es1 → acks_of_run own1 own2 es2 → acks_of_run own own2 (es1 ++ es2).
Proof using Type.
  intros Hdec [A1 B1] [A2 B2]. split.
  - intros e [He|He]%elem_of_app; auto.
  - intros Hn Ha. apply elem_of_app. destruct Hdec as [Hd|Hd]; auto.
Qed.

Lemma send_acks_app w es1 es2 : send_acks w (es1 ++ es2) = send_acks (send_acks w es1) es2.
Proof using Type. apply foldl_app. Qed.

(** Any arrivals. *)
Lemma reception_run out own s arr w :
  reception out own s → Forall (arrival_ok id total ps) arr → orderly (len ps) own (own_seqs id arr) →
  let '(s', w', new) := inbound_all s arr w in
  let own' := own ++ own_seqs id arr in
  reception (out ++ new) own' s' ∧
  (Forall (λ a, frame_type a.1 = DataBinary) arr →
   ∃ es, w' = send_acks w es ∧ acks_of_run own own' es).
Proof using Hne Htotal Hu32.
  intros Hrec. unfold inbound_all. induction arr as [|[f t] arr IH] using rev_ind.
  { cbn. rw !app_nil_r. intros _ _. split; [done|]. intros _. exists []. split; [done|].
    split; [by intros e He%elem_of_nil|done]. }
  intros [Harr Hf]%Forall_app. rw Forall_singleton in Hf.
  assert (Happ : own_seqs id (arr ++ [(f, t)]) = own_seqs id arr ++ own_seqs id [(f, t)])
    by apply omap_app.
  rw Happ orderly_app. intros [Ho1 Ho2]. specialize (IH Harr Ho1). rw foldl_app. cbn [foldl].
  destruct (foldl inbound_step (s, w, []) arr) as [[s1 w1] out1]. destruct IH as [Hr1 Hw1].
  cbn [inbound_step fst snd].
  pose proof (reception_step _ _ s1 f w1 t Hr1 Hf Ho2) as Hstep.
  destruct (handle_inbound s1 f w1 t) as [[s2 w2] new]. destruct Hstep as [Hr2 Hw2].
  rw app_assoc (app_assoc own). split; [done|]. intros [Ht1 Ht2]%Forall_app. rw Forall_singleton in Ht2.
  destruct (Hw1 Ht1) as (es1 & -> & He1). destruct (Hw2 Ht2) as (es2 & -> & He2).
  exists (es1 ++ es2). split; [by rw send_acks_app|]. eapply acks_of_run_app; [|done|done].
  destruct Hr1 as [[? _]|[? _]]; auto.
Qed.

(** The start: nothing of the transaction has been seen. *)
Lemma reception_start s :
  ps ≠ [] → streams_inv (ts_state s) → slots (st_reassembler (ts_state s)) !! id = None →
  ts_stream_handler s = sp → (sp = false → ts_binary_handler s = true) → reception [] [] s.
Proof using Hne Htotal Hu32.
  intros Hps Hi Hn H1 H2. left. split; [|by split; auto].
  intros Ha. specialize (Ha 0%N). apply elem_of_nil in Ha; [done|].
  unfold len. destruct ps; [done|]. cbn. lia.
Qed.

(** Updates that leave the reception of [id] alone. *)
Lemma reception_same out own s s' :
  streams_inv (ts_state s') → ts_stream_handler s' = ts_stream_handler s →
  ts_binary_handler s' = ts_binary_handler s → kept (ts_state s) (ts_state s') →
  same_reception id (ts_state s) (ts_state s') → reception out own s → reception out own s'.
Proof using Type.
  intros Hi H1 H2 Hk Hs [[Hns Hpr]|[Ha Hf]]; [left|right]; (split; [done|]).
  - apply (progress_same id total ps sp out out own s s'); try done. by eapply pr_quiet.
  - rw -(app_nil_r out). apply (finished_kept out [] s s'); try done. apply Hs.
Qed.
End reception.
