(* ===== verification/Sink.v ===== *)
(** * The sending side of the session
    ([src/transfer/sink.rs], [send_binary] of [src/transfer/core.rs])

    Streaming sinks and the whole-payload form.  [sink_write] is one pass of its
    retry loop, which either returns or parks on the wake counter; [sink_finish]
    is a state machine with one step per lock section or transport call, so that
    other session operations may run between its steps. *)
From S2P Require Import Prelude Crc Frame Control Sender Reassemble Errors Stream Transfer Clock.

Record BinaryMeta : Type := mkBinaryMeta { meta_total_len : N }.

Definition backpressure_error (st : SessionState) : XacppError :=
  Application "backpressure_stall"
    (UnackedAtCap (unacked_bytes (st_sender st))
       (backpressure_cap_bytes (s_config (st_sender st)))).

(** [txid.unwrap_or_else(Uuid::new_v4)]: [fresh] is the generated id. *)
Definition open_binary_sink (s : TransferSession) (meta : BinaryMeta) (txid : option txid)
    (fresh : Prelude.txid) (now : N) : TransferSession * result Prelude.txid XacppError :=
  let id := default fresh txid in
  match open_transaction (st_sender (ts_state s)) id (meta_total_len meta) now with
  | (tx, Ok _) => (upd_state (set_sender tx) s, Ok id)
  | (tx, Err e) =>
      (upd_state (set_sender tx) s,
       Err match e with
           | DuplicateTransaction =>
               InvalidState (Lit "binary sink: transaction id already in flight")
           | EmptyPayload => InvalidState (Lit "binary sink: total_len must be non-zero")
           | other => Internal (DisplayBegin other)
           end)
  end.

(** One pass of the write loop. *)
Inductive WritePass : Type :=
  | WriteParked
  | WriteReturns (r : result unit XacppError).

(** Where a [finish] call stands: each constructor names what it does next. *)
Inductive FinishPoint : Type :=
  | FinCheck
  | FinClose
  | FinGate (tail : list Frame)
  | FinFlush (tail : list Frame) (seen : N) (waited : bool)
  | FinParked (tail : list Frame) (seen : N)
  | FinAnnounce
  | FinRegister
  | FinRecheck
  | FinUnregister
  | FinWait
  | FinDone (r : result BinarySendResult XacppError).

Section sink.
Context `{CRC : Crc32} {W : Type} `{WIRE : TransferWiring W}.
Implicit Types (w : W) (s : TransferSession) (id : txid).

Definition sink_write s w id (chunk : list byte) (now : N) :
    TransferSession * W * WritePass :=
  match ts_wiring s with
  | None => (s, w, WriteParked)
  | Some _ =>
      let tx := st_sender (ts_state s) in
      if is_transaction_paused tx id || is_awaiting_resume tx id
      then (s, w, WriteParked)
      else
        match append_chunk tx id chunk now with
        | (tx', Ok frames) =>
            (upd_state (set_sender tx') s, (write_data_frames w frames).1,
             WriteReturns (Ok tt))
        | (tx', Err (Backpressured _ _ _)) =>
            (upd_state (set_sender tx') s, w, WriteParked)
        | (tx', Err e) =>
            (upd_state (set_sender tx') s, w,
             WriteReturns (Err (InvalidState (DisplayBegin e))))
        end
  end.

(** [wiring.ok_or(NotConnected)?.write_data_frame(frame)]. *)
Definition write_ordered_control s w (f : Frame) : W * result unit XacppError :=
  match ts_wiring s with
  | None => (w, Err NotConnected)
  | Some _ => write_data_frame w f
  end.

Definition sink_pause s w id (now : N) : TransferSession * W * result unit XacppError :=
  match set_paused (st_sender (ts_state s)) id true now with
  | (tx, false) =>
      (upd_state (set_sender tx) s, w,
       Err (InvalidState (Lit "binary sink pause: transaction not active")))
  | (tx, true) =>
      let s := upd_state (set_sender tx) s in
      match pause_frame id with
      | Err e => (s, w, Err e)
      | Ok f => let '(w, r) := write_ordered_control s w f in (s, w, r)
      end
  end.

Definition sink_resume s id (now : N) : TransferSession * result unit XacppError :=
  match set_paused (st_sender (ts_state s)) id false now with
  | (tx, false) =>
      (upd_state (set_sender tx) s,
       Err (InvalidState (Lit "binary sink resume: transaction not active")))
  | (tx, true) => (wake_writers (upd_state (set_sender tx) s), Ok tt)
  end.

(** The completion leaves the table before the existence test; it fires only
    when the transaction was active. *)
Definition sink_abort s w id : TransferSession * W * list AppEvent * result unit XacppError :=
  let '(tx, existed) := abort_transaction (st_sender (ts_state s)) id in
  let completion := st_completions (ts_state s) !! id in
  let s := upd_state (λ st, set_completions (delete id (st_completions st))
                              (set_sender tx st)) s in
  if negb existed
  then (s, w, [], Err (InvalidState (Lit "binary sink abort: transaction not active")))
  else
    let out := match completion with
               | Some cb => [CompletionFired cb (mkBinarySendResult id false)]
               | None => []
               end in
    let s := wake_writers s in
    match abort_frame id with
    | Err e => (s, w, out, Err e)
    | Ok f => let '(w, r) := write_ordered_control s w f in (s, w, out, r)
    end.

(** One step of [sink_finish]; [cb] is the handle of the oneshot callback it
    registers.  [FinParked] waits for a bump of the wake counter and [FinWait]
    for its callback: both step to themselves until then ([FinWait] is left by
    [finish_fired]). *)
Definition sink_finish_step s w id (cb : CompletionCallback) (p : FinishPoint) (now : N) :
    TransferSession * W * list AppEvent * FinishPoint :=
  let tx := st_sender (ts_state s) in
  match p with
  | FinCheck =>
      (s, w, [], if negb (contains_transaction tx id)
                 then FinDone (Ok (mkBinarySendResult id true)) else FinClose)
  | FinClose =>
      match finish_transaction tx id now with
      | (tx', Ok tail) => (upd_state (set_sender tx') s, w, [], FinGate tail)
      | (tx', Err e) =>
          let '(s, w, out, _) := sink_abort (upd_state (set_sender tx') s) w id in
          (s, w, out, FinDone (Err (InvalidState (DisplayBegin e))))
      end
  | FinGate tail =>
      (s, w, [], if is_awaiting_resume tx id then FinRegister
                 else FinFlush tail (ts_wake s) false)
  | FinFlush tail seen waited =>
      match ts_wiring s with
      | Some _ =>
          let '(w, flushed) := write_data_frames w tail in
          (s, w, [], if flushed then FinAnnounce else FinRegister)
      | None => (s, w, [], if waited then FinRegister else FinParked tail seen)
      end
  | FinParked tail seen =>
      (s, w, [], if (ts_wake s =? seen)%N then p else FinFlush tail (ts_wake s) true)
  | FinAnnounce =>
      match completed_frame id with
      | Ok f => (s, (write_ordered_control s w f).1, [], FinRegister)
      | Err _ => (s, w, [], FinRegister)
      end
  | FinRegister =>
      (upd_state (λ st, set_completions (<[id := cb]> (st_completions st)) st) s,
       w, [], FinRecheck)
  | FinRecheck =>
      (s, w, [], if negb (contains_transaction tx id) then FinUnregister else FinWait)
  | FinUnregister =>
      (upd_state (λ st, set_completions (delete id (st_completions st)) st) s, w, [],
       FinDone (Ok (mkBinarySendResult id true)))
  | FinWait => (s, w, [], FinWait)
  | FinDone r => (s, w, [], FinDone r)
  end.

(** The callback of a waiting [finish] is invoked with [r]. *)
Definition finish_fired (r : BinarySendResult) (p : FinishPoint) : FinishPoint :=
  match p with FinWait => FinDone (Ok r) | _ => p end.

(** [for frame in frames { wiring.write_data_frame(frame).await?; }]. *)
Fixpoint try_write_data_frames w (frames : list Frame) : W * result unit XacppError :=
  match frames with
  | [] => (w, Ok tt)
  | f :: rest =>
      match write_data_frame w f with
      | (w', Ok _) => try_write_data_frames w' rest
      | (w', Err e) => (w', Err e)
      end
  end.

(** The whole-payload form; [fresh] is the id [Uuid::new_v4] returned. *)
Definition send_binary s w (payload : list byte) (on_complete : option CompletionCallback)
    (fresh : txid) (now : N) : TransferSession * W * result txid XacppError :=
  let put tx := upd_state (set_sender tx) s in
  let tx := st_sender (ts_state s) in
  if is_paused tx then (s, w, Err (backpressure_error (ts_state s)))
  else
    match open_transaction tx fresh (as_u32 (len payload)) now with
    | (tx1, Err e) => (put tx1, w, Err (Internal (DisplayBegin e)))
    | (tx1, Ok _) =>
        match append_chunk tx1 fresh payload now with
        | (tx2, Err e) =>
            (put tx2, w,
             Err match e with
                 | Backpressured _ _ _ => backpressure_error (ts_state (put tx2))
                 | other => Internal (DisplayBegin other)
                 end)
        | (tx2, Ok frames) =>
            match finish_transaction tx2 fresh now with
            | (tx3, Err e) => (put tx3, w, Err (Internal (DisplayBegin e)))
            | (tx3, Ok tail) =>
                let s' := upd_state (λ st, match on_complete with
                                           | Some cb => set_completions
                                               (<[fresh := cb]> (st_completions st)) st
                                           | None => st
                                           end) (put tx3) in
                match try_write_data_frames w (frames ++ tail) with
                | (w1, Err e) => (s', w1, Err e)
                | (w1, Ok _) =>
                    match completed_frame fresh with
                    | Err e => (s', w1, Err (Internal (DisplayError e)))
                    | Ok f =>
                        match write_data_frame w1 f with
                        | (w2, Ok _) => (s', w2, Ok fresh)
                        | (w2, Err e) => (s', w2, Err e)
                        end
                    end
                end
            end
        end
    end.
End sink.

(** ** The whole-payload form *)

Lemma finish_Ok_sent tx id now tx' tail :
  finish_transaction tx id now = (tx', Ok tail) → sent_flag tx' id = Some true.
Proof.
  unfold finish_transaction, sent_flag. destruct (s_pending tx !! id) as [t|]; [|done].
  assert (Hset : ∀ t', txn_partial t' = [] → txn_written t' = txn_total_len t' →
    is_fully_sent <$> s_pending (set_pending tx id t') !! id = Some true).
  { intros t' H1 H2. cbn. rw lookup_insert_eq. cbn. unfold is_fully_sent.
    by rw H1 H2 N.eqb_refl. }
  case_bool_decide as Hp; cbn; case_decide as Hd; try done; intros [= <- _];
    by apply Hset.
Qed.

Section send.
Context `{CRC : Crc32} {W : Type} `{WIRE : TransferWiring W}.
Implicit Types (w : W) (s : TransferSession) (id : txid).

Lemma try_write_ok w fr :
  (write_data_frames w fr).2 = true →
  try_write_data_frames w fr = ((write_data_frames w fr).1, Ok tt).
Proof using Type.
  revert w. induction fr as [|f fr IH]; intros w; [done|]. cbn.
  destruct (write_data_frame w f) as [w' [[]|]]; [|done]. apply IH.
Qed.

Lemma write_data_frames_app w a b :
  write_data_frames w (a ++ b) =
  let '(w', ok) := write_data_frames w a in
  if ok then write_data_frames w' b else (w', false).
Proof using Type.
  revert w. induction a as [|f a IH]; intros w; [done|]. cbn.
  destruct (write_data_frame w f) as [w' [[]|]]; [|done]. apply IH.
Qed.

(** The completion announcement of [id]. *)
Definition completion_frame id : Frame :=
  Frame_new TransactionCompleted zero_txid 0 0 (array_bytes id).

Lemma send_binary_core cfg s w payload cb fresh now d l :
  sender_reach cfg (mkHistory (st_sender (ts_state s)) d l) →
  s_pending (st_sender (ts_state s)) !! fresh = None → (1 ≤ len payload ≤ U32_MAX)%N →
  (unacked_bytes (st_sender (ts_state s)) + len payload ≤
     backpressure_cap_bytes (s_config (st_sender (ts_state s))))%N →
  let frames := reference_frames fresh (frame_size (s_config (st_sender (ts_state s))))
                  payload ++ [completion_frame fresh] in
  (write_data_frames w frames).2 = true →
  let '(s', w', r) := send_binary s w payload cb fresh now in
  r = Ok fresh ∧ w' = (write_data_frames w frames).1 ∧
  sent_flag (st_sender (ts_state s')) fresh = Some true ∧
  st_completions (ts_state s') =
    match cb with
    | Some c => <[fresh := c]> (st_completions (ts_state s))
    | None => st_completions (ts_state s)
    end.
Proof using Type.
  intros Hr Hn Hlen Hcap frames Hok.
  destruct (begin_core cfg _ d l fresh payload now Hr) as [[_ Hacc] Hfr].
  specialize (Hacc (conj Hn (conj Hlen Hcap))).
  unfold send_binary. set (tx := st_sender (ts_state s)) in *.
  assert (is_paused tx = false) as ->.
  { unfold is_paused. apply N.leb_gt. lia. }
  unfold begin_transaction in Hacc, Hfr.
  destruct (N.ltb_spec (backpressure_cap_bytes (s_config tx)) (unacked_bytes tx + len payload));
    [lia|].
  destruct (open_transaction tx fresh _ now) as [tx1 [[]|e]]; [|done].
  destruct (append_chunk tx1 fresh payload now) as [tx2 [out|e]]; [|done].
  destruct (finish_transaction tx2 fresh now) as [tx3 [tail|e]] eqn:Hf; [|done].
  specialize (Hfr tx3 (out ++ tail) eq_refl). rw Hfr.
  unfold frames in Hok |- *. rw write_data_frames_app in Hok |- *.
  pose proof (try_write_ok w (reference_frames fresh (frame_size (s_config tx)) payload)) as Htry.
  destruct (write_data_frames w _) as [w1 []]; [|done]. rw Htry //. cbn [fst].
  destruct (txn_control_frames_Ok fresh) as (_ & _ & ->). fold (completion_frame fresh).
  cbn [write_data_frames] in Hok |- *.
  destruct (write_data_frame w1 (completion_frame fresh)) as [w2 [[]|]]; [|done].
  split; [done|]. split; [done|]. cbn.
  split; [|by destruct cb]. apply finish_Ok_sent in Hf. by destruct cb.
Qed.

(** a whole-payload send that fits.  Under a fresh id, with a non-empty
    payload within [u32] and the backpressure cap and a transport that takes
    the frames, [send_binary] returns the id, has written exactly the reference
    split of the payload followed by the completion announcement, in that
    order on the data channel, holds the transaction as fully sent, and has the
    completion callback registered. *)
Theorem send_binary_accepts cfg s w payload cb fresh now d l :
  sender_reach cfg (mkHistory (st_sender (ts_state s)) d l) →
  s_pending (st_sender (ts_state s)) !! fresh = None → (1 ≤ len payload ≤ U32_MAX)%N →
  (unacked_bytes (st_sender (ts_state s)) + len payload ≤
     backpressure_cap_bytes (s_config (st_sender (ts_state s))))%N →
  let frames := reference_frames fresh (frame_size (s_config (st_sender (ts_state s))))
                  payload ++ [completion_frame fresh] in
  (write_data_frames w frames).2 = true →
  let '(s', w', r) := send_binary s w payload cb fresh now in
  r = Ok fresh ∧ w' = (write_data_frames w frames).1 ∧
  sent_flag (st_sender (ts_state s')) fresh = Some true ∧
  st_completions (ts_state s') =
    match cb with
    | Some c => <[fresh := c]> (st_completions (ts_state s))
    | None => st_completions (ts_state s)
    end.
Proof using Type. apply send_binary_core. Qed.
End send.
