(* ===== verification/Session.v ===== *)
(** * Histories of a transfer session

    Every operation of the session as one executable step, so that a history is
    a list of steps: inbound frames, clock turns, wiring, sink calls, the steps
    of [finish], whole-payload sends, stream reads and handler registrations, in
    any interleaving, over a transport that may change between any two of them.
    The invariants of the components are lifted to all histories. *)
From S2P Require Import Prelude Crc Frame Control Sender Reassemble Errors Stream.
From S2P Require Import Transfer Clock Sink.

Inductive session_op (W : Type) : Type :=
  | OpTransport (w : W)
  | OpInbound (f : Frame) (now : N)
  | OpActivity (now : N)
  | OpClock (closed : bool) (now : N)
  | OpWire (transport : nat) (now : N)
  | OpUnwire
  | OpDeclare (now : N)
  | OpOnBinary
  | OpOnBinaryStream
  | OpRead (l : loc)
  | OpOpen (meta : BinaryMeta) (id : option txid) (fresh : txid) (now : N)
  | OpWrite (id : txid) (chunk : list byte) (now : N)
  | OpPause (id : txid) (now : N)
  | OpResume (id : txid) (now : N)
  | OpAbort (id : txid)
  | OpFinish (id : txid) (cb : CompletionCallback) (p : FinishPoint) (now : N)
  | OpSend (payload : list byte) (cb : option CompletionCallback) (fresh : txid) (now : N).

Arguments OpTransport {W}.
Arguments OpInbound {W}.
Arguments OpActivity {W}.
Arguments OpClock {W}.
Arguments OpWire {W}.
Arguments OpUnwire {W}.
Arguments OpDeclare {W}.
Arguments OpOnBinary {W}.
Arguments OpOnBinaryStream {W}.
Arguments OpRead {W}.
Arguments OpOpen {W}.
Arguments OpWrite {W}.
Arguments OpPause {W}.
Arguments OpResume {W}.
Arguments OpAbort {W}.
Arguments OpFinish {W}.
Arguments OpSend {W}.

(** A consumer reads the stream at [l]. *)
Definition read_stream (l : loc) (st : SessionState) : SessionState :=
  set_streams (st_streams st) (st_stream_owned st)
    (heap_update (λ s, (BinaryStream_read s).1) l (st_heap st)) st.

Section session.
Context `{CRC : Crc32} `{UUID : UuidLib} {W : Type} `{WIRE : TransferWiring W}.
Context `{TRANSPORT : !XacppTransport W}.
Implicit Types (w : W) (s : TransferSession).

Definition session_exec (c : TransferSession * W) (op : session_op W) :
    TransferSession * W :=
  let '(s, w) := c in
  match op with
  | OpTransport w' => (s, w')
  | OpInbound f now => (handle_inbound s f w now).1
  | OpActivity now => (on_activity s now, w)
  | OpClock closed now => (run_clock_turn s w closed now).1.1
  | OpWire tr now => (wire s tr w now).1
  | OpUnwire => unwire s w
  | OpDeclare now => declare_pending_sends s w now
  | OpOnBinary => (on_binary s, w)
  | OpOnBinaryStream => (on_binary_stream s, w)
  | OpRead l => (upd_state (read_stream l) s, w)
  | OpOpen meta id fresh now => ((open_binary_sink s meta id fresh now).1, w)
  | OpWrite id chunk now => (sink_write s w id chunk now).1
  | OpPause id now => (sink_pause s w id now).1
  | OpResume id now => ((sink_resume s id now).1, w)
  | OpAbort id => (sink_abort s w id).1.1
  | OpFinish id cb p now => (sink_finish_step s w id cb p now).1.1
  | OpSend payload cb fresh now => (send_binary s w payload cb fresh now).1
  end.

(** The declared length of a sink is a [u32]. *)
Definition op_ok (op : session_op W) : Prop :=
  match op with OpOpen meta _ _ _ => (meta_total_len meta ≤ U32_MAX)%N | _ => True end.

Definition session_run (config : TransferConfig) (t0 : N) w (ops : list (session_op W)) :
    TransferSession * W :=
  foldl session_exec (TransferSession_new config t0, w) ops.
End session.

(** ** The sender component *)

(** Calls that can only add pressure on writers, and calls that may release it. *)
Inductive quiet_call : TransactionSender → TransactionSender → Prop :=
  | call_open tx id total now :
      (total ≤ U32_MAX)%N → quiet_call tx (open_transaction tx id total now).1
  | call_append tx id chunk now : quiet_call tx (append_chunk tx id chunk now).1
  | call_finish tx id now : quiet_call tx (finish_transaction tx id now).1
  | call_pause tx id now : quiet_call tx (set_paused tx id true now).1
  | call_nack tx id missing now : quiet_call tx (handle_nack tx id missing now).1
  | call_due tx now : quiet_call tx (due_retransmissions tx now).1
  | call_declare tx now : quiet_call tx (declare_pending tx now).1
  | call_redeclare tx now timeout :
      quiet_call tx (timed_out_declarations tx now timeout).1.

Inductive any_call (tx : TransactionSender) : TransactionSender → Prop :=
  | call_quiet tx' : quiet_call tx tx' → any_call tx tx'
  | call_resume id now : any_call tx (set_paused tx id false now).1
  | call_abort id : any_call tx (abort_transaction tx id).1
  | call_ack e now : any_call tx (handle_ack tx e now).1
  | call_verdicts entries now : any_call tx (apply_resume_verdicts tx entries now).1.

(** Every call is a step of the sender's histories. *)
Lemma any_call_reach cfg tx tx' d l :
  any_call tx tx' → sender_reach cfg (mkHistory tx d l) →
  ∃ d' l', sender_reach cfg (mkHistory tx' d' l').
Proof.
  intros Hc Hr.
  assert (Hstep : ∀ h', sender_step (mkHistory tx d l) h' → sender_reach cfg h')
    by (intros h' Hs; eapply rtc_r; [exact Hr|exact Hs]).
  destruct Hc as [tx' Hq|id now|id|e now|entries now].
  - destruct Hq as [tx id total now Ht|tx id chunk now|tx id now|tx id now|tx id missing now
      |tx now|tx now|tx now timeout].
    + destruct (open_transaction tx id total now) as [tx1 [[]|e]] eqn:Ho.
      * eexists _, _. apply Hstep. by econstructor.
      * apply open_refused in Ho as ->. eauto.
    + destruct (append_chunk tx id chunk now) as [tx1 [out|e]] eqn:Ha.
      * assert (∃ bs, d !! id = Some bs) as [bs Hbs].
        { apply sender_reach_inv in Hr as (_ & _ & Hall). unfold append_chunk in Ha.
          destruct (s_pending tx !! id) as [t|] eqn:Ht; [|done].
          destruct (Hall id t Ht) as (ps & _ & Hd & _). by eexists. }
        eexists _, _. apply Hstep. by econstructor.
      * apply append_refused in Ha as ->. eauto.
    + destruct (finish_transaction tx id now) as [tx1 r] eqn:Hf.
      eexists _, _. apply Hstep. by econstructor.
    + eexists _, _. apply Hstep. constructor.
    + destruct (handle_nack tx id missing now) as [tx1 out] eqn:Hn.
      eexists _, _. apply Hstep. by econstructor.
    + destruct (due_retransmissions tx now) as [tx1 out] eqn:Hn.
      eexists _, _. apply Hstep. by econstructor.
    + eexists _, _. apply Hstep. constructor.
    + eexists _, _. apply Hstep. constructor.
  - eexists _, _. apply Hstep. constructor.
  - eexists _, _. apply Hstep. constructor.
  - eexists _, _. apply Hstep. constructor.
  - destruct (apply_resume_verdicts tx entries now) as [tx1 v] eqn:Hv.
    eexists _, _. apply Hstep. by econstructor.
Qed.

(** What one operation does to the sender and to parked writers: it only adds
    pressure and does not attach a transport, or it bumps the wake counter. *)
Definition op_effect (s s' : TransferSession) : Prop :=
  (rtc quiet_call (st_sender (ts_state s)) (st_sender (ts_state s')) ∧
   (ts_wiring s' = ts_wiring s ∨ ts_wiring s' = None)) ∨
  (rtc any_call (st_sender (ts_state s)) (st_sender (ts_state s')) ∧
   ts_wake s' = ((ts_wake s + 1) mod 2 ^ 64)%N).

Lemma effect_same s s' :
  st_sender (ts_state s') = st_sender (ts_state s) →
  ts_wiring s' = ts_wiring s ∨ ts_wiring s' = None → op_effect s s'.
Proof. intros H1 H2. left. split; [by rw H1|done]. Qed.

Lemma effect_quiet s s' :
  quiet_call (st_sender (ts_state s)) (st_sender (ts_state s')) →
  ts_wiring s' = ts_wiring s → op_effect s s'.
Proof. intros H1 H2. left. split; [by apply rtc_once|by left]. Qed.

Lemma rtc_quiet_any tx tx' : rtc quiet_call tx tx' → rtc any_call tx tx'.
Proof. induction 1; [done|]. eapply rtc_l; [by apply call_quiet|done]. Qed.

Lemma ack_fold_calls now es st out :
  rtc any_call (st_sender st) (st_sender (foldl (ack_one now) (st, out) es).1).
Proof.
  revert st out. induction es as [|e es IH]; intros st out; [done|]. cbn [foldl].
  assert (Hs : st_sender (ack_one now (st, out) e).1 = (handle_ack (st_sender st) e now).1).
  { unfold ack_one. destruct (handle_ack _ _ _) as [s []]; [|done]. by case_match. }
  destruct (ack_one now (st, out) e) as [st1 out1]. cbn in Hs.
  eapply rtc_l; [|apply IH]. rw Hs. apply call_ack.
Qed.

Section effects.
Context `{CRC : Crc32} `{UUID : UuidLib} {W : Type} `{WIRE : TransferWiring W}.
Context `{TRANSPORT : !XacppTransport W}.
Implicit Types (w : W) (s : TransferSession).

Lemma nack_loop_calls st w now es :
  rtc quiet_call (st_sender st) (st_sender (nack_entries_loop st w now es).1).
Proof using Type.
  revert st w. induction es as [|e es IH]; intros st w; [done|]. cbn [nack_entries_loop].
  pose proof (call_nack (st_sender st) (nack_transaction_id e) (missing_seqs e) now) as Hc.
  destruct (handle_nack _ _ _ _) as [tx fr]. cbn in Hc.
  destruct (write_data_frames w fr) as [w' []]; [|by apply rtc_once].
  eapply rtc_l; [exact Hc|]. apply (IH (set_sender tx st)).
Qed.

Lemma response_calls st f w now :
  rtc any_call (st_sender st) (st_sender (on_resume_response_frame st f w now).1.1).
Proof using Type.
  unfold on_resume_response_frame. destruct (ResumeResponsePayload_decode _) as [p|]; [|done].
  pose proof (call_verdicts (st_sender st) (response_entries p) now) as Hc.
  destruct (apply_resume_verdicts _ _ _) as [tx v]. cbn in Hc.
  destruct (write_data_frames w (v_retransmit v)) as [w' ok].
  destruct ok; cbn; [|by apply rtc_once].
  pose proof (fire_fold_sender true (v_confirmed v) (set_sender tx st) []) as H1.
  destruct (foldl (fire_completion true) _ _) as [st1 out1]. cbn in H1.
  pose proof (fire_fold_sender false (v_failed v) st1 out1) as H2.
  destruct (foldl (fire_completion false) _ _) as [st2 out2]. cbn in *.
  apply rtc_once. by rw H2 H1.
Qed.

Lemma inbound_effect s f w now : op_effect s (handle_inbound s f w now).1.1.
Proof using Type.
  destruct (same_tx_handlers (touch_peer now (ts_state s)) f w now)
    as ([Hp _] & [Ha _] & [Hc _] & [He _] & [Hr _]).
  unfold handle_inbound. set (st := touch_peer now (ts_state s)) in *.
  assert (Hq : ∀ st', st_sender st' = st_sender st → op_effect s (set_state st' s))
    by (intros; by apply effect_same; [|left]).
  destruct (frame_type f); try (by apply Hq).
  - pose proof (λ p, ack_fold_calls now (ack_entries p) st []) as Hk.
    right. unfold on_ack_frame. destruct (AckPayload_decode _) as [p|]; [|done].
    specialize (Hk p). by destruct (foldl _ _ _) as [st1 out].
  - left. unfold on_nack_frame. destruct (NackPayload_decode _) as [p|]; [|by split; [|left]].
    pose proof (nack_loop_calls st w now (nack_entries p)) as Hk.
    destruct (nack_entries_loop _ _ _ _) as [st1 w1]. by split; [|left].
  - destruct (on_resume_request_frame st f w now) as [st1 w1]. by apply Hq.
  - right. pose proof (response_calls st f w now) as Hk.
    by destruct (on_resume_response_frame st f w now) as [[st1 w1] out].
  - pose proof (same_tx_data st f w (ts_binary_handler s) (ts_stream_handler s) now) as [Hd _].
    destruct (on_data_frame _ _ _ _ _ _) as [[[st1 w1] d] o]. by apply Hq.
Qed.

Lemma redeclare_call cfg st w now :
  quiet_call (st_sender st) (st_sender (redeclare cfg st w now).1).
Proof using Type.
  unfold redeclare.
  pose proof (call_redeclare (st_sender st) now (resume_verdict_timeout_ms cfg)) as Hr.
  destruct (timed_out_declarations _ now _) as [tx' es]. by destruct es.
Qed.

Lemma tick_calls s w now :
  let '(s', _, _) := clock_tick s w now in
  rtc quiet_call (st_sender (ts_state s)) (st_sender (ts_state s')) ∧
  ts_wiring s' = ts_wiring s ∧ ts_wake s' = ts_wake s.
Proof using Type.
  unfold clock_tick. set (cfg := ts_config s).
  assert (H1 : st_sender (export_acks cfg (ts_state s) w now).1 = st_sender (ts_state s))
    by (unfold export_acks; by case_match).
  destruct (export_acks cfg (ts_state s) w now) as [st1 w1].
  assert (H2 : st_sender (send_nacks cfg st1 w1 now).1 = st_sender st1)
    by (unfold send_nacks; by case_match).
  destruct (send_nacks cfg st1 w1 now) as [st2 w2]. cbn in H1, H2.
  pose proof (call_due (st_sender st2) now) as Hd.
  destruct (due_retransmissions (st_sender st2) now) as [tx fr]. cbn in Hd.
  rw H2 H1 in Hd. destruct (write_data_frames w2 fr) as [w3 []]; cbn [negb].
  - pose proof (redeclare_call cfg (set_sender tx st2) w3 now) as Hr.
    destruct (redeclare cfg _ w3 now) as [st4 w4].
    assert (H5 : st_sender (heartbeat cfg st4 w4 now).1 = st_sender st4)
      by (unfold heartbeat; by case_match).
    destruct (heartbeat cfg st4 w4 now) as [st5 w5]. cbn [fst ts_state set_state ts_wiring ts_wake st_sender set_sender] in *. rw H5.
    split; [|done]. eapply rtc_l; [exact Hd|by apply rtc_once].
  - split; [by apply rtc_once|done].
Qed.

Lemma drain_keeps s :
  st_sender (ts_state (drain_completed s).1) = st_sender (ts_state s) ∧
  ts_wake (drain_completed s).1 = ts_wake s.
Proof using Type.
  unfold drain_completed. case_match; [done|]. by destruct (foldl _ _ _).
Qed.

Lemma clock_effect s w closed now : op_effect s (run_clock_turn s w closed now).1.1.1.
Proof using Type.
  unfold run_clock_turn. destruct closed; [by apply effect_same; [|right]|].
  pose proof (tick_calls s w now) as Ht.
  destruct (clock_tick s w now) as [[s1 w1] silent]. destruct Ht as (Hc & Hw & Hk).
  destruct silent; cbn.
  - left. split; [exact Hc|by right].
  - right. pose proof (drain_keeps (wake_writers s1)) as (D1 & D2).
    destruct (drain_completed (wake_writers s1)) as [s2 out]. cbn in *.
    rw D1 D2 Hk. split; [by apply rtc_quiet_any|done].
Qed.

Lemma wire_effect s tr w now : op_effect s (wire s tr w now).1.1.
Proof using Type.
  unfold wire. destruct (ts_wiring s); [by apply effect_same; [|left]|].
  right. split; [|done]. apply rtc_once, call_quiet, call_declare.
Qed.

Lemma declare_effect s w now : op_effect s (declare_pending_sends s w now).1.
Proof using Type.
  unfold declare_pending_sends, send_resume_declaration.
  destruct (ts_wiring s) eqn:Hw; [|by apply effect_same; [|left]].
  pose proof (call_declare (st_sender (ts_state s)) now) as Hc.
  destruct (declare_pending _ _) as [tx es]. by destruct es; apply effect_quiet.
Qed.

Lemma open_effect s meta id fresh now :
  (meta_total_len meta ≤ U32_MAX)%N → op_effect s (open_binary_sink s meta id fresh now).1.
Proof using Type.
  intros Hm. unfold open_binary_sink.
  pose proof (call_open (st_sender (ts_state s)) (default fresh id) _ now Hm) as Hc.
  destruct (open_transaction _ _ _ _) as [tx [?|?]]; by apply effect_quiet.
Qed.

Lemma write_effect s w id chunk now : op_effect s (sink_write s w id chunk now).1.1.
Proof using Type.
  unfold sink_write. destruct (ts_wiring s) eqn:Hw; [|by apply effect_same; [|left]].
  case_match; [by apply effect_same; [|left]|].
  pose proof (call_append (st_sender (ts_state s)) id chunk now) as Hc.
  destruct (append_chunk _ _ _ _) as [tx [fr|[]]]; by apply effect_quiet.
Qed.

Lemma pause_effect s w id now : op_effect s (sink_pause s w id now).1.1.
Proof using Type.
  unfold sink_pause. pose proof (call_pause (st_sender (ts_state s)) id now) as Hc.
  destruct (set_paused _ _ _ _) as [tx []]; [|by apply effect_quiet].
  destruct (pause_frame id); [|by apply effect_quiet].
  destruct (write_ordered_control _ _ _). by apply effect_quiet.
Qed.

Lemma resume_effect s id now : op_effect s (sink_resume s id now).1.
Proof using Type.
  unfold sink_resume. pose proof (call_resume (st_sender (ts_state s)) id now) as Hc.
  destruct (set_paused _ _ _ _) as [tx b] eqn:Hs. destruct b.
  - right. split; [by apply rtc_once|done].
  - apply effect_same; [|by left]. cbn. unfold set_paused in Hs.
    destruct (s_pending _ !! id); by injection Hs as <-.
Qed.

(** Aborting an absent transaction leaves the sender alone. *)
Lemma abort_effect s w id :
  let '(s', _, _, _) := sink_abort s w id in
  st_sender (ts_state s') = (abort_transaction (st_sender (ts_state s)) id).1 ∧
  (ts_wake s' = ((ts_wake s + 1) mod 2 ^ 64)%N ∨
   st_sender (ts_state s') = st_sender (ts_state s) ∧ ts_wiring s' = ts_wiring s).
Proof using Type.
  unfold sink_abort, abort_transaction. cbn. destruct (contains_transaction _ id) eqn:Hc; cbn.
  - destruct (abort_frame id) as [f|]; [destruct (write_ordered_control _ _ _)|];
      (split; [done|by left]).
  - split; [done|right]. split; [|done]. unfold contains_transaction in Hc.
    apply bool_decide_eq_false, eq_None_not_Some in Hc.
    rw delete_id //. by destruct (st_sender (ts_state s)).
Qed.

Lemma abort_op_effect s w id : op_effect s (sink_abort s w id).1.1.1.
Proof using Type.
  pose proof (abort_effect s w id) as H. destruct (sink_abort s w id) as [[[s' w'] out] r].
  destruct H as [Hs [Hw|[Hsame Hw]]]; [|apply effect_same; [done|by left]].
  right. split; [|done]. cbn. rw Hs. apply rtc_once, call_abort.
Qed.

Lemma finish_effect s w id cb p now : op_effect s (sink_finish_step s w id cb p now).1.1.1.
Proof using Type.
  destruct p; try (by apply effect_same; [|left]).
  - cbn [sink_finish_step]. pose proof (call_finish (st_sender (ts_state s)) id now) as Hc.
    destruct (finish_transaction _ _ _) as [tx [tail|e]]; [by apply effect_quiet|].
    pose proof (abort_effect (upd_state (set_sender tx) s) w id) as Ha.
    destruct (sink_abort _ w id) as [[[s' w'] out] r]. cbn in *.
    destruct Ha as [Hs [Hw|[Hsame Hw]]].
    + right. split; [|done]. cbn. rw Hs. eapply rtc_l; [by apply call_quiet|].
      apply rtc_once, call_abort.
    + left. split; [|by left]. cbn. rw Hsame. by apply rtc_once.
  - cbn [sink_finish_step]. destruct (ts_wiring s) eqn:Hw; [|by apply effect_same; [|left]].
    destruct (write_data_frames w tail). by apply effect_same; [|left].
  - cbn [sink_finish_step]. destruct (completed_frame id); by apply effect_same; [|left].
Qed.

Lemma send_effect s w payload cb fresh now :
  op_effect s (send_binary s w payload cb fresh now).1.1.
Proof using Type.
  unfold send_binary. case_match; [by apply effect_same; [|left]|].
  pose proof (call_open (st_sender (ts_state s)) fresh (as_u32 (len payload)) now
    (as_u32_le _)) as H1.
  destruct (open_transaction _ _ _ _) as [tx1 [[]|e]]; [|by apply effect_quiet].
  pose proof (call_append tx1 fresh payload now) as H2.
  assert (Hput : ∀ s', rtc quiet_call (st_sender (ts_state s)) (st_sender (ts_state s')) →
    ts_wiring s' = ts_wiring s → op_effect s s') by (intros; left; by split; [|left]).
  destruct (append_chunk _ _ _ _) as [tx2 [frames|e]]; cbn in H1, H2.
  2:{ apply Hput; [|done]. eapply rtc_l; [exact H1|]. by apply rtc_once. }
  pose proof (call_finish tx2 fresh now) as H3.
  assert (Hrtc : rtc quiet_call (st_sender (ts_state s)) (finish_transaction tx2 fresh now).1)
    by (eapply rtc_l; [exact H1|]; eapply rtc_l; [exact H2|]; by apply rtc_once).
  destruct (finish_transaction _ _ _) as [tx3 [tail|e]]; [|by apply Hput].
  set (s' := upd_state _ (upd_state (set_sender tx3) s)).
  assert (Hs' : op_effect s s') by (apply Hput; [by destruct cb|done]).
  destruct (try_write_data_frames w _) as [w1 [u|e]]; [|done].
  destruct (completed_frame fresh) as [f|e]; [|done].
  by destruct (write_data_frame w1 f) as [w2 [u'|e]].
Qed.

Lemma exec_effect s w op : op_ok op → op_effect s (session_exec (s, w) op).1.
Proof using Type.
  intros Hok. destruct op; cbn [session_exec].
  - by apply effect_same; [|left].
  - apply inbound_effect.
  - by apply effect_same; [|left].
  - apply clock_effect.
  - apply wire_effect.
  - by apply effect_same; [|right].
  - apply declare_effect.
  - by apply effect_same; [|left].
  - by apply effect_same; [|left].
  - by apply effect_same; [|left].
  - by apply open_effect.
  - apply write_effect.
  - apply pause_effect.
  - apply resume_effect.
  - apply abort_op_effect.
  - apply finish_effect.
  - apply send_effect.
Qed.
End effects.

(** ** Parked writers *)

(** A write of [len] bytes for [id] has to wait. *)
Definition must_wait (s : TransferSession) (id : txid) (chunk : list byte) : Prop :=
  ts_wiring s = None ∨
  ∃ t, s_pending (st_sender (ts_state s)) !! id = Some t ∧
    (txn_paused t = true ∨ txn_awaiting_resume t = true ∨
     (backpressure_cap_bytes (s_config (st_sender (ts_state s))) <
        unacked_bytes (st_sender (ts_state s)) + len chunk)%N).

(** The same transactions under at least the same restrictions. *)
Record keeps_pressure (tx tx' : TransactionSender) : Prop := {
  kp_config : s_config tx' = s_config tx;
  kp_bytes : (unacked_bytes tx ≤ unacked_bytes tx')%N;
  kp_txn : ∀ id t, s_pending tx !! id = Some t → ∃ t', s_pending tx' !! id = Some t' ∧
    (txn_paused t = true → txn_paused t' = true) ∧
    (txn_awaiting_resume t = true → txn_awaiting_resume t' = true);
}.

#[export] Instance keeps_pressure_preorder : PreOrder keeps_pressure.
Proof.
  split.
  - intros tx. split; [done|done|]. intros id t Ht. by exists t.
  - intros a b c [A1 A2 A3] [B1 B2 B3]. split; [congruence|lia|].
    intros id t Ht. destruct (A3 id t Ht) as (t1 & H1 & P1 & G1).
    destruct (B3 id t1 H1) as (t2 & H2 & P2 & G2). exists t2. auto.
Qed.

(** One held transaction is replaced by a version with at least its bytes. *)
Lemma keeps_set_pending tx id t t' :
  s_pending tx !! id = Some t → (txn_bytes t ≤ txn_bytes t')%N →
  (txn_paused t = true → txn_paused t' = true) →
  (txn_awaiting_resume t = true → txn_awaiting_resume t' = true) →
  keeps_pressure tx (set_pending tx id t').
Proof.
  intros Ht Hb Hp Ha. split; [done|..].
  - unfold unacked_bytes. cbn. pose proof (map_sum_insert_Some txn_bytes _ _ _ t' Ht). lia.
  - intros i x Hx. cbn. destruct (decide (i = id)) as [->|Hne].
    + rw lookup_insert_eq. assert (x = t) as -> by congruence. by exists t'.
    + rw lookup_insert_ne //. by exists x.
Qed.

Lemma keeps_iter_mut {O} tx (body : txid → PendingTxn → PendingTxn * list O) :
  (∀ i t, txn_bytes (body i t).1 = txn_bytes t) →
  (∀ i t, txn_paused t = true → txn_paused (body i t).1 = true) →
  (∀ i t, txn_awaiting_resume t = true → txn_awaiting_resume (body i t).1 = true) →
  keeps_pressure tx (mkTransactionSender (s_config tx) (iter_mut body (s_pending tx)).1).
Proof.
  intros Hb Hp Ha. split; [done|..].
  - unfold unacked_bytes. cbn -[iter_mut]. rw map_sum_iter_mut //.
  - intros i t Ht. cbn -[iter_mut]. rw iter_mut_lookup Ht. eexists. split; [done|]. auto.
Qed.

Lemma append_frames_flags fuel size id now t out :
  let t' := (append_frames fuel size id now t out).1 in
  txn_bytes t' = txn_bytes t ∧ txn_paused t' = txn_paused t ∧
  txn_awaiting_resume t' = txn_awaiting_resume t.
Proof.
  revert t out. induction fuel as [|fuel IH]; intros t out; [done|]. cbn [append_frames].
  case_match; [|done]. destruct (push_frame _ _ _ _ _) as [t1 f] eqn:Hpf.
  injection Hpf as <- <-. cbn zeta in IH |- *. by rw !(proj1 (IH _ _)) !(proj1 (proj2 (IH _ _)))
    !(proj2 (proj2 (IH _ _))).
Qed.

Lemma due_txn_flags cfg now t :
  let t' := (due_txn cfg now t).1 in
  txn_bytes t' = txn_bytes t ∧ txn_paused t' = txn_paused t ∧
  txn_awaiting_resume t' = txn_awaiting_resume t.
Proof. unfold due_txn. case_match; [done|]. by destruct (resend_walk _ _ _ _). Qed.

Lemma quiet_keeps_pressure tx tx' : quiet_call tx tx' → keeps_pressure tx tx'.
Proof.
  intros Hq.
  destruct Hq as [tx id total now Ht|tx id chunk now|tx id now|tx id now|tx id missing now
    |tx now|tx now|tx now timeout].
  - unfold open_transaction, contains_transaction. case_bool_decide as Hc; [done|].
    case_match; [done|]. apply eq_None_not_Some in Hc. split; [done|..].
    + unfold unacked_bytes. cbn. rw map_sum_insert_None //.
    + intros i t Hi. cbn. exists t. rw lookup_insert_ne //. congruence.
  - unfold append_chunk. destruct (s_pending tx !! id) as [t|] eqn:Hi; [|done].
    case_match; [done|]. case_match; [done|].
    destruct (append_frames _ _ _ _ _ _) as [t2 out] eqn:Hf.
    pose proof (append_frames_flags (length (txn_partial t ++ chunk)) (frame_size (s_config tx)) id now
      (set_written_bytes (txn_written t + len chunk) (txn_bytes t + len chunk)
        (set_frames (txn_frames t) (txn_states t) (txn_partial t ++ chunk) t)) []) as Hfl.
    cbn zeta in Hfl. cbn in Hf. rw Hf in Hfl. cbn in Hfl. destruct Hfl as (F1 & F2 & F3).
    eapply keeps_set_pending; [done|lia|by rw F2|by rw F3].
  - unfold finish_transaction. destruct (s_pending tx !! id) as [t|] eqn:Hi; [|done].
    destruct (bool_decide _); cbn; case_decide; by eapply keeps_set_pending.
  - unfold set_paused. destruct (s_pending tx !! id) as [t|] eqn:Hi; [|done].
    by eapply keeps_set_pending.
  - unfold handle_nack. destruct (s_pending tx !! id) as [t|] eqn:Hi; [|done].
    case_match; [by eapply keeps_set_pending|]. destruct (foldl _ _ _).
    by eapply keeps_set_pending.
  - unfold due_retransmissions.
    pose proof (keeps_iter_mut tx (λ _, due_txn (s_config tx) now)) as Hk.
    destruct (iter_mut _ _) as [pending out]. apply Hk;
      intros i t; destruct (due_txn_flags (s_config tx) now t) as (F1 & F2 & F3); congruence.
  - unfold declare_pending. pose proof (keeps_iter_mut tx (declare_txn now)) as Hk.
    destruct (iter_mut _ _) as [pending out]. by apply Hk.
  - unfold timed_out_declarations. pose proof (keeps_iter_mut tx (redeclare_txn now timeout)) as Hk.
    destruct (iter_mut _ _) as [pending out].
    apply Hk; intros i t; unfold redeclare_txn; repeat case_match; done.
Qed.

Lemma quiet_run_pressure tx tx' : rtc quiet_call tx tx' → keeps_pressure tx tx'.
Proof.
  induction 1 as [|a b c Hab _ IH]; [reflexivity|].
  etrans; [by apply quiet_keeps_pressure|done].
Qed.

(** ** The stream table *)

Lemma drain_fold_other ids r out i :
  i ∉ ids → slots (foldl drain_one (r, out) ids).1 !! i = slots r !! i.
Proof.
  revert r out. induction ids as [|j ids IH]; intros r out Hni; [done|].
  apply not_elem_of_cons in Hni as [Hne Hni]. cbn [foldl drain_one].
  pose proof (rx_take_other r j i Hne) as Ht.
  destruct (rx_take_completed r j) as [r' [p|]]; cbn in Ht; by rw IH.
Qed.

Lemma drain_streams s :
  streams_inv (ts_state s) → streams_inv (ts_state (drain_completed s).1).
Proof.
  intros Hi. unfold drain_completed. case_match; [done|].
  destruct (foldl drain_one _ _) as [r out] eqn:Hf. cbn.
  eapply streams_ok_rx; [|exact Hi]. intros id [l Hl]. destruct Hi as [_ He _ _].
  destruct (He _ _ Hl) as (si & _ & _ & _ & _ & H1 & H2).
  assert (Hr : slots r !! id = slots (st_reassembler (ts_state s)) !! id).
  { change r with (r, out).1. rw -Hf. apply drain_fold_other.
    intros Hin%elem_of_complete. congruence. }
  destruct (rx_contains_ext _ _ _ Hr) as [E1 E2]. cbn. by rw E1 E2.
Qed.

Lemma flow_update_read : flow_update (λ s, (BinaryStream_read s).1).
Proof. intros s. unfold BinaryStream_read. by case_match. Qed.

Lemma upd_same_rx f s :
  (∀ st, same_rx st (f st)) → streams_inv (ts_state s) → streams_inv (ts_state (upd_state f s)).
Proof. intros Hf. apply same_rx_inv, Hf. Qed.

Section theorems.
Context `{CRC : Crc32} `{UUID : UuidLib} {W : Type} `{WIRE : TransferWiring W}.
Context `{TRANSPORT : !XacppTransport W}.
Implicit Types (w : W) (s : TransferSession).

Lemma clock_streams s w closed now :
  streams_inv (ts_state s) → streams_inv (ts_state (run_clock_turn s w closed now).1.1.1).
Proof using Type.
  intros Hi. unfold run_clock_turn. destruct closed.
  - apply update_streams_inv; [auto with streams|done].
  - pose proof (clock_tick_frame s w now) as Ht.
    destruct (clock_tick s w now) as [[s1 w1] silent]. destruct Ht as [[Hs _] _].
    assert (Hi1 : streams_inv (ts_state s1)) by by eapply same_rx_inv.
    destruct silent; cbn.
    + apply update_streams_inv; [auto with streams|done].
    + pose proof (drain_streams (wake_writers s1) Hi1) as Hd.
      by destruct (drain_completed _) as [s2 out].
Qed.

Lemma finish_streams s w id cb p now :
  streams_inv (ts_state s) → streams_inv (ts_state (sink_finish_step s w id cb p now).1.1.1).
Proof using Type.
  intros Hi. destruct p; try done; cbn [sink_finish_step].
  - destruct (finish_transaction _ _ _) as [tx [tail|e]]; [done|].
    assert (Ha : ∀ s, streams_inv (ts_state s) → streams_inv (ts_state (sink_abort s w id).1.1.1)).
    { clear. intros s Hi. unfold sink_abort. destruct (abort_transaction _ _) as [tx []]; [|done].
      cbn. destruct (abort_frame id); [|done]. by destruct (write_ordered_control _ _ _). }
    specialize (Ha (upd_state (set_sender tx) s) Hi).
    by destruct (sink_abort _ _ _) as [[[s' w'] out] r].
  - destruct (ts_wiring s); [|done]. by destruct (write_data_frames w tail).
  - by destruct (completed_frame id).
Qed.

Lemma abort_streams s w id :
  streams_inv (ts_state s) → streams_inv (ts_state (sink_abort s w id).1.1.1).
Proof using Type.
  intros Hi. unfold sink_abort. destruct (abort_transaction _ _) as [tx []]; [|done].
  cbn. destruct (abort_frame id); [|done]. by destruct (write_ordered_control _ _ _).
Qed.

Lemma send_streams s w payload cb fresh now :
  streams_inv (ts_state s) →
  streams_inv (ts_state (send_binary s w payload cb fresh now).1.1).
Proof using Type.
  intros Hi. unfold send_binary. case_match; [done|].
  destruct (open_transaction _ _ _ _) as [tx1 [[]|e]]; [|done].
  destruct (append_chunk _ _ _ _) as [tx2 [frames|e]]; [|done].
  destruct (finish_transaction _ _ _) as [tx3 [tail|e]]; [|done].
  set (s' := upd_state _ (upd_state (set_sender tx3) s)).
  assert (Hs' : streams_inv (ts_state s')) by by destruct cb.
  destruct (try_write_data_frames w _) as [w1 [u|e]]; [|done].
  destruct (completed_frame fresh) as [f|e]; [|done].
  by destruct (write_data_frame w1 f) as [w2 [u'|e]].
Qed.

Lemma exec_streams s w op :
  streams_inv (ts_state s) → streams_inv (ts_state (session_exec (s, w) op).1).
Proof using Type.
  intros Hi. destruct op; cbn [session_exec]; try done.
  - by apply inbound_keeps_streams.
  - by apply clock_streams.
  - unfold wire. destruct (ts_wiring s); [done|]. cbn.
    apply update_streams_inv; [auto with streams|done].
  - apply update_streams_inv; [auto with streams|done].
  - unfold declare_pending_sends, send_resume_declaration. destruct (ts_wiring s); [|done].
    destruct (declare_pending _ _) as [tx es]. by destruct es.
  - apply streams_ok_update; [apply flow_update_read|done].
  - unfold open_binary_sink. by destruct (open_transaction _ _ _ _) as [tx [?|?]].
  - unfold sink_write. destruct (ts_wiring s); [|done]. case_match; [done|].
    by destruct (append_chunk _ _ _ _) as [tx [fr|[]]].
  - unfold sink_pause. destruct (set_paused _ _ _ _) as [tx []]; [|done].
    destruct (pause_frame id); [|done]. by destruct (write_ordered_control _ _ _).
  - unfold sink_resume. by destruct (set_paused _ _ _ _) as [tx []].
  - by apply abort_streams.
  - by apply finish_streams.
  - by apply send_streams.
Qed.

(** C10: the stream table is consistent in every history of a session, whatever
    the peer sends and however operations interleave: a stream object is open
    exactly while the session owns it, its transaction then has an open
    incomplete slot, and an object that left the table carries a terminal
    state, so a consumer never waits on a stream the session has forgotten. *)
Theorem session_streams_inv config t0 w ops :
  streams_inv (ts_state (session_run config t0 w ops).1).
Proof using Type.
  unfold session_run. set (s0 := TransferSession_new config t0).
  assert (Hi : streams_inv (ts_state s0)) by by split.
  clearbody s0. revert s0 w Hi. induction ops as [|op ops IH]; intros s w Hi; [done|].
  cbn [foldl]. pose proof (exec_streams s w op Hi) as H.
  destruct (session_exec (s, w) op) as [s' w']. by apply IH.
Qed.

(** C11: the sender inside a session evolves only by calls of its own interface,
    in every history of the session; so everything proved of sender histories
    (content, framing, backpressure cap, retransmission) holds of it. *)
Theorem session_sender_reach config t0 w ops :
  Forall op_ok ops →
  ∃ d l, sender_reach (cfg_sender config)
    (mkHistory (st_sender (ts_state (session_run config t0 w ops).1)) d l).
Proof using Type.
  unfold session_run. set (s0 := TransferSession_new config t0).
  assert (Hr : ∃ d l, sender_reach (cfg_sender config)
    (mkHistory (st_sender (ts_state s0)) d l)) by (exists ∅, []; apply rtc_refl).
  clearbody s0. intros Hops. revert s0 w Hr.
  induction Hops as [|op ops Hop _ IH]; intros s w Hr; [done|]. cbn [foldl].
  pose proof (exec_effect s w op Hop) as He.
  destruct (session_exec (s, w) op) as [s' w']. apply IH. cbn [fst] in He.
  assert (Hc : rtc any_call (st_sender (ts_state s)) (st_sender (ts_state s'))).
  { destruct He as [[Hq _]|[Hc _]]; [by apply rtc_quiet_any|done]. }
  clear -Hc Hr. induction Hc as [|a b c Hab _ IHc]; [done|]. apply IHc.
  destruct Hr as (d & l & Hr). by eapply any_call_reach.
Qed.

(** A pass of [sink_write] parks exactly when the write has to wait. *)
Lemma write_parks s w id chunk now :
  (sink_write s w id chunk now).2 = WriteParked ↔ must_wait s id chunk.
Proof using Type.
  unfold sink_write, must_wait. destruct (ts_wiring s) as [tr|]; [|split; [by left|done]].
  unfold is_transaction_paused, is_awaiting_resume, append_chunk.
  destruct (s_pending (st_sender (ts_state s)) !! id) as [t|]; cbn.
  2:{ split; [done|]. intros [?|(t & ? & _)]; done. }
  destruct (txn_paused t) eqn:Hp, (txn_awaiting_resume t) eqn:Ha; cbn.
  1-3: split; [intros _; right; exists t; tauto|done].
  destruct (N.ltb_spec (backpressure_cap_bytes (s_config (st_sender (ts_state s))))
    (unacked_bytes (st_sender (ts_state s)) + len chunk)) as [Hlt|Hge].
  - split; [|done]. intros _. right. exists t. split; [done|]. by do 2 right.
  - split.
    + destruct (txn_total_len t <? _)%N; [done|]. by destruct (append_frames _ _ _ _ _ _).
    + intros [?|(t' & [= <-] & [?|[?|?]])]; [done|congruence|congruence|lia].
Qed.

Lemma must_wait_kept s s' id chunk :
  keeps_pressure (st_sender (ts_state s)) (st_sender (ts_state s')) →
  ts_wiring s' = ts_wiring s ∨ ts_wiring s' = None →
  must_wait s id chunk → must_wait s' id chunk.
Proof using Type.
  intros [K1 K2 K3] [Hw|Hw] Hm; [|by left].
  destruct Hm as [Hm|(t & Ht & Hm)]; [left; congruence|right].
  destruct (K3 id t Ht) as (t' & Ht' & P & G). exists t'. split; [done|].
  destruct Hm as [Hm|[Hm|Hm]]; [auto|auto|]. do 2 right. rw K1. lia.
Qed.

(** C12: no wakeup is lost.  Whatever session operation runs while a write is
    parked, if the write could then proceed (or fail), the operation bumped the
    wake counter the writer waits on - so a parked writer never sleeps through
    the event it waits for. *)
Theorem no_lost_wakeup s w op id chunk w' t t' :
  op_ok op → (sink_write s w id chunk t).2 = WriteParked →
  let s' := (session_exec (s, w) op).1 in
  (sink_write s' w' id chunk t').2 ≠ WriteParked → ts_wake s' ≠ ts_wake s.
Proof using Type.
  intros Hop Hp%write_parks s' Hgo.
  destruct (exec_effect s w op Hop) as [[Hq Hw]|[_ Hw]].
  - destruct Hgo. apply write_parks.
    eapply must_wait_kept; [by apply quiet_run_pressure|exact Hw|exact Hp].
  - fold s' in Hw. rw Hw. intros Heq.
    assert (H64 : (1 < 2 ^ 64)%N) by done. revert Heq H64. generalize (2 ^ 64)%N.
    intros m Heq Hm. pose proof (N.mod_lt (ts_wake s + 1) m).
    destruct (decide (ts_wake s + 1 < m)%N) as [Hlt|Hge].
    + rw N.mod_small // in Heq. lia.
    + assert (ts_wake s + 1 = m)%N as H1 by lia. rw H1 N.Div0.mod_same in Heq. lia.
Qed.
End theorems.
