(* ===== verification/Egress.v ===== *)
(** * Ordered egress ([src/session/egress.rs])

    Two queues of one connection - data frames FIFO, control frames ahead of
    them - drained by one task that owns the writer.  A turn of the task is
    [drain_step]; whether the writer takes the frame is an input of the turn. *)
From S2P Require Import Prelude Crc Frame Control Sender Reassemble Errors Stream Transfer.

(** ** State *)

(** [EgressItem]; an acknowledged frame carries the handle of its receipt. *)
Inductive EgressItem : Type :=
  | EFrame (frame : list byte) (write_ack : option nat)
  | EClose.

#[export] Instance EgressItem_eq_dec : EqDecision EgressItem.
Proof. solve_decision. Defined.

Inductive PendingSlot : Type := SlotRespond | SlotDrop.

(** Which queue a written frame came from. *)
Inductive channel : Type := DataCh | ControlCh.

(** [Egress] and its drain task: the queues, the shared flags, whether any
    handle is left, whether the task still runs (and with it the receivers), the
    bytes handed to the writer so far, the receipts resolved so far, and the
    shared pending table. *)
Record Egress : Type := mkEgress {
  eg_data : list EgressItem;
  eg_control : list EgressItem;
  eg_connected : bool;
  eg_closed : bool;
  eg_handles : bool;
  eg_control_open : bool;
  eg_running : bool;
  eg_written : list (channel * list byte);
  eg_acks : list (nat * bool);
  eg_pending : gmap string PendingSlot;
}.

(** [spawn_egress] over the connection's flags and pending table. *)
Definition spawn_egress (connected closed : bool) (pending : gmap string PendingSlot) :
    Egress :=
  mkEgress [] [] connected closed true true true [] [] pending.

Definition set_queues (data control : list EgressItem) (e : Egress) : Egress :=
  mkEgress data control (eg_connected e) (eg_closed e) (eg_handles e)
    (eg_control_open e) (eg_running e) (eg_written e) (eg_acks e) (eg_pending e).

Definition set_flags (connected closed : bool) (e : Egress) : Egress :=
  mkEgress (eg_data e) (eg_control e) connected closed (eg_handles e)
    (eg_control_open e) (eg_running e) (eg_written e) (eg_acks e) (eg_pending e).

Definition log_write (c : channel) (bytes : list byte) (e : Egress) : Egress :=
  mkEgress (eg_data e) (eg_control e) (eg_connected e) (eg_closed e) (eg_handles e)
    (eg_control_open e) (eg_running e) (eg_written e ++ [(c, bytes)]) (eg_acks e)
    (eg_pending e).

(** [ack.send(result)], when the frame carries a receipt. *)
Definition resolve (ack : option nat) (ok : bool) (e : Egress) : Egress :=
  mkEgress (eg_data e) (eg_control e) (eg_connected e) (eg_closed e) (eg_handles e)
    (eg_control_open e) (eg_running e) (eg_written e)
    (match ack with Some a => eg_acks e ++ [(a, ok)] | None => eg_acks e end)
    (eg_pending e).

Definition clear_pending (e : Egress) : Egress :=
  mkEgress (eg_data e) (eg_control e) (eg_connected e) (eg_closed e) (eg_handles e)
    (eg_control_open e) (eg_running e) (eg_written e) (eg_acks e) ∅.

(** ** [impl Egress] *)

(** [self.tx.send(item)]: fails once the task dropped the receiver. *)
Definition push_data (item : EgressItem) (e : Egress) : Egress * result unit XacppError :=
  if eg_running e then (set_queues (eg_data e ++ [item]) (eg_control e) e, Ok tt)
  else (e, Err Closed).

(** The enqueue half of [send_acked]; the caller then waits for receipt [a]. *)
Definition send_acked (e : Egress) (frame : list byte) (a : nat) :
    Egress * result unit XacppError :=
  if negb (eg_connected e) then (e, Err NotConnected)
  else push_data (EFrame frame (Some a)) e.

Definition send_faf (e : Egress) (frame : list byte) : Egress * result unit XacppError :=
  if negb (eg_connected e) then (e, Err NotConnected)
  else push_data (EFrame frame None) e.

Definition send_control (e : Egress) (frame : list byte) :
    Egress * result unit XacppError :=
  if negb (eg_connected e) then (e, Err NotConnected)
  else if eg_running e
  then (set_queues (eg_data e) (eg_control e ++ [EFrame frame None]) e, Ok tt)
  else (e, Err Closed).

Definition mark_closed (e : Egress) : Egress := set_flags (eg_connected e) true e.

Definition egress_close (e : Egress) : Egress :=
  mark_closed (push_data EClose (set_flags false (eg_closed e) e)).1.

(** The last handle is dropped: both channels close. *)
Definition drop_handles (e : Egress) : Egress :=
  mkEgress (eg_data e) (eg_control e) (eg_connected e) (eg_closed e) false
    (eg_control_open e) (eg_running e) (eg_written e) (eg_acks e) (eg_pending e).

(** ** The drain task *)

(** The task exits: the receivers are dropped, and with the queued items their
    receipts, whose waiters then fail. *)
Definition fail_acks (items : list EgressItem) (e : Egress) : Egress :=
  foldl (λ e i, match i with EFrame _ a => resolve a false e | EClose => e end) e items.

Definition task_exit (e : Egress) : Egress :=
  let e := fail_acks (eg_data e) e in
  mkEgress [] [] (eg_connected e) (eg_closed e) (eg_handles e) (eg_control_open e) false
    (eg_written e) (eg_acks e) (eg_pending e).

(** A failed write: everything fails fast, now and later. *)
Definition write_failed (e : Egress) : Egress :=
  task_exit (clear_pending (set_flags false true e)).

(** The data arm: the next item, or the end of the channel. *)
Definition drain_data (e : Egress) (ok : bool) : Egress :=
  match eg_data e with
  | [] => if eg_handles e then e else task_exit e
  | EClose :: rest => task_exit (set_queues rest (eg_control e) e)
  | EFrame frame ack :: rest =>
      let e := set_queues rest (eg_control e) e in
      let e := if ok then log_write DataCh frame e else e in
      let e := resolve ack ok e in
      if ok then e else write_failed e
  end.

(** [DrainEvent::Control(None)]. *)
Definition close_control (e : Egress) : Egress :=
  mkEgress (eg_data e) (eg_control e) (eg_connected e) (eg_closed e) (eg_handles e)
    false (eg_running e) (eg_written e) (eg_acks e) (eg_pending e).

(** One turn of the biased [select!]: the control arm is polled first while it
    is open; [ok] is the writer's answer to the frame of this turn. *)
Definition drain_step (e : Egress) (ok : bool) : Egress :=
  if negb (eg_running e) then e
  else if eg_control_open e then
    match eg_control e with
    | EFrame frame _ :: rest =>
        let e := set_queues (eg_data e) rest e in
        if ok then log_write ControlCh frame e else write_failed e
    | EClose :: rest => set_queues (eg_data e) rest e
    | [] => if negb (eg_handles e) then close_control e else drain_data e ok
    end
  else drain_data e ok.

(** ** Histories of an egress *)

Definition frames_of (items : list EgressItem) : list (list byte) :=
  omap (λ i, match i with EFrame f _ => Some f | EClose => None end) items.

Definition acks_of (items : list EgressItem) : list nat :=
  omap (λ i, match i with EFrame _ a => a | EClose => None end) items.

(** The frames of one channel that reached the writer, in order. *)
Definition written_on (c : channel) (e : Egress) : list (list byte) :=
  omap (λ w, match c, w.1 with
             | DataCh, DataCh | ControlCh, ControlCh => Some w.2
             | _, _ => None
             end) (eg_written e).

Inductive egress_op : Type :=
  | EoAcked (frame : list byte) (a : nat)
  | EoFaf (frame : list byte)
  | EoControl (frame : list byte)
  | EoClose
  | EoDropHandles
  | EoDrain (ok : bool).

(** An egress with what its callers were promised: the data frames, control
    frames and receipts accepted so far, in submission order. *)
Record egress_hist : Type := mkEgressHist {
  eh_egress : Egress;
  eh_data : list (list byte);
  eh_control : list (list byte);
  eh_acks : list nat;
}.

Definition accept (h : egress_hist) (r : Egress * result unit XacppError)
    (d c : list (list byte)) (a : list nat) : egress_hist :=
  match r with
  | (e, Ok _) => mkEgressHist e (eh_data h ++ d) (eh_control h ++ c) (eh_acks h ++ a)
  | (e, Err _) => mkEgressHist e (eh_data h) (eh_control h) (eh_acks h)
  end.

(** Sends and [close] need a handle; the drain task runs by itself. *)
Definition egress_exec (h : egress_hist) (op : egress_op) : egress_hist :=
  let e := eh_egress h in
  let upd e := mkEgressHist e (eh_data h) (eh_control h) (eh_acks h) in
  match op with
  | EoDrain ok => upd (drain_step e ok)
  | _ =>
      if negb (eg_handles e) then h
      else
        match op with
        | EoAcked f a => accept h (send_acked e f a) [f] [] [a]
        | EoFaf f => accept h (send_faf e f) [f] [] []
        | EoControl f => accept h (send_control e f) [] [f] []
        | EoClose => upd (egress_close e)
        | EoDropHandles => upd (drop_handles e)
        | EoDrain _ => h
        end
  end.

Definition egress_run (pending : gmap string PendingSlot) (ops : list egress_op) : egress_hist :=
  foldl egress_exec (mkEgressHist (spawn_egress true false pending) [] [] []) ops.

(** While the task runs nothing accepted is lost; once it exited the written
    frames are what was accepted first and every receipt is resolved. *)
Record egress_inv (h : egress_hist) : Prop := {
  ei_data : if eg_running (eh_egress h)
    then eh_data h = written_on DataCh (eh_egress h) ++ frames_of (eg_data (eh_egress h))
    else written_on DataCh (eh_egress h) `prefix_of` eh_data h;
  ei_control : if eg_running (eh_egress h)
    then eh_control h = written_on ControlCh (eh_egress h) ++ frames_of (eg_control (eh_egress h))
    else written_on ControlCh (eh_egress h) `prefix_of` eh_control h;
  ei_acks : eh_acks h = (eg_acks (eh_egress h)).*1 ++ acks_of (eg_data (eh_egress h));
  ei_empty : eg_running (eh_egress h) = false → eg_data (eh_egress h) = [];
}.

Lemma fail_acks_spec items e :
  let e' := fail_acks items e in
  eg_acks e' = eg_acks e ++ ((λ a, (a, false)) <$> acks_of items) ∧
  eg_written e' = eg_written e ∧ eg_data e' = eg_data e ∧ eg_control e' = eg_control e ∧
  eg_running e' = eg_running e ∧ eg_connected e' = eg_connected e ∧
  eg_closed e' = eg_closed e ∧ eg_pending e' = eg_pending e.
Proof.
  unfold fail_acks. revert e. induction items as [|i items IH]; intros e; cbn [foldl].
  { by rw app_nil_r. }
  destruct (IH (match i with EFrame _ a => resolve a false e | EClose => e end))
    as (H1 & H2 & H3 & H4 & H5 & H6 & H7 & H8). cbn zeta in *.
  rw H1 H2 H3 H4 H5 H6 H7 H8. destruct i as [f [a|]|]; cbn; by rw -?app_assoc.
Qed.

Lemma task_exit_spec e :
  let e' := task_exit e in
  eg_running e' = false ∧ eg_data e' = [] ∧ eg_written e' = eg_written e ∧
  eg_acks e' = eg_acks e ++ ((λ a, (a, false)) <$> acks_of (eg_data e)) ∧
  eg_connected e' = eg_connected e ∧ eg_closed e' = eg_closed e ∧
  eg_pending e' = eg_pending e.
Proof.
  destruct (fail_acks_spec (eg_data e) e) as (H1 & H2 & H3 & H4 & H5 & H6 & H7 & H8).
  unfold task_exit. cbn. cbn zeta in *. by rw H1 H2 H6 H7 H8.
Qed.

Lemma fst_failed (l : list nat) : ((λ a, (a, false)) <$> l).*1 = l.
Proof. rw -list_fmap_compose. apply list_fmap_id. Qed.

(** The task exits with the promises kept. *)
Lemma exit_inv h e' :
  eg_running e' = false → eg_data e' = [] →
  written_on DataCh e' `prefix_of` eh_data h →
  written_on ControlCh e' `prefix_of` eh_control h →
  eh_acks h = (eg_acks e').*1 →
  egress_inv (mkEgressHist e' (eh_data h) (eh_control h) (eh_acks h)).
Proof.
  intros H1 H2 H3 H4 H5. split; cbn; rw ?H1 ?H2 //. by rw app_nil_r.
Qed.

Lemma written_ext c e e' : eg_written e' = eg_written e → written_on c e' = written_on c e.
Proof. unfold written_on. by intros ->. Qed.

Lemma written_log c c' f e :
  written_on c (log_write c' f e) =
  written_on c e ++ match c, c' with
                    | DataCh, DataCh | ControlCh, ControlCh => [f] | _, _ => [] end.
Proof. unfold written_on. cbn. rw omap_app. by destruct c, c'. Qed.

Lemma task_exit_inv h e :
  written_on DataCh e `prefix_of` eh_data h →
  written_on ControlCh e `prefix_of` eh_control h →
  eh_acks h = (eg_acks e).*1 ++ acks_of (eg_data e) →
  egress_inv (mkEgressHist (task_exit e) (eh_data h) (eh_control h) (eh_acks h)).
Proof.
  intros H1 H2 H3. destruct (task_exit_spec e) as (E1 & E2 & E3 & E4 & _).
  apply exit_inv; [done|done|by rw (written_ext _ _ _ E3)..|].
  by rw E4 fmap_app fst_failed.
Qed.

Lemma write_failed_inv h e :
  written_on DataCh e `prefix_of` eh_data h →
  written_on ControlCh e `prefix_of` eh_control h →
  eh_acks h = (eg_acks e).*1 ++ acks_of (eg_data e) →
  egress_inv (mkEgressHist (write_failed e) (eh_data h) (eh_control h) (eh_acks h)).
Proof. intros. by apply (task_exit_inv h (clear_pending (set_flags false true e))). Qed.

Lemma resolve_acks a ok e :
  (eg_acks (resolve a ok e)).*1 = (eg_acks e).*1 ++ match a with Some a => [a] | None => [] end.
Proof. destruct a; cbn; [by rw fmap_app|by rw app_nil_r]. Qed.

Lemma acks_of_cons f a items :
  acks_of (EFrame f a :: items) = match a with Some a => [a] | None => [] end ++ acks_of items.
Proof. by destruct a. Qed.

Lemma drain_data_inv h ok :
  egress_inv h → eg_running (eh_egress h) = true →
  egress_inv (mkEgressHist (drain_data (eh_egress h) ok) (eh_data h) (eh_control h) (eh_acks h)).
Proof.
  intros Hi Hr. pose proof Hi as [I1 I2 I3 I4]. rw Hr in I1 I2.
  assert (Hp1 : written_on DataCh (eh_egress h) `prefix_of` eh_data h)
    by (rw I1; by apply prefix_app_r).
  assert (Hp2 : written_on ControlCh (eh_egress h) `prefix_of` eh_control h)
    by (rw I2; by apply prefix_app_r).
  unfold drain_data. destruct (eg_data (eh_egress h)) as [|[frame ack|] rest] eqn:Hd.
  - case_match; [by destruct h|]. apply task_exit_inv; [done|done|]. by rw Hd.
  - rw acks_of_cons in I3. destruct ok; cbn zeta.
    + split; cbn [eh_egress eh_data eh_control eh_acks];
        try (change (eg_running _) with (eg_running (eh_egress h)); rw Hr).
      * rw (written_ext DataCh (log_write DataCh frame (eh_egress h))) // written_log I1.
        cbn. by rw -app_assoc.
      * rw (written_ext ControlCh (log_write DataCh frame (eh_egress h))) // written_log I2.
        by rw app_nil_r.
      * rw resolve_acks I3. cbn. by rw -app_assoc.
      * done.
    + apply write_failed_inv; [done|done|]. rw resolve_acks I3. cbn. by rw -app_assoc.
  - by apply task_exit_inv.
Qed.

Lemma drain_step_inv h ok :
  egress_inv h →
  egress_inv (mkEgressHist (drain_step (eh_egress h) ok) (eh_data h) (eh_control h) (eh_acks h)).
Proof.
  intros Hi. pose proof Hi as [I1 I2 I3 I4]. unfold drain_step.
  destruct (eg_running (eh_egress h)) eqn:Hr; cbn [negb]; [|by destruct h].
  case_match; [|by apply drain_data_inv].
  destruct (eg_control (eh_egress h)) as [|[frame a|] rest] eqn:Hc.
  - case_match; [|by apply drain_data_inv]. split; cbn; rw ?Hr ?Hc //.
  - destruct ok.
    + split; cbn [eh_egress eh_data eh_control eh_acks];
        try (change (eg_running _) with (eg_running (eh_egress h)); rw Hr).
      * rw (written_ext DataCh (log_write ControlCh frame (eh_egress h))) // written_log I1.
        cbn. by rw app_nil_r.
      * rw (written_ext ControlCh (log_write ControlCh frame (eh_egress h))) // written_log I2.
        cbn. by rw -app_assoc.
      * done.
      * done.
    + apply write_failed_inv; [| |done].
      * rw (written_ext DataCh (eh_egress h)) // I1. by apply prefix_app_r.
      * rw (written_ext ControlCh (eh_egress h)) // I2. by apply prefix_app_r.
  - split; cbn; rw ?Hr //.
Qed.

Lemma push_data_inv h item d a :
  egress_inv h → eg_running (eh_egress h) = true →
  frames_of [item] = d → acks_of [item] = a →
  egress_inv (mkEgressHist
    (set_queues (eg_data (eh_egress h) ++ [item]) (eg_control (eh_egress h)) (eh_egress h))
    (eh_data h ++ d) (eh_control h) (eh_acks h ++ a)).
Proof.
  intros [I1 I2 I3 I4] Hr <- <-. rw Hr in I1 I2. split; cbn [eh_egress eh_data eh_control eh_acks];
    try (change (eg_running _) with (eg_running (eh_egress h)); rw Hr).
  - rw (written_ext DataCh (eh_egress h)) // I1. unfold frames_of. cbn [eg_data set_queues].
    by rw omap_app -app_assoc.
  - rw (written_ext ControlCh (eh_egress h)) //.
  - rw I3. unfold acks_of. cbn [eg_data eg_acks set_queues]. by rw omap_app -app_assoc.
  - done.
Qed.

Lemma egress_exec_inv h op : egress_inv h → egress_inv (egress_exec h op).
Proof.
  intros Hi. pose proof Hi as [I1 I2 I3 I4].
  destruct op as [f a|f|f| | |ok]; cbn [egress_exec];
    [destruct (eg_handles (eh_egress h)); cbn [negb]; [|done]..|by apply drain_step_inv].
  - unfold send_acked, push_data. destruct (eg_connected (eh_egress h)); cbn [negb]; [|by destruct h].
    destruct (eg_running (eh_egress h)) eqn:Hr; [|by destruct h].
    cbn. rw app_nil_r. by apply push_data_inv.
  - unfold send_faf, push_data. destruct (eg_connected (eh_egress h)); cbn [negb]; [|by destruct h].
    destruct (eg_running (eh_egress h)) eqn:Hr; [|by destruct h].
    cbn. rw app_nil_r. by apply push_data_inv.
  - unfold send_control. destruct (eg_connected (eh_egress h)); cbn [negb]; [|by destruct h].
    destruct (eg_running (eh_egress h)) eqn:Hr; [|by destruct h]. cbn. rw !app_nil_r.
    split; cbn [eh_egress eh_data eh_control eh_acks];
      try (change (eg_running _) with (eg_running (eh_egress h)); rw Hr); [done| |done|done].
    rw (written_ext ControlCh (eh_egress h)) // I2. unfold frames_of. cbn [eg_control set_queues].
    by rw omap_app -app_assoc.
  - unfold egress_close, push_data. cbn. destruct (eg_running (eh_egress h)) eqn:Hr; cbn.
    + pose proof (push_data_inv h EClose [] [] Hi Hr eq_refl eq_refl) as [J1 J2 J3 J4].
      cbn in J1, J2, J3, J4. rw !app_nil_r in J1 J3. by split.
    + split; cbn; rw ?Hr //.
  - done.
Qed.

Lemma egress_run_inv pending ops : egress_inv (egress_run pending ops).
Proof.
  unfold egress_run. set (h := mkEgressHist _ _ _ _). assert (Hi : egress_inv h) by by split.
  clearbody h. revert h Hi. induction ops as [|op ops IH]; intros h Hi; [done|].
  apply IH. by apply egress_exec_inv.
Qed.

(** ** Properties *)

(** C34: the egress keeps its order promise.  In every history, the data frames
    that reached the writer are the accepted ones in submission order, none
    skipped, duplicated or reordered (and the same for control frames among
    themselves); while the task runs, whatever is not written yet is still
    queued; and every accepted receipt is resolved in order, all of them once
    the task has exited. *)
Theorem egress_order pending ops :
  let h := egress_run pending ops in
  let e := eh_egress h in
  written_on DataCh e `prefix_of` eh_data h ∧
  written_on ControlCh e `prefix_of` eh_control h ∧
  (eg_acks e).*1 `prefix_of` eh_acks h ∧
  if eg_running e then
    eh_data h = written_on DataCh e ++ frames_of (eg_data e) ∧
    eh_control h = written_on ControlCh e ++ frames_of (eg_control e)
  else (eg_acks e).*1 = eh_acks h.
Proof.
  intros h e. destruct (egress_run_inv pending ops) as [I1 I2 I3 I4]. fold h in I1, I2, I3, I4.
  fold e in I1, I2, I3, I4. rw I3.
  destruct (eg_running e) eqn:Hr.
  - rw I1 I2. split_and!; try (by apply prefix_app_r); done.
  - split_and!; [done|done|by apply prefix_app_r|]. rw I4 //. by rw app_nil_r.
Qed.

(** control frames have scheduling priority: a turn that writes a data frame
    found no control frame waiting. *)
Theorem control_priority e ok f :
  eg_control_open e = true →
  eg_written (drain_step e ok) = eg_written e ++ [(DataCh, f)] → eg_control e = [].
Proof.
  intros Ho Hw. unfold drain_step in Hw. rw Ho in Hw.
  assert (Hnil : ∀ l : list (channel * list byte), l ≠ l ++ [(DataCh, f)]).
  { intros l Hl. apply (f_equal length) in Hl. rw length_app in Hl. cbn in Hl. lia. }
  case_match; [by apply Hnil in Hw|]. destruct (eg_control e) as [|[g a|] rest]; [done|..].
  - destruct ok; cbn in Hw.
    + by apply app_inj_2 in Hw as [_ [= ]].
    + unfold write_failed in Hw.
      destruct (task_exit_spec (clear_pending (set_flags false true (set_queues (eg_data e) rest e))))
        as (_ & _ & Hw' & _). rw Hw' in Hw. by apply Hnil in Hw.
  - by apply Hnil in Hw.
Qed.

(** a failed write fails everything fast: the connection is marked dead for
    senders and watchers, the pending table is cleared, the task exits with all
    outstanding receipts failed, and every later send is refused. *)
Theorem write_failure_is_final e f a rest :
  eg_running e = true → eg_control e = [] → eg_handles e = true →
  eg_data e = EFrame f a :: rest →
  let e' := drain_step e false in
  eg_connected e' = false ∧ eg_closed e' = true ∧ eg_pending e' = ∅ ∧ eg_running e' = false ∧
  eg_written e' = eg_written e ∧
  eg_acks e' = eg_acks e ++ ((λ a, (a, false)) <$> acks_of (EFrame f a :: rest)) ∧
  ∀ g b, (send_faf e' g).2 = Err NotConnected ∧ (send_acked e' g b).2 = Err NotConnected ∧
         (send_control e' g).2 = Err NotConnected ∧ ∀ ok, drain_step e' ok = e'.
Proof.
  intros Hr Hc Hh Hd e'.
  set (e1 := resolve a false (set_queues rest (eg_control e) e)).
  assert (He : e' = write_failed e1).
  { unfold e', e1, drain_step, drain_data. rw Hr Hc Hh Hd. by destruct (eg_control_open e). }
  destruct (task_exit_spec (clear_pending (set_flags false true e1)))
    as (E1 & E2 & E3 & E4 & E5 & E6 & E7). unfold write_failed in He. rw -He in E1 E2 E3 E4 E5 E6 E7.
  split_and!; [done..| |].
  - rw E4 acks_of_cons. unfold e1. destruct a; cbn; by rw -?app_assoc.
  - intros g b. unfold send_faf, send_acked, send_control, drain_step. by rw E5 E1.
Qed.

(** ** Graceful teardown *)

(** [n] turns of the task with a working writer. *)
Fixpoint drain_n (n : nat) (e : Egress) : Egress :=
  match n with O => e | S n => drain_n n (drain_step e true) end.

Definition is_frame (i : EgressItem) : Prop :=
  match i with EFrame _ _ => True | EClose => False end.

Lemma drain_n_add n m e : drain_n (n + m) e = drain_n m (drain_n n e).
Proof. revert e. induction n as [|n IH]; intros e; [done|]. apply IH. Qed.

Lemma flush_control c e :
  eg_running e = true → eg_control_open e = true → eg_control e = c → Forall is_frame c →
  drain_n (length c) e =
  mkEgress (eg_data e) [] (eg_connected e) (eg_closed e) (eg_handles e) true true
    (eg_written e ++ ((ControlCh,.) <$> frames_of c)) (eg_acks e) (eg_pending e).
Proof.
  revert e. induction c as [|i c IH]; intros e Hr Ho Hc Hf.
  { cbn. rw app_nil_r. destruct e. cbn in *. by subst. }
  apply Forall_cons in Hf as [Hi Hf]. destruct i as [f a|]; [|done]. cbn [length drain_n].
  assert (Hs : drain_step e true = log_write ControlCh f (set_queues (eg_data e) c e))
    by (unfold drain_step; by rw Hr Ho Hc).
  rw Hs IH //. cbn. by rw -app_assoc.
Qed.

Lemma flush_data d e :
  eg_running e = true → eg_handles e = true → eg_control e = [] → eg_data e = d ++ [EClose] →
  Forall is_frame d →
  let e' := drain_n (length d + 1) e in
  eg_running e' = false ∧ eg_connected e' = eg_connected e ∧ eg_closed e' = eg_closed e ∧
  eg_written e' = eg_written e ++ ((DataCh,.) <$> frames_of d) ∧
  eg_acks e' = eg_acks e ++ ((λ a, (a, true)) <$> acks_of d).
Proof.
  revert e. induction d as [|i d IH]; intros e Hr Hh Hc Hd Hf.
  - cbn. assert (Hs : drain_step e true = task_exit (set_queues [] [] e)).
    { unfold drain_step, drain_data. rw Hr Hc Hh Hd. by destruct (eg_control_open e). }
    rw Hs. by rw !app_nil_r.
  - apply Forall_cons in Hf as [Hi Hf]. destruct i as [f a|]; [|done].
    cbn [length Nat.add drain_n].
    assert (Hs : drain_step e true =
      resolve a true (log_write DataCh f (set_queues (d ++ [EClose]) [] e))).
    { unfold drain_step, drain_data. rw Hr Hc Hh Hd. by destruct (eg_control_open e). }
    rw Hs. destruct (IH (resolve a true (log_write DataCh f (set_queues (d ++ [EClose]) [] e))))
      as (H1 & H2 & H3 & H4 & H5); [done..|]. cbn zeta in *. rw H4 H5. cbn.
    split_and!; [done..|by rw -app_assoc|]. destruct a; cbn; by rw -?app_assoc.
Qed.

(** a graceful close loses nothing.  With a writer that keeps working, the
    task flushes every queued control frame and then every queued data frame in
    order, answers all their receipts with success, and exits; meanwhile the
    connection already refuses new frames and is reported closed. *)
Theorem close_flushes e :
  eg_running e = true → eg_control_open e = true → eg_handles e = true →
  Forall is_frame (eg_data e) → Forall is_frame (eg_control e) →
  let e' := drain_n (length (eg_control e) + (length (eg_data e) + 1)) (egress_close e) in
  (∀ g, (send_faf (egress_close e) g).2 = Err NotConnected) ∧
  eg_closed (egress_close e) = true ∧
  eg_running e' = false ∧ eg_connected e' = false ∧
  eg_written e' = eg_written e ++ ((ControlCh,.) <$> frames_of (eg_control e))
                              ++ ((DataCh,.) <$> frames_of (eg_data e)) ∧
  eg_acks e' = eg_acks e ++ ((λ a, (a, true)) <$> acks_of (eg_data e)).
Proof.
  intros Hr Ho Hh Hd Hc e'.
  assert (Hcl : egress_close e = set_queues (eg_data e ++ [EClose]) (eg_control e)
    (set_flags false true e)).
  { unfold egress_close, push_data, mark_closed. cbn. by rw Hr. }
  unfold e'. rw Hcl drain_n_add.
  rw (flush_control (eg_control e)) //.
  match goal with |- context [drain_n (length (eg_data e) + 1) ?x] =>
    destruct (flush_data (eg_data e) x) as (H1 & H2 & H3 & H4 & H5) end; [done..|].
  cbn zeta in *. rw H1 H2 H4 H5. cbn. by rw -app_assoc.
Qed.
