(* ===== verification/Socket.v ===== *)
(** * The socket transport ([src/carrier/socket.rs])

    The transport the session is wired to: its write surface over the ordered
    egress, the hook slot, and the read task that turns the byte stream into
    envelopes and transfer frames. *)
From S2P Require Import Prelude Crc Frame Control Sender Reassemble Errors Stream Transfer.
From S2P Require Import Clock Egress.

(** ** The socket transport's write surface *)

(** [SocketTransport], write side: the egress of the current connection, the
    hook slot, and the egresses of earlier connections, which go on draining. *)
Record SocketTransport : Type := mkSocketTransport {
  sk_egress : option Egress;
  sk_hooks : bool;
  sk_draining : list Egress;
}.

Section socket.
Context `{CRC : Crc32} `{UUID : UuidLib}.

Definition socket_with_egress (w : SocketTransport) (e : Egress) : SocketTransport :=
  mkSocketTransport (Some e) (sk_hooks w) (sk_draining w).

Definition socket_write_control_frame (w : SocketTransport) (bytes : list byte) :
    SocketTransport * result unit XacppError :=
  match sk_egress w with
  | None => (w, Err NotConnected)
  | Some e => let '(e, r) := send_control e bytes in (socket_with_egress w e, r)
  end.

Definition socket_write_data_frame (w : SocketTransport) (f : Frame) :
    SocketTransport * result unit XacppError :=
  match sk_egress w with
  | None => (w, Err NotConnected)
  | Some e =>
      match encode f with
      | Err x => (w, Err (Internal (DisplayFrame x)))
      | Ok wire => let '(e, r) := send_faf e wire in (socket_with_egress w e, r)
      end
  end.

Definition socket_on_transfer_activity (w : SocketTransport) (hooks : bool) :
    SocketTransport :=
  mkSocketTransport (sk_egress w) hooks (sk_draining w).

(** [disconnect], as far as the transfer layer sees it: hooks off, the egress
    taken and closed, the pending table cleared. *)
Definition socket_disconnect (w : SocketTransport) :
    SocketTransport * result unit XacppError :=
  (mkSocketTransport None false
     (match sk_egress w with
      | Some e => clear_pending (egress_close e) :: sk_draining w
      | None => sk_draining w
      end), Ok tt).

#[export] Instance SocketTransport_wiring : TransferWiring SocketTransport := {|
  write_control_frame := socket_write_control_frame;
  write_data_frame := socket_write_data_frame;
  on_transfer_activity := socket_on_transfer_activity;
|}.

#[export] Instance SocketTransport_transport : XacppTransport SocketTransport := {|
  disconnect := socket_disconnect;
|}.

(** A live connection queues encodable frames in order. *)
Lemma socket_write_frames e w fs wires :
  sk_egress w = Some e → eg_connected e = true → eg_running e = true →
  collect encode fs = Ok wires →
  write_data_frames w fs =
  (socket_with_egress w (set_queues (eg_data e ++ ((λ b, EFrame b None) <$> wires))
                           (eg_control e) e), true).
Proof using Type.
  intros Hw Hc Hr Henc%collect_Forall2. revert e w Hw Hc Hr.
  induction Henc as [|f b fs wires Hb _ IH]; intros e w Hw Hc Hr; cbn [write_data_frames].
  - cbn. rw app_nil_r. destruct w as [oe h dr], e. cbn in *. by subst.
  - cbn. unfold socket_write_data_frame, send_faf, push_data. rw Hw Hb Hc Hr. cbn.
    rw (IH (set_queues (eg_data e ++ [EFrame b None]) (eg_control e) e)) //. cbn.
    by rw -app_assoc.
Qed.

(** ** The read task *)

Record ReaderState : Type := mkReaderState {
  rd_decoder : FrameDecoder;
  rd_session : TransferSession;
  rd_transport : SocketTransport;
  rd_events : list AppEvent;
  rd_envelopes : list (list byte);
}.

(** One decoded frame: envelopes refresh the activity clock and go to the
    dispatch task; every other frame goes to the transfer hooks, if any (the
    hooks are read per frame). *)
Definition route_frame (now : N) (rd : ReaderState) (f : Frame) : ReaderState :=
  let '(mkReaderState d s w evs envs) := rd in
  match frame_type f with
  | DataJson =>
      mkReaderState d (if sk_hooks w then on_activity s now else s) w evs
        (envs ++ [payload f])
  | _ =>
      if sk_hooks w then
        let '(s, w, new) := handle_inbound s f w now in
        mkReaderState d s w (evs ++ new) envs
      else rd
  end.

(** One successful read of [chunk]; on a fatal decode error the hooks are
    detached and the task ends ([true]).  [None] stands for a decoder that runs
    forever, which never happens ([feed_run]). *)
Definition read_chunk (rd : ReaderState) (chunk : list byte) (now : N) :
    option (ReaderState * bool) :=
  let '(mkReaderState d s w evs envs) := rd in
  match feed d chunk with
  | None => None
  | Some (d, Ok frames) =>
      Some (foldl (route_frame now) (mkReaderState d s w evs envs) frames, false)
  | Some (d, Err _) =>
      Some (mkReaderState d s (socket_on_transfer_activity w false) evs envs, true)
  end.

(** The read loop over the chunks (with their arrival times) of a connection. *)
Fixpoint read_all (rd : ReaderState) (chunks : list (list byte * N)) :
    option (ReaderState * bool) :=
  match chunks with
  | [] => Some (rd, false)
  | (c, now) :: rest =>
      match read_chunk rd c now with
      | Some (rd, false) => read_all rd rest
      | r => r
      end
  end.

(** End of stream or read error. *)
Definition read_end (rd : ReaderState) : ReaderState :=
  mkReaderState (rd_decoder rd) (rd_session rd)
    (socket_on_transfer_activity (rd_transport rd) false) (rd_events rd) (rd_envelopes rd).

(** ** Routing *)

Lemma route_decoder now rd f : rd_decoder (route_frame now rd f) = rd_decoder rd.
Proof using Type.
  destruct rd. unfold route_frame.
  destruct (frame_type f); cbn; try case_match; try done;
    by destruct (handle_inbound _ _ _ _) as [[? ?] ?].
Qed.

Lemma route_all_decoder now rd fs : rd_decoder (foldl (route_frame now) rd fs) = rd_decoder rd.
Proof using Type.
  revert rd. induction fs as [|f fs IH]; intros rd; [done|]. cbn. by rw IH route_decoder.
Qed.

Definition set_decoder (d : FrameDecoder) (rd : ReaderState) : ReaderState :=
  mkReaderState d (rd_session rd) (rd_transport rd) (rd_events rd) (rd_envelopes rd).

Lemma route_set_decoder now d rd f :
  route_frame now (set_decoder d rd) f = set_decoder d (route_frame now rd f).
Proof using Type.
  destruct rd. unfold route_frame, set_decoder. cbn.
  destruct (frame_type f); cbn; try case_match; try done;
    by destruct (handle_inbound _ _ _ _) as [[? ?] ?].
Qed.

Lemma route_all_set_decoder d rd (arr : list (Frame * N)) :
  foldl (λ rd a, route_frame a.2 rd a.1) (set_decoder d rd) arr =
  set_decoder d (foldl (λ rd a, route_frame a.2 rd a.1) rd arr).
Proof using Type.
  revert rd. induction arr as [|a arr IH]; intros rd; [done|]. cbn [foldl].
  by rw route_set_decoder IH.
Qed.

(** Whatever the chunking, a stream that decodes to [fs] is routed frame by
    frame, in order. *)
Lemma read_all_routes rd chunks d' fs :
  feed_all (rd_decoder rd) chunks.*1 = Some (d', fs, None) →
  ∃ arr, arr.*1 = fs ∧
    read_all rd chunks =
    Some (set_decoder d' (foldl (λ rd a, route_frame a.2 rd a.1) rd arr), false).
Proof using Type.
  revert rd fs. induction chunks as [|[c now] chunks IH]; intros rd fs;
    cbn [fmap list_fmap fst feed_all read_all].
  - intros [= <- <-]. exists []. split; [done|]. by destruct rd.
  - destruct rd as [d s w evs envs]. cbn [rd_decoder read_chunk].
    destruct (feed d c) as [[d1 [frames|e]]|]; [|by intros [=]..].
    destruct (feed_all d1 chunks.*1) as [[[d2 more] e2]|] eqn:Hrest; [|done].
    intros [= -> <- ->]. cbn.
    set (rd1 := mkReaderState d1 s w evs envs).
    destruct (IH (foldl (route_frame now) rd1 frames) more) as (arr & <- & Hall).
    { by rw route_all_decoder. }
    exists (((λ f, (f, now)) <$> frames) ++ arr). split.
    { rw fmap_app -list_fmap_compose. by rw list_fmap_id. }
    assert (Hmap : ∀ rd, foldl (λ rd a, route_frame a.2 rd a.1) rd ((λ f, (f, now)) <$> frames) =
      foldl (route_frame now) rd frames).
    { clear. induction frames as [|f fs IH]; intros rd; [done|].
      cbn [foldl fmap list_fmap fst snd]. apply IH. }
    rw Hall. do 2 f_equal. rw -Hmap -foldl_app.
    change (mkReaderState d s w evs envs) with (set_decoder d rd1).
    by rw route_all_set_decoder.
Qed.
End socket.
