(* ===== verification/Link.v ===== *)
(** * A live connection between two sessions

    What the recovery of a transfer needs of a transport: while the connection
    lives, a frame handed to its write surface is accepted and is on its way, in
    order, on its channel ([DuplexLink], with the socket and the recording
    transport as instances); the frames a peer then decodes are the ones written. *)
From S2P Require Import Prelude Crc Frame Control Sender Reassemble Errors Stream Transfer.
From S2P Require Import Delivery Clock Egress Socket.

(** ** The interface *)

(** What a transport has accepted on its data and control channels so far. *)
Class DuplexLink (W : Type) `{CRC : Crc32} `{WIRE : TransferWiring W} : Type := {
  conn_live : W → Prop;
  conn_data : W → list (list byte);
  conn_control : W → list (list byte);
}.

(** From [w] to [w'] a live connection accepted [ds] and [cs]. *)
Record accepted `{DuplexLink W} (w w' : W) (ds cs : list (list byte)) : Prop := {
  acc_live : conn_live w';
  acc_data : conn_data w' = conn_data w ++ ds;
  acc_control : conn_control w' = conn_control w ++ cs;
}.

Class DuplexLinkLaws (W : Type) `{CONN : DuplexLink W} : Prop := {
  conn_write_data (w : W) f b : conn_live w → encode f = Ok b →
    (write_data_frame w f).2 = Ok tt ∧ accepted w (write_data_frame w f).1 [b] [];
  conn_write_control (w : W) b : conn_live w →
    (write_control_frame w b).2 = Ok tt ∧ accepted w (write_control_frame w b).1 [] [b];
  conn_activity (w : W) hooks : conn_live w → accepted w (on_transfer_activity w hooks) [] [];
}.

(** ** Instances *)

Section instances.
Context `{CRC : Crc32}.

(** The recording transport takes everything. *)
#[export] Instance Recorder_connection : DuplexLink Recorder := {|
  conn_live r := True;
  conn_data r := omap (λ f, match encode f with Ok b => Some b | Err _ => None end) (rec_data r);
  conn_control r := rec_control r;
|}.

#[export] Instance Recorder_connection_laws : DuplexLinkLaws Recorder.
Proof.
  split; intros w x.
  - intros b _ Hb. split; [done|]. split; cbn; [done| |by rw app_nil_r].
    rw omap_app. cbn. by rw Hb.
  - intros _. split; [done|]. split; cbn; [done|by rw app_nil_r|done].
  - intros _. split; cbn; [done|by rw app_nil_r|by rw app_nil_r].
Qed.

(** A socket with a running egress: what its drain task wrote and what is queued. *)
#[export] Instance Socket_connection : DuplexLink SocketTransport := {|
  conn_live w := ∃ e, sk_egress w = Some e ∧ eg_connected e = true ∧ eg_running e = true;
  conn_data w :=
    match sk_egress w with
    | Some e => written_on DataCh e ++ frames_of (eg_data e)
    | None => []
    end;
  conn_control w :=
    match sk_egress w with
    | Some e => written_on ControlCh e ++ frames_of (eg_control e)
    | None => []
    end;
|}.

#[export] Instance Socket_connection_laws : DuplexLinkLaws SocketTransport.
Proof.
  split; intros w x.
  - intros b (e & He & Hc & Hr) Hb. cbn. unfold socket_write_data_frame, send_faf, push_data.
    rw He Hb Hc Hr. split; [done|]. split; cbn; [by eexists|..]; rw He ?app_nil_r //.
    unfold frames_of. by rw omap_app app_assoc.
  - intros (e & He & Hc & Hr). cbn. unfold socket_write_control_frame, send_control.
    rw He Hc Hr. split; [done|]. split; cbn; [by eexists|..]; rw He ?app_nil_r //.
    unfold frames_of. by rw omap_app app_assoc.
  - intros (e & He & Hc & Hr). split; cbn; rw He ?app_nil_r //. by eexists.
Qed.
End instances.

(** ** Accepting frames *)

Section accepting.
Context `{CRC : Crc32} {W : Type} `{WIRE : TransferWiring W} `{CONN : !DuplexLink W}.
Context {LAWS : DuplexLinkLaws W}.
Implicit Types (w : W).

Lemma accepted_refl w : conn_live w → accepted w w [] [].
Proof using Type. intros Hl. split; [done|by rw app_nil_r|by rw app_nil_r]. Qed.

Lemma accepted_trans w1 w2 w3 ds1 cs1 ds2 cs2 :
  accepted w1 w2 ds1 cs1 → accepted w2 w3 ds2 cs2 → accepted w1 w3 (ds1 ++ ds2) (cs1 ++ cs2).
Proof using Type.
  intros [_ D1 C1] [L2 D2 C2]. split; [done|..]; [by rw D2 D1 app_assoc|by rw C2 C1 app_assoc].
Qed.

Lemma encodable_encode f : encodable f → ∃ b, encode f = Ok b.
Proof using Type. intros [_ Hl]. unfold encode. cmp. eauto. Qed.

Lemma encodable_all fs : Forall encodable fs → ∃ bs, collect encode fs = Ok bs.
Proof using Type.
  induction 1 as [|f fs Hf _ [bs IH]]; [by exists []|]. cbn.
  destruct (encodable_encode f Hf) as [b ->]. rw IH. eauto.
Qed.

Lemma accepted_frames fs w : conn_live w → Forall encodable fs →
  ∃ bs, collect encode fs = Ok bs ∧ (write_data_frames w fs).2 = true ∧
    accepted w (write_data_frames w fs).1 bs [].
Proof using LAWS.
  revert w. induction fs as [|f fs IH]; intros w Hl Hfs.
  - exists []. split_and!; [done..|]. by apply accepted_refl.
  - apply Forall_cons in Hfs as [Hf Hfs]. destruct (encodable_encode f Hf) as [b Hb].
    destruct (conn_write_data w f b Hl Hb) as [Hr Ha]. cbn [write_data_frames].
    destruct (write_data_frame w f) as [w1 r1]. cbn in Hr, Ha. subst r1.
    destruct (IH w1 (acc_live _ _ _ _ Ha) Hfs) as (bs & Hbs & Hok & Hacc).
    exists (b :: bs). cbn. rw Hb Hbs. split_and!; [done..|].
    by apply (accepted_trans w w1 _ [b] [] bs []).
Qed.

(** The frame a control payload travels in. *)
Definition payload_frame {P} `{ControlPayload P} (bytes : list byte) : Frame :=
  Frame_new (FRAME_TYPE (P := P)) zero_txid 0 0 bytes.

Lemma payload_frame_encodable {P} `{ControlPayloadLaws P} (p : P) bs :
  payload_encode p = Ok bs → encodable (payload_frame (P := P) bs).
Proof using Type.
  intros He. pose proof (payload_encode_cap p bs He) as Hc.
  pose proof (frame_type_control (P := P)) as Hm.
  split; [split; [|done]|].
  - apply type_wf_known. intros v Hv. cbn in Hv. by rw Hv in Hm.
  - cbn [payload_frame payload frame_type].
    destruct (FRAME_TYPE (P := P)); cbn in Hm |- *; by simplify_eq.
Qed.

(** A control payload that encodes goes out as one control frame. *)
Lemma accepted_payload {P} `{ControlPayloadLaws P} (p : P) bs w :
  conn_live w → payload_encode p = Ok bs →
  ∃ b, encode (payload_frame (P := P) bs) = Ok b ∧ accepted w (Transfer.send_control w p) [] [b].
Proof using LAWS.
  intros Hl He. destruct (encodable_encode _ (payload_frame_encodable p bs He)) as [b Hb].
  exists b. split; [done|]. unfold Transfer.send_control, control_frame. rw He.
  unfold payload_frame in Hb. rw Hb. by apply conn_write_control.
Qed.

(** ** What the peer decodes *)

Definition received (wires : list (list byte)) : list Frame :=
  match feed FrameDecoder_new (concat wires) with Some (_, Ok fs) => fs | _ => [] end.

(** The frames accepted between two states of a connection. *)
Definition data_since (w w' : W) : list Frame :=
  received (drop (length (conn_data w)) (conn_data w')).

Definition control_since (w w' : W) : list Frame :=
  received (drop (length (conn_control w)) (conn_control w')).

Lemma received_encoded `{!Crc32Laws CRC} fs wires :
  Forall encodable fs → collect encode fs = Ok wires → received wires = fs.
Proof using Type.
  intros Hfs He. assert (Hwf : Forall frame_wf fs)
    by (eapply Forall_impl; [exact Hfs|]; by intros f []).
  pose proof (decode_encode_core fs wires [concat wires] Hwf He) as Hd.
  cbn [concat] in Hd. rw app_nil_r in Hd. specialize (Hd eq_refl). unfold received.
  cbn [feed_all] in Hd. destruct (feed _ _) as [[d [fs'|]]|]; [|done..].
  rw app_nil_r in Hd. by simplify_eq.
Qed.

Lemma accepted_data_since `{!Crc32Laws CRC} w w' fs ds cs :
  accepted w w' ds cs → Forall encodable fs → collect encode fs = Ok ds → data_since w w' = fs.
Proof using Type.
  intros [_ Hd _] Hfs He. unfold data_since. rw Hd drop_app_length. by apply received_encoded.
Qed.

Lemma accepted_control_since `{!Crc32Laws CRC} w w' fs ds cs :
  accepted w w' ds cs → Forall encodable fs → collect encode fs = Ok cs → control_since w w' = fs.
Proof using Type.
  intros [_ _ Hc] Hfs He. unfold control_since. rw Hc drop_app_length. by apply received_encoded.
Qed.

(** Everything accepted between two states, on both channels; the control channel
    drains first. *)
Definition delivered (w w' : W) : list Frame := control_since w w' ++ data_since w w'.

Lemma delivered_control `{!Crc32Laws CRC} w w' fs cs :
  accepted w w' [] cs → Forall encodable fs → collect encode fs = Ok cs → delivered w w' = fs.
Proof using Type.
  intros Ha Hfs He. unfold delivered.
  by rw (accepted_control_since w w' fs [] cs Ha Hfs He) (accepted_data_since w w' [] [] cs Ha) // app_nil_r.
Qed.

Lemma delivered_data `{!Crc32Laws CRC} w w' fs ds :
  accepted w w' ds [] → Forall encodable fs → collect encode fs = Ok ds → delivered w w' = fs.
Proof using Type.
  intros Ha Hfs He. unfold delivered.
  by rw (accepted_control_since w w' [] ds [] Ha) // (accepted_data_since w w' fs ds [] Ha).
Qed.
End accepting.
