(* ===== verification/EndToEnd.v ===== *)
(** * From one session to the other

    The whole path of a whole-payload transaction: [send_binary] on the sending
    session, framing, the socket's ordered egress, the byte stream cut by the
    network in any way, the reader's frame decoder, and the receiving session's
    dispatch. *)
From S2P Require Import Prelude Crc Frame Control Sender Reassemble Errors Stream Transfer.
From S2P Require Import Delivery Clock Sink Egress Socket.

(** ** The transport of an inbound step *)

Section transport.
Context `{CRC : Crc32} `{UUID : UuidLib} {W : Type} `{WIRE : TransferWiring W}.
Implicit Types (w : W) (s : TransferSession).

(** A transport property kept by both writes is kept by the dispatch. *)
Context (P : W → Prop).
Context (Hctl : ∀ w b, P w → P (write_control_frame w b).1).
Context (Hdat : ∀ w f, P w → P (write_data_frame w f).1).

Lemma send_control_keeps {Q} `{ControlPayload Q} w (p : Q) : P w → P (Transfer.send_control w p).
Proof using Hctl.
  intros Hp. unfold Transfer.send_control. case_match; [|done]. case_match; [|done]. by apply Hctl.
Qed.

Lemma write_frames_keep w fs : P w → P (write_data_frames w fs).1.
Proof using Hdat.
  revert w. induction fs as [|f fs IH]; intros w Hp; [done|]. cbn.
  specialize (Hdat w f Hp). destruct (write_data_frame w f) as [w' [|]]; [by apply IH|done].
Qed.

Lemma nack_loop_keeps st w now es : P w → P (nack_entries_loop st w now es).2.
Proof using Hdat.
  revert st w. induction es as [|e es IH]; intros st w Hp; [done|]. cbn [nack_entries_loop].
  destruct (handle_nack _ _ _ _) as [tx fr]. pose proof (write_frames_keep w fr Hp) as Hw.
  destruct (write_data_frames w fr) as [w' []]; [by apply IH|done].
Qed.

Lemma send_ack_keeps w es : P w → P (send_ack_entries w es).
Proof using Hctl. intros Hp. destruct es; [done|]. by apply send_control_keeps. Qed.

Lemma handle_inbound_transport s f w now : P w → P (handle_inbound s f w now).1.2.
Proof using Hctl Hdat.
  intros Hp. unfold handle_inbound. set (st := touch_peer now (ts_state s)).
  destruct (frame_type f); try done.
  - by destruct (on_ack_frame st f now).
  - unfold on_nack_frame. destruct (NackPayload_decode _) as [p|]; [|done].
    pose proof (nack_loop_keeps st w now (nack_entries p) Hp) as H.
    by destruct (nack_entries_loop _ _ _ _).
  - unfold on_resume_request_frame. destruct (ResumeRequestPayload_decode _) as [p|]; [|done].
    destruct (resume_entries p); [done|]. by apply send_control_keeps.
  - unfold on_resume_response_frame. destruct (ResumeResponsePayload_decode _) as [p|]; [|done].
    destruct (apply_resume_verdicts _ _ _) as [tx v].
    pose proof (write_frames_keep w (v_retransmit v) Hp) as Hw.
    destruct (write_data_frames w (v_retransmit v)) as [w' []]; [|done]. cbn [negb].
    destruct (foldl (fire_completion true) _ _) as [st1 o1].
    by destruct (foldl (fire_completion false) _ _) as [st2 o2].
  - unfold on_data_frame. destruct (receive_frame _ _ _ _ _ _ _ _) as [r o].
    destruct o as [[c e| |]|]; [|done..].
    destruct (feed_stream _ _ _ _ _) as [st2 o]. destruct c; [|done].
    unfold settle_complete. set (w1 := match rx_ack_entry _ _ with Some _ => _ | None => _ end).
    assert (Hw : P w1) by (unfold w1; case_match; [by apply send_ack_keeps|done]).
    case_decide; [done|]. destruct (ts_binary_handler s); [|done].
    by destruct (rx_take_completed _ _) as [r2 out].
Qed.
End transport.

Section end_to_end.
Context `{CRC : Crc32} `{LAWS : !Crc32Laws CRC} `{UUID : UuidLib}.

Lemma socket_hooks_kept s f (w : SocketTransport) now :
  sk_hooks w = true → sk_hooks (handle_inbound s f w now).1.2 = true.
Proof using Type.
  apply (handle_inbound_transport (λ w, sk_hooks w = true)); intros w1 x Hw; cbn.
  - unfold socket_write_control_frame. destruct (sk_egress w1) as [e|]; [|done].
    by destruct (send_control e x) as [e' r].
  - unfold socket_write_data_frame. destruct (sk_egress w1) as [e|]; [|done].
    destruct (encode x) as [b|]; [|done]. by destruct (send_faf e b) as [e' r].
Qed.

(** With the hooks in place, routing non-envelope frames is the session's run. *)
Lemma route_inbound rd (arr : list (Frame * N)) :
  sk_hooks (rd_transport rd) = true → Forall (λ a, frame_type a.1 ≠ DataJson) arr →
  let rd' := foldl (λ rd a, route_frame a.2 rd a.1) rd arr in
  (rd_session rd', rd_transport rd', rd_events rd') =
  foldl inbound_step (rd_session rd, rd_transport rd, rd_events rd) arr ∧
  rd_envelopes rd' = rd_envelopes rd.
Proof using Type.
  intros Hh Harr. revert rd Hh. induction Harr as [|[f t] arr Hf _ IH]; intros rd Hh; [done|].
  cbn [foldl fst snd]. destruct rd as [d s w evs envs]. cbn in Hh, Hf.
  pose proof (socket_hooks_kept s f w t Hh) as Hh'.
  assert (Hr : route_frame t (mkReaderState d s w evs envs) f =
    let '(s, w, new) := handle_inbound s f w t in mkReaderState d s w (evs ++ new) envs).
  { unfold route_frame. rw Hh. by destruct (frame_type f). }
  rw Hr. cbn [inbound_step rd_session rd_transport rd_events fst snd].
  destruct (handle_inbound s f w t) as [[s' w'] new].
  specialize (IH (mkReaderState d s' w' (evs ++ new) envs) Hh'). exact IH.
Qed.

(** ** Reception of the reference frames *)

Lemma own_seqs_pieces id total ps (arr : list (Frame * N)) :
  arr.*1 = piece_frames id total 0 ps → own_seqs id arr = n_range 0 (len ps).
Proof using Type.
  intros Harr.
  assert (Hs : own_seqs id arr = (λ a, seq a.1) <$> arr).
  { assert (Hall : Forall (λ a, frame_type a.1 = DataBinary ∧ transaction_id a.1 = id) arr).
    { apply (Forall_fmap fst (λ f, frame_type f = DataBinary ∧ transaction_id f = id)).
      rw Harr. apply Forall_lookup_2. intros i f Hf.
      by apply lookup_piece_frames in Hf as (p & _ & ->). }
    clear Harr. induction Hall as [|a arr Ha _ IH]; [done|]. cbn.
    case_decide as Hd; [|done]. cbn. f_equal. exact IH. }
  rw Hs. change (λ a : Frame * N, seq a.1) with (seq ∘ @fst Frame N).
  rw list_fmap_compose Harr. apply list_eq. intros i. rw list_lookup_fmap.
  unfold n_range. rw list_lookup_fmap. unfold len. rw N.sub_0_r Nat2N.id.
  destruct (piece_frames id total 0 ps !! i) as [f|] eqn:Hf.
  - apply lookup_piece_frames in Hf as (p & Hp & ->). apply lookup_lt_Some in Hp.
    rw lookup_seq_lt //.
  - apply lookup_ge_None in Hf. rw length_piece_frames in Hf. rw lookup_seq_ge //.
Qed.

Lemma all_seen_range ps n : all_seen ps (n_range 0 n) ↔ (len ps ≤ n)%N.
Proof using Type.
  unfold all_seen. setoid_rewrite elem_of_n_range. split.
  - intros H. destruct (decide (n < len ps)%N) as [Hlt|]; [|lia]. specialize (H n Hlt). lia.
  - intros H k Hk. lia.
Qed.

Lemma n_range_snoc (ps : list (list byte)) :
  n_range 0 (len ps) ++ [N.of_nat (length ps)] = n_range 0 (len ps + 1).
Proof using Type.
  rw -(n_range_app 0 (len ps) (len ps + 1)); [lia|]. f_equal. unfold n_range.
  replace (len ps + 1 - len ps)%N with 1%N by lia. cbn. unfold len. by rw Nat2N.id.
Qed.

Lemma n_range_head n : head (n_range 0 (n + 1)) = Some 0%N.
Proof using Type. unfold n_range. by replace (N.to_nat (n + 1 - 0)) with (S (N.to_nat n)) by lia. Qed.

(** The completion announcement of a settled transaction does nothing. *)
Lemma settled_completion_ignored {W} `{TransferWiring W} r (w : W) id t :
  slots (st_reassembler (ts_state r)) !! id = None →
  (handle_inbound r (completion_frame id) w t).2 = [] ∧
  slots (st_reassembler (ts_state (handle_inbound r (completion_frame id) w t).1.1)) !! id = None.
Proof using Type.
  intros Hn. unfold handle_inbound. cbn [frame_type completion_frame].
  split; [done|]. cbn. unfold on_transaction_completed_frame.
  case_match; [|done]. unfold completion_frame in *. cbn in *.
  rename select (TransactionCompletedPayload_decode _ = Ok _) into Hd.
  unfold TransactionCompletedPayload_decode in Hd. rw decode_txid_array in Hd.
  injection Hd as <-. cbn. unfold rx_contains_transaction. cbn. rw Hn. done.
Qed.

Lemma deliver_reference_frames {W} `{TransferWiring W} r (w : W) id ps arr :
  Forall (λ p, 1 ≤ length p) ps → (1 ≤ len (concat ps) ≤ U32_MAX)%N →
  streams_inv (ts_state r) → slots (st_reassembler (ts_state r)) !! id = None →
  ts_stream_handler r = false → ts_binary_handler r = true →
  arr.*1 = piece_frames id (len (concat ps)) 0 ps ++ [completion_frame id] →
  let '(r', _, out) := inbound_all r arr w in
  deliveries id out = [concat ps] ∧ slots (st_reassembler (ts_state r')) !! id = None.
Proof using Type.
  intros Hne Hlen Hi Hn Hsp Hhp Harr.
  destruct ps as [|p ps _] using rev_ind; [cbn in Hlen; unfold len in Hlen; cbn in Hlen; lia|].
  set (total := len (concat (ps ++ [p]))) in *.
  rw piece_frames_app -app_assoc in Harr. rw piece_frames_cons in Harr.
  cbn [app] in Harr.
  destruct (fmap_app_inv fst arr (piece_frames id total 0 ps)
    [piece_frame id total (0 + length ps) p; completion_frame id]) as (a1 & a2 & H1 & H2 & ->).
  { exact Harr. }
  destruct a2 as [|[f t] [|[g t'] [|? ?]]]; try discriminate. injection H2 as <- <-.
  cbn [Nat.add].
  pose proof (delivery_core id total (ps ++ [p]) Hne eq_refl ltac:(lia) false r a1 w (length ps) p t
    Hi Hn Hsp (λ _, Hhp)) as Hcore.
  unfold inbound_all in *. rw foldl_app. cbn [foldl].
  destruct (foldl inbound_step (r, w, []) a1) as [[r1 w1] out1]. cbn [inbound_step].
  rw (own_seqs_pieces id total ps a1) in Hcore; [done|].
  cbn [fst snd].
  destruct (handle_inbound r1 (piece_frame id total (length ps) p) w1 t) as [[r2 w2] out2].
  destruct Hcore as [Hq Hh].
  - apply (Forall_fmap fst (λ f, frame_of_piece id total (ps ++ [p]) f ∨ ¬ touches id f)).
    rw -H1. apply Forall_lookup_2. intros i f Hf. left.
    apply lookup_piece_frames in Hf as (q & Hq & ->). exists i, q. split; [|done].
    by apply lookup_app_l_Some.
  - by rw list_lookup_middle.
  - by rw (n_range_snoc ps) n_range_head.
  - rw all_seen_range len_app. unfold len. cbn. lia.
  - rw (n_range_snoc ps) all_seen_range len_app. unfold len. cbn. lia.
  - destruct Hh as (Hs & _ & ->).
    destruct (settled_completion_ignored r2 w2 id t' Hs) as [He Hs']. cbn [inbound_step fst snd].
    destruct (handle_inbound r2 (completion_frame id) w2 t') as [[r3 w3] out3]. cbn in He, Hs'.
    subst out3. rw app_nil_r deliveries_app Hq. cbn.
    by case_decide.
Qed.

(** ** The wire form of the reference frames *)

Lemma reference_frames_encode id size data :
  1 ≤ size → (N.of_nat size ≤ MAX_DATA_BINARY_FRAME_LEN)%N → (len data ≤ U32_MAX)%N →
  let fs := reference_frames id size data ++ [completion_frame id] in
  Forall frame_wf fs ∧ ∃ wires, collect encode fs = Ok wires.
Proof using Type.
  intros Hs Hmax Hlen fs. destruct (split_pieces_spec size data Hs) as [Hc Hp].
  assert (Hcount : (len (split_pieces size data) ≤ len data)%N).
  { rw -{2}Hc. apply len_concat_ge. eapply Forall_impl; [exact Hp|]. cbn. intros. lia. }
  assert (Hfs : Forall encodable fs).
  { apply Forall_app. split.
    - apply Forall_lookup_2. intros i f Hf. apply lookup_piece_frames in Hf as (p & Hi & ->).
      pose proof (proj1 (Forall_lookup _ _) Hp i p Hi) as Hpl. cbn in Hpl.
      apply lookup_lt_Some in Hi. unfold len in *. split; [split; [|split]|].
      + by apply type_wf_known.
      + cbn. lia.
      + cbn. lia.
      + cbn. unfold len. lia.
    - constructor; [|constructor]. split; [split; [by apply type_wf_known|done]|].
      cbn. unfold len. by rw length_array_bytes. }
  split; [eapply Forall_impl; [exact Hfs|]; by intros f []|]. clear -Hfs.
  induction Hfs as [|f fs [_ Hl] _ [wires IH]]; [by exists []|]. cbn.
  assert (Hf : ∃ b, encode f = Ok b).
  { unfold encode. cmp. eauto. }
  destruct Hf as [b ->]. rw IH. eauto.
Qed.

Lemma drain_frames wires e :
  eg_running e = true → eg_handles e = true → eg_control e = [] →
  eg_data e = (λ b, EFrame b None) <$> wires →
  eg_written (drain_n (length wires) e) = eg_written e ++ ((DataCh,.) <$> wires).
Proof using Type.
  revert e. induction wires as [|b wires IH]; intros e Hr Hh Hc Hd; cbn [length drain_n].
  { cbn. by rw app_nil_r. }
  assert (Hs : drain_step e true =
    resolve None true (log_write DataCh b (set_queues ((λ b, EFrame b None) <$> wires) [] e))).
  { unfold drain_step, drain_data. rw Hr Hc Hh Hd. by destruct (eg_control_open e). }
  rw Hs IH //. cbn. by rw -app_assoc.
Qed.

(** ** Properties *)

(** C1: end to end.  A payload that [send_binary] accepts over a live, idle
    socket is written by the drain task as one byte stream; however the network
    cuts that stream into reads, the peer's reader decodes it, its session
    hands exactly that payload to the aggregate handler exactly once under the
    id the sender got, releases the slot, and sees no envelope and no error. *)
Theorem end_to_end_delivery cfg s (w : SocketTransport) e payload cb id now d l r
    (wr : SocketTransport) :
  sender_reach cfg (mkHistory (st_sender (ts_state s)) d l) →
  s_pending (st_sender (ts_state s)) !! id = None → (1 ≤ len payload ≤ U32_MAX)%N →
  (unacked_bytes (st_sender (ts_state s)) + len payload ≤
     backpressure_cap_bytes (s_config (st_sender (ts_state s))))%N →
  (N.of_nat (frame_size (s_config (st_sender (ts_state s)))) ≤ MAX_DATA_BINARY_FRAME_LEN)%N →
  sk_egress w = Some e → eg_connected e = true → eg_running e = true →
  eg_handles e = true → eg_data e = [] → eg_control e = [] →
  streams_inv (ts_state r) → slots (st_reassembler (ts_state r)) !! id = None →
  ts_stream_handler r = false → ts_binary_handler r = true → sk_hooks wr = true →
  let '(s', w', res) := send_binary s w payload cb id now in
  res = Ok id ∧
  ∃ e' wires, sk_egress w' = Some e' ∧
    eg_written (drain_n (length (eg_data e')) e') = eg_written e ++ ((DataCh,.) <$> wires) ∧
    ∀ chunks, concat chunks.*1 = concat wires →
      ∃ rd', read_all (mkReaderState FrameDecoder_new r wr [] []) chunks = Some (rd', false) ∧
        deliveries id (rd_events rd') = [payload] ∧ rd_envelopes rd' = [] ∧
        rd_decoder rd' = FrameDecoder_new ∧
        slots (st_reassembler (ts_state (rd_session rd'))) !! id = None.
Proof using LAWS.
  intros Hr Hn Hlen Hcap Hfs Hw Hc Hrun Hh Hd Hct Hi Hsl Hsp Hhp Hhk.
  set (size := frame_size (s_config (st_sender (ts_state s)))) in *.
  assert (Hsize : 1 ≤ size) by (apply sender_reach_inv in Hr as (H1 & _); exact H1).
  destruct (reference_frames_encode id size payload Hsize Hfs) as [Hwf [wires Hwires]]; [lia|].
  pose proof (socket_write_frames e w _ wires Hw Hc Hrun Hwires) as Hwrite.
  pose proof (send_binary_core cfg s w payload cb id now d l Hr Hn Hlen Hcap) as Hsend.
  cbn zeta in Hsend. fold size in Hsend. rw Hwrite in Hsend. specialize (Hsend eq_refl).
  destruct (send_binary s w payload cb id now) as [[s' w'] res].
  destruct Hsend as (-> & -> & _ & _). split; [done|].
  eexists _, wires. split; [done|]. rw Hd Hct. cbn [app eg_data set_queues].
  rw length_fmap drain_frames //. split; [done|]. intros chunks Hch.
  pose proof (decode_encode_core _ wires chunks.*1 Hwf Hwires Hch) as Hdec.
  destruct (read_all_routes (mkReaderState FrameDecoder_new r wr [] []) chunks _ _ Hdec)
    as (arr & Harr & Hread).
  eexists. split; [exact Hread|].
  destruct (split_pieces_spec size payload Hsize) as [Hcat Hpc].
  assert (Hnj : Forall (λ a, frame_type a.1 ≠ DataJson) arr).
  { apply (Forall_fmap fst (λ f, frame_type f ≠ DataJson)). rw Harr. apply Forall_app. split.
    - apply Forall_lookup_2. intros i f Hf. by apply lookup_piece_frames in Hf as (p & _ & ->).
    - by constructor. }
  pose proof (route_inbound (mkReaderState FrameDecoder_new r wr [] []) arr Hhk Hnj)
    as [Hroute Henv].
  cbn [rd_session rd_transport rd_events] in Hroute.
  pose proof (deliver_reference_frames r wr id (split_pieces size payload) arr) as Hdel.
  rw Hcat in Hdel. unfold inbound_all in Hdel. rw -Hroute in Hdel.
  destruct Hdel as [Hd1 Hd2]; [|done..|].
  { eapply Forall_impl; [exact Hpc|]. cbn. intros. lia. }
  split; [exact Hd1|]. split; [exact Henv|]. split; [done|exact Hd2].
Qed.
End end_to_end.
