(* ===== verification/Recovery.v ===== *)
(** * Recovering a transfer

    Two sessions and the connection between them.  Frames are lost when a
    connection dies or acknowledgements do not come; the sender's clock
    retransmits on a connection that lives, and the RESUME handshake
    ([src/transfer/clock.rs], [src/transfer/inbound.rs],
    [src/reliability/transaction.rs]) continues on a new one.  Each exchange is
    followed round by round: what a side writes is encoded, decoded by the other
    side and dispatched there. *)
From S2P Require Import Prelude Crc Frame Control Sender Reassemble Errors Stream Transfer.
From S2P Require Import Delivery Clock Sink Session Egress Socket Link Reception.

(** ** Acknowledgement frames *)

(** The fields of an entry as the wire keeps them. *)
Definition trunc_ack (e : AckEntry) : AckEntry :=
  mkAckEntry (ack_transaction_id e) (highest_contiguous_seq e mod 2 ^ 32)
    (received_frames e mod 2 ^ 32).

Lemma trunc_ack_bytes e : ack_entry_bytes (trunc_ack e) = ack_entry_bytes e.
Proof.
  assert (Hb : ∀ n, to_be_bytes 4 (n mod 2 ^ 32) = to_be_bytes 4 n).
  { intros n. change (2 ^ 32)%N with (256 ^ N.of_nat 4)%N. rw -from_to_be_bytes_mod.
    apply to_from_be_bytes, length_to_be_bytes. }
  unfold ack_entry_bytes, trunc_ack. cbn. by rw !Hb.
Qed.

Lemma trunc_ack_wf e : ack_entry_wf (trunc_ack e).
Proof.
  assert (Hm : ∀ n, (n mod 2 ^ 32 ≤ U32_MAX)%N).
  { intros n. pose proof (N.mod_lt n (2 ^ 32) ltac:(done)). unfold U32_MAX. lia. }
  split; apply Hm.
Qed.

Lemma trunc_ack_id e : ack_entry_wf e → trunc_ack e = e.
Proof.
  unfold ack_entry_wf, U32_MAX, trunc_ack. destruct e as [i h r]. cbn. intros [H1 H2].
  by rw !N.mod_small; [lia|lia|].
Qed.

Definition ack_bytes (e : AckEntry) : list byte := write_ack_entries [byte_of_N 1] [e].

Definition ack_frame (e : AckEntry) : Frame := payload_frame (P := AckPayload) (ack_bytes e).

Lemma ack_bytes_encode e : payload_encode (mkAckPayload [e]) = Ok (ack_bytes e).
Proof. by apply ack_entries_encode_Ok. Qed.

Lemma ack_frame_decode e :
  AckPayload_decode (payload (ack_frame e)) = Ok (mkAckPayload [trunc_ack e]).
Proof.
  assert (Hb : ack_bytes e = ack_bytes (trunc_ack e)).
  { unfold ack_bytes, write_ack_entries. cbn. by rw trunc_ack_bytes. }
  change (payload (ack_frame e)) with (ack_bytes e). rw Hb. unfold ack_bytes, AckPayload_decode.
  assert (Hd : decode_ack_entries 1 (write_ack_entries [byte_of_N 1] [trunc_ack e]) =
    Ok [trunc_ack e]); [|by rw Hd].
  apply (decode_write_ack_entries 1 [trunc_ack e]); [|done].
  constructor; [apply trunc_ack_wf|constructor].
Qed.

Section acks.
Context `{CRC : Crc32} {W : Type} `{WIRE : TransferWiring W} `{CONN : !DuplexLink W}.
Context {LAWS : DuplexLinkLaws W}.
Implicit Types (w : W).

Lemma ack_frame_encodable e : encodable (ack_frame e).
Proof using Type. eapply payload_frame_encodable, ack_bytes_encode. Qed.

Lemma ack_frames_encodable es : Forall encodable (ack_frame <$> es).
Proof using Type. apply Forall_fmap, Forall_true. apply ack_frame_encodable. Qed.

(** A run's acknowledgements go out as one frame each. *)
Lemma accepted_acks es w : conn_live w →
  ∃ cs, collect encode (ack_frame <$> es) = Ok cs ∧ accepted w (send_acks w es) [] cs.
Proof using LAWS.
  revert w. induction es as [|e es IH]; intros w Hl.
  { exists []. split; [done|]. by apply accepted_refl. }
  destruct (accepted_payload (mkAckPayload [e]) (ack_bytes e) w Hl (ack_bytes_encode e))
    as (b & Hb & Ha).
  destruct (IH _ (acc_live _ _ _ _ Ha)) as (cs & Hcs & Hacc).
  exists (b :: cs). cbn [fmap list_fmap collect]. fold (ack_frame e) in Hb. rw Hb Hcs.
  split; [done|]. exact (accepted_trans w _ _ [] [b] [] cs Ha Hacc).
Qed.
End acks.

(** ** Frames in flight *)

(** Frames that arrive together. *)
Definition at_time (t : N) (fs : list Frame) : list (Frame * N) := (λ f, (f, t)) <$> fs.

Lemma own_seqs_app id a b : own_seqs id (a ++ b) = own_seqs id a ++ own_seqs id b.
Proof. apply omap_app. Qed.

Lemma own_seqs_own id t fs :
  Forall (λ f, frame_type f = DataBinary ∧ transaction_id f = id) fs →
  own_seqs id (at_time t fs) = seq <$> fs.
Proof.
  induction 1 as [|f fs Hf _ IH]; [done|]. cbn. case_decide; [|done]. cbn. f_equal. exact IH.
Qed.

Lemma own_seqs_other id t fs :
  Forall (λ f, transaction_id f ≠ id) fs → own_seqs id (at_time t fs) = [].
Proof.
  induction 1 as [|f fs Hf _ IH]; [done|]. cbn. case_decide as Hd; [by destruct Hd|exact IH].
Qed.

(** A data frame a peer can be sent. *)
Definition sendable (f : Frame) : Prop := frame_type f = DataBinary ∧ encodable f.

Lemma sendable_data t fs :
  Forall sendable fs → Forall (λ a, frame_type a.1 = DataBinary) (at_time t fs).
Proof. intros H. apply Forall_fmap. eapply Forall_impl; [exact H|]. by intros f []. Qed.

Lemma sendable_encodable fs : Forall sendable fs → Forall encodable fs.
Proof. intros H. eapply Forall_impl; [exact H|]. by intros f []. Qed.

(** ** The copies a transaction holds *)

Definition held_frames (t : PendingTxn) : list Frame := omap (λ f, f) (txn_frames t).

Lemma elem_of_held t f : f ∈ held_frames t ↔ ∃ i, txn_frames t !! i = Some (Some f).
Proof.
  unfold held_frames. rw list_elem_of_omap. split.
  - intros (x & Hx & ->). apply list_elem_of_lookup in Hx as [i Hi]. by exists i.
  - intros [i Hi]. exists (Some f). split; [|done]. by eapply list_elem_of_lookup_2.
Qed.

Lemma resend_held due now sts frs :
  confirmed <$> sts = (λ f, bool_decide (f = None)) <$> frs →
  Forall (λ st, confirmed st = false → due st = true) sts →
  (resend_walk due now sts frs).2 = omap (λ f, f) frs.
Proof.
  intros Hc Hd. revert frs Hc. induction Hd as [|st sts Hst _ IH]; intros [|f frs] Hc; try done.
  cbn in Hc. injection Hc as Hf Hc. specialize (IH frs Hc). cbn.
  destruct (resend_walk due now sts frs) as [rest out]. cbn in IH. subst out.
  destruct f as [f|]; cbn in Hf; rw Hf; cbn; [|done]. by rw Hst.
Qed.

(** What the receiver has covers what the sender saw acknowledged. *)
Definition covered (t : PendingTxn) (own : list N) : Prop :=
  ∀ k, txn_frames t !! k = Some None → N.of_nat k ∈ own.

Section held.
Context {size : nat} {id : txid} {ps : list (list byte)} {t : PendingTxn}.
Context (Hi : txn_inv size id ps t).

Lemma held_piece f : f ∈ held_frames t → frame_of_piece id (txn_total_len t) ps f.
Proof using Hi.
  intros [i Hf]%elem_of_held. destruct (ti_held _ _ _ _ Hi i f Hf) as (p & Hp & ->).
  by exists i, p.
Qed.

Lemma piece_sendable f :
  (N.of_nat size ≤ MAX_DATA_BINARY_FRAME_LEN)%N →
  frame_of_piece id (txn_total_len t) ps f → sendable f.
Proof using Hi.
  intros Hs (i & p & Hp & ->). split; [done|].
  pose proof (proj1 (Forall_lookup _ _) (ti_pieces _ _ _ _ Hi) i p Hp) as Hl. cbn in Hl.
  pose proof (ti_count _ _ Hi) as Hc. pose proof (ti_total _ _ _ _ Hi) as Ht.
  unfold len in Hc. rw (ti_len _ _ _ _ Hi) in Hc. apply lookup_lt_Some in Hp.
  split; [split; [by apply type_wf_known|split]|]; cbn; [lia|lia|unfold len; lia].
Qed.

Lemma held_own : Forall (λ f, frame_type f = DataBinary ∧ transaction_id f = id) (held_frames t).
Proof using Hi. apply Forall_forall. by intros f (i & p & _ & ->)%held_piece. Qed.

(** The copies held and what the receiver has make the whole transaction. *)
Lemma held_completes own : covered t own → all_seen ps (own ++ (seq <$> held_frames t)).
Proof using Hi.
  intros Hc k Hk. apply elem_of_app.
  destruct (lookup_lt_is_Some_2 (txn_frames t) (N.to_nat k)) as [[f|] Hf].
  { rw (ti_len _ _ _ _ Hi). unfold len in Hk. lia. }
  - right. destruct (ti_held _ _ _ _ Hi _ _ Hf) as (p & _ & Hfe).
    apply list_elem_of_fmap. exists f. split; [rw Hfe; cbn; lia|]. apply elem_of_held. eauto.
  - left. specialize (Hc _ Hf). by rw N2Nat.id in Hc.
Qed.

Lemma orderly_later own ks :
  own ≠ [] → Forall (λ k, k ≠ 0%N) ks → orderly (len ps) own ks.
Proof using Type.
  intros Hown Hks. revert own Hown. induction Hks as [|k ks Hk _ IH]; intros own Hown; [done|].
  split; [done|]. split; [done|]. apply IH. by destruct own.
Qed.

Lemma held_orderly own :
  ps ≠ [] → ¬ all_seen ps own → covered t own → orderly (len ps) own (seq <$> held_frames t).
Proof using Hi.
  intros Hps Hns Hc. unfold held_frames, covered in *.
  pose proof (ti_held _ _ _ _ Hi) as Hh. pose proof (ti_len _ _ _ _ Hi) as Hlen.
  destruct (txn_frames t) as [|f0 frs]; [by destruct ps|].
  assert (Hlater : Forall (λ k, k ≠ 0%N) (seq <$> omap (λ f, f) frs)).
  { apply Forall_fmap, Forall_forall. intros f (x & Hx & ->)%list_elem_of_omap.
    apply list_elem_of_lookup in Hx as [i Hx]. destruct (Hh (S i) f Hx) as (p & _ & ->). cbn. lia. }
  destruct f0 as [f|]; cbn.
  - destruct (Hh 0 f eq_refl) as (p & _ & ->). cbn. split; [done|]. split; [done|].
    apply orderly_later; [by destruct own|done].
  - apply orderly_later; [|done]. intros ->. specialize (Hc 0 eq_refl). by apply elem_of_nil in Hc.
Qed.
End held.

(** [t'] holds the same copy as [t]; its clocks, gate and progress may differ. *)
Definition same_copy (t t' : PendingTxn) : Prop :=
  ∃ sts p a d c r n, confirmed <$> sts = confirmed <$> txn_states t ∧
    t' = mkPendingTxn (txn_total_len t) (txn_frames t) sts (txn_partial t) (txn_written t)
           (txn_bytes t) p a d c r n.

Lemma same_copy_states t sts :
  confirmed <$> sts = confirmed <$> txn_states t → same_copy t (set_states sts t).
Proof. intros Hs. by eexists sts, _, _, _, _, _, _. Qed.

Lemma same_copy_gate t a d : same_copy t (set_gate a d t).
Proof. by eexists (txn_states t), _, _, _, _, _, _. Qed.

#[export] Instance same_copy_preorder : PreOrder same_copy.
Proof.
  split; [intros []; by eexists _, _, _, _, _, _, _|].
  intros t1 t2 t3 (sts & p & a & d & c & r & n & Hs & ->) (sts' & p' & a' & d' & c' & r' & n' & Hs' & ->).
  exists sts', p', a', d', c', r', n'. split; [cbn in Hs'; congruence|done].
Qed.

Lemma same_copy_inv size id ps t t' :
  same_copy t t' → txn_inv size id ps t → txn_inv size id ps t'.
Proof.
  intros (sts & p & a & d & c & r & n & Hs & ->) Hi.
  apply (txn_inv_flags ps (set_states sts t) p a d c r n). by apply txn_inv_states.
Qed.

Lemma same_copy_sent t t' :
  same_copy t t' → is_fully_sent t' = is_fully_sent t ∧ held_frames t' = held_frames t ∧
  txn_frames t' = txn_frames t.
Proof. by intros (sts & p & a & d & c & r & n & _ & ->). Qed.

(** ** What a sender retransmits *)

(** Per-transaction outputs, concatenated: those of [id] are its own. *)
Lemma own_seqs_keyed {V} (g : txid → V → list Frame) (l : list (txid * V)) id v t :
  NoDup l.*1 → (∀ k v f, (k, v) ∈ l → f ∈ g k v → frame_type f = DataBinary ∧ transaction_id f = k) →
  (id, v) ∈ l → own_seqs id (at_time t (concat ((λ kv, g kv.1 kv.2) <$> l))) = seq <$> g id v.
Proof.
  assert (Hother : ∀ l : list (txid * V), id ∉ l.*1 →
    (∀ k v f, (k, v) ∈ l → f ∈ g k v → frame_type f = DataBinary ∧ transaction_id f = k) →
    own_seqs id (at_time t (concat ((λ kv, g kv.1 kv.2) <$> l))) = []).
  { clear l. intros l Hni Hg. apply own_seqs_other, Forall_forall. intros f Hf.
    apply list_elem_of_In, in_concat in Hf as (fs & Hfs & Hf). apply list_elem_of_In in Hfs, Hf.
    apply list_elem_of_fmap in Hfs as ([k v'] & -> & Hkv). destruct (Hg k v' f Hkv Hf) as [_ ->].
    intros ->. apply Hni. apply list_elem_of_fmap. by exists (id, v'). }
  intros Hnd Hg Hin. apply list_elem_of_split in Hin as (l1 & l2 & ->).
  rw fmap_app in Hnd. apply NoDup_app in Hnd as (_ & Hd1 & [Hd2 _]%NoDup_cons).
  rw fmap_app concat_app. cbn [fmap list_fmap concat fst snd]. unfold at_time. rw !fmap_app !own_seqs_app.
  fold (at_time t (g id v)). rw own_seqs_own.
  { apply Forall_forall. intros f Hf. eapply Hg; [|done]. apply elem_of_app. right. by left. }
  rw (Hother l1); [| |rw (Hother l2); [done| |by rw app_nil_r]].
  - intros H1. apply (Hd1 id H1). by left.
  - intros k v' f Hkv. apply Hg. apply elem_of_app. by left.
  - intros k v' f Hkv. apply Hg. apply elem_of_app. right. by right.
Qed.

(** Every transaction held is well formed. *)
Definition all_held (s : TransactionSender) : Prop :=
  ∀ k v, s_pending s !! k = Some v → ∃ ps, txn_inv (frame_size (s_config s)) k ps v.

Lemma reach_all_held cfg s d l : sender_reach cfg (mkHistory s d l) → all_held s.
Proof. intros (_ & _ & H)%sender_reach_inv k v Hv. destruct (H k v Hv) as (ps & Hi & _). by exists ps. Qed.

(** A batch of retransmissions that brings [id] everything it holds. *)
Record brings (id : txid) (t : PendingTxn) (fs : list Frame) : Prop := {
  br_sendable : Forall sendable fs;
  br_held : ∀ f, f ∈ fs → transaction_id f = id → f ∈ held_frames t;
  br_seqs : ∀ T, own_seqs id (at_time T fs) = seq <$> held_frames t;
}.

Lemma resend_some due now sts frs f :
  f ∈ (resend_walk due now sts frs).2 → f ∈ omap (λ f, f) frs.
Proof.
  intros (i & st & _ & Hf & _)%resend_walk_frames. apply list_elem_of_omap.
  exists (Some f). split; [|done]. by eapply list_elem_of_lookup_2.
Qed.

Definition overdue (cfg : SenderConfig) (now : N) (t : PendingTxn) : Prop :=
  Forall (λ st, confirmed st = false → rto_elapsed cfg now st = true) (txn_states t).

Lemma due_brings s id t now :
  all_held s → (N.of_nat (frame_size (s_config s)) ≤ MAX_DATA_BINARY_FRAME_LEN)%N →
  s_pending s !! id = Some t → txn_paused t = false → txn_awaiting_resume t = false →
  overdue (s_config s) now t →
  let '(s', fs) := due_retransmissions s now in
  brings id t fs ∧ ∃ t', same_copy t t' ∧ txn_awaiting_resume t' = false ∧
    s_pending s' !! id = Some t'.
Proof.
  intros Hall Hsize Ht Hp Ha Hd. unfold due_retransmissions.
  set (body := λ _ : txid, due_txn (s_config s) now).
  assert (Hout : ∀ k v f, s_pending s !! k = Some v → f ∈ (body k v).2 →
    f ∈ held_frames v).
  { intros k v f Hv Hf. unfold body, due_txn in Hf. destruct (_ || _); [by apply elem_of_nil in Hf|].
    pose proof (resend_some (rto_elapsed (s_config s) now) now (txn_states v) (txn_frames v) f) as Hs.
    destruct (resend_walk _ _ _ _). by apply Hs. }
  assert (Hown : (body id t).2 = held_frames t ∧ ∃ sts, confirmed <$> sts = confirmed <$> txn_states t ∧
    (body id t).1 = set_states sts t).
  { destruct (Hall id t Ht) as [ps Hi]. unfold body, due_txn. rw Hp Ha. cbn [orb].
    pose proof (resend_held (rto_elapsed (s_config s) now) now _ _ (ti_copies _ _ _ _ Hi) Hd) as Hw.
    pose proof (resend_walk_confirmed (rto_elapsed (s_config s) now) now (txn_states t) (txn_frames t)) as Hc.
    destruct (resend_walk _ _ _ _) as [sts out]. cbn in Hw, Hc. split; [done|]. by exists sts. }
  destruct Hown as [Hbody (sts & Hc & Ht')].
  destruct (iter_mut body (s_pending s)) as [pend fs] eqn:Hm.
  apply iter_mut_pair in Hm as [-> ->]. split.
  - split.
    + apply Forall_forall. intros f Hf. apply iter_mut_out in Hf as (k & v & Hv & Hf).
      destruct (Hall k v Hv) as [ps Hi]. apply (piece_sendable Hi); [done|].
      by apply (held_piece Hi), (Hout k v).
    + intros f (k & v & Hv & Hf)%iter_mut_out Hid. pose proof (Hout k v f Hv Hf) as Hh.
      destruct (Hall k v Hv) as [ps Hi]. destruct (held_piece Hi f Hh) as (i & p & _ & Hfe).
      rw Hfe in Hid. cbn in Hid. subst k. congruence.
    + intros T. rw -Hbody. apply (own_seqs_keyed (λ k v, (body k v).2)).
      * apply NoDup_fst_map_to_list.
      * intros k v f Hv%elem_of_map_to_list Hf. pose proof (Hout k v f Hv Hf) as Hh.
        destruct (Hall k v Hv) as [ps Hi]. by destruct (held_piece Hi f Hh) as (i & p & _ & ->).
      * by apply elem_of_map_to_list.
  - exists (set_states sts t). split; [by apply same_copy_states|]. split; [done|].
    cbn [s_pending]. rw iter_mut_lookup Ht. cbn. by rw Ht'.
Qed.

(** What one verdict does to the frames: it touches its own transaction, and a
    [resumed] one resends all that transaction holds. *)
Definition verdict_step (s : TransactionSender) (v : ResumeVerdicts) (e : ResumeStatusEntry)
    (s' : TransactionSender) (v' : ResumeVerdicts) : Prop :=
  let i := rse_transaction_id e in
  all_held s' ∧ s_config s' = s_config s ∧ (∀ k, k ≠ i → s_pending s' !! k = s_pending s !! k) ∧
  ∃ fs, v_retransmit v' = v_retransmit v ++ fs ∧
    Forall (λ f, sendable f ∧ transaction_id f = i) fs ∧ (rse_status e ≠ Resumed → fs = []) ∧
    (rse_status e = Resumed → ∀ t, s_pending s !! i = Some t → txn_paused t = false →
       fs = held_frames t ∧ ∃ t', same_copy t t' ∧ s_pending s' !! i = Some t').

Lemma verdict_closes s v e vs :
  all_held s → rse_status e ≠ Resumed → v_retransmit vs = v_retransmit v →
  verdict_step s v e
    (mkTransactionSender (s_config s) (delete (rse_transaction_id e) (s_pending s))) vs.
Proof.
  intros Hall Hst Hr. split; [intros k x Hk; cbn in Hk; apply lookup_delete_Some in Hk as [_ Hk]; by apply Hall|].
  split; [done|]. split; [intros k Hk; by apply lookup_delete_ne|].
  exists []. rw Hr app_nil_r. by split_and!.
Qed.

Lemma verdict_absent s v e :
  all_held s → s_pending s !! rse_transaction_id e = None → verdict_step s v e s v.
Proof.
  intros Hall Hn. split_and!; try done. exists []. rw app_nil_r. split_and!; [done..|]. congruence.
Qed.

Lemma resume_txn_copy size i ps now t :
  txn_inv size i ps t →
  same_copy t (resume_txn now t).1 ∧ (∀ f, f ∈ (resume_txn now t).2 → f ∈ held_frames t) ∧
  (txn_paused t = false → (resume_txn now t).2 = held_frames t).
Proof.
  intros Hi. unfold resume_txn. change (txn_paused (set_progress _ _)) with (txn_paused t).
  cbn [txn_states txn_frames set_progress set_gate].
  pose proof (resend_held (λ _, true) now _ _ (ti_copies _ _ _ _ Hi)) as Hw.
  pose proof (resend_walk_confirmed (λ _, true) now (txn_states t) (txn_frames t)) as Hc.
  destruct (txn_paused t).
  - split; [by eexists (txn_states t), _, _, _, _, _, _|]. split; [by intros f Hf%elem_of_nil|done].
  - destruct (resend_walk _ _ _ _) as [sts out]. cbn in Hw, Hc. rw Hw; [by apply Forall_true|].
    split; [by eexists sts, _, _, _, _, _, _|]. by split.
Qed.

Lemma apply_verdict_frames now s v e s' v' :
  all_held s → (N.of_nat (frame_size (s_config s)) ≤ MAX_DATA_BINARY_FRAME_LEN)%N →
  apply_verdict now (s, v) e = (s', v') → verdict_step s v e s' v'.
Proof.
  intros Hall Hsize. cbn [apply_verdict]. set (i := rse_transaction_id e).
  destruct (s_pending s !! i) as [t|] eqn:Ht;
    [|by destruct (rse_status e); intros [= <- <-]; apply verdict_absent].
  destruct (rse_status e) eqn:Hst;
    [|by destruct (is_fully_sent t); intros [= <- <-]; apply verdict_closes; rw ?Hst..].
  destruct (Hall i t Ht) as [ps Hi]. pose proof (resume_txn_copy _ i ps now t Hi) as Hres.
  destruct (resume_txn now t) as [t' frs]. cbn in Hres. destruct Hres as (Hsc & Hfr & Hheld).
  intros [= <- <-]. split; [|split; [done|split; [intros k Hk; by apply lookup_insert_ne|]]].
  - intros k x Hk. cbn in Hk. destruct (decide (k = i)) as [->|].
    + rw lookup_insert_eq in Hk. injection Hk as <-. exists ps. by eapply same_copy_inv.
    + rw lookup_insert_ne // in Hk. by apply Hall.
  - exists frs. split; [done|]. split; [|split; [done|]].
    + apply Forall_forall. intros f Hf%Hfr. pose proof (held_piece Hi f Hf) as Hp.
      split; [by apply (piece_sendable Hi)|]. by destruct Hp as (j & p & _ & ->).
    + intros _ t0 Ht0 Hp. fold i in Ht0. rw Ht in Ht0. injection Ht0 as <-. split; [by apply Hheld|]. exists t'. split; [done|]. apply lookup_insert_eq.
Qed.

Lemma verdicts_other now entries s v s' v' id :
  all_held s → (N.of_nat (frame_size (s_config s)) ≤ MAX_DATA_BINARY_FRAME_LEN)%N →
  foldl (apply_verdict now) (s, v) entries = (s', v') → id ∉ rse_transaction_id <$> entries →
  all_held s' ∧ s_config s' = s_config s ∧ s_pending s' !! id = s_pending s !! id ∧
  ∃ fs, v_retransmit v' = v_retransmit v ++ fs ∧
    Forall (λ f, sendable f ∧ transaction_id f ≠ id) fs.
Proof.
  revert s v. induction entries as [|e entries IH]; intros s v Hall Hsize; cbn [foldl].
  { intros [= <- <-] _. split_and!; try done. exists []. by rw app_nil_r. }
  destruct (apply_verdict now (s, v) e) as [s1 v1] eqn:He. cbn. intros Hf [Hne Hni]%not_elem_of_cons.
  destruct (apply_verdict_frames now s v e s1 v1 Hall Hsize He) as (H1 & H2 & H3 & fs1 & H4 & H5 & _).
  destruct (IH s1 v1 H1 ltac:(by rw H2) Hf Hni) as (G1 & G2 & G3 & fs2 & G4 & G5).
  split; [done|]. split; [congruence|]. split; [by rw G3 H3|].
  exists (fs1 ++ fs2). rw G4 H4 app_assoc. split; [done|]. apply Forall_app. split; [|done].
  eapply Forall_impl; [exact H5|]. cbn. intros f [Hs Hf']. split; [done|congruence].
Qed.

(** A response that resumes [id] brings the receiver all it lacks. *)
Lemma verdicts_bring s entries id t now :
  all_held s → (N.of_nat (frame_size (s_config s)) ≤ MAX_DATA_BINARY_FRAME_LEN)%N →
  NoDup (rse_transaction_id <$> entries) → mkResumeStatusEntry id Resumed ∈ entries →
  s_pending s !! id = Some t → txn_paused t = false →
  let '(s', v) := apply_resume_verdicts s entries now in
  brings id t (v_retransmit v) ∧ ∃ t', same_copy t t' ∧ s_pending s' !! id = Some t'.
Proof.
  intros Hall Hsize Hnd Hin Ht Hp. unfold apply_resume_verdicts.
  apply list_elem_of_split in Hin as (e1 & e2 & ->).
  rw fmap_app in Hnd. apply NoDup_app in Hnd as (_ & Hd1 & [Hd2 _]%NoDup_cons).
  assert (Hni : id ∉ rse_transaction_id <$> e1) by (intros H; apply (Hd1 id H); by left).
  rw foldl_app. cbn [foldl].
  destruct (foldl _ _ e1) as [s1 v1] eqn:E1.
  destruct (verdicts_other now e1 s _ s1 v1 id Hall Hsize E1 Hni) as (H1 & H2 & H3 & fs1 & H4 & H5).
  destruct (apply_verdict now (s1, v1) _) as [s2 v2] eqn:E2.
  assert (Hsize1 : (N.of_nat (frame_size (s_config s1)) ≤ MAX_DATA_BINARY_FRAME_LEN)%N) by by rw H2.
  destruct (apply_verdict_frames now s1 v1 _ s2 v2 H1 Hsize1 E2) as (G1 & G2 & _ & fs & G4 & G5 & _ & G6).
  rw Ht in H3. destruct (G6 eq_refl t H3 Hp) as (-> & t' & Hsc & Ht').
  destruct (foldl _ _ e2) as [s3 v3] eqn:E3.
  destruct (verdicts_other now e2 s2 v2 s3 v3 id G1 ltac:(by rw G2) E3 Hd2)
    as (_ & _ & K3 & fs2 & K4 & K5).
  cbn in H4. rw K4 G4 H4. split; [|exists t'; split; [done|by rw K3]].
  assert (Hs1 : Forall (λ f, transaction_id f ≠ id) fs1) by (eapply Forall_impl; [exact H5|]; by intros f []).
  assert (Hs2 : Forall (λ f, transaction_id f ≠ id) fs2) by (eapply Forall_impl; [exact K5|]; by intros f []).
  destruct (Hall id t Ht) as [ps Hi]. split.
  - apply Forall_app. split; [apply Forall_app; split|].
    + eapply Forall_impl; [exact H5|]. by intros f [].
    + eapply Forall_impl; [exact G5|]. by intros f [].
    + eapply Forall_impl; [exact K5|]. by intros f [].
  - intros f Hf Hid. apply elem_of_app in Hf as [[Hf|Hf]%elem_of_app|Hf]; [|done|].
    + by destruct (proj1 (Forall_forall _ _) Hs1 f Hf).
    + by destruct (proj1 (Forall_forall _ _) Hs2 f Hf).
  - intros T. unfold at_time. rw !fmap_app !own_seqs_app. fold (at_time T fs1) (at_time T fs2).
    rw (own_seqs_other id T fs1 Hs1) (own_seqs_other id T fs2 Hs2) app_nil_r.
    apply own_seqs_own, (held_own Hi).
Qed.

(** ** Rounds *)

(** The transaction is pending with its callback; it was confirmed and the callback
    fired. *)
Definition waiting (id : txid) (t : PendingTxn) (cb : CompletionCallback) (s : TransferSession) : Prop :=
  s_pending (st_sender (ts_state s)) !! id = Some t ∧ st_completions (ts_state s) !! id = Some cb.

Definition confirmed_once (id : txid) (cb : CompletionCallback) (s : TransferSession)
    (out : list AppEvent) : Prop :=
  s_pending (st_sender (ts_state s)) !! id = None ∧ st_completions (ts_state s) !! id = None ∧
  CompletionFired cb (mkBinarySendResult id true) ∈ out.

Section rounds.
Context `{CRC : Crc32} `{CRCLAWS : !Crc32Laws CRC} `{UUID : UuidLib}.
Context {W : Type} `{WIRE : TransferWiring W} `{CONN : !DuplexLink W} {LAWS : DuplexLinkLaws W}.
Context {size : nat} {id : txid} {ps : list (list byte)} {t : PendingTxn}.
Context (Hi : txn_inv size id ps t) (Hsent : is_fully_sent t = true).
Context (sp : bool).
Implicit Types (w : W) (s a b : TransferSession).

Lemma sent_total : txn_total_len t = len (concat ps).
Proof using Hi Hsent.
  apply andb_true_iff in Hsent as [Hw%N.eqb_eq Hp%bool_decide_eq_true].
  rw -Hw (ti_written _ _ _ _ Hi) Hp len_nil. lia.
Qed.

Lemma sent_nonempty : ps ≠ [].
Proof using Hi Hsent.
  pose proof (fully_sent_frames _ _ _ _ Hi Hsent) as H. unfold len in H.
  rw (ti_len _ _ _ _ Hi) in H. intros ->. cbn in H. lia.
Qed.

Lemma pieces_nonempty : Forall (λ p, 1 ≤ length p) ps.
Proof using Hi. eapply Forall_impl; [exact (ti_pieces _ _ _ _ Hi)|]. cbn. lia. Qed.

Lemma brings_arrivals T fs :
  brings id t fs → Forall (arrival_ok id (txn_total_len t) ps) (at_time T fs).
Proof using Hi.
  intros [Hs Hh _]. apply Forall_fmap, Forall_forall. intros f Hf. unfold arrival_ok. cbn [fst].
  destruct (decide (transaction_id f = id)) as [He|Hn].
  - left. by apply (held_piece Hi), Hh.
  - right. unfold touches. destruct (proj1 (Forall_forall _ _) Hs f Hf) as [Hty _]. by rw Hty.
Qed.

(** The receiver's turn: all that was missing arrives. *)
Lemma data_round out own b w T fs :
  reception id (txn_total_len t) ps sp out own b → ¬ all_seen ps own → covered t own →
  brings id t fs → conn_live w →
  let '(b', w', new) := inbound_all b (at_time T fs) w in
  finished id ps sp (out ++ new) b' ∧ conn_live w' ∧
  ∃ es, delivered w w' = ack_frame <$> es ∧ final_ack id ps ∈ es ∧
    ∀ e, e ∈ es → ack_transaction_id e = id → e = final_ack id ps.
Proof using Hi Hsent CRCLAWS LAWS.
  intros Hr Hns Hc Hb Hl.
  pose proof (reception_run id (txn_total_len t) ps pieces_nonempty sent_total
    (proj2 (ti_total _ _ _ _ Hi)) sp out own b (at_time T fs) w Hr (brings_arrivals T fs Hb)) as Hrun.
  rw (br_seqs _ _ _ Hb T) in Hrun. specialize (Hrun (held_orderly Hi own sent_nonempty Hns Hc)).
  pose proof (held_completes Hi own Hc) as Hall.
  destruct (inbound_all b (at_time T fs) w) as [[b' w'] new]. destruct Hrun as [Hr' Hw'].
  destruct (Hw' (sendable_data T fs (br_sendable _ _ _ Hb))) as (es & -> & He1 & He2).
  destruct (accepted_acks es w Hl) as (cs & Hcs & Hacc).
  split; [by destruct Hr' as [[Hn _]|[_ Hf]]|]. split; [by eapply acc_live|].
  exists es. split; [|split; [by apply He2|done]].
  eapply delivered_control; [exact Hacc|apply ack_frames_encodable|done].
Qed.

(** The sender's turn: the final acknowledgement arrives. *)
Lemma final_ack_wf : ack_entry_wf (final_ack id ps).
Proof using Hi.
  pose proof (ti_count _ _ Hi) as Hc. unfold len in Hc. rw (ti_len _ _ _ _ Hi) in Hc.
  unfold ack_entry_wf, final_ack. cbn. unfold len. lia.
Qed.

Lemma ack_step s e w T :
  handle_inbound s (ack_frame e) w T =
  (wake_writers (set_state (ack_one T (touch_peer T (ts_state s), []) (trunc_ack e)).1 s), w,
   (ack_one T (touch_peer T (ts_state s), []) (trunc_ack e)).2).
Proof using Type.
  unfold handle_inbound. change (frame_type (ack_frame e)) with Ack. unfold on_ack_frame.
  rw ack_frame_decode. cbn [ack_entries foldl]. by destruct (ack_one _ _ _).
Qed.

Lemma ack_other s e w T :
  ack_transaction_id e ≠ id →
  let s' := (handle_inbound s (ack_frame e) w T).1.1 in
  s_pending (st_sender (ts_state s')) !! id = s_pending (st_sender (ts_state s)) !! id ∧
  st_completions (ts_state s') !! id = st_completions (ts_state s) !! id.
Proof using Type.
  intros Hne. rw ack_step. cbn [fst ts_state set_state wake_writers]. unfold ack_one, handle_ack.
  change (ack_transaction_id (trunc_ack e)) with (ack_transaction_id e). cbn [st_sender touch_peer set_clocks].
  destruct (s_pending (st_sender (ts_state s)) !! ack_transaction_id e) as [x|]; [|done].
  destruct (is_fully_acked _); cbn; [|by rw lookup_insert_ne].
  destruct (st_completions (ts_state s) !! ack_transaction_id e); cbn; rw !lookup_delete_ne //.
Qed.

Lemma ack_final cb s w T :
  waiting id t cb s → let '(s', w', new) := handle_inbound s (ack_frame (final_ack id ps)) w T in
  confirmed_once id cb s' new.
Proof using Hi Hsent.
  intros [Hp Hc]. rw ack_step (trunc_ack_id _ final_ack_wf). unfold ack_one, handle_ack.
  change (ack_transaction_id (final_ack id ps)) with id. cbn. rw Hp.
  assert (Hf : is_fully_acked (ack_txn (final_ack id ps) T t) = true).
  { apply (ack_fully_acked _ _ _ _ _ T Hi). split; [done|].
    unfold len. rw (ti_len _ _ _ _ Hi). unfold ack_progress, final_ack, len. cbn.
    split; [case_match; lia|lia]. }
  rw Hf. cbn. rw Hc. split_and!; cbn; [apply lookup_delete_eq..|by left].
Qed.

Lemma ack_settled s e w T :
  s_pending (st_sender (ts_state s)) !! id = None → st_completions (ts_state s) !! id = None →
  let s' := (handle_inbound s (ack_frame e) w T).1.1 in
  s_pending (st_sender (ts_state s')) !! id = None ∧ st_completions (ts_state s') !! id = None.
Proof using Type.
  intros Hp Hc s'. destruct (decide (ack_transaction_id e = id)) as [He|Hne].
  - unfold s'. rw ack_step. cbn [fst ts_state set_state wake_writers]. unfold ack_one, handle_ack.
    change (ack_transaction_id (trunc_ack e)) with (ack_transaction_id e). rw He.
    cbn [st_sender touch_peer set_clocks]. by rw Hp.
  - destruct (ack_other s e w T Hne) as [H1 H2]. fold s' in H1, H2. by rw H1 H2.
Qed.

Lemma ack_frame_inj e e' : ack_frame e = ack_frame e' → ack_transaction_id e = ack_transaction_id e'.
Proof using Type.
  intros He. pose proof (ack_frame_decode e) as Hd. rw He ack_frame_decode in Hd. by injection Hd.
Qed.

Lemma data_same_tx s f w T :
  frame_type f = DataBinary → same_tx (ts_state s) (ts_state (handle_inbound s f w T).1.1).
Proof using Type.
  intros Hd. rw handle_inbound_data //. pose proof (same_tx_data (touch_peer T (ts_state s)) f w
    (ts_binary_handler s) (ts_stream_handler s) T) as [H1 H2].
  destruct (on_data_frame _ _ _ _ _ _) as [[[st' w'] d] o]. by split.
Qed.

(** What reaches the sender: acknowledgements, of its transaction only the final one, and
    data frames of the transactions it receives. *)
Definition heard (f : Frame) : Prop :=
  (∃ e, f = ack_frame e ∧ (ack_transaction_id e = id → e = final_ack id ps)) ∨
  frame_type f = DataBinary.

Lemma heard_step cb s f w T :
  heard f →
  let '(s', w', new) := handle_inbound s f w T in
  (waiting id t cb s →
     (waiting id t cb s' ∧ f ≠ ack_frame (final_ack id ps)) ∨ confirmed_once id cb s' new) ∧
  (s_pending (st_sender (ts_state s)) !! id = None → st_completions (ts_state s) !! id = None →
     s_pending (st_sender (ts_state s')) !! id = None ∧ st_completions (ts_state s') !! id = None).
Proof using Hi Hsent.
  intros [(e & -> & He)|Hd].
  - pose proof (ack_settled s e w T) as Hset. pose proof (ack_other s e w T) as Hoth.
    pose proof (ack_final cb s w T) as Hfin.
    destruct (decide (ack_transaction_id e = id)) as [Hid|Hid].
    + specialize (He Hid). subst e. clear Hoth.
      destruct (handle_inbound s (ack_frame (final_ack id ps)) w T) as [[s' w'] new]. split; [|done].
      intros Hw. right. by apply Hfin.
    + clear Hfin. destruct (handle_inbound s _ w T) as [[s' w'] new]. cbn [fst] in *.
      destruct (Hoth Hid) as [O1 O2]. split; [|done]. intros [W1 W2]. left.
      split; [split; congruence|]. intros Hf%ack_frame_inj. by apply Hid.
  - pose proof (data_same_tx s f w T Hd) as Hs.
    destruct (handle_inbound s f w T) as [[s' w'] new]. cbn [fst] in Hs. destruct Hs as [S1 S2].
    unfold waiting. rw S1 S2. split; [|done]. intros Hw. left. split; [done|]. intros ->. done.
Qed.

Lemma heard_run cb s w T fs :
  waiting id t cb s → Forall heard fs →
  let '(s', w', out) := inbound_all s (at_time T fs) w in
  (waiting id t cb s' ∧ ack_frame (final_ack id ps) ∉ fs) ∨ confirmed_once id cb s' out.
Proof using Hi Hsent.
  intros Hw. unfold inbound_all, at_time. induction fs as [|f fs IH] using rev_ind.
  { intros _. left. split; [done|]. by intros ?%elem_of_nil. }
  intros [Hfs Hf]%Forall_app. rw Forall_singleton in Hf. specialize (IH Hfs).
  rw fmap_app foldl_app. cbn [fmap list_fmap foldl].
  destruct (foldl inbound_step _ _) as [[s1 w1] out1]. cbn [inbound_step fst snd].
  pose proof (heard_step cb s1 f w1 T Hf) as Hst.
  destruct (handle_inbound s1 f w1 T) as [[s2 w2] new]. destruct Hst as [H1 H2].
  destruct IH as [[Hw1 Hni]|(C1 & C2 & C3)].
  - destruct (H1 Hw1) as [[Hw2 Hne]|(C1 & C2 & C3)]; [left|right].
    + split; [done|]. intros [Hx|Hx%list_elem_of_singleton]%elem_of_app; [done|congruence].
    + split_and!; [done..|]. apply elem_of_app. by right.
  - destruct (H2 C1 C2) as [D1 D2]. right. split_and!; [done..|]. apply elem_of_app. by left.
Qed.

(** The final acknowledgement is among what is heard. *)
Lemma heard_round cb s w T fs :
  waiting id t cb s → Forall heard fs → ack_frame (final_ack id ps) ∈ fs →
  let '(s', _, out) := inbound_all s (at_time T fs) w in confirmed_once id cb s' out.
Proof using Hi Hsent.
  intros Hw Hfs Hin. pose proof (heard_run cb s w T fs Hw Hfs) as H.
  destruct (inbound_all _ _ _) as [[s' w'] out]. by destruct H as [[_ Hn]|H].
Qed.

Lemma acks_heard es :
  (∀ e, e ∈ es → ack_transaction_id e = id → e = final_ack id ps) → Forall heard (ack_frame <$> es).
Proof using Type.
  intros Hes. apply Forall_fmap, Forall_forall. intros e He. left. exists e. split; [done|]. by apply Hes.
Qed.
End rounds.

(** ** Both channels at once *)

(** An order-preserving merge of what two channels carry. *)
Inductive merges {A} : list A → list A → list A → Prop :=
  | merges_nil : merges [] [] []
  | merges_l x xs ys zs : merges xs ys zs → merges (x :: xs) ys (x :: zs)
  | merges_r y xs ys zs : merges xs ys zs → merges xs (y :: ys) (y :: zs).

Lemma elem_of_merges {A} (xs ys zs : list A) x : merges xs ys zs → x ∈ zs ↔ x ∈ xs ∨ x ∈ ys.
Proof. induction 1 as [|y xs ys zs _ IH|y xs ys zs _ IH]; [tauto|rw !elem_of_cons IH; tauto..]. Qed.

(** The priority drain of the control channel is one of them. *)
Lemma merges_app {A} (xs ys : list A) : merges xs ys (xs ++ ys).
Proof.
  induction xs as [|x xs IH]; [|by constructor].
  induction ys as [|y ys IHy]; [constructor|by constructor].
Qed.

(** Control frames that ask for nothing but retransmissions. *)
Definition chatter (f : Frame) : Prop :=
  frame_type f = Ack ∨ frame_type f = Nack ∨ frame_type f = Heartbeat.

Lemma chatter_foreign `{Crc32} `{UuidLib} id f : chatter f → ¬ touches id f.
Proof. intros Hf. unfold touches. destruct Hf as [Hf|[Hf|Hf]]; rw Hf; by intros []. Qed.

Lemma own_seqs_merges id T cs fs zs :
  merges cs fs zs → Forall chatter cs → own_seqs id (at_time T zs) = own_seqs id (at_time T fs).
Proof.
  induction 1 as [|f cs fs zs _ IH|f cs fs zs _ IH]; intros Hc; [done|..]; cbn.
  - apply Forall_cons in Hc as [Hf Hc]. case_decide as Hd; [|by apply IH].
    destruct Hd as [Hd _]. exfalso. by destruct Hf as [Hf|[Hf|Hf]]; rw Hf in Hd.
  - specialize (IH Hc). case_decide; [by f_equal|done].
Qed.

(** A sender whose copies can be sent. *)
Definition sends_well (tx : TransactionSender) : Prop :=
  (∃ d l, hist_inv (mkHistory tx d l)) ∧
  (N.of_nat (frame_size (s_config tx)) ≤ MAX_DATA_BINARY_FRAME_LEN)%N.

Lemma sends_well_ack tx e now : sends_well tx → sends_well (handle_ack tx e now).1.
Proof.
  intros [(d & l & Hh) Hs]. split.
  - exists d, l. eapply sender_step_inv; [apply step_ack|done].
  - unfold handle_ack. destruct (s_pending tx !! _); [|done]. by destruct (is_fully_acked _).
Qed.

Lemma sends_well_nack tx i missing now :
  sends_well tx →
  let '(tx', fs) := handle_nack tx i missing now in sends_well tx' ∧ Forall sendable fs.
Proof.
  intros [(d & l & Hh) Hs].
  destruct (handle_nack tx i missing now) as [tx' fs] eqn:Hn.
  pose proof (sender_step_inv _ _ (step_nack tx d l i missing now tx' fs Hn) Hh) as Hh'.
  unfold handle_nack in Hn. destruct (s_pending tx !! i) as [t|] eqn:Ht;
    [|injection Hn as <- <-; split; [split; [by eexists _, _|done]|done]].
  destruct Hh as (_ & _ & Hall). destruct (Hall i t Ht) as (ps & Hi & _). case_match.
  - injection Hn as <- <-. split; [split; [by eexists _, _|done]|done].
  - pose proof (nack_fold_spec (txn_frames t) now missing (txn_states t) []) as Hf.
    cbn [txn_frames txn_states set_progress] in Hn. destruct (foldl _ _ missing) as [sts out].
    injection Hn as <- <-. split; [split; [by eexists _, _|done]|]. apply Forall_forall.
    intros f [[]%elem_of_nil|(sq & st & _ & _ & _ & Hfr)]%Hf.
    apply (piece_sendable Hi); [done|]. apply (held_piece Hi), elem_of_held. eauto.
Qed.

Section talk.
Context `{CRC : Crc32} `{CRCLAWS : !Crc32Laws CRC} `{UUID : UuidLib}.
Context {W : Type} `{WIRE : TransferWiring W} `{CONN : !DuplexLink W} {LAWS : DuplexLinkLaws W}.
Implicit Types (w : W) (s a b : TransferSession).

(** A connection took acknowledgements and data frames. *)
Definition answers w w' (es : list AckEntry) (ds : list Frame) : Prop :=
  Forall sendable ds ∧ ∃ bs cs, collect encode ds = Ok bs ∧
    collect encode (ack_frame <$> es) = Ok cs ∧ accepted w w' bs cs.

Lemma answers_nil w : conn_live w → answers w w [] [].
Proof using Type. intros Hl. split; [done|]. exists [], []. split_and!; [done..|]. by apply accepted_refl. Qed.

Lemma answers_live w w' es ds : answers w w' es ds → conn_live w'.
Proof using Type. intros (_ & bs & cs & _ & _ & Ha). by eapply acc_live. Qed.

Lemma encode_all_app (xs ys : list Frame) bs cs :
  collect encode xs = Ok bs → collect encode ys = Ok cs → collect encode (xs ++ ys) = Ok (bs ++ cs).
Proof using Type. intros H1 H2. by rw collect_app H1 H2. Qed.

Lemma answers_trans w1 w2 w3 es1 ds1 es2 ds2 :
  answers w1 w2 es1 ds1 → answers w2 w3 es2 ds2 → answers w1 w3 (es1 ++ es2) (ds1 ++ ds2).
Proof using Type.
  intros (S1 & b1 & c1 & B1 & C1 & A1) (S2 & b2 & c2 & B2 & C2 & A2).
  split; [by apply Forall_app|]. exists (b1 ++ b2), (c1 ++ c2). rw fmap_app.
  split_and!; [by apply encode_all_app..|]. by eapply accepted_trans.
Qed.

Lemma answers_since w w' es ds :
  answers w w' es ds → control_since w w' = ack_frame <$> es ∧ data_since w w' = ds.
Proof using CRCLAWS.
  intros (S & bs & cs & B & C & A). split.
  - eapply accepted_control_since; [exact A|apply ack_frames_encodable|done].
  - eapply accepted_data_since; [exact A|by apply sendable_encodable|done].
Qed.

(** A NACK is answered with data frames. *)
Lemma nack_answers es st w now :
  conn_live w → sends_well (st_sender st) →
  let '(st', w') := nack_entries_loop st w now es in
  sends_well (st_sender st') ∧ ∃ ds, answers w w' [] ds.
Proof using LAWS.
  revert st w. induction es as [|e es IH]; intros st w Hl Hs; cbn [nack_entries_loop].
  { split; [done|]. exists []. by apply answers_nil. }
  pose proof (sends_well_nack (st_sender st) (nack_transaction_id e) (missing_seqs e) now Hs) as Hn.
  destruct (handle_nack _ _ _ _) as [tx fs]. destruct Hn as [Htx Hfs].
  destruct (accepted_frames fs w Hl (sendable_encodable _ Hfs)) as (bs & Hbs & Hok & Hacc).
  destruct (write_data_frames w fs) as [w1 ok]. cbn in Hok, Hacc. subst ok.
  specialize (IH (set_sender tx st) w1 (acc_live _ _ _ _ Hacc) Htx).
  destruct (nack_entries_loop _ _ _ es) as [st2 w2]. destruct IH as [Hs2 (ds & Hds)]. split; [done|].
  exists (fs ++ ds). apply (answers_trans w w1 w2 [] fs [] ds); [|done].
  split; [done|]. exists bs, []. by split_and!.
Qed.

Lemma acks_sends_well now es st out :
  sends_well (st_sender st) → sends_well (st_sender (foldl (ack_one now) (st, out) es).1).
Proof using Type.
  revert st out. induction es as [|e es IH]; intros st out Hs; [done|]. cbn [foldl].
  assert (H1 : st_sender (ack_one now (st, out) e).1 = (handle_ack (st_sender st) e now).1).
  { unfold ack_one. destruct (handle_ack _ _ _) as [tx []]; [|done]. by case_match. }
  destruct (ack_one now (st, out) e) as [st1 out1]. apply IH. cbn in H1. rw H1. by apply sends_well_ack.
Qed.

Lemma chatter_step b f w T :
  chatter f → conn_live w → sends_well (st_sender (ts_state b)) →
  let '(b', w', _) := handle_inbound b f w T in
  sends_well (st_sender (ts_state b')) ∧ ∃ ds, answers w w' [] ds.
Proof using LAWS.
  intros Hf Hl Hs. assert (Hn := answers_nil w Hl). unfold handle_inbound. destruct Hf as [->|[->| ->]].
  - unfold on_ack_frame. destruct (AckPayload_decode _) as [p|]; [|by eauto].
    pose proof (acks_sends_well T (ack_entries p) (touch_peer T (ts_state b)) [] Hs) as Ha.
    destruct (foldl _ _ _) as [st' out]. split; [done|by exists []].
  - unfold on_nack_frame. destruct (NackPayload_decode _) as [p|]; [|by eauto].
    pose proof (nack_answers (nack_entries p) (touch_peer T (ts_state b)) w T Hl Hs) as Ha.
    by destruct (nack_entries_loop _ _ _ _) as [st' w'].
  - by eauto.
Qed.

Context {size : nat} {id : txid} {ps : list (list byte)} {t : PendingTxn}.
Context (Hi : txn_inv size id ps t) (Hsent : is_fully_sent t = true).
Context (sp : bool).

(** The receiver among data frames and chatter: a reception, and known answers. *)
Lemma talk_run out own b arr w :
  reception id (txn_total_len t) ps sp out own b →
  Forall (arrival_ok id (txn_total_len t) ps) arr → orderly (len ps) own (own_seqs id arr) →
  Forall (λ x, chatter x.1 ∨ frame_type x.1 = DataBinary) arr →
  conn_live w → sends_well (st_sender (ts_state b)) →
  let '(b', w', new) := inbound_all b arr w in
  let own' := own ++ own_seqs id arr in
  reception id (txn_total_len t) ps sp (out ++ new) own' b' ∧ sends_well (st_sender (ts_state b')) ∧
  ∃ es ds, answers w w' es ds ∧ acks_of_run id ps own own' es.
Proof using Hi Hsent LAWS.
  intros Hr Harr Hord Hty Hl Hs. unfold inbound_all. revert Harr Hord Hty.
  induction arr as [|[f T] arr IH] using rev_ind.
  { cbn. rw !app_nil_r. intros _ _ _. split_and!; [done..|]. exists [], []. split; [by apply answers_nil|].
    split; [by intros e He%elem_of_nil|done]. }
  intros [Harr Hf]%Forall_app. rw Forall_singleton in Hf.
  assert (Happ : own_seqs id (arr ++ [(f, T)]) = own_seqs id arr ++ own_seqs id [(f, T)]) by apply omap_app.
  rw Happ orderly_app. intros [Ho1 Ho2] [Ht1 Ht2]%Forall_app. rw Forall_singleton in Ht2.
  specialize (IH Harr Ho1 Ht1). rw foldl_app. cbn [foldl].
  destruct (foldl inbound_step (b, w, []) arr) as [[b1 w1] out1].
  destruct IH as (Hr1 & Hs1 & es1 & ds1 & Hw1 & He1). cbn [inbound_step fst snd] in *.
  pose proof (reception_step id (txn_total_len t) ps (pieces_nonempty Hi) (sent_total Hi Hsent)
    (proj2 (ti_total _ _ _ _ Hi)) sp _ _ b1 f w1 T Hr1 Hf Ho2) as Hstep.
  pose proof (chatter_step b1 f w1 T) as Hch. pose proof (data_same_tx b1 f w1 T) as Hdt.
  destruct (handle_inbound b1 f w1 T) as [[b2 w2] new]. cbn [fst snd] in *. destruct Hstep as [Hr2 Hw2].
  assert (Hl1 := answers_live _ _ _ _ Hw1).
  assert (H2 : sends_well (st_sender (ts_state b2)) ∧ ∃ es ds, answers w1 w2 es ds ∧
    acks_of_run id ps (own ++ own_seqs id arr) ((own ++ own_seqs id arr) ++ own_seqs id [(f, T)]) es).
  { destruct Ht2 as [Hc|Hd].
    - destruct (Hch Hc Hl1 Hs1) as [Hs2 (ds & Hds)]. split; [done|]. exists [], ds. split; [done|].
      assert (Hn : ¬ touches id f) by by apply chatter_foreign.
      rw own_seqs_foreign // app_nil_r.
      split; [by intros e He%elem_of_nil|done].
    - rw (proj1 (Hdt Hd)). split; [done|]. destruct (Hw2 Hd) as (es & -> & He).
      destruct (accepted_acks es w1 Hl1) as (cs & Hcs & Hacc). exists es, []. split; [|done].
      split; [done|]. by exists [], cs. }
  destruct H2 as (Hs2 & es2 & ds2 & Hw & He2). rw app_assoc (app_assoc own).
  split_and!; [done..|]. exists (es1 ++ es2), (ds1 ++ ds2). split; [by eapply answers_trans|].
  eapply acks_of_run_app; [|done|done]. destruct Hr1 as [[? _]|[? _]]; auto.
Qed.

(** The receiver's turn: all that was missing arrives, among chatter. *)
Lemma talk_round out own b w T cs fs zs :
  reception id (txn_total_len t) ps sp out own b → ¬ all_seen ps own → covered t own →
  brings id t fs → Forall chatter cs → merges cs fs zs →
  conn_live w → sends_well (st_sender (ts_state b)) →
  let '(b', w', new) := inbound_all b (at_time T zs) w in
  finished id ps sp (out ++ new) b' ∧
  ∀ zs', merges (control_since w w') (data_since w w') zs' →
    Forall (heard (id := id) (ps := ps)) zs' ∧ ack_frame (final_ack id ps) ∈ zs'.
Proof using Hi Hsent CRCLAWS LAWS.
  intros Hr Hns Hc Hb Hcs Hm Hl Hs.
  assert (Hin : ∀ f, f ∈ zs → f ∈ cs ∨ f ∈ fs) by (intros f; by apply elem_of_merges).
  pose proof (talk_run out own b (at_time T zs) w Hr) as Hrun.
  rw (own_seqs_merges id T cs fs zs Hm Hcs) (br_seqs _ _ _ Hb T) in Hrun.
  assert (Harr : Forall (arrival_ok id (txn_total_len t) ps) (at_time T zs)).
  { apply Forall_fmap, Forall_forall. intros f [Hf|Hf]%Hin.
    - right. apply chatter_foreign. exact (proj1 (Forall_forall _ _) Hcs f Hf).
    - pose proof (brings_arrivals Hi T fs Hb) as Hba. apply (proj1 (Forall_forall _ _) Hba (f, T)).
      apply list_elem_of_fmap. by exists f. }
  assert (Hty : Forall (λ x, chatter x.1 ∨ frame_type x.1 = DataBinary) (at_time T zs)).
  { apply Forall_fmap, Forall_forall. intros f [Hf|Hf]%Hin; [left; exact (proj1 (Forall_forall _ _) Hcs f Hf)|right].
    by destruct (proj1 (Forall_forall _ _) (br_sendable _ _ _ Hb) f Hf). }
  specialize (Hrun Harr (held_orderly Hi own (sent_nonempty Hi Hsent) Hns Hc) Hty Hl Hs).
  destruct (inbound_all b (at_time T zs) w) as [[b' w'] new].
  destruct Hrun as (Hr' & _ & es & ds & Hans & He1 & He2).
  destruct (answers_since _ _ _ _ Hans) as [-> ->]. destruct Hans as [Hds _].
  pose proof (held_completes Hi own Hc) as Hall.
  split; [by destruct Hr' as [[Hn _]|[_ Hf]]|]. intros zs' Hm'. split.
  - apply Forall_forall. intros f [Hf|Hf]%(elem_of_merges _ _ _ f Hm').
    + exact (proj1 (Forall_forall _ _) (acks_heard es He1) f Hf).
    + right. by destruct (proj1 (Forall_forall _ _) Hds f Hf).
  - apply (elem_of_merges _ _ _ _ Hm'). left. apply list_elem_of_fmap_2. by apply He2.
Qed.
End talk.

(** ** The reception so far *)

Section reached.
Context `{CRC : Crc32} `{UUID : UuidLib} {W : Type} `{WIRE : TransferWiring W}.
Context {size : nat} {id : txid} {ps : list (list byte)} {t : PendingTxn}.
Context (Hi : txn_inv size id ps t) (Hsent : is_fully_sent t = true).
Implicit Types (w : W).

(** What a receiver made of the part of the sender's frames that reached it. *)
Lemma reception_reached sp l b0 arr w0 b w out :
  (∀ f, f ∈ l → transaction_id f = id → frame_of_piece id (txn_total_len t) ps f) →
  streams_inv (ts_state b0) → slots (st_reassembler (ts_state b0)) !! id = None →
  ts_stream_handler b0 = sp → (sp = false → ts_binary_handler b0 = true) →
  Forall (from_sender id l) arr → orderly (len (txn_frames t)) [] (own_seqs id arr) →
  inbound_all b0 arr w0 = (b, w, out) →
  reception id (txn_total_len t) ps sp out (own_seqs id arr) b.
Proof using Hi Hsent.
  intros Hl H1 H2 H3 H4 Harr Hord Hrun.
  assert (Hlen : len (txn_frames t) = len ps) by (unfold len; by rw (ti_len _ _ _ _ Hi)).
  rw Hlen in Hord.
  pose proof (reception_run id (txn_total_len t) ps (pieces_nonempty Hi) (sent_total Hi Hsent)
    (proj2 (ti_total _ _ _ _ Hi)) sp [] [] b0 arr w0) as Hr.
  rw Hrun in Hr. apply Hr; [|eapply Forall_impl; [exact Harr|]|done].
  - apply (reception_start id (txn_total_len t) ps (pieces_nonempty Hi) (sent_total Hi Hsent)
      (proj2 (ti_total _ _ _ _ Hi))); try done. by eapply sent_nonempty.
  - intros [f tf] [[Hf Hid]|Hn]; [left; by apply Hl|by right].
Qed.
End reached.

(** ** A connection that lives: the retransmission clock *)

Section timeout.
Context `{CRC : Crc32} `{CRCLAWS : !Crc32Laws CRC} `{UUID : UuidLib}.
Context {W : Type} `{WIRE : TransferWiring W} `{TRANSPORT : !XacppTransport W}.
Context `{CONN : !DuplexLink W} {LAWS : DuplexLinkLaws W}.
Implicit Types (w : W) (s a b : TransferSession).

(** Nothing went out on the data channel, and only chatter on the control channel. *)
Definition chats w w' : Prop :=
  conn_live w → ∃ fs cs, collect encode fs = Ok cs ∧ accepted w w' [] cs ∧
    Forall (λ f, encodable f ∧ chatter f) fs.

#[export] Instance chats_preorder : PreOrder chats.
Proof using Type.
  split; [intros w Hl; exists [], []; split; [done|]; by split; [apply accepted_refl|]|].
  intros w1 w2 w3 H1 H2 Hl. destruct (H1 Hl) as (f1 & c1 & E1 & A1 & F1).
  destruct (H2 (acc_live _ _ _ _ A1)) as (f2 & c2 & E2 & A2 & F2).
  exists (f1 ++ f2), (c1 ++ c2). split; [by apply encode_all_app|].
  split; [exact (accepted_trans _ _ _ [] c1 [] c2 A1 A2)|by apply Forall_app].
Qed.

Lemma chats_control {P} `{ControlPayloadLaws P} w (p : P) :
  (∀ bs, chatter (payload_frame (P := P) bs)) → chats w (Transfer.send_control w p).
Proof using LAWS.
  intros Ht Hl. destruct (payload_encode p) as [bs|] eqn:He.
  - destruct (accepted_payload p bs w Hl He) as (b & Hb & Ha).
    exists [payload_frame (P := P) bs], [b]. split; [cbn; by rw Hb|]. split; [done|].
    constructor; [|constructor]. split; [by eapply payload_frame_encodable|done].
  - unfold Transfer.send_control. rw He. by apply chats_preorder.
Qed.

Lemma chats_tick cfg (st : SessionState) w now :
  chats w (export_acks cfg st w now).2 ∧ chats w (send_nacks cfg st w now).2 ∧
  chats w (heartbeat cfg st w now).2.
Proof using LAWS.
  split_and!.
  - unfold export_acks. case_match; [|done]. cbn. unfold send_ack_entries.
    case_match; [done|]. apply chats_control. by left.
  - unfold send_nacks. case_match; [|done]. cbn.
    generalize (rx_open_transactions (st_reassembler st)) as ids. intros ids. revert w.
    induction ids as [|i ids IH]; intros w; [done|]. cbn. etrans; [|apply IH].
    unfold nack_gaps. case_match; [done|]. apply chats_control. by right; left.
  - unfold heartbeat. case_match; [|done]. apply chats_control. by right; right.
Qed.

(** No declaration waits for its verdict longer than the timeout. *)
Definition verdicts_awaited (timeout now : N) (tx : TransactionSender) : Prop :=
  map_Forall (λ _ v, txn_awaiting_resume v = true →
    ∀ T, txn_declared_ms v = Some T → (now - T < timeout)%N) (s_pending tx).

Lemma awaited_due timeout now tx T :
  verdicts_awaited timeout now tx → verdicts_awaited timeout now (due_retransmissions tx T).1.
Proof using Type.
  intros Hv. unfold due_retransmissions. destruct (iter_mut _ _) as [p o] eqn:Hm.
  apply iter_mut_pair in Hm as [-> _]. intros k v. cbn [fst s_pending]. rw iter_mut_lookup.
  intros (x & Hx & ->)%fmap_Some. specialize (Hv k x Hx). unfold due_txn.
  case_match; [done|]. by destruct (resend_walk _ _ _ _).
Qed.

Lemma awaited_silent timeout now tx :
  verdicts_awaited timeout now tx → (timed_out_declarations tx now timeout).2 = [].
Proof using Type.
  intros Hv. unfold timed_out_declarations. destruct (iter_mut _ _) as [p o] eqn:Hm.
  apply iter_mut_pair in Hm as [_ ->]. apply elem_of_nil_inv. intros e (k & v & Hk & He)%iter_mut_out.
  specialize (Hv k v Hk). unfold redeclare_txn in He.
  destruct (txn_awaiting_resume v) eqn:Ha; [|by apply elem_of_nil in He]. cbn [negb] in He.
  destruct (txn_declared_ms v) as [T|] eqn:HT; [|by apply elem_of_nil in He].
  rw (proj2 (N.ltb_lt _ _) (Hv Ha T HT)) in He. by apply elem_of_nil in He.
Qed.

Lemma redeclare_ungated (s : TransactionSender) id t now timeout :
  s_pending s !! id = Some t → txn_awaiting_resume t = false →
  s_pending (timed_out_declarations s now timeout).1 !! id = Some t.
Proof using Type.
  intros Ht Ha. unfold timed_out_declarations.
  destruct (iter_mut _ _) as [p o] eqn:Hm. apply iter_mut_pair in Hm as [-> _].
  cbn [fst s_pending]. rw iter_mut_lookup Ht. cbn. unfold redeclare_txn. by rw Ha.
Qed.

(** A tick sends what is due on the data channel, and chatter on the other. *)
Lemma tick_brings s w now id t :
  conn_live w → all_held (st_sender (ts_state s)) →
  (N.of_nat (frame_size (s_config (st_sender (ts_state s)))) ≤ MAX_DATA_BINARY_FRAME_LEN)%N →
  s_pending (st_sender (ts_state s)) !! id = Some t → txn_paused t = false →
  txn_awaiting_resume t = false → overdue (s_config (st_sender (ts_state s))) now t →
  verdicts_awaited (resume_verdict_timeout_ms (ts_config s)) now (st_sender (ts_state s)) →
  let '(s', w', silent) := clock_tick s w now in
  brings id t (data_since w w') ∧ Forall chatter (control_since w w') ∧
  (∃ t', same_copy t t' ∧ s_pending (st_sender (ts_state s')) !! id = Some t') ∧
  st_completions (ts_state s') = st_completions (ts_state s) ∧
  silent = (silent_timeout_ms (ts_config s) <=? now - st_last_peer_activity_ms (ts_state s))%N.
Proof using CRCLAWS LAWS.
  intros Hl Hall Hsize Ht Hp Ha Hd Hv. pose proof (clock_tick_frame s w now) as Hfr. revert Hfr.
  unfold clock_tick. set (cfg := ts_config s).
  assert (H1 : st_sender (export_acks cfg (ts_state s) w now).1 = st_sender (ts_state s))
    by (unfold export_acks; by case_match).
  destruct (chats_tick cfg (ts_state s) w now) as (N1 & _).
  destruct (export_acks cfg (ts_state s) w now) as [st1 w1].
  assert (H2 : st_sender (send_nacks cfg st1 w1 now).1 = st_sender st1)
    by (unfold send_nacks; by case_match).
  destruct (chats_tick cfg st1 w1 now) as (_ & N2 & _).
  destruct (send_nacks cfg st1 w1 now) as [st2 w2]. cbn [fst snd] in *.
  rw H2 H1. pose proof (due_brings (st_sender (ts_state s)) id t now Hall Hsize Ht Hp Ha Hd) as Hdue.
  pose proof (awaited_silent _ _ _ (awaited_due _ now _ now Hv)) as Hsil.
  destruct (due_retransmissions _ now) as [tx fs]. destruct Hdue as [Hb (t' & Hsc & Ha' & Ht')].
  destruct (N1 Hl) as (f1 & c1 & E1 & A1 & F1). destruct (N2 (acc_live _ _ _ _ A1)) as (f2 & c2 & E2 & A2 & F2).
  destruct (accepted_frames fs w2 (acc_live _ _ _ _ A2) (sendable_encodable _ (br_sendable _ _ _ Hb)))
    as (bs & Hbs & Hok & A3).
  destruct (write_data_frames w2 fs) as [w3 ok]. cbn in Hok, A3. subst ok. cbn [negb].
  pose proof (redeclare_ungated tx id t' now (resume_verdict_timeout_ms cfg) Ht' Ha') as H4.
  unfold redeclare. cbn [st_sender set_sender fst] in Hsil |- *. fold cfg in Hsil.
  destruct (timed_out_declarations tx now _) as [tx' es]. cbn [snd fst] in Hsil, H4. subst es.
  destruct (chats_tick cfg (set_sender tx' (set_sender tx st2)) w3 now) as (_ & _ & N5).
  assert (H5 : st_sender (heartbeat cfg (set_sender tx' (set_sender tx st2)) w3 now).1 = tx')
    by (unfold heartbeat; by case_match).
  destruct (heartbeat cfg _ w3 now) as [st5 w5]. cbn [fst snd ts_state set_state] in *.
  intros [(_ & Hcomp & Hpeer) _]. destruct (N5 (acc_live _ _ _ _ A3)) as (f5 & c5 & E5 & A5 & F5).
  pose proof (accepted_trans _ _ _ _ _ _ _ (accepted_trans _ _ _ _ _ _ _
    (accepted_trans _ _ _ _ _ _ _ A1 A2) A3) A5) as Hacc. rw !app_nil_r in Hacc. cbn [app] in Hacc.
  assert (Hchat : Forall (λ f, encodable f ∧ chatter f) ((f1 ++ f2) ++ f5)) by (by rw !Forall_app).
  rw (accepted_data_since w w5 fs _ _ Hacc); [by apply sendable_encodable, Hb|done|].
  rw (accepted_control_since w w5 ((f1 ++ f2) ++ f5) _ _ Hacc).
  { eapply Forall_impl; [exact Hchat|]. by intros f []. }
  { apply encode_all_app; [by apply encode_all_app|done]. }
  rw H5 Hpeer. split_and!; try done; [|by exists t'].
  eapply Forall_impl; [exact Hchat|]. by intros f [].
Qed.

Lemma drain_completions s :
  st_completions (ts_state (drain_completed s).1) = st_completions (ts_state s).
Proof using Type. unfold drain_completed. case_match; [done|]. by destruct (foldl _ _ _). Qed.

(** The exchange: everything the sender wrote reaches the receiver, everything the
    receiver then writes reaches the sender. *)
Definition exchange a (wa wa1 : W) b (wb : W) (tb ta : N) :
    TransferSession * list AppEvent * TransferSession * list AppEvent :=
  let '(b1, wb1, outb) := inbound_all b (at_time tb (delivered wa wa1)) wb in
  let '(a1, _, outa) := inbound_all a (at_time ta (delivered wb wb1)) wa1 in
  (b1, outb, a1, outa).

(** What is missing is brought, delivered, acknowledged and confirmed. *)
Lemma exchange_completes size id ps t t' sp out own a wa wa1 b wb tb ta cb :
  txn_inv size id ps t → is_fully_sent t = true → same_copy t t' →
  reception id (txn_total_len t) ps sp out own b → ¬ all_seen ps own → covered t own →
  brings id t (delivered wa wa1) → conn_live wb → waiting id t' cb a →
  let '(b1, outb, a1, outa) := exchange a wa wa1 b wb tb ta in
  finished id ps sp (out ++ outb) b1 ∧ confirmed_once id cb a1 outa.
Proof using CRCLAWS LAWS.
  intros Hi Hs Hsc Hr Hns Hc Hb Hl Hw. unfold exchange.
  pose proof (data_round Hi Hs sp out own b wb tb (delivered wa wa1) Hr Hns Hc Hb Hl) as Hd.
  destruct (inbound_all b _ wb) as [[b1 wb1] outb]. destruct Hd as (Hf & _ & es & -> & He & Hid).
  assert (Hs' : is_fully_sent t' = true) by (rw -Hs; apply (same_copy_sent t t' Hsc)).
  pose proof (heard_round (same_copy_inv _ _ _ _ _ Hsc Hi) Hs' cb a wa1 ta (ack_frame <$> es) Hw
    (acks_heard es Hid) ltac:(by apply list_elem_of_fmap_2)) as Ha.
  by destruct (inbound_all a _ wa1) as [[a1 wa2] outa].
Qed.

(** C2: a lost frame is recovered on a live connection.  A fully sent transaction
    reached the receiver in part: some frames, in any order once the first has come,
    with duplicates and between other traffic; some of those were acknowledged.  The
    sender's clock runs after the timeouts of the unconfirmed frames, at a time when no
    RESUME declaration is overdue (a re-declaration in the same tick names only the
    overdue transactions and makes the receiver abandon this one: C38).  Everything the
    tick writes, on both channels and for every transaction, reaches the receiver in any
    merge of the two channels, and everything the receiver then writes, retransmissions
    of its own included, reaches the sender likewise.  Then the receiver's application
    has the whole content exactly once (as one payload or as one complete stream), and
    the sender's completion fires as confirmed and its copy is released. *)
Theorem timeout_recovers cfg a d l id data t cb (wa : W) sp b0 arr (wb0 : W) b wb out cfgb db lb t1 t2 t3 :
  let tx := st_sender (ts_state a) in
  sender_reach cfg (mkHistory tx d l) →
  (N.of_nat (frame_size (s_config tx)) ≤ MAX_DATA_BINARY_FRAME_LEN)%N →
  s_pending tx !! id = Some t → is_fully_sent t = true → d !! id = Some data →
  txn_paused t = false → txn_awaiting_resume t = false → overdue (s_config tx) t1 t →
  verdicts_awaited (resume_verdict_timeout_ms (ts_config a)) t1 tx →
  st_completions (ts_state a) !! id = Some cb → conn_live wa →
  (t1 - st_last_peer_activity_ms (ts_state a) < silent_timeout_ms (ts_config a))%N →
  streams_inv (ts_state b0) → slots (st_reassembler (ts_state b0)) !! id = None →
  ts_stream_handler b0 = sp → (sp = false → ts_binary_handler b0 = true) →
  Forall (from_sender id l) arr → orderly (len (txn_frames t)) [] (own_seqs id arr) →
  (∃ k, (k < len (txn_frames t))%N ∧ (k ∉ own_seqs id arr)) → covered t (own_seqs id arr) →
  inbound_all b0 arr wb0 = (b, wb, out) → conn_live wb →
  sender_reach cfgb (mkHistory (st_sender (ts_state b)) db lb) →
  (N.of_nat (frame_size (s_config (st_sender (ts_state b)))) ≤ MAX_DATA_BINARY_FRAME_LEN)%N →
  let '(a1, wa1, _, stopped) := run_clock_turn a wa false t1 in
  stopped = false ∧
  ∀ to_b, merges (control_since wa wa1) (data_since wa wa1) to_b →
  let '(b1, wb1, outb) := inbound_all b (at_time t2 to_b) wb in
  got id sp data (out ++ outb) b1 ∧ slots (st_reassembler (ts_state b1)) !! id = None ∧
  ∀ to_a, merges (control_since wb wb1) (data_since wb wb1) to_a →
  let '(a2, _, outa) := inbound_all a1 (at_time t3 to_a) wa1 in
  confirmed_once id cb a2 outa.
Proof using CRCLAWS LAWS.
  intros tx Hreach Hsize Ht Hsent Hd Hp Ha Hod Haw Hcb Hla Hsil H1 H2 H3 H4 Harr Hord (k & Hk & Hkn) Hcov Hrun Hlb
    Hreachb Hsizeb.
  destruct (sent_content _ _ _ _ _ _ _ Hreach Ht Hsent Hd) as (ps & Hi & <- & Hl).
  pose proof (reception_reached Hi Hsent sp l b0 arr wb0 b wb out Hl H1 H2 H3 H4 Harr Hord Hrun) as Hrec.
  assert (Hns : ¬ all_seen ps (own_seqs id arr)).
  { intros Hall. apply Hkn, Hall. unfold len in *. by rw (ti_len _ _ _ _ Hi) in Hk. }
  assert (Hwell : sends_well (st_sender (ts_state b)))
    by (split; [exists db, lb; by eapply sender_reach_inv|done]).
  pose proof (tick_brings a wa t1 id t Hla (reach_all_held _ _ _ _ Hreach) Hsize Ht Hp Ha Hod Haw) as Htick.
  unfold run_clock_turn. destruct (clock_tick a wa t1) as [[a1 wa1] silent].
  destruct Htick as (Hb & Hch & (t' & Hsc & Ht') & Hc1 & ->).
  rw (proj2 (N.leb_gt _ _) Hsil). cbn [negb].
  pose proof (drain_keeps (wake_writers a1)) as [D1 _]. pose proof (drain_completions (wake_writers a1)) as D2.
  destruct (drain_completed (wake_writers a1)) as [a2 pl]. cbn [fst] in *.
  assert (Hw : waiting id t' cb a2) by (split; [by rw D1|by rw D2 Hc1]).
  split; [done|]. intros to_b Hm.
  pose proof (talk_round Hi Hsent sp out _ b wb t2 _ _ to_b Hrec Hns Hcov Hb Hch Hm Hlb Hwell) as Hround.
  destruct (inbound_all b (at_time t2 to_b) wb) as [[b1 wb1] outb]. destruct Hround as [Hf Hback].
  split_and!; [by apply fin_got in Hf|by eapply fin_slot|]. intros to_a Hm'.
  destruct (Hback to_a Hm') as [Hheard Hin].
  assert (Hs' : is_fully_sent t' = true) by (rw -Hsent; apply (same_copy_sent t t' Hsc)).
  exact (heard_round (same_copy_inv _ _ _ _ _ Hsc Hi) Hs' cb a2 wa1 t3 to_a Hw Hheard Hin).
Qed.
End timeout.
