(* ===== verification/Resume.v ===== *)
(** * Continuing a transfer on a new connection

    The RESUME handshake between two sessions whose connection died and came back
    ([wire] and [declare_pending_sends] of [src/transfer/core.rs] and [clock.rs],
    [on_resume_request_frame] and [on_resume_response_frame] of
    [src/transfer/inbound.rs], the verdicts of [src/reliability/transaction.rs]):
    the holder gates and declares what it holds, the receiver adjudicates, the
    holder resends or closes. *)
From S2P Require Import Prelude Crc Frame Control Sender Reassemble Errors Stream Transfer.
From S2P Require Import Delivery Clock Sink Session Egress Socket Link Reception Recovery.

(** ** Losing a connection and getting another *)

Section reattach.
Context `{CRC : Crc32} `{UUID : UuidLib} {W : Type} `{WIRE : TransferWiring W}.
Context `{TRANSPORT : !XacppTransport W}.
Implicit Types (w : W) (s a b : TransferSession) (st : SessionState).

(** The clock task sees its connection closed at [tc]; at [tw] the session is wired
    to a new one. *)
Definition reattach s w (w' : W) (tr : nat) (tc tw : N) : TransferSession * W :=
  let '(s1, _, _, _) := run_clock_turn s w true tc in
  let '(s2, w2, _) := wire s1 tr w' tw in (s2, w2).

(** The state after: streams stalled and flowing again, every send gated. *)
Definition reattached (tw : N) st : SessionState :=
  clear_stalls (set_sender (declare_pending (st_sender st) tw).1 (touch_peer tw (stall_streams st))).

Lemma reattach_spec s w w' tr tc tw :
  let '(s', w2) := reattach s w w' tr tc tw in
  ts_state s' = reattached tw (ts_state s) ∧ w2 = on_transfer_activity w' true ∧
  ts_wiring s' = Some tr ∧ ts_stream_handler s' = ts_stream_handler s ∧
  ts_binary_handler s' = ts_binary_handler s ∧ ts_config s' = ts_config s.
Proof using Type.
  unfold reattach, run_clock_turn, detach_connection. by destruct (ts_wiring s).
Qed.

Lemma same_reception_update id f st :
  (∀ x, chunk_rx (f x) = chunk_rx x) → streams_inv st →
  same_reception id st (update_streams f st).
Proof using Type.
  intros Hf Hi. split_and!; [done..|]. intros l Hl.
  destruct (update_streams_heap f st l Hi) as [Hu _]. rw (Hu id Hl).
  destruct (st_heap st !! l); cbn; [|done]. by rw Hf.
Qed.

(** Nothing a reception has is lost. *)
Lemma reattached_reception id total ps sp out own s s' tw :
  reception id total ps sp out own s → ts_state s' = reattached tw (ts_state s) →
  ts_stream_handler s' = ts_stream_handler s → ts_binary_handler s' = ts_binary_handler s →
  reception id total ps sp out own s'.
Proof using Type.
  intros Hr Hst H1 H2.
  assert (Hi : streams_inv (ts_state s)) by (destruct Hr as [[_ []]|[_ []]]; done).
  set (st1 := stall_streams (ts_state s)).
  assert (Hi1 : streams_inv st1) by (by apply update_streams_inv; [apply flow_update_set_stalled|]).
  set (st2 := set_sender (declare_pending (st_sender (ts_state s)) tw).1 (touch_peer tw st1)).
  assert (Hi2 : streams_inv st2) by exact Hi1.
  apply (reception_same id total ps sp out own s s'); try done; rw Hst;
    change (reattached tw (ts_state s)) with (clear_stalls st2).
  - by apply update_streams_inv; [apply flow_update_clear_stalled|].
  - trans st1; [apply kept_update_streams|]. trans st2; [by apply kept_same|].
    apply kept_update_streams.
  - destruct (same_reception_update id set_stalled (ts_state s)) as (A1 & A2 & A3 & A4); [|done|].
    { intros x. unfold set_stalled. by case_match. }
    destruct (same_reception_update id clear_stalled st2) as (B1 & B2 & B3 & B4); [done|done|].
    split_and!; [exact (eq_trans B1 A1)|exact (eq_trans B2 A2)|exact (iff_trans B3 A3)|].
    intros l Hl. exact (eq_trans (B4 l Hl) (A4 l Hl)).
Qed.

(** ** The declaration *)

Definition declarations (s : TransactionSender) : list AckEntry :=
  (λ kv, declaration kv.1 kv.2) <$> map_to_list (s_pending s).

Lemma declare_pending_entries (s : TransactionSender) now : (declare_pending s now).2 = declarations s.
Proof using Type.
  unfold declare_pending, declarations. cbn. induction (map_to_list (s_pending s)) as [|x l IH]; [done|].
  cbn. by rw IH.
Qed.

Lemma declarations_ids (s : TransactionSender) : ack_transaction_id <$> declarations s = (map_to_list (s_pending s)).*1.
Proof using Type. unfold declarations. rw -list_fmap_compose. by apply list_fmap_ext. Qed.

Lemma declarations_wf (s : TransactionSender) : Forall ack_entry_wf (declarations s).
Proof using Type.
  apply Forall_fmap, Forall_true. intros [k v]. unfold ack_entry_wf, declaration. cbn.
  assert (frame_count v ≤ U32_MAX)%N; [|lia].
  unfold frame_count, as_u32, U32_MAX.
  pose proof (N.mod_lt (len (txn_frames v)) 4294967296 ltac:(done)). lia.
Qed.

Lemma len_declarations (s : TransactionSender) : len (declarations s) = N.of_nat (size (s_pending s)).
Proof using Type. unfold len, declarations. by rw length_fmap length_map_to_list. Qed.

Lemma elem_of_declared (s : TransactionSender) id :
  id ∈ ack_transaction_id <$> declarations s ↔ is_Some (s_pending s !! id).
Proof using Type.
  rw declarations_ids list_elem_of_fmap. split.
  - intros ([k v] & -> & Hkv%elem_of_map_to_list). by exists v.
  - intros [v Hv]. exists (id, v). split; [done|]. by apply elem_of_map_to_list.
Qed.
End reattach.

(** ** A verdict that closes *)

Lemma verdicts_close s entries id t now :
  all_held s → (N.of_nat (frame_size (s_config s)) ≤ MAX_DATA_BINARY_FRAME_LEN)%N →
  NoDup (rse_transaction_id <$> entries) → mkResumeStatusEntry id StatusUnknown ∈ entries →
  s_pending s !! id = Some t → is_fully_sent t = true →
  let '(s', v) := apply_resume_verdicts s entries now in
  s_pending s' !! id = None ∧ id ∈ v_confirmed v ∧
  Forall (λ f, sendable f ∧ transaction_id f ≠ id) (v_retransmit v).
Proof.
  intros Hall Hsize Hnd Hin Ht Hs.
  destruct (apply_resume_verdicts s entries now) as [s' v] eqn:Hv.
  destruct (verdicts_fold now entries s (mkResumeVerdicts [] [] []) s' v Hv)
    as [_ Hspec]; [by intros ? ?%elem_of_nil|constructor|].
  destruct (Hspec id) as (Hc & _ & Hcl & _).
  assert (Hclose : closes entries id) by (by eexists).
  split; [by specialize (Hcl Hclose); apply fmap_None in Hcl|].
  split; [apply Hc; right; split; [done|]; unfold sent_flag; rw Ht; cbn; by rw Hs|].
  clear Hspec Hc Hcl Hclose. unfold apply_resume_verdicts in Hv.
  apply list_elem_of_split in Hin as (e1 & e2 & ->).
  rw fmap_app in Hnd. apply NoDup_app in Hnd as (_ & Hd1 & [Hd2 _]%NoDup_cons).
  rw foldl_app in Hv. cbn [foldl] in Hv. destruct (foldl _ _ e1) as [s1 v1] eqn:E1.
  destruct (verdicts_other now e1 s _ s1 v1 id Hall Hsize E1) as (H1 & H2 & _ & fs1 & H4 & H5).
  { intros H. apply (Hd1 id H). by left. }
  destruct (apply_verdict now (s1, v1) _) as [s2 v2] eqn:E2.
  destruct (apply_verdict_frames now s1 v1 _ s2 v2 H1 ltac:(by rw H2) E2) as (G1 & G2 & _ & fs & G4 & _ & G5 & _).
  rw (G5 ltac:(done)) app_nil_r in G4.
  destruct (verdicts_other now e2 s2 v2 s' v id G1 ltac:(by rw G2 H2) Hv Hd2) as (_ & _ & _ & fs2 & K4 & K5).
  rw K4 G4 H4. by apply Forall_app.
Qed.

(** ** The rounds of the handshake *)

Section handshake.
Context `{CRC : Crc32} `{CRCLAWS : !Crc32Laws CRC} `{UUID : UuidLib}.
Context {W : Type} `{WIRE : TransferWiring W} `{TRANSPORT : !XacppTransport W}.
Context `{CONN : !DuplexLink W} {LAWS : DuplexLinkLaws W}.
Implicit Types (w : W) (s a b : TransferSession) (st : SessionState).

(** One control payload written, one frame with it decoded. *)
Lemma payload_round {P} `{ControlPayloadLaws P} (p : P) bs w :
  conn_live w → payload_wf p → payload_encode p = Ok bs →
  conn_live (Transfer.send_control w p) ∧
  delivered w (Transfer.send_control w p) = [payload_frame (P := P) bs] ∧
  payload_decode bs = Ok p.
Proof using CRCLAWS LAWS.
  intros Hl Hwf He. destruct (accepted_payload p bs w Hl He) as (b & Hb & Ha).
  split; [by eapply acc_live|]. split; [|by apply payload_decode_encode].
  eapply delivered_control; [exact Ha| |].
  - constructor; [by eapply payload_frame_encodable|constructor].
  - cbn. by rw Hb.
Qed.

(** The holder declares everything it holds. *)
Lemma declare_round s w tr td :
  ts_wiring s = Some tr → conn_live w → s_pending (st_sender (ts_state s)) ≠ ∅ →
  size (s_pending (st_sender (ts_state s))) ≤ 255 →
  let '(s', w') := declare_pending_sends s w td in
  s' = upd_state (set_sender (declare_pending (st_sender (ts_state s)) td).1) s ∧ conn_live w' ∧
  ∃ f, delivered w w' = [f] ∧ frame_type f = Resume ∧
    ResumeRequestPayload_decode (payload f) =
      Ok (mkResumeRequestPayload (declarations (st_sender (ts_state s)))).
Proof using CRCLAWS LAWS.
  intros Hw Hl Hne Hsz. unfold declare_pending_sends, send_resume_declaration. rw Hw.
  set (tx := st_sender (ts_state s)) in *. pose proof (declare_pending_entries tx td) as He.
  destruct (declare_pending tx td) as [tx' es]. cbn in He. subst es.
  assert (Hlen := len_declarations tx).
  destruct (declarations tx) as [|e es] eqn:Hds.
  { exfalso. apply Hne. apply map_size_empty_iff. unfold len in Hlen. cbn [length] in Hlen. lia. }
  rw -Hds in Hlen |- *. split; [done|]. unfold send_resume_frame.
  set (p := mkResumeRequestPayload (declarations tx)).
  assert (Henc : payload_encode p = Ok (write_ack_entries [byte_of_N (len (declarations tx))] (declarations tx))).
  { apply (ack_entries_encode_Ok 0 (declarations tx)). split; [|done]. lia. }
  assert (Hwf : payload_wf p) by exact (declarations_wf tx).
  destruct (payload_round p _ w Hl Hwf Henc) as (L & C & D).
  split; [done|]. eexists. split; [exact C|]. split; [done|]. exact D.
Qed.

Lemma response_encodes vs :
  (len vs ≤ 255)%N → ∃ bs, payload_encode (mkResumeResponsePayload vs) = Ok bs.
Proof using Type.
  intros Hl. cbn. unfold ResumeResponsePayload_encode. cbn [response_entries].
  rw (proj2 (check_count_Ok (len vs) 0 255)); [lia|]. eexists. apply finish_Ok. split; [done|].
  rw len_app. unfold len.
  rw (length_concat_uniform _ _ (Forall_status_lengths vs)) length_fmap.
  unfold len, CONTROL_PAYLOAD_CAP, MAX_CONTROL_FRAME_LEN, RESUME_STATUS_ENTRY_LEN in *. cbn [length]. lia.
Qed.

(** The receiver adjudicates. *)
Definition verdicts (r : TransactionReassembler) (es : list AckEntry) : list ResumeStatusEntry :=
  (λ e, mkResumeStatusEntry (ack_transaction_id e) (resume_status r (ack_transaction_id e))) <$> es.

Lemma adjudicate_round b w T f es :
  conn_live w → frame_type f = Resume →
  ResumeRequestPayload_decode (payload f) = Ok (mkResumeRequestPayload es) →
  es ≠ [] → (len es ≤ 255)%N →
  let '(b', w', out) := handle_inbound b f w T in
  conn_live w' ∧
  ∃ g, delivered w w' = [g] ∧ frame_type g = ResumeResponse ∧
    ResumeResponsePayload_decode (payload g) =
      Ok (mkResumeResponsePayload (verdicts (st_reassembler (ts_state b)) es)).
Proof using CRCLAWS LAWS.
  intros Hl Hf Hd Hne Hlen. unfold handle_inbound. rw Hf.
  rw (resume_request_unfold _ f w T (mkResumeRequestPayload es)) //. cbn [resume_entries].
  change (st_reassembler (touch_peer T (ts_state b))) with (st_reassembler (ts_state b)).
  fold (verdicts (st_reassembler (ts_state b)) es). set (vs := verdicts _ es).
  destruct (response_encodes vs) as [bs He]; [unfold vs, verdicts, len in *; by rw length_fmap|].
  destruct (payload_round (mkResumeResponsePayload vs) bs w Hl) as (L & C & D); [|done|].
  { cbn. done. }
  split; [done|]. eexists. split; [exact C|]. split; [done|]. exact D.
Qed.

(** The holder takes the response. *)
Lemma response_round a w T g vs :
  frame_type g = ResumeResponse →
  ResumeResponsePayload_decode (payload g) = Ok (mkResumeResponsePayload vs) → conn_live w →
  let '(tx, v) := apply_resume_verdicts (st_sender (ts_state a)) vs T in
  Forall sendable (v_retransmit v) →
  let '(a', w', out) := handle_inbound a g w T in
  conn_live w' ∧ delivered w w' = v_retransmit v ∧ st_sender (ts_state a') = tx ∧
  (∀ id, id ∉ v_confirmed v ++ v_failed v →
     st_completions (ts_state a') !! id = st_completions (ts_state a) !! id) ∧
  (∀ id cb, id ∈ v_confirmed v → st_completions (ts_state a) !! id = Some cb →
     CompletionFired cb (mkBinarySendResult id true) ∈ out ∧ st_completions (ts_state a') !! id = None).
Proof using CRCLAWS LAWS.
  intros Hg Hd Hl. destruct (apply_resume_verdicts _ vs T) as [tx v] eqn:Hv. intros Hs.
  unfold handle_inbound. rw Hg. unfold on_resume_response_frame. rw Hd. cbn [response_entries].
  change (st_sender (touch_peer T (ts_state a))) with (st_sender (ts_state a)). rw Hv.
  destruct (verdicts_fold T vs (st_sender (ts_state a)) (mkResumeVerdicts [] [] []) tx v Hv)
    as [Hnd _]; [by intros ? ?%elem_of_nil|constructor|].
  apply NoDup_app in Hnd as (Hn1 & Hdis & Hn2).
  destruct (accepted_frames (v_retransmit v) w Hl (sendable_encodable _ Hs)) as (bs & Hbs & Hok & Hacc).
  destruct (write_data_frames w (v_retransmit v)) as [w' ok]. cbn in Hok, Hacc. subst ok. cbn [negb].
  set (st0 := set_sender tx (touch_peer T (ts_state a))).
  pose proof (fire_fold_spec true (v_confirmed v) st0 [] Hn1) as F1.
  destruct (foldl (fire_completion true) (st0, []) (v_confirmed v)) as [st1 o1].
  destruct F1 as (n1 & -> & S1 & Fi1 & _ & Full1 & Oth1).
  pose proof (fire_fold_spec false (v_failed v) st1 ([] ++ n1) Hn2) as F2.
  destruct (foldl (fire_completion false) (st1, [] ++ n1) (v_failed v)) as [st2 o2].
  destruct F2 as (n2 & -> & S2 & _ & _ & _ & Oth2). cbn [ts_state wake_writers set_state app].
  split; [by eapply acc_live|].
  split; [eapply delivered_data; [exact Hacc|by apply sendable_encodable|done]|].
  split; [by rw S2 S1|]. split.
  - intros id Hni. apply not_elem_of_app in Hni as [Hni1 Hni2]. by rw Oth2 // Oth1.
  - intros id cb Hid Hcb. pose proof (Full1 id cb Hid Hcb) as Hin. split; [apply elem_of_app; by left|].
    rw Oth2; [by apply Hdis|]. by eapply fires_removed.
Qed.
End handshake.

(** ** The exchange *)

Lemma verdicts_reported s entries now s' v id :
  apply_resume_verdicts s entries now = (s', v) → is_Some (s_pending s' !! id) →
  id ∉ v_confirmed v ++ v_failed v.
Proof.
  intros Hv [x Hx] Hin.
  destruct (verdicts_fold now entries s (mkResumeVerdicts [] [] []) s' v Hv)
    as [_ Hspec]; [by intros ? ?%elem_of_nil|constructor|].
  destruct (Hspec id) as (Hc & Hf & Hcl & _).
  assert (closes entries id) as Hclose.
  { apply elem_of_app in Hin as [[[]%elem_of_nil|[? _]]%Hc|[[]%elem_of_nil|[? _]]%Hf]; done. }
  specialize (Hcl Hclose). unfold sent_flag in Hcl. by rw Hx in Hcl.
Qed.

Lemma declare_pending_held s now :
  all_held s → all_held (declare_pending s now).1 ∧
  s_config (declare_pending s now).1 = s_config s ∧
  size (s_pending (declare_pending s now).1) = size (s_pending s).
Proof.
  intros Hall. assert (Hcfg : s_config (declare_pending s now).1 = s_config s).
  { unfold declare_pending. by destruct (iter_mut _ _). }
  split; [|split; [done|]].
  - intros k v. rw declare_pending_lookup Hcfg. intros (x & Hx & ->)%fmap_Some.
    destruct (Hall k x Hx) as [ps Hi]. exists ps. eapply same_copy_inv; [apply same_copy_gate|done].
  - rw -!size_dom. f_equal. apply set_eq. intros k. rw !elem_of_dom declare_pending_lookup.
    by rw fmap_is_Some.
Qed.

Section exchange.
Context `{CRC : Crc32} `{CRCLAWS : !Crc32Laws CRC} `{UUID : UuidLib}.
Context {W : Type} `{WIRE : TransferWiring W} `{TRANSPORT : !XacppTransport W}.
Context `{CONN : !DuplexLink W} {LAWS : DuplexLinkLaws W}.
Implicit Types (w : W) (s a b : TransferSession) (st : SessionState).

(** Declaration, adjudication, response, retransmission, acknowledgement: what both
    applications observe. *)
Definition resume_exchange a (wa : W) b (wb : W) (td t2 t3 t4 t5 : N) :
    TransferSession * list AppEvent * TransferSession * list AppEvent :=
  let '(a1, wa1) := declare_pending_sends a wa td in
  let '(b1, wb1, outb1) := inbound_all b (at_time t2 (delivered wa wa1)) wb in
  let '(a2, wa2, outa1) := inbound_all a1 (at_time t3 (delivered wb wb1)) wa1 in
  let '(b2, outb2, a3, outa2) := exchange a2 wa1 wa2 b1 wb1 t4 t5 in
  (b2, outb1 ++ outb2, a3, outa1 ++ outa2).

Lemma inbound_one s f w T : inbound_all s (at_time T [f]) w = handle_inbound s f w T.
Proof using Type. unfold inbound_all. cbn. by destruct (handle_inbound s f w T) as [[s' w'] new]. Qed.

(** Acknowledgements of others leave a settled transaction settled. *)
Lemma acks_settled id s w T es :
  s_pending (st_sender (ts_state s)) !! id = None → st_completions (ts_state s) !! id = None →
  let s' := (inbound_all s (at_time T (ack_frame <$> es)) w).1.1 in
  s_pending (st_sender (ts_state s')) !! id = None ∧ st_completions (ts_state s') !! id = None.
Proof using Type.
  intros Hp Hc. unfold inbound_all, at_time. induction es as [|e es IH] using rev_ind; [done|].
  rw !fmap_app foldl_app. cbn [fmap list_fmap foldl]. destruct (foldl inbound_step _ _) as [[s1 w1] o1].
  cbn [inbound_step fst snd] in *. destruct IH as [I1 I2].
  pose proof (ack_settled (id := id) s1 e w1 T I1 I2) as Hs.
  by destruct (handle_inbound s1 (ack_frame e) w1 T) as [[s2 w2] o2].
Qed.

(** Retransmissions of other transactions leave a handed-over one handed over. *)
Lemma others_round id total ps sp out own b w T fs :
  Forall (λ p, 1 ≤ length p) ps → total = len (concat ps) → (total ≤ U32_MAX)%N →
  reception id total ps sp out own b → Forall (λ f, sendable f ∧ transaction_id f ≠ id) fs →
  conn_live w →
  let '(b', w', new) := inbound_all b (at_time T fs) w in
  reception id total ps sp (out ++ new) own b' ∧ ∃ es, delivered w w' = ack_frame <$> es.
Proof using CRCLAWS LAWS.
  intros Hne Htot Hu Hr Hfs Hl.
  assert (Harr : Forall (arrival_ok id total ps) (at_time T fs)).
  { apply Forall_fmap. eapply Forall_impl; [exact Hfs|]. intros f [[Hty _] Hn]. right.
    unfold touches. cbn. by rw Hty. }
  assert (Hown : own_seqs id (at_time T fs) = []).
  { apply own_seqs_other. eapply Forall_impl; [exact Hfs|]. by intros f []. }
  pose proof (reception_run id total ps Hne Htot Hu sp out own b (at_time T fs) w Hr Harr) as Hrun.
  rw Hown app_nil_r in Hrun. specialize (Hrun I).
  destruct (inbound_all b (at_time T fs) w) as [[b' w'] new]. destruct Hrun as [Hr' Hw'].
  split; [done|]. destruct Hw' as (es & -> & _).
  { apply sendable_data. eapply Forall_impl; [exact Hfs|]. by intros f []. }
  destruct (accepted_acks es w Hl) as (cs & Hcs & Hacc). exists es.
  eapply delivered_control; [exact Hacc|apply ack_frames_encodable|done].
Qed.

Lemma verdicts_ids r es : rse_transaction_id <$> verdicts r es = ack_transaction_id <$> es.
Proof using Type. unfold verdicts. rw -list_fmap_compose. by apply list_fmap_ext. Qed.

Lemma elem_of_verdicts r es id :
  id ∈ ack_transaction_id <$> es → mkResumeStatusEntry id (resume_status r id) ∈ verdicts r es.
Proof using Type.
  intros (e & -> & He)%list_elem_of_fmap. apply list_elem_of_fmap. by exists e.
Qed.

(** What the receiver answers for [id]. *)
Lemma reception_status id total ps sp out own b :
  reception id total ps sp out own b →
  (¬ all_seen ps own ∧ own ≠ [] ∧ resume_status (st_reassembler (ts_state b)) id = Resumed) ∨
  ((all_seen ps own ∨ own = []) ∧ resume_status (st_reassembler (ts_state b)) id = StatusUnknown).
Proof using Type.
  intros [[Hns Hp]|[Ha Hf]].
  - destruct (pr_state _ _ _ _ _ _ _ Hp) as [[Hn Hsl]|(Hn & o & (sl & H1 & _ & H2 & _) & _)]; [right|left].
    + split; [by right|]. unfold resume_status, rx_contains_transaction. by rw Hsl.
    + split_and!; [done..|]. apply resume_status_resumed. by exists sl.
  - right. split; [by left|]. unfold resume_status, rx_contains_transaction. by rw (fin_slot _ _ _ _ _ Hf).
Qed.

(** A reception of nothing. *)
Lemma unseen_nothing id total ps sp out b :
  ps ≠ [] → reception id total ps sp out [] b →
  deliveries id out = [] ∧ st_streams (ts_state b) !! id = None ∧
  slots (st_reassembler (ts_state b)) !! id = None.
Proof using Type.
  intros Hps [[_ Hp]|[Ha _]].
  - destruct (pr_state _ _ _ _ _ _ _ Hp) as [[_ Hn]|[? _]]; [|done].
    split_and!; [by eapply pr_quiet| |done]. destruct (st_streams (ts_state b) !! id) as [l|] eqn:Hl; [|done].
    destruct (so_entry _ _ _ _ (pr_inv _ _ _ _ _ _ _ Hp) id l Hl) as (si & _ & _ & _ & _ & Hc & _).
    unfold rx_contains_transaction in Hc. by rw Hn in Hc.
  - exfalso. specialize (Ha 0%N). apply elem_of_nil in Ha; [done|]. unfold len. destruct ps; [done|]. cbn. lia.
Qed.

(** From the response on, when the receiver resumes. *)
Lemma resumed_rounds size id ps t sp out own a wa1 b wb vs g cb t3 t4 t5 :
  txn_inv size id ps t → is_fully_sent t = true → txn_paused t = false → waiting id t cb a →
  all_held (st_sender (ts_state a)) →
  (N.of_nat (frame_size (s_config (st_sender (ts_state a)))) ≤ MAX_DATA_BINARY_FRAME_LEN)%N →
  NoDup (rse_transaction_id <$> vs) → mkResumeStatusEntry id Resumed ∈ vs →
  frame_type g = ResumeResponse →
  ResumeResponsePayload_decode (payload g) = Ok (mkResumeResponsePayload vs) →
  reception id (txn_total_len t) ps sp out own b → ¬ all_seen ps own → covered t own →
  conn_live wa1 → conn_live wb →
  let '(a2, wa2, outa1) := handle_inbound a g wa1 t3 in
  let '(b2, outb2, a3, outa2) := exchange a2 wa1 wa2 b wb t4 t5 in
  finished id ps sp (out ++ outb2) b2 ∧ confirmed_once id cb a3 (outa1 ++ outa2).
Proof using CRCLAWS LAWS.
  intros Hi Hs Hp [Ht Hcb] Hall Hsize Hnd Hin Hg Hd Hr Hns Hc Hla Hlb.
  pose proof (verdicts_bring (st_sender (ts_state a)) vs id t t3 Hall Hsize Hnd Hin Ht Hp) as Hv.
  pose proof (response_round a wa1 t3 g vs Hg Hd Hla) as Hround.
  pose proof (verdicts_reported (st_sender (ts_state a)) vs t3) as Hrep.
  destruct (apply_resume_verdicts _ vs t3) as [tx v]. destruct Hv as [Hb (t' & Hsc & Ht')].
  specialize (Hround (br_sendable _ _ _ Hb)). specialize (Hrep tx v id eq_refl (mk_is_Some _ _ Ht')).
  destruct (handle_inbound a g wa1 t3) as [[a2 wa2] outa1]. destruct Hround as (_ & Hds & Htx & Hoth & _).
  assert (Hw : waiting id t' cb a2) by (split; [by rw Htx|by rw Hoth]).
  rw -Hds in Hb.
  pose proof (exchange_completes size id ps t t' sp out own a2 wa1 wa2 b wb t4 t5 cb Hi Hs Hsc Hr Hns Hc Hb
    Hlb Hw) as Hex.
  destruct (exchange a2 wa1 wa2 b wb t4 t5) as [[[b2 outb2] a3] outa2]. destruct Hex as [Hf (C1 & C2 & C3)].
  split; [done|]. split_and!; [done..|]. apply elem_of_app. by right.
Qed.

(** From the response on, when the receiver does not know the transaction: it has
    everything already, or has seen nothing of it.  The holder closes it either way. *)
Lemma unknown_rounds size id ps t sp out own a wa1 b wb vs g cb t3 t4 t5 :
  txn_inv size id ps t → is_fully_sent t = true → waiting id t cb a →
  all_held (st_sender (ts_state a)) →
  (N.of_nat (frame_size (s_config (st_sender (ts_state a)))) ≤ MAX_DATA_BINARY_FRAME_LEN)%N →
  NoDup (rse_transaction_id <$> vs) → mkResumeStatusEntry id StatusUnknown ∈ vs →
  frame_type g = ResumeResponse →
  ResumeResponsePayload_decode (payload g) = Ok (mkResumeResponsePayload vs) →
  reception id (txn_total_len t) ps sp out own b →
  conn_live wa1 → conn_live wb →
  let '(a2, wa2, outa1) := handle_inbound a g wa1 t3 in
  let '(b2, outb2, a3, outa2) := exchange a2 wa1 wa2 b wb t4 t5 in
  reception id (txn_total_len t) ps sp (out ++ outb2) own b2 ∧ confirmed_once id cb a3 (outa1 ++ outa2).
Proof using CRCLAWS LAWS.
  intros Hi Hs [Ht Hcb] Hall Hsize Hnd Hin Hg Hd Hr Hla Hlb.
  pose proof (verdicts_close (st_sender (ts_state a)) vs id t t3 Hall Hsize Hnd Hin Ht Hs) as Hv.
  pose proof (response_round a wa1 t3 g vs Hg Hd Hla) as Hround.
  destruct (apply_resume_verdicts _ vs t3) as [tx v]. destruct Hv as (Hn & Hconf & Hfs).
  assert (Hsend : Forall sendable (v_retransmit v)) by (eapply Forall_impl; [exact Hfs|]; by intros f []).
  specialize (Hround Hsend).
  destruct (handle_inbound a g wa1 t3) as [[a2 wa2] outa1].
  destruct Hround as (_ & Hds & Htx & _ & Hfire). destruct (Hfire id cb Hconf Hcb) as [Hev Hc2].
  unfold exchange. rw Hds.
  pose proof (others_round id (txn_total_len t) ps sp out own b wb t4 (v_retransmit v)
    (pieces_nonempty Hi) (sent_total Hi Hs) (proj2 (ti_total _ _ _ _ Hi)) Hr Hfs Hlb) as Ho.
  destruct (inbound_all b _ wb) as [[b2 wb2] outb2]. destruct Ho as [Hr2 (es & Hes)]. rw Hes.
  pose proof (acks_settled id a2 wa2 t5 es) as Hset.
  destruct (inbound_all a2 _ wa2) as [[a3 wa3] outa2]. cbn [fst] in Hset.
  destruct Hset as [S1 S2]; [by rw Htx|done|].
  split; [done|]. split_and!; [done..|]. apply elem_of_app. by left.
Qed.

Lemma resume_exchange_core size id ps t sp out own a wa b wb tr cb td t2 t3 t4 t5 :
  txn_inv size id ps t → is_fully_sent t = true → txn_paused t = false → waiting id t cb a →
  all_held (st_sender (ts_state a)) →
  (N.of_nat (frame_size (s_config (st_sender (ts_state a)))) ≤ MAX_DATA_BINARY_FRAME_LEN)%N →
  base.size (s_pending (st_sender (ts_state a))) ≤ 255 → ts_wiring a = Some tr →
  reception id (txn_total_len t) ps sp out own b → (own ≠ [] → covered t own) →
  conn_live wa → conn_live wb →
  let '(b2, outb, a3, outa) := resume_exchange a wa b wb td t2 t3 t4 t5 in
  (if decide (own = []) then reception id (txn_total_len t) ps sp (out ++ outb) own b2
   else finished id ps sp (out ++ outb) b2) ∧ confirmed_once id cb a3 outa.
Proof using CRCLAWS LAWS.
  intros Hi Hs Hp [Ht Hcb] Hall Hsize Hcount Hwire Hr Hc Hla Hlb. unfold resume_exchange.
  set (tx := st_sender (ts_state a)) in *.
  assert (Hdecl : id ∈ ack_transaction_id <$> declarations tx) by (apply elem_of_declared; by eexists).
  pose proof (declare_round a wa tr td Hwire Hla) as Hround.
  destruct (declare_pending_held tx td Hall) as (Hall1 & Hcfg1 & _).
  destruct (declare_pending_sends a wa td) as [a1 wa1].
  destruct Hround as (-> & Hla1 & f & -> & Hf & Hd); [|done|].
  { intros He. fold tx in He. by rw He lookup_empty in Ht. }
  fold tx in Hd |- *. rw inbound_one.
  assert (Hlen : (len (declarations tx) ≤ 255)%N) by (rw len_declarations; lia).
  assert (Hne : declarations tx ≠ []) by (intros He; rw He in Hdecl; by apply elem_of_nil in Hdecl).
  assert (Hnt : ¬ touches id f).
  { unfold touches. rw Hf. intros (req & Hreq & _ & Hni). rw Hd in Hreq. by injection Hreq as <-. }
  pose proof (adjudicate_round b wb t2 f (declarations tx) Hlb Hf Hd Hne Hlen) as Hadj.
  pose proof (reception_step id (txn_total_len t) ps (pieces_nonempty Hi) (sent_total Hi Hs)
    (proj2 (ti_total _ _ _ _ Hi)) sp out own b f wb t2 Hr ltac:(by right)) as Hstep.
  rw own_seqs_foreign // app_nil_r in Hstep. specialize (Hstep I).
  pose proof (reception_status id _ ps sp out own b Hr) as Hstat.
  destruct (handle_inbound b f wb t2) as [[b1 wb1] outb1]. destruct Hstep as [Hr1 _].
  destruct Hadj as (Hlb1 & g & -> & Hg & Hgd). rw inbound_one.
  set (vs := verdicts (st_reassembler (ts_state b)) (declarations tx)) in *.
  assert (Hnd : NoDup (rse_transaction_id <$> vs)).
  { unfold vs. rw verdicts_ids declarations_ids. apply NoDup_fst_map_to_list. }
  pose proof (elem_of_verdicts (st_reassembler (ts_state b)) (declarations tx) id Hdecl) as Hin.
  set (a1 := upd_state (set_sender (declare_pending tx td).1) a).
  set (tg := set_gate true (Some td) t).
  assert (Hw1 : waiting id tg cb a1).
  { split; [|done]. cbn [a1 upd_state set_state ts_state st_sender set_sender].
    by rw declare_pending_lookup Ht. }
  assert (Hi1 : txn_inv size id ps tg) by (eapply same_copy_inv; [apply same_copy_gate|done]).
  assert (Hsize1 : (N.of_nat (frame_size (s_config (st_sender (ts_state a1)))) ≤ MAX_DATA_BINARY_FRAME_LEN)%N)
    by (cbn [a1 upd_state set_state ts_state st_sender set_sender]; by rw Hcfg1).
  destruct Hstat as [(Hns & Hown & Hst)|[Has Hst]]; rw Hst in Hin.
  - pose proof (resumed_rounds size id ps tg sp (out ++ outb1) own a1 wa1 b1 wb1 vs g cb t3 t4 t5 Hi1 Hs Hp Hw1
      Hall1 Hsize1 Hnd Hin Hg Hgd Hr1 Hns (Hc Hown) Hla1 Hlb1) as Hfin.
    destruct (handle_inbound a1 g wa1 t3) as [[a2 wa2] outa1].
    destruct (exchange a2 wa1 wa2 b1 wb1 t4 t5) as [[[b2 outb2] a3] outa2]. rw app_assoc.
    by case_decide.
  - pose proof (unknown_rounds size id ps tg sp (out ++ outb1) own a1 wa1 b1 wb1 vs g cb t3 t4 t5 Hi1 Hs Hw1
      Hall1 Hsize1 Hnd Hin Hg Hgd Hr1 Hla1 Hlb1) as Hfin.
    destruct (handle_inbound a1 g wa1 t3) as [[a2 wa2] outa1].
    destruct (exchange a2 wa1 wa2 b1 wb1 t4 t5) as [[[b2 outb2] a3] outa2]. rw app_assoc.
    destruct Hfin as [Hr2 Hco]. split; [|done]. case_decide; [done|].
    destruct Has; [|done]. by destruct Hr2 as [[Hna _]|[_ Hf2]].
Qed.

(** The holder after the reattachment: the same copies, gated. *)
Lemma reattached_sender s w w' tr tc tw id t cb :
  all_held (st_sender (ts_state s)) → waiting id t cb s →
  let '(s', w2) := reattach s w w' tr tc tw in
  waiting id (set_gate true (Some tw) t) cb s' ∧ all_held (st_sender (ts_state s')) ∧
  s_config (st_sender (ts_state s')) = s_config (st_sender (ts_state s)) ∧
  size (s_pending (st_sender (ts_state s'))) = size (s_pending (st_sender (ts_state s))) ∧
  ts_wiring s' = Some tr.
Proof using Type.
  intros Hall [Ht Hc]. pose proof (reattach_spec s w w' tr tc tw) as Hr.
  destruct (reattach s w w' tr tc tw) as [s' w2]. destruct Hr as (Hst & _ & Hw & _).
  unfold waiting. rw Hst. change (st_sender (reattached tw (ts_state s)))
    with (declare_pending (st_sender (ts_state s)) tw).1.
  destruct (declare_pending_held (st_sender (ts_state s)) tw Hall) as (H1 & H2 & H3).
  split_and!; try done. by rw declare_pending_lookup Ht.
Qed.

(** Both ends lose their connection, are wired to a new one and run the exchange. *)
Lemma reattached_exchange id ps t cb sp a out own b (wa wb wa' wb' : W)
    tra trb tca twa tcb twb td t2 t3 t4 t5 :
  let tx := st_sender (ts_state a) in
  all_held tx → txn_inv (frame_size (s_config tx)) id ps t →
  (N.of_nat (frame_size (s_config tx)) ≤ MAX_DATA_BINARY_FRAME_LEN)%N →
  base.size (s_pending tx) ≤ 255 → waiting id t cb a → is_fully_sent t = true → txn_paused t = false →
  reception id (txn_total_len t) ps sp out own b → (own ≠ [] → covered t own) →
  conn_live wa' → conn_live wb' →
  let '(a1, wa1) := reattach a wa wa' tra tca twa in
  let '(b1, wb1) := reattach b wb wb' trb tcb twb in
  let '(b2, outb, a2, outa) := resume_exchange a1 wa1 b1 wb1 td t2 t3 t4 t5 in
  (if decide (own = []) then reception id (txn_total_len t) ps sp (out ++ outb) own b2
   else finished id ps sp (out ++ outb) b2) ∧ confirmed_once id cb a2 outa.
Proof using CRCLAWS LAWS.
  intros tx Hall Hi Hsize Hcount Hw Hsent Hp Hrec Hcov Hla Hlb.
  pose proof (reattached_sender a wa wa' tra tca twa id t cb Hall Hw) as Hra.
  pose proof (reattach_spec a wa wa' tra tca twa) as Hsa.
  destruct (reattach a wa wa' tra tca twa) as [a1 wa1]. destruct Hsa as (_ & -> & _).
  destruct Hra as (Hw1 & Hall1 & Hcfg & Hcnt & Hwire).
  pose proof (reattach_spec b wb wb' trb tcb twb) as Hsb.
  destruct (reattach b wb wb' trb tcb twb) as [b1 wb1]. destruct Hsb as (Hb1 & -> & _ & Hb2 & Hb3 & _).
  pose proof (reattached_reception id (txn_total_len t) ps sp out own b b1 twb Hrec Hb1 Hb2 Hb3) as Hrec1.
  assert (Hi1 : txn_inv (frame_size (s_config tx)) id ps (set_gate true (Some twa) t))
    by (eapply same_copy_inv; [apply same_copy_gate|done]).
  apply (resume_exchange_core _ id ps _ sp out own a1 _ b1 _ tra cb td t2 t3 t4 t5 Hi1); try done.
  - by rw Hcfg.
  - by rw Hcnt.
  - by eapply acc_live, (conn_activity wa' true).
  - by eapply acc_live, (conn_activity wb' true).
Qed.

(** C3: a transfer survives its connection.  A fully sent transaction reached the
    receiver in part, the first frame at least, or completely; some or none of it was
    acknowledged when the connection died.  Both ends notice, stall and are wired to a
    new connection; the holder declares what it holds (at most 255 transactions) and
    the RESUME exchange runs.  Then the receiver's application has the whole content
    exactly once over both connections (as one payload or as one complete stream),
    its slot is released, and the holder's completion fires as confirmed, once the
    missing frames were resent and acknowledged, or at once when the receiver had
    everything and only the final acknowledgement was lost. *)
Theorem resume_recovers cfg a d l id data t cb sp b0 arr (wb0 : W) b wb out
    (wa wa' wb' : W) tra trb tca twa tcb twb td t2 t3 t4 t5 :
  let tx := st_sender (ts_state a) in
  sender_reach cfg (mkHistory tx d l) →
  (N.of_nat (frame_size (s_config tx)) ≤ MAX_DATA_BINARY_FRAME_LEN)%N →
  base.size (s_pending tx) ≤ 255 → s_pending tx !! id = Some t → is_fully_sent t = true →
  d !! id = Some data → txn_paused t = false → st_completions (ts_state a) !! id = Some cb →
  streams_inv (ts_state b0) → slots (st_reassembler (ts_state b0)) !! id = None →
  ts_stream_handler b0 = sp → (sp = false → ts_binary_handler b0 = true) →
  Forall (from_sender id l) arr → orderly (len (txn_frames t)) [] (own_seqs id arr) →
  own_seqs id arr ≠ [] → covered t (own_seqs id arr) →
  inbound_all b0 arr wb0 = (b, wb, out) → conn_live wa' → conn_live wb' →
  let '(a1, wa1) := reattach a wa wa' tra tca twa in
  let '(b1, wb1) := reattach b wb wb' trb tcb twb in
  let '(b2, outb, a2, outa) := resume_exchange a1 wa1 b1 wb1 td t2 t3 t4 t5 in
  got id sp data (out ++ outb) b2 ∧ slots (st_reassembler (ts_state b2)) !! id = None ∧
  confirmed_once id cb a2 outa.
Proof using CRCLAWS LAWS.
  intros tx Hreach Hsize Hcount Ht Hsent Hd Hp Hcb H1 H2 H3 H4 Harr Hord Hown Hcov Hrun Hla Hlb.
  destruct (sent_content _ _ _ _ _ _ _ Hreach Ht Hsent Hd) as (ps & Hi & <- & Hl).
  pose proof (reception_reached Hi Hsent sp l b0 arr wb0 b wb out Hl H1 H2 H3 H4 Harr Hord Hrun) as Hrec.
  pose proof (reattached_exchange id ps t cb sp a out (own_seqs id arr) b wa wb wa' wb' tra trb tca twa tcb twb
    td t2 t3 t4 t5 (reach_all_held _ _ _ _ Hreach) Hi Hsize Hcount ltac:(done) Hsent Hp Hrec (λ _, Hcov) Hla Hlb) as Hex.
  destruct (reattach a wa wa' tra tca twa) as [a1 wa1]. destruct (reattach b wb wb' trb tcb twb) as [b1 wb1].
  destruct (resume_exchange _ _ _ _ _ _ _ _ _) as [[[b2 outb] a2] outa]. destruct Hex as [Hf Hco].
  case_decide; [done|]. split_and!; [by apply fin_got in Hf|by eapply fin_slot|done].
Qed.

(** C36: a confirmation without a delivery.  A fully sent transaction of which the
    receiver has nothing open (every frame was lost with the connection) is declared
    on the new connection; the receiver answers that it does not know it, and the
    holder's completion fires as confirmed and its copy is released, although the
    receiver's application is given nothing: no payload, no stream, no slot. *)
Theorem resume_confirms_unseen cfg a d l id data t cb sp b (wa wb wa' wb' : W)
    tra trb tca twa tcb twb td t2 t3 t4 t5 :
  let tx := st_sender (ts_state a) in
  sender_reach cfg (mkHistory tx d l) →
  (N.of_nat (frame_size (s_config tx)) ≤ MAX_DATA_BINARY_FRAME_LEN)%N →
  base.size (s_pending tx) ≤ 255 → s_pending tx !! id = Some t → is_fully_sent t = true →
  d !! id = Some data → txn_paused t = false → st_completions (ts_state a) !! id = Some cb →
  streams_inv (ts_state b) → slots (st_reassembler (ts_state b)) !! id = None →
  ts_stream_handler b = sp → (sp = false → ts_binary_handler b = true) →
  conn_live wa' → conn_live wb' →
  let '(a1, wa1) := reattach a wa wa' tra tca twa in
  let '(b1, wb1) := reattach b wb wb' trb tcb twb in
  let '(b2, outb, a2, outa) := resume_exchange a1 wa1 b1 wb1 td t2 t3 t4 t5 in
  confirmed_once id cb a2 outa ∧
  deliveries id outb = [] ∧ st_streams (ts_state b2) !! id = None ∧
  slots (st_reassembler (ts_state b2)) !! id = None.
Proof using CRCLAWS LAWS.
  intros tx Hreach Hsize Hcount Ht Hsent Hd Hp Hcb H1 H2 H3 H4 Hla Hlb.
  destruct (sent_content _ _ _ _ _ _ _ Hreach Ht Hsent Hd) as (ps & Hi & <- & _).
  assert (Hps : ps ≠ []).
  { intros ->. pose proof (sent_total Hi Hsent) as H. rw len_nil in H.
    pose proof (proj1 (ti_total _ _ _ _ Hi)) as H'. lia. }
  pose proof (reception_start id (txn_total_len t) ps (pieces_nonempty Hi) (sent_total Hi Hsent)
    (proj2 (ti_total _ _ _ _ Hi)) sp b Hps H1 H2 H3 H4) as Hrec.
  pose proof (reattached_exchange id ps t cb sp a [] [] b wa wb wa' wb' tra trb tca twa tcb twb
    td t2 t3 t4 t5 (reach_all_held _ _ _ _ Hreach) Hi Hsize Hcount ltac:(done) Hsent Hp Hrec ltac:(done) Hla Hlb) as Hex.
  destruct (reattach a wa wa' tra tca twa) as [a1 wa1]. destruct (reattach b wb wb' trb tcb twb) as [b1 wb1].
  destruct (resume_exchange _ _ _ _ _ _ _ _ _) as [[[b2 outb] a2] outa]. destruct Hex as [Hf Hco].
  case_decide; [|done]. split; [done|]. by apply unseen_nothing in Hf.
Qed.
End exchange.

(** ** More transactions than a declaration can carry *)

(** Every held transaction waits for the verdict on a declaration made at [T]. *)
Definition all_gated (T : N) (s : TransactionSender) : Prop :=
  map_Forall (λ _ t, txn_awaiting_resume t = true ∧ txn_declared_ms t = Some T) (s_pending s).

Lemma declare_all_gated s now : all_gated now (declare_pending s now).1.
Proof. intros k v. rw declare_pending_lookup. by intros (x & _ & ->)%fmap_Some. Qed.

(** A re-declaration takes all of them or none. *)
Lemma redeclare_all_gated s T now timeout :
  all_gated T s →
  let '(s', es) := timed_out_declarations s now timeout in
  size (s_pending s') = size (s_pending s) ∧ (∃ T', all_gated T' s') ∧
  (es = [] ∨ length es = size (s_pending s)).
Proof.
  intros Hg. unfold timed_out_declarations.
  destruct (iter_mut (redeclare_txn now timeout) (s_pending s)) as [p es] eqn:Hm.
  apply iter_mut_pair in Hm as [-> ->].
  assert (Hlk := iter_mut_lookup (redeclare_txn now timeout) (s_pending s)).
  split.
  { cbn [s_pending]. rw -!size_dom. f_equal. apply set_eq. intros k. by rw !elem_of_dom Hlk fmap_is_Some. }
  assert (Hbody : ∀ k v, s_pending s !! k = Some v → redeclare_txn now timeout k v =
    if (now - T <? timeout)%N then (v, []) else (set_gate true (Some now) v, [declaration k v])).
  { intros k v Hv. destruct (Hg k v Hv) as [Ha Hd]. unfold redeclare_txn. rw Ha Hd. done. }
  split.
  - exists (if (now - T <? timeout)%N then T else now). intros k v. cbn [s_pending]. rw Hlk.
    intros (x & Hx & ->)%fmap_Some. rw (Hbody k x Hx). case_match; [by apply (Hg k x)|done].
  - destruct (now - T <? timeout)%N eqn:Hlt; [left|right].
    + apply elem_of_nil_inv. intros e (k & v & Hv & He)%iter_mut_out.
      rw (Hbody k v Hv) in He. by apply elem_of_nil in He.
    + rw -length_map_to_list. cbn [snd iter_mut].
      assert (Hall : ∀ kv, kv ∈ map_to_list (s_pending s) → (redeclare_txn now timeout kv.1 kv.2).2 = [declaration kv.1 kv.2]).
      { intros [k v] Hkv%elem_of_map_to_list. by rw (Hbody k v Hkv). }
      clear -Hall. induction (map_to_list (s_pending s)) as [|kv l IH]; [done|]. cbn [fmap list_fmap concat].
      rw length_app Hall; [by left|]. cbn. rw IH; [|done]. intros kv' Hkv'. apply Hall. by right.
Qed.

Section overflow.
Context `{CRC : Crc32} `{CRCLAWS : !Crc32Laws CRC} `{UUID : UuidLib}.
Context {W : Type} `{WIRE : TransferWiring W} `{TRANSPORT : !XacppTransport W}.
Context `{CONN : !DuplexLink W} {LAWS : DuplexLinkLaws W}.
Implicit Types (w : W) (s : TransferSession) (st : SessionState).

(** Nothing on the data channel, no RESUME on the control channel. *)
Definition undeclared w w' : Prop :=
  conn_live w → ∃ fs cs, collect encode fs = Ok cs ∧ accepted w w' [] cs ∧
    Forall (λ f, encodable f ∧ frame_type f ≠ Resume) fs.

#[export] Instance undeclared_preorder : PreOrder undeclared.
Proof using Type.
  split; [intros w Hl; exists [], []; split; [done|]; by split; [apply accepted_refl|]|].
  intros w1 w2 w3 H1 H2 Hl. destruct (H1 Hl) as (f1 & c1 & E1 & A1 & F1).
  destruct (H2 (acc_live _ _ _ _ A1)) as (f2 & c2 & E2 & A2 & F2).
  exists (f1 ++ f2), (c1 ++ c2). split; [|split; [exact (accepted_trans _ _ _ [] c1 [] c2 A1 A2)|by apply Forall_app]].
  apply collect_Forall2 in E1, E2. apply collect_Forall2. by apply Forall2_app.
Qed.

Lemma undeclared_control {P} `{ControlPayloadLaws P} w (p : P) :
  FRAME_TYPE (P := P) ≠ Resume → undeclared w (Transfer.send_control w p).
Proof using LAWS.
  intros Ht Hl. destruct (payload_encode p) as [bs|] eqn:He.
  - destruct (accepted_payload p bs w Hl He) as (b & Hb & Ha).
    exists [payload_frame (P := P) bs], [b]. split; [cbn; by rw Hb|]. split; [done|].
    constructor; [|constructor]. split; [by eapply payload_frame_encodable|done].
  - unfold Transfer.send_control. rw He. by apply undeclared_preorder.
Qed.

Lemma overflow_silent w es : 255 < length es → send_resume_frame w es = w.
Proof using Type.
  intros Hl. unfold send_resume_frame, Transfer.send_control. cbn. unfold ResumeRequestPayload_encode.
  cbn [resume_entries]. destruct (check_count_cases (len es) 0 255) as [[Hc _]| ->]; [|done].
  unfold len in Hc. lia.
Qed.
Lemma undeclared_acks w es : undeclared w (send_ack_entries w es).
Proof using LAWS. unfold send_ack_entries. destruct es; [done|by apply undeclared_control]. Qed.

Lemma chats_undeclared w w' : chats w w' → undeclared w w'.
Proof using Type.
  intros H Hl. destruct (H Hl) as (fs & cs & E & A & F). exists fs, cs. split_and!; [done..|].
  eapply Forall_impl; [exact F|]. intros f [He [Hc|[Hc|Hc]]]; by rw Hc.
Qed.

Lemma undeclared_tick cfg st w now :
  undeclared w (export_acks cfg st w now).2 ∧ undeclared w (send_nacks cfg st w now).2 ∧
  undeclared w (heartbeat cfg st w now).2.
Proof using LAWS. pose proof (chats_tick cfg st w now) as (H1 & H2 & H3). by split_and!; apply chats_undeclared. Qed.

(** The stuck holder: too many sends for one declaration, all of them gated. *)
Definition stuck st : Prop :=
  255 < size (s_pending (st_sender st)) ∧ ∃ T, all_gated T (st_sender st).

Lemma stuck_due T (tx : TransactionSender) now : all_gated T tx → due_retransmissions tx now = (tx, []).
Proof using Type.
  intros Hg. unfold due_retransmissions. destruct (iter_mut _ _) as [p o] eqn:Hm.
  assert (Hb : ∀ k v, s_pending tx !! k = Some v → due_txn (s_config tx) now v = (v, [])).
  { intros k v Hv. unfold due_txn. destruct (Hg k v Hv) as [-> _]. by rw orb_true_r. }
  apply iter_mut_pair in Hm as [-> ->]. destruct tx as [cfg p]. cbn [s_pending s_config] in *. f_equal.
  - f_equal. apply map_eq. intros k. rw iter_mut_lookup. destruct (p !! k) as [v|] eqn:Hv; [|done].
    cbn. by rw (Hb k v Hv).
  - apply elem_of_nil_inv. intros f (k & v & Hv & Hf)%iter_mut_out. rw (Hb k v Hv) in Hf.
    by apply elem_of_nil in Hf.
Qed.

Lemma stuck_redeclare cfg st w now :
  stuck st → stuck (redeclare cfg st w now).1 ∧ (redeclare cfg st w now).2 = w ∧
  st_completions (redeclare cfg st w now).1 = st_completions st.
Proof using Type.
  intros (Hc & T & Hg). unfold redeclare.
  pose proof (redeclare_all_gated _ T now (resume_verdict_timeout_ms cfg) Hg) as Hr.
  destruct (timed_out_declarations _ _ _) as [tx es]. destruct Hr as (Hn & Hg' & Hes).
  assert (Hs : stuck (set_sender tx st)) by (split; [cbn; by rw Hn|done]).
  destruct es as [|e es]; [done|]. split_and!; [done| |done]. apply overflow_silent.
  destruct Hes as [|Hes]; [done|]. by rw Hes.
Qed.

Lemma stuck_tick s w now :
  stuck (ts_state s) →
  let '(s', w', _) := clock_tick s w now in
  stuck (ts_state s') ∧ st_completions (ts_state s') = st_completions (ts_state s) ∧ undeclared w w'.
Proof using LAWS.
  intros Hs. pose proof (clock_tick_frame s w now) as Hfr. revert Hfr.
  unfold clock_tick. set (cfg := ts_config s).
  assert (H1 : st_sender (export_acks cfg (ts_state s) w now).1 = st_sender (ts_state s))
    by (unfold export_acks; by case_match).
  destruct (undeclared_tick cfg (ts_state s) w now) as (N1 & _).
  destruct (export_acks cfg (ts_state s) w now) as [st1 w1].
  assert (H2 : st_sender (send_nacks cfg st1 w1 now).1 = st_sender st1)
    by (unfold send_nacks; by case_match).
  destruct (undeclared_tick cfg st1 w1 now) as (_ & N2 & _).
  destruct (send_nacks cfg st1 w1 now) as [st2 w2]. cbn [fst snd] in *.
  destruct (proj2 Hs) as [T Hg]. rw H2 H1 (stuck_due T _ now Hg). cbn [write_data_frames negb].
  destruct (stuck_redeclare cfg (set_sender (st_sender (ts_state s)) st2) w2 now Hs) as (H3 & N3 & _).
  destruct (redeclare cfg _ w2 now) as [st4 w4]. cbn [fst snd] in *. subst w4.
  destruct (undeclared_tick cfg st4 w2 now) as (_ & _ & N4).
  assert (H5 : st_sender (heartbeat cfg st4 w2 now).1 = st_sender st4)
    by (unfold heartbeat; by case_match).
  destruct (heartbeat cfg st4 w2 now) as [st5 w5]. cbn [fst snd ts_state set_state] in *.
  intros [(_ & Hcomp & _) _]. split_and!; [by unfold stuck; rw H5|done|].
  etrans; [exact N1|]. by etrans.
Qed.
(** The frames that say something about the holder's own sends. *)
Definition addresses_sends (f : Frame) : bool :=
  match frame_type f with Ack | Nack | ResumeResponse => true | _ => false end.

Lemma stuck_inbound s f w now :
  addresses_sends f = false → stuck (ts_state s) →
  let '(s', w', _) := handle_inbound s f w now in
  stuck (ts_state s') ∧ st_completions (ts_state s') = st_completions (ts_state s) ∧ undeclared w w'.
Proof using LAWS.
  intros Hf Hs. unfold handle_inbound. set (st := touch_peer now (ts_state s)).
  change (stuck st) in Hs. change (st_completions (ts_state s)) with (st_completions st). clearbody st.
  assert (Hq : ∀ st', same_tx st st' → stuck st' ∧ st_completions st' = st_completions st).
  { intros st' [H1 H2]. unfold stuck. by rw H1. }
  pose proof (same_tx_handlers st f w now) as (Hp & Ha & Hc & He & Hr).
  unfold addresses_sends in Hf. destruct (frame_type f); try done; cbn [ts_state set_state];
    try (match goal with |- context [stuck ?x] => destruct (Hq x) as [G1 G2]; [done|] end; by split_and!).
  - assert (Hu : undeclared w (on_resume_request_frame st f w now).2).
    { unfold on_resume_request_frame. case_match; [|done]. case_match; [done|by apply undeclared_control]. }
    destruct (on_resume_request_frame st f w now) as [st' w']. by destruct (Hq st' Hr).
  - pose proof (same_tx_data st f w (ts_binary_handler s) (ts_stream_handler s) now) as Hd.
    assert (Hu : undeclared w (on_data_frame st f w (ts_binary_handler s) (ts_stream_handler s) now).1.1.2).
    { unfold on_data_frame. destruct (receive_frame _ _ _ _ _ _ _ _) as [r o].
      destruct o as [[c e| |]|]; [|done..]. destruct (feed_stream _ _ _ _ _) as [st2 op].
      destruct c; [|done]. unfold settle_complete.
      assert (Hack : ∀ e, undeclared w match e with Some e => send_ack_entries w [e] | None => w end)
        by (intros [x|]; [apply undeclared_acks|done]).
      case_decide; [apply Hack|]. destruct (ts_binary_handler s); [|apply Hack].
      destruct (rx_take_completed _ _). apply Hack. }
    destruct (on_data_frame _ _ _ _ _ _) as [[[st' w'] d] o]. by destruct (Hq st' Hd).
Qed.

(** A wired session's turns: the clock ticks, a frame arrives. *)
Inductive turn : Type :=
  | Ticks (now : N)
  | Arrives (f : Frame) (now : N).

Definition turn_step (sw : TransferSession * W) (t : turn) : TransferSession * W :=
  match t with
  | Ticks now => (clock_tick sw.1 sw.2 now).1
  | Arrives f now => (handle_inbound sw.1 f sw.2 now).1
  end.

Definition uninformed (t : turn) : bool :=
  match t with Ticks _ => true | Arrives f _ => negb (addresses_sends f) end.

Lemma stuck_turns ts s w :
  Forall (λ t, uninformed t = true) ts → stuck (ts_state s) →
  let '(s', w') := foldl turn_step (s, w) ts in
  stuck (ts_state s') ∧ st_completions (ts_state s') = st_completions (ts_state s) ∧ undeclared w w'.
Proof using LAWS.
  revert s w. induction ts as [|t ts IH]; intros s w Hts Hs; [done|].
  apply Forall_cons in Hts as [Ht Hts]. cbn [foldl].
  assert (Hstep : let '(s', w') := turn_step (s, w) t in stuck (ts_state s') ∧
    st_completions (ts_state s') = st_completions (ts_state s) ∧ undeclared w w').
  { destruct t as [now|f now]; cbn [turn_step fst snd].
    - pose proof (stuck_tick s w now Hs) as H. by destruct (clock_tick s w now) as [[]].
    - pose proof (stuck_inbound s f w now ltac:(by apply negb_true_iff) Hs) as H.
      by destruct (handle_inbound s f w now) as [[]]. }
  destruct (turn_step (s, w) t) as [s1 w1]. destruct Hstep as (H1 & H2 & H3).
  specialize (IH s1 w1 Hts H1). destruct (foldl turn_step (s1, w1) ts) as [s2 w2].
  destruct IH as (G1 & G2 & G3). split_and!; [done|by rw G2 H2|by etrans].
Qed.

(** C37: a session that holds more than 255 transactions cannot resume.  It is wired
    to a live connection and declares its pending sends: the declaration does not
    fit the one-byte count of a RESUME frame, its encoding fails and the failure is
    dropped.  From then on, whatever the clock does and whatever frames arrive that
    do not address these sends, no data frame and no RESUME frame ever reaches the
    connection, every held transaction stays gated and every registered completion
    stays registered.  (The peer has no occasion to answer what it was never told.) *)
Theorem resume_overflow_stuck s tr w tw td ts :
  ts_wiring s = None → 255 < size (s_pending (st_sender (ts_state s))) → conn_live w →
  Forall (λ t, uninformed t = true) ts →
  let '(s1, w1, _) := wire s tr w tw in
  let '(s', w') := foldl turn_step (declare_pending_sends s1 w1 td) ts in
  data_since w w' = [] ∧ Forall (λ f, frame_type f ≠ Resume) (control_since w w') ∧
  255 < size (s_pending (st_sender (ts_state s'))) ∧
  map_Forall (λ _ t, txn_awaiting_resume t = true) (s_pending (st_sender (ts_state s'))) ∧
  st_completions (ts_state s') = st_completions (ts_state s).
Proof using CRCLAWS LAWS.
  intros Hw Hn Hl Hts. unfold wire. rw Hw. cbv iota.
  match goal with |- context [declare_pending_sends ?x ?y td] => set (s1 := x); set (w1 := y) end.
  assert (Hcount : ∀ tx now, size (s_pending (declare_pending tx now).1) = size (s_pending tx)).
  { intros tx now. rw -!size_dom. f_equal. apply set_eq. intros k.
    by rw !elem_of_dom declare_pending_lookup fmap_is_Some. }
  assert (Hs1 : size (s_pending (st_sender (ts_state s1))) = size (s_pending (st_sender (ts_state s))))
    by apply Hcount.
  assert (Hdecl : declare_pending_sends s1 w1 td =
    (upd_state (set_sender (declare_pending (st_sender (ts_state s1)) td).1) s1, w1)).
  { unfold declare_pending_sends. change (ts_wiring s1) with (Some tr). cbv iota.
    unfold send_resume_declaration. pose proof (declare_pending_entries (st_sender (ts_state s1)) td) as He.
    destruct (declare_pending _ td) as [tx es]. cbn [snd fst] in *. destruct es as [|e es]; [done|].
    f_equal. apply overflow_silent. rw He. unfold declarations. by rw length_fmap length_map_to_list Hs1. }
  rw Hdecl. set (s2 := upd_state _ s1).
  assert (Hst : stuck (ts_state s2)).
  { split; [|exists td; apply declare_all_gated].
    pose proof (Hcount (st_sender (ts_state s1)) td) as Hc. rw Hs1 in Hc. by rw -Hc in Hn. }
  pose proof (stuck_turns ts s2 w1 Hts Hst) as H. destruct (foldl turn_step (s2, w1) ts) as [s' w'].
  destruct H as ((H1 & T & H2) & H3 & H4).
  pose proof (conn_activity w true Hl) as Hact. destruct (H4 (acc_live _ _ _ _ Hact)) as (fs & cs & E & A & F).
  pose proof (accepted_trans _ _ _ [] [] [] cs Hact A) as Hacc. cbn in Hacc.
  assert (Hen : Forall encodable fs) by (eapply Forall_impl; [exact F|]; by intros ? []).
  split_and!; [by eapply (accepted_data_since _ _ [])| |done| |by rw H3].
  - rw (accepted_control_since _ _ fs [] cs Hacc Hen E). eapply Forall_impl; [exact F|]. by intros ? [].
  - intros k v Hv. by apply (H2 k v).
Qed.
End overflow.
