(* ===== verification/Divergences.v ===== *)
(** * Where the code departs from its documentation

    Behaviours of the session that its comments rule out, proved of the model:
    a refused whole-payload send that keeps its slot, a [finish] that reports a
    failed transaction as confirmed, a write that can never be accepted, callbacks
    lost with a failed retransmission, and a repeated RESUME declaration that
    cancels a healthy transfer. *)
From S2P Require Import Prelude Crc Frame Control Sender Reassemble Errors Stream Transfer.
From S2P Require Import Delivery Clock Sink Session.

Section divergences.
Context `{CRC : Crc32} `{UUID : UuidLib} {W : Type} `{WIRE : TransferWiring W}.
Implicit Types (w : W) (s : TransferSession) (id : txid).

(** a whole-payload send refused for backpressure leaves its transaction
    behind: when the payload does not fit under the cap (but the cap is not yet
    reached), [send_binary] fails with [backpressure_stall] and writes nothing,
    yet an empty transaction stays registered under the generated id, which the
    caller never learns, and the completion callback is dropped. *)
Theorem send_binary_leaks s w payload cb fresh now :
  is_paused (st_sender (ts_state s)) = false →
  (backpressure_cap_bytes (s_config (st_sender (ts_state s))) <
     unacked_bytes (st_sender (ts_state s)) + len payload)%N →
  s_pending (st_sender (ts_state s)) !! fresh = None → as_u32 (len payload) ≠ 0%N →
  let '(s', w', r) := send_binary s w payload cb fresh now in
  r = Err (backpressure_error (ts_state s')) ∧ w' = w ∧
  st_completions (ts_state s') = st_completions (ts_state s) ∧
  ∃ t, s_pending (st_sender (ts_state s')) !! fresh = Some t ∧
       txn_written t = 0%N ∧ txn_frames t = [].
Proof using Type.
  intros Hp Hcap Hn Hz. unfold send_binary, open_transaction, contains_transaction.
  set (tx := st_sender (ts_state s)) in *. rw Hp Hn. cbn [is_Some bool_decide].
  rw bool_decide_eq_false_2; [by intros []|].
  destruct (N.eqb_spec (as_u32 (len payload)) 0) as [|_]; [done|].
  unfold append_chunk. cbn [s_pending set_pending s_config]. rw lookup_insert_eq.
  set (tx1 := set_pending tx fresh _).
  assert (Hu : unacked_bytes tx1 = unacked_bytes tx).
  { unfold unacked_bytes, tx1. cbn. by rw map_sum_insert_None. }
  rw Hu. change (backpressure_cap_bytes (s_config tx1))
    with (backpressure_cap_bytes (s_config tx)).
  cmp.
  split_and!; [done..|]. cbn. rw lookup_insert_eq. by eexists.
Qed.

(** [finish] reports a failed transaction as confirmed.  A transaction that
    still owes frames is closed as failed by the receiver's verdict; a [finish]
    called afterwards takes its fast path and returns [confirmed: true]. *)
Theorem finish_confirms_failed s f w now resp id cb t :
  frame_type f = ResumeResponse → ResumeResponsePayload_decode (payload f) = Ok resp →
  sent_flag (st_sender (ts_state s)) id = Some false →
  closes (response_entries resp) id →
  let '(s', w', _) := handle_inbound s f w now in
  (sink_finish_step s' w' id cb FinCheck t).2 = FinDone (Ok (mkBinarySendResult id true)).
Proof using Type.
  intros Hf Hdec Hfl Hcl. unfold handle_inbound. rw Hf. set (st := touch_peer now (ts_state s)).
  assert (Hgone : sent_flag (st_sender (on_resume_response_frame st f w now).1.1) id = None).
  { unfold on_resume_response_frame. rw Hdec.
    destruct (apply_resume_verdicts _ _ _) as [tx v] eqn:Hv.
    destruct (verdicts_fold now _ (st_sender st) (mkResumeVerdicts [] [] []) tx v Hv)
      as [_ Hspec]; [by intros ? ?%elem_of_nil|constructor|].
    destruct (Hspec id) as (_ & _ & Hnone & _). specialize (Hnone Hcl).
    destruct (write_data_frames w (v_retransmit v)) as [w' []]; cbn; [|done].
    pose proof (fire_fold_sender true (v_confirmed v) (set_sender tx st) []) as H1.
    destruct (foldl (fire_completion true) _ _) as [st1 out1]. cbn in H1.
    pose proof (fire_fold_sender false (v_failed v) st1 out1) as H2.
    destruct (foldl (fire_completion false) _ _) as [st2 out2]. cbn in *. by rw H2 H1. }
  destruct (on_resume_response_frame st f w now) as [[st' w'] out]. cbn in *.
  unfold sent_flag in Hgone. apply fmap_None in Hgone.
  unfold contains_transaction. rw Hgone. done.
Qed.

(** a chunk larger than the backpressure cap is never accepted: every pass
    of its write parks as long as the transaction exists, however many copies
    have been released. *)
Theorem oversized_write_parks s w id chunk now :
  (backpressure_cap_bytes (s_config (st_sender (ts_state s))) < len chunk)%N →
  is_Some (s_pending (st_sender (ts_state s)) !! id) →
  (sink_write s w id chunk now).2 = WriteParked.
Proof using Type.
  intros Hc [t Ht]. apply write_parks. right. exists t. split; [done|]. do 2 right. lia.
Qed.

(** completions are lost with a failed retransmission.  When a resume
    response cannot get its retransmissions out, the transactions it closes
    have left the sender, but no callback fires and their registrations stay
    behind, where no later frame can fire them. *)
Theorem resume_write_failure_drops_completions st f w now resp :
  ResumeResponsePayload_decode (payload f) = Ok resp →
  (write_data_frames w (v_retransmit
     (apply_resume_verdicts (st_sender st) (response_entries resp) now).2)).2 = false →
  let '(st', _, out) := on_resume_response_frame st f w now in
  out = [] ∧ st_completions st' = st_completions st ∧
  ∀ id, closes (response_entries resp) id → sent_flag (st_sender st') id = None.
Proof using Type.
  intros Hdec Hw. unfold on_resume_response_frame. rw Hdec.
  destruct (apply_resume_verdicts _ _ _) as [tx v] eqn:Hv. cbn [snd] in Hw.
  destruct (write_data_frames w (v_retransmit v)) as [w' ok]. cbn in Hw. subst ok. cbn.
  split; [done|]. split; [done|]. intros id Hcl.
  destruct (verdicts_fold now _ (st_sender st) (mkResumeVerdicts [] [] []) tx v Hv)
    as [_ Hspec]; [by intros ? ?%elem_of_nil|constructor|].
  destruct (Hspec id) as (_ & _ & Hnone & _). by apply Hnone.
Qed.

(** C38: a repeated declaration cancels a healthy transfer.  The clock re-declares
    only transactions whose verdict is overdue; a transaction that is not gated
    (opened after the reconnect, or already resumed) is left out, and the
    receiver drops its open slot as abandoned. *)
Theorem redeclaration_cancels_live (tx : TransactionSender) id t t1 timeout st f w now :
  s_pending tx !! id = Some t → txn_awaiting_resume t = false →
  ResumeRequestPayload_decode (payload f) =
    Ok (mkResumeRequestPayload (timed_out_declarations tx t1 timeout).2) →
  (timed_out_declarations tx t1 timeout).2 ≠ [] →
  open_incomplete (st_reassembler st) id →
  slots (st_reassembler (on_resume_request_frame st f w now).1) !! id = None.
Proof using Type.
  intros Ht Ha Hdec Hne Hop. rw (resume_request_unfold st f w now _ Hdec Hne). cbn [fst resume_entries].
  destruct (cancel_fold_effect
    (abandoned (st_reassembler st) (timed_out_declarations tx t1 timeout).2) st) as [Hs _].
  rw Hs. destruct (decide _) as [_|Hni]; [done|]. destruct Hni.
  apply elem_of_abandoned. split; [done|]. intros Hin.
  apply list_elem_of_fmap in Hin as (e & -> & He).
  unfold timed_out_declarations in He. destruct (iter_mut _ _) as [pend out] eqn:Hm.
  cbn in He. replace out with (iter_mut (redeclare_txn t1 timeout) (s_pending tx)).2 in He by by rw Hm.
  apply iter_mut_out in He as (i & t' & Ht' & He).
  assert (ack_transaction_id e = i) as Hi.
  { unfold redeclare_txn in He. repeat case_match; try by apply elem_of_nil in He.
    by apply list_elem_of_singleton in He as ->. }
  rw Hi in Ht. assert (t' = t) as -> by congruence.
  unfold redeclare_txn in He. rw Ha in He. by apply elem_of_nil in He.
Qed.
End divergences.
