(* ===== verification/Messages.v ===== *)
(** * Protocol messages ([src/wire/message.rs], [src/wire/commands/mod.rs],
    [src/wire/capability.rs], [src/wire/fetch.rs], [src/wire/events/])

    The envelope layer: commands, events, requests, responses, the capability
    exchange and the fetch metadata.  JSON values are [serde_json]'s: a parameter
    with the two accessors the code uses. *)
From S2P Require Import Prelude Crc Frame Control Sender Errors.

(** [serde_json::Value]. *)
Class JsonLib : Type := {
  Value : Type;
  Value_Null : Value;
  Value_get : Value → string → option Value;
  Value_as_str : Value → option string;
}.

(** ** Capabilities *)

Definition FETCH_EXT_VERSION : u32 := 1%N.

Section messages.
Context `{JSON : JsonLib}.

Record Capabilities : Type := mkCapabilities {
  cap_commands : list Value;
  produce_events : list Value;
  accept_events : list Value;
  fetch_ext : option u32;
}.

(** [Capabilities::default]. *)
Definition Capabilities_default : Capabilities := mkCapabilities [] [] [] None.

Record EffectiveCapabilities : Type := mkEffectiveCapabilities {
  remote_commands : list Value;
  eff_emit_events : list string;
  remote_fetch_ext : option u32;
  eff_fetch_enabled : bool;
}.

(** [s.get("name").and_then(|n| n.as_str())] over the schemas. *)
Definition extract_names (schemas : list Value) : list string :=
  omap (λ s, n ← Value_get s "name"; Value_as_str n) schemas.

Definition from_capabilities (local remote : Capabilities) : EffectiveCapabilities :=
  let local_produce := extract_names (produce_events local) in
  let remote_accept := extract_names (accept_events remote) in
  mkEffectiveCapabilities (cap_commands remote)
    (filter (λ name, name ∈ remote_accept) local_produce)
    (fetch_ext remote)
    (bool_decide (fetch_ext local = Some FETCH_EXT_VERSION) &&
     bool_decide (fetch_ext remote = Some FETCH_EXT_VERSION)).

(** ** Command declarations *)

Inductive Dispatcher : Type := Tool | Bridge | DispatcherUnknown (s : string).

Definition Dispatcher_serialize (d : Dispatcher) : string :=
  match d with
  | Tool => "tool"
  | Bridge => "bridge"
  | DispatcherUnknown s => s
  end.

Definition Dispatcher_deserialize (s : string) : Dispatcher :=
  if decide (s = "tool") then Tool
  else if decide (s = "bridge") then Bridge
  else DispatcherUnknown s.

Inductive ExtraScope : Type := Compact | ScopeUnknown (s : string).

Definition ExtraScope_serialize (e : ExtraScope) : string :=
  match e with Compact => "compact" | ScopeUnknown s => s end.

Definition ExtraScope_deserialize (s : string) : ExtraScope :=
  if decide (s = "compact") then Compact else ScopeUnknown s.

Record RequireToolCall : Type := mkRequireToolCall {
  rtc_require : string;
  rtc_on_failure : string;
}.

Record EvaluationPolicy : Type := mkEvaluationPolicy {
  ep_require_tool_call : option RequireToolCall;
}.

Record CommandDeclaration : Type := mkCommandDeclaration {
  cd_name : string;
  cd_description : option string;
  cd_parameters : option Value;
  cd_dispatcher : option Dispatcher;
  cd_evaluation_policy : option EvaluationPolicy;
  cd_extra_scopes : list ExtraScope;
}.

Definition is_tool_facing (d : CommandDeclaration) : bool :=
  match cd_dispatcher d with Some Tool => true | _ => false end.

Definition require_tool_call (d : CommandDeclaration) : option RequireToolCall :=
  p ← cd_evaluation_policy d; ep_require_tool_call p.

Definition has_compact_scope (d : CommandDeclaration) : bool :=
  existsb (λ s, match s with Compact => true | _ => false end) (cd_extra_scopes d).

(** ** Commands and events *)

Record ActivityRef : Type := mkActivityRef { act_id : string }.

Inductive XacppCommand : Type :=
  | CmdNegotiate (capabilities : Capabilities)
  | Establish (credentials : option string)
  | EstablishConfirm
  | Fetch (uri : string)
  | FetchBegin (txid : string)
  | FetchPause (txid : string)
  | FetchResume (txid : string)
  | FetchAbort (txid : string)
  | Generic (name : string) (arguments : Value) (activity : option ActivityRef).

Definition command_name (c : XacppCommand) : string :=
  match c with
  | CmdNegotiate _ => "negotiate"
  | Establish _ => "establish"
  | EstablishConfirm => "establish_confirm"
  | Fetch _ => "fetch"
  | FetchBegin _ => "fetch_begin"
  | FetchPause _ => "fetch_pause"
  | FetchResume _ => "fetch_resume"
  | FetchAbort _ => "fetch_abort"
  | Generic name _ _ => name
  end.

Definition is_fetch_family (c : XacppCommand) : bool :=
  match c with
  | Fetch _ | FetchBegin _ | FetchPause _ | FetchResume _ | FetchAbort _ => true
  | _ => false
  end.

Record XacppEvent : Type := mkXacppEvent { ev_name : string; ev_data : Value }.

Record XacppActivityEvent : Type := mkXacppActivityEvent {
  ae_activity : ActivityRef;
  ae_event : XacppEvent;
}.

(** ** Requests, responses, envelopes *)

Inductive XacppRequest : Type :=
  | ReqCommand (c : XacppCommand)
  | ReqEvent (e : XacppActivityEvent).

Inductive XacppResponse : Type :=
  | Negotiated (capabilities : Capabilities)
  | Established (session_id credentials : string)
  | EstablishPrepare (challenge : string)
  | RespEstablishReject (reason : text)
  | FetchReady (txid sha256 : string) (size_bytes : u64) (mime : string)
  | RespGeneric (name : string) (data : Value)
  | RespError (code : string) (message : text).

Definition acknowledge : XacppResponse := RespGeneric "acknowledge" Value_Null.

Inductive XacppEnvelope : Type :=
  | Request (id : string) (session_id : option string) (payload : XacppRequest)
  | Response (id : string) (session_id : option string) (payload : XacppResponse).

(** ** Fetch metadata *)

Definition FETCH_NOT_FOUND : string := "fetch_not_found".
Definition FETCH_REFUSED : string := "fetch_refused".
Definition FETCH_UNAVAILABLE : string := "fetch_unavailable".

Record FetchReadyMeta : Type := mkFetchReadyMeta {
  meta_txid : txid;
  meta_sha256 : string;
  meta_size_bytes : N;
  meta_mime : string;
}.

(** [parse_transaction_id] and [format_transaction_id] on [String]s. *)
Definition parse_txid (s : string) : result txid XacppError :=
  parse_transaction_id (String.list_byte_of_string s).

Definition format_txid (id : txid) : string :=
  String.string_of_list_byte (format_transaction_id id).

Definition response_to_meta (r : XacppResponse) : result FetchReadyMeta XacppError :=
  match r with
  | FetchReady t sha256 size_bytes mime =>
      match parse_txid t with
      | Ok id => Ok (mkFetchReadyMeta id sha256 size_bytes mime)
      | Err e => Err e
      end
  | RespError code message => Err (Application code message)
  | _ => Err (Internal (Lit "unexpected response to fetch"))
  end.

(** [ready_response] of the fetch service: what a responder announces. *)
Definition ready_response (m : FetchReadyMeta) : XacppResponse :=
  FetchReady (format_txid (meta_txid m)) (meta_sha256 m) (meta_size_bytes m) (meta_mime m).

Lemma parse_format_txid id : parse_txid (format_txid id) = Ok id.
Proof using Type.
  unfold parse_txid, format_txid. rw String.list_byte_of_string_of_list_byte.
  apply parse_format.
Qed.

(** ** Properties *)

(** capability negotiation agrees on both ends.  The two sides, each computing
    from its own declaration and the one it received, get the same fetch
    availability, and fetch is on exactly when both declared the supported
    version; an event name a side may emit is one it declared as produced and
    the other declared as accepted, in the declared order. *)
Theorem negotiation_agreement (a b : Capabilities) :
  eff_fetch_enabled (from_capabilities a b) = eff_fetch_enabled (from_capabilities b a) ∧
  (eff_fetch_enabled (from_capabilities a b) = true ↔
     fetch_ext a = Some FETCH_EXT_VERSION ∧ fetch_ext b = Some FETCH_EXT_VERSION) ∧
  (∀ name, name ∈ eff_emit_events (from_capabilities a b) ↔
     name ∈ extract_names (produce_events a) ∧ name ∈ extract_names (accept_events b)) ∧
  eff_emit_events (from_capabilities a b) `sublist_of` extract_names (produce_events a) ∧
  remote_commands (from_capabilities a b) = cap_commands b.
Proof using Type.
  cbn. split_and!; [apply andb_comm| | |apply sublist_filter|done].
  - by rw andb_true_iff !bool_decide_eq_true.
  - intros name. rw list_elem_of_filter. tauto.
Qed.

(** declaration values of a newer peer survive a round trip verbatim: any
    dispatcher or scope string that is read is written back unchanged, and any
    value that is written is read back, except an "unknown" that carries a known
    word, which reads as that word. *)
Theorem declaration_strings_preserved :
  (∀ s, Dispatcher_serialize (Dispatcher_deserialize s) = s) ∧
  (∀ s, ExtraScope_serialize (ExtraScope_deserialize s) = s) ∧
  (∀ d, Dispatcher_deserialize (Dispatcher_serialize d) = d ↔
        d ≠ DispatcherUnknown "tool" ∧ d ≠ DispatcherUnknown "bridge") ∧
  (∀ e, ExtraScope_deserialize (ExtraScope_serialize e) = e ↔ e ≠ ScopeUnknown "compact").
Proof using Type.
  split_and!.
  - intros s. unfold Dispatcher_deserialize. by repeat case_decide.
  - intros s. unfold ExtraScope_deserialize. by case_decide.
  - intros [| |s]; [done|done|]. unfold Dispatcher_deserialize. cbn [Dispatcher_serialize].
    repeat case_decide; subst; naive_solver.
  - intros [|s]; [done|]. unfold ExtraScope_deserialize. cbn [ExtraScope_serialize].
    case_decide; subst; naive_solver.
Qed.

(** the metadata a responder announces is the metadata the requester reads:
    every [fetch_ready] built from a serving parses back to it, transaction id
    included; an error response keeps its code and message. *)
Theorem fetch_meta_roundtrip m code message :
  response_to_meta (ready_response m) = Ok m ∧
  response_to_meta (RespError code message) = Err (Application code message).
Proof using Type.
  split; [|done]. cbn. rw parse_format_txid. by destruct m.
Qed.
End messages.
