(* ===== verification/Logical.v ===== *)
(** * The logical session ([src/session/mod.rs])

    [XacppSession]: identity, negotiated facts and the transfer session, over the
    transport it is wired to.  A call that awaits the transport takes the
    transport's answer from the interface [RpcTransport]; wall-clock time and
    fresh ids are arguments. *)
From S2P Require Import Prelude Crc Frame Control Sender Reassemble Errors Stream Transfer.
From S2P Require Import Delivery Clock Sink Messages.

(** ** The envelope surface of a transport ([trait XacppTransport]) *)

Class RpcTransport `{JSON : JsonLib} (W : Type) : Type := {
  rpc_connect : W → W * result unit XacppError;
  rpc_send : W → option string → XacppRequest → W * result XacppResponse XacppError;
  rpc_send_faf : W → option string → XacppRequest → W * result unit XacppError;
  rpc_on_request : W → W * result unit XacppError;
}.

(** ** State *)

Record XacppSession : Type := mkXacppSession {
  xs_transfer : TransferSession;
  xs_session_id : string;
  xs_credentials : string;
  xs_emit_events : list string;
  xs_fetch_enabled : bool;
  xs_transport : option nat;
}.

(** [XacppSession::new]. *)
Definition XacppSession_new (config : option TransferConfig) (now : N) : XacppSession :=
  mkXacppSession (TransferSession_new (default TransferConfig_default config) now)
    "" "" [] false None.

Definition set_transfer (t : TransferSession) (x : XacppSession) : XacppSession :=
  mkXacppSession t (xs_session_id x) (xs_credentials x) (xs_emit_events x)
    (xs_fetch_enabled x) (xs_transport x).

Definition set_transport (tr : option nat) (x : XacppSession) : XacppSession :=
  mkXacppSession (xs_transfer x) (xs_session_id x) (xs_credentials x)
    (xs_emit_events x) (xs_fetch_enabled x) tr.

Definition with_identity (session_id credentials : string) (x : XacppSession) :
    XacppSession :=
  mkXacppSession (xs_transfer x) session_id credentials (xs_emit_events x)
    (xs_fetch_enabled x) (xs_transport x).

Definition set_emit_events (emit : list string) (x : XacppSession) : XacppSession :=
  mkXacppSession (xs_transfer x) (xs_session_id x) (xs_credentials x) emit
    (xs_fetch_enabled x) (xs_transport x).

Definition set_fetch_enabled (b : bool) (x : XacppSession) : XacppSession :=
  mkXacppSession (xs_transfer x) (xs_session_id x) (xs_credentials x)
    (xs_emit_events x) b (xs_transport x).

Definition backfill (session_id credentials : string) (emit : list string)
    (fetch_enabled : bool) (x : XacppSession) : XacppSession :=
  set_fetch_enabled fetch_enabled
    (set_emit_events emit (with_identity session_id credentials x)).

Lemma elem_of_keys `{Countable K} {V} (m : gmap K V) (k : K) :
  k ∈ (map_to_list m).*1 ↔ is_Some (m !! k).
Proof.
  rw list_elem_of_fmap. split.
  - intros ([k' v] & -> & Hkv). apply elem_of_map_to_list in Hkv. by eexists.
  - intros [v Hv]. exists (k, v). split; [done|]. by apply elem_of_map_to_list.
Qed.

(** A declaration names every held transaction once. *)
Lemma declared_ids (s : TransactionSender) now :
  ack_transaction_id <$> (declare_pending s now).2 = (map_to_list (s_pending s)).*1.
Proof.
  unfold declare_pending, iter_mut. cbn [fst snd].
  induction (map_to_list (s_pending s)) as [|[id t] l IH]; [done|]. cbn in *. by f_equal.
Qed.

Section logical.
Context `{CRC : Crc32} `{UUID : UuidLib} `{JSON : JsonLib} {W : Type}.
Context `{WIRE : TransferWiring W} `{TRANSPORT : !XacppTransport W} `{RPC : !RpcTransport W}.
Implicit Types (w : W) (x : XacppSession).

(** ** Wiring *)

Definition wire_without_declaration x (tr : nat) w (now : N) :
    XacppSession * W * result unit XacppError :=
  let '(t, w) := unwire (xs_transfer x) w in
  let x := set_transport None (set_transfer t x) in
  match wire (xs_transfer x) tr w now with
  | (t, w, Err e) => (set_transfer t x, w, Err e)
  | (t, w, Ok _) => (set_transport (Some tr) (set_transfer t x), w, Ok tt)
  end.

Definition session_declare_pending_sends x w (now : N) : XacppSession * W :=
  let '(t, w) := declare_pending_sends (xs_transfer x) w now in (set_transfer t x, w).

Definition session_wire x (tr : nat) w (now : N) : XacppSession * W * result unit XacppError :=
  match wire_without_declaration x tr w now with
  | (x, w, Err e) => (x, w, Err e)
  | (x, w, Ok _) => let '(x, w) := session_declare_pending_sends x w now in (x, w, Ok tt)
  end.

Definition session_unwire x w : XacppSession * W :=
  let '(t, w) := unwire (xs_transfer x) w in (set_transport None (set_transfer t x), w).

Definition attach_transfer x (tr : nat) w (now : N) :
    XacppSession * W * result unit XacppError :=
  if is_wired (xs_transfer x) then (x, w, Ok tt)
  else let '(t, w, r) := wire (xs_transfer x) tr w now in (set_transfer t x, w, r).

Definition detach_transfer x w : XacppSession * W :=
  let '(t, w) := unwire (xs_transfer x) w in (set_transfer t x, w).

(** ** Outgoing communication *)

Definition request_command x w (c : XacppCommand) : W * result XacppResponse XacppError :=
  if is_fetch_family c && negb (xs_fetch_enabled x) then
    (w, Err (Application FETCH_UNAVAILABLE
      (Lit "fetch unavailable on this end (fetch extension not enabled by negotiation)")))
  else
    match xs_transport x with
    | None => (w, Err NotConnected)
    | Some _ => rpc_send w (Some (xs_session_id x)) (ReqCommand c)
    end.

Definition validate_event x (e : XacppActivityEvent) : result unit XacppError :=
  if negb (bool_decide (xs_emit_events x = [])) &&
     negb (bool_decide (ev_name (ae_event e) ∈ xs_emit_events x))
  then Err (Internal (Fmt "event not in negotiated emit_events capability"
                       [ev_name (ae_event e)]))
  else Ok tt.

Definition request_event x w (e : XacppActivityEvent) : W * result XacppResponse XacppError :=
  match validate_event x e with
  | Err er => (w, Err er)
  | Ok _ =>
      match xs_transport x with
      | None => (w, Err NotConnected)
      | Some _ => rpc_send w (Some (xs_session_id x)) (ReqEvent e)
      end
  end.

Definition send_event x w (e : XacppActivityEvent) : W * result unit XacppError :=
  match validate_event x e with
  | Err er => (w, Err er)
  | Ok _ =>
      match xs_transport x with
      | None => (w, Err NotConnected)
      | Some _ => rpc_send_faf w (Some (xs_session_id x)) (ReqEvent e)
      end
  end.

Definition session_send_binary x w (payload : list byte) (cb : option CompletionCallback)
    (fresh : txid) (now : N) : XacppSession * W * result txid XacppError :=
  match xs_transport x with
  | None => (x, w, Err NotConnected)
  | Some _ =>
      let '(t, w, r) := send_binary (xs_transfer x) w payload cb fresh now in
      (set_transfer t x, w, r)
  end.

Definition session_open_binary_sink x (meta : BinaryMeta) (txid : option txid)
    (fresh : Prelude.txid) (now : N) : XacppSession * result Prelude.txid XacppError :=
  let '(t, r) := open_binary_sink (xs_transfer x) meta txid fresh now in
  (set_transfer t x, r).

Definition session_on_binary x : XacppSession := set_transfer (on_binary (xs_transfer x)) x.

Definition session_on_binary_stream x : XacppSession :=
  set_transfer (on_binary_stream (xs_transfer x)) x.

Definition fetch x w (uri : string) : W * result FetchReadyMeta XacppError :=
  match request_command x w (Fetch uri) with
  | (w, Err e) => (w, Err e)
  | (w, Ok r) => (w, response_to_meta r)
  end.

(** ** Properties *)

(** Wiring detaches whatever was wired and cannot fail; the transaction state
    carries over behind the resume gate. *)
Lemma wire_total x tr w now :
  streams_inv (ts_state (xs_transfer x)) →
  ∃ t', wire_without_declaration x tr w now =
    (set_transport (Some tr) (set_transfer t' x),
     on_transfer_activity (unwire (xs_transfer x) w).2 true, Ok tt) ∧
  ts_wiring t' = Some tr ∧
  (∀ id, s_pending (st_sender (ts_state t')) !! id =
     set_gate true (Some now) <$> s_pending (st_sender (ts_state (xs_transfer x))) !! id) ∧
  (∀ id l si, st_streams (ts_state (xs_transfer x)) !! id = Some l →
     st_heap (ts_state (xs_transfer x)) !! l = Some si →
     ∃ si', st_streams (ts_state t') !! id = Some l ∧ st_heap (ts_state t') !! l = Some si' ∧
       BinaryStream_state si' = stored_state si ∧ chunk_rx si' = chunk_rx si ∧
       tx_alive si' = true).
Proof using Type.
  intros Hi. unfold wire_without_declaration.
  pose proof (λ id l si, stall_core (xs_transfer x) tr w now id l si Hi) as Hst.
  destruct (unwire (xs_transfer x) w) as [t1 w1] eqn:Hu.
  assert (Hi1 : streams_inv (ts_state t1)).
  { replace t1 with (unwire (xs_transfer x) w).1 by by rw Hu.
    apply update_streams_inv; [auto with streams|done]. }
  assert (Hn : ts_wiring t1 = None ∧ st_sender (ts_state t1) = st_sender (ts_state (xs_transfer x))).
  { by replace t1 with (unwire (xs_transfer x) w).1 by by rw Hu. }
  destruct Hn as [Hn Hs]. cbn [set_transport set_transfer xs_transfer].
  pose proof (wire_core t1 tr w1 now Hi1) as Hw. unfold is_wired in Hw. rw Hn in Hw.
  destruct (wire t1 tr w1 now) as [[t2 w2] r] eqn:Hwire.
  destruct Hw as (-> & Hwt & _ & _ & Hp & _).
  assert (w2 = on_transfer_activity w1 true) as ->.
  { unfold wire in Hwire. rw Hn in Hwire. by injection Hwire. }
  exists t2. split; [done|]. split; [done|]. split; [intros id; by rw Hp Hs|].
  intros id l si Hl Hsi. by destruct (Hst id l si Hl Hsi) as (_ & _ & _ & H).
Qed.

(** wiring a logical session always succeeds, whether it was detached or still
    attached to a dead connection.  The session keeps its identity and negotiated
    facts; every held transaction is kept behind the resume gate; every open
    stream is kept with its chunks and shows its flow state again; and exactly
    one RESUME declaration goes out, naming every held transaction once (none
    when nothing is held). *)
Theorem session_wire_recovers x tr w now :
  streams_inv (ts_state (xs_transfer x)) →
  let held := s_pending (st_sender (ts_state (xs_transfer x))) in
  let w1 := on_transfer_activity (unwire (xs_transfer x) w).2 true in
  let '(x', w', r) := session_wire x tr w now in
  r = Ok tt ∧ xs_transport x' = Some tr ∧ ts_wiring (xs_transfer x') = Some tr ∧
  xs_session_id x' = xs_session_id x ∧ xs_credentials x' = xs_credentials x ∧
  xs_emit_events x' = xs_emit_events x ∧ xs_fetch_enabled x' = xs_fetch_enabled x ∧
  (∀ id, s_pending (st_sender (ts_state (xs_transfer x'))) !! id =
         set_gate true (Some now) <$> held !! id) ∧
  (∀ id l si, st_streams (ts_state (xs_transfer x)) !! id = Some l →
     st_heap (ts_state (xs_transfer x)) !! l = Some si →
     ∃ si', st_streams (ts_state (xs_transfer x')) !! id = Some l ∧
       st_heap (ts_state (xs_transfer x')) !! l = Some si' ∧
       BinaryStream_state si' = stored_state si ∧ chunk_rx si' = chunk_rx si ∧
       tx_alive si' = true) ∧
  ∃ entries,
    ack_transaction_id <$> entries ≡ₚ (map_to_list held).*1 ∧
    w' = match entries with [] => w1 | _ => send_control w1 (mkResumeRequestPayload entries) end.
Proof using Type.
  intros Hi held w1. unfold session_wire, session_declare_pending_sends.
  destruct (wire_total x tr w now Hi) as (t' & -> & Hwt & Hp & Hst). fold w1. cbn [xs_transfer set_transport set_transfer].
  unfold declare_pending_sends. rw Hwt. unfold send_resume_declaration.
  pose proof (declare_pending_lookup (st_sender (ts_state t')) now) as Hd.
  pose proof (declared_ids (st_sender (ts_state t')) now) as Hids.
  destruct (declare_pending _ _) as [tx es]. cbn [fst snd] in *.
  assert (Hperm : ack_transaction_id <$> es ≡ₚ (map_to_list held).*1).
  { rw Hids. apply NoDup_Permutation; [apply NoDup_fst_map_to_list..|].
    intros id. rw !elem_of_keys Hp. apply fmap_is_Some. }
  destruct es as [|e es]; cbn; split_and!; try done.
  all: try (intros id; rw Hd Hp -option_fmap_compose; by apply option_fmap_ext).
  - by exists [].
  - by exists (e :: es).
Qed.
End logical.
