(* ===== verification/Carrier.v ===== *)
(** * The envelope layer of the transports ([src/carrier/socket.rs],
    [src/carrier/stdio.rs], [src/carrier/mod.rs])

    Request / response correlation over the ordered egress: [connect],
    [disconnect], [send], [send_faf], [on_request], the dispatch task and the
    handler tasks.  A transport outlives its connections, so the tasks of an old
    connection run next to those of the new one and share its flags, pending
    table and hook slot.

    Every task is cut into the steps between which other tasks can run: a call of
    [send] registers its slot, clones the egress, enqueues, waits for the write
    receipt and waits for the response; [connect] spawns the tasks and then marks
    the transport connected.  The dispatch task's cleanup and [disconnect] are one
    step each.  The channel from the read task to the dispatch task is unbounded
    here (256 slots in the code: a full channel delays the reader only). *)
From S2P Require Import Prelude Crc Frame Control Sender Reassemble Errors Stream Transfer.
From S2P Require Import Egress Messages.
From stdpp Require Import pretty.

(** [serde_json::to_vec] and [from_slice] on envelopes ([None]: the error arm). *)
Class EnvelopeCodec `{JSON : JsonLib} : Type := {
  envelope_to_vec : XacppEnvelope → option (list byte);
  envelope_from_slice : list byte → option XacppEnvelope;
}.

(** [format!("r{}", n)]. *)
Definition request_id (n : N) : string := String.append "r" (pretty n).

#[export] Instance request_id_inj : Inj (=) (=) request_id.
Proof. intros n m H%(inj (String.append "r"))%(inj pretty). done. Qed.

Section carrier.
Context `{CRC : Crc32} `{JSON : JsonLib} {CODEC : EnvelopeCodec} {DISPLAY : Display}.

(** ** State *)

(** What one connection owns: its egress and drain task, the channel between its
    read and dispatch tasks ([None]: the reader's error), and which of the two
    tasks still run. *)
Record Connection : Type := mkConnection {
  cn_egress : Egress;
  cn_inbox : list (option (list byte));
  cn_reading : bool;
  cn_dispatching : bool;
}.

(** A handler task; it answers on the connection its request came from. *)
Record Task : Type := mkTask {
  tk_conn : nat;
  tk_id : string;
  tk_session : option string;
  tk_payload : XacppRequest;
}.

(** How far a call of [send] / [send_faf] got.  [send_faf] returns [Ok None]. *)
Inductive Phase : Type :=
  | Registered (frame : list byte)
  | Cloned (frame : list byte) (k : nat)
  | WaitAck (k : nat) (receipt : nat)
  | WaitResponse (k : nat)
  | Returned (r : result (option XacppResponse) XacppError).

Record Call : Type := mkCall {
  cl_id : string;
  cl_faf : bool;
  cl_phase : Phase;
}.

(** The transport.  [ct_closed] is the value of the close watch;
    [ct_delivered] are the responses put into the callers' oneshot channels. *)
Record Carrier : Type := mkCarrier {
  ct_conns : list Connection;
  ct_egress : option nat;
  ct_reader_handle : option nat;
  ct_connecting : option nat;
  ct_client : bool;
  ct_inline : bool;
  ct_parked : bool;
  ct_connected : bool;
  ct_closed : bool;
  ct_pending : gmap string PendingSlot;
  ct_delivered : gmap string XacppResponse;
  ct_next_id : N;
  ct_handler : bool;
  ct_hooks : bool;
  ct_inflight : list Task;
  ct_calls : list Call;
  ct_receipts : nat;
}.

(** [ct_inline]: requests are handled by the dispatch task itself (stdio), not
    by tasks of their own (socket). *)
Definition Carrier_new (client inline : bool) : Carrier :=
  mkCarrier [] None None None client inline (negb client) false false ∅ ∅ 1 false false [] [] 0.

(** [new_impl]: [connect_to], or a parked stream. *)
Definition SocketTransport_new (client : bool) : Carrier := Carrier_new client false.

Definition StdioTransport_new : Carrier := Carrier_new false true.

Implicit Types (c : Carrier) (cn : Connection).

(** *** Field updates *)

Definition set_conns (l : list Connection) c : Carrier :=
  mkCarrier l (ct_egress c) (ct_reader_handle c) (ct_connecting c) (ct_client c) (ct_inline c)
    (ct_parked c) (ct_connected c) (ct_closed c) (ct_pending c)
    (ct_delivered c) (ct_next_id c) (ct_handler c) (ct_hooks c) (ct_inflight c)
    (ct_calls c) (ct_receipts c).

Definition set_slots (eg rh connecting : option nat) (parked : bool) c : Carrier :=
  mkCarrier (ct_conns c) eg rh connecting (ct_client c) (ct_inline c) parked (ct_connected c)
    (ct_closed c) (ct_pending c) (ct_delivered c) (ct_next_id c)
    (ct_handler c) (ct_hooks c) (ct_inflight c) (ct_calls c) (ct_receipts c).

Definition set_shared (connected closed : bool)
    (pending : gmap string PendingSlot) c : Carrier :=
  mkCarrier (ct_conns c) (ct_egress c) (ct_reader_handle c) (ct_connecting c)
    (ct_client c) (ct_inline c) (ct_parked c) connected closed pending (ct_delivered c)
    (ct_next_id c) (ct_handler c) (ct_hooks c) (ct_inflight c) (ct_calls c) (ct_receipts c).

Definition set_delivered (m : gmap string XacppResponse) c : Carrier :=
  mkCarrier (ct_conns c) (ct_egress c) (ct_reader_handle c) (ct_connecting c)
    (ct_client c) (ct_inline c) (ct_parked c) (ct_connected c) (ct_closed c)
    (ct_pending c) m (ct_next_id c) (ct_handler c) (ct_hooks c) (ct_inflight c)
    (ct_calls c) (ct_receipts c).

Definition set_hooks (handler hooks : bool) c : Carrier :=
  mkCarrier (ct_conns c) (ct_egress c) (ct_reader_handle c) (ct_connecting c)
    (ct_client c) (ct_inline c) (ct_parked c) (ct_connected c) (ct_closed c)
    (ct_pending c) (ct_delivered c) (ct_next_id c) handler hooks (ct_inflight c)
    (ct_calls c) (ct_receipts c).

Definition set_tasks (inflight : list Task) c : Carrier :=
  mkCarrier (ct_conns c) (ct_egress c) (ct_reader_handle c) (ct_connecting c)
    (ct_client c) (ct_inline c) (ct_parked c) (ct_connected c) (ct_closed c)
    (ct_pending c) (ct_delivered c) (ct_next_id c) (ct_handler c) (ct_hooks c) inflight
    (ct_calls c) (ct_receipts c).

Definition set_calls (calls : list Call) c : Carrier :=
  mkCarrier (ct_conns c) (ct_egress c) (ct_reader_handle c) (ct_connecting c)
    (ct_client c) (ct_inline c) (ct_parked c) (ct_connected c) (ct_closed c)
    (ct_pending c) (ct_delivered c) (ct_next_id c) (ct_handler c) (ct_hooks c)
    (ct_inflight c) calls (ct_receipts c).

Definition set_counters (next_id : N) (receipts : nat) c : Carrier :=
  mkCarrier (ct_conns c) (ct_egress c) (ct_reader_handle c) (ct_connecting c)
    (ct_client c) (ct_inline c) (ct_parked c) (ct_connected c) (ct_closed c)
    (ct_pending c) (ct_delivered c) next_id (ct_handler c) (ct_hooks c) (ct_inflight c)
    (ct_calls c) receipts.

Definition set_pending (m : gmap string PendingSlot) c : Carrier :=
  set_shared (ct_connected c) (ct_closed c) m c.

Definition set_egress (e : Egress) cn : Connection :=
  mkConnection e (cn_inbox cn) (cn_reading cn) (cn_dispatching cn).

(** ** Egress operations over the shared flags and pending table *)

Definition load c (e : Egress) : Egress :=
  mkEgress (eg_data e) (eg_control e) (ct_connected c) (ct_closed c) (eg_handles e)
    (eg_control_open e) (eg_running e) (eg_written e) (eg_acks e) (ct_pending c).

(** Connection [k]'s egress becomes [e]; its flags are the transport's. *)
Definition store (k : nat) (e : Egress) c : Carrier :=
  set_shared (eg_connected e) (eg_closed e) (eg_pending e)
    (set_conns (alter (set_egress e) k (ct_conns c)) c).

(** An egress operation on connection [k]. *)
Definition on_egress {A} (k : nat) (f : Egress → Egress * A) c : Carrier * option A :=
  match ct_conns c !! k with
  | Some cn => let '(e, r) := f (load c (cn_egress cn)) in (store k e c, Some r)
  | None => (c, None)
  end.

Definition close_conn (k : nat) c : Carrier := (on_egress k (λ e, (egress_close e, tt)) c).1.

(** A turn of connection [k]'s drain task. *)
Definition drain_conn (k : nat) (ok : bool) c : Carrier :=
  (on_egress k (λ e, (drain_step e ok, tt)) c).1.

(** ** Envelopes *)

(** [encode_data_json_frame]; [fresh] is [Uuid::new_v4]. *)
Definition encode_data_json_frame (payload : list byte) (fresh : txid) :
    result (list byte) XacppError :=
  match encode (Frame_new DataJson fresh (as_u32 (N.of_nat (length payload))) 0 payload) with
  | Ok b => Ok b
  | Err e => Err (Internal (DisplayFrame e))
  end.

Definition serialize_envelope (msg : XacppEnvelope) (fresh : txid) :
    result (list byte) XacppError :=
  match envelope_to_vec msg with
  | None => Err (Internal (Lit "serde_json"))
  | Some json => encode_data_json_frame json fresh
  end.

(** The response a handler's result becomes. *)
Definition respond (r : result XacppResponse XacppError) : XacppResponse :=
  match r with
  | Ok payload => payload
  | Err e => RespError (XacppError_code e) (Lit (XacppError_to_string e))
  end.

(** [egress.send_acked(frame)] of a response; its receipt is only logged. *)
Definition send_response (k : nat) (msg : XacppEnvelope) (fresh : txid) c : Carrier :=
  match serialize_envelope msg fresh with
  | Err _ => c
  | Ok frame =>
      (on_egress k (λ e, send_acked e frame (ct_receipts c))
         (set_counters (ct_next_id c) (S (ct_receipts c)) c)).1
  end.

(** ** Connection management *)

(** [connect] up to the spawned tasks; [tcp] is the answer of
    [TcpStream::connect] in client mode. *)
Definition connect_begin (tcp : bool) c : Carrier * result unit XacppError :=
  if ct_connected c then (c, Err AlreadyConnected)
  else if ct_client c && negb tcp then (c, Err (Internal (Lit "connect to")))
  else if negb (ct_client c) && negb (ct_parked c) then (c, Err AlreadyConnected)
  else
    let k := length (ct_conns c) in
    let cn := mkConnection
      (spawn_egress (ct_connected c) (ct_closed c) (ct_pending c)) [] true true in
    (set_slots (Some k) (ct_reader_handle c) (Some k)
       (if ct_client c then ct_parked c else false)
       (set_conns (ct_conns c ++ [cn]) c), Ok tt).

(** The rest of [connect]: the flag, the task handle. *)
Definition connect_finish c : Carrier :=
  match ct_connecting c with
  | None => c
  | Some k =>
      set_shared true (ct_closed c) (ct_pending c)
        (set_slots (ct_egress c) (Some k) None (ct_parked c) c)
  end.

(** [handle.abort()]: the dispatch task, and on stdio the read task as well. *)
Definition abort_tasks (inline : bool) cn : Connection :=
  mkConnection (cn_egress cn) (cn_inbox cn) (if inline then false else cn_reading cn) false.

(** [disconnect] (not while [connect] holds the lock). *)
Definition carrier_disconnect c : Carrier :=
  let c := set_hooks (ct_handler c) false c in
  let c := set_shared false (ct_closed c) (ct_pending c) c in
  let c := match ct_egress c with
           | Some k => set_slots None (ct_reader_handle c) (ct_connecting c) (ct_parked c)
                         (close_conn k c)
           | None => c
           end in
  let c := match ct_reader_handle c with
           | Some k => set_slots (ct_egress c) None (ct_connecting c) (ct_parked c)
                         (set_conns (alter (abort_tasks (ct_inline c)) k (ct_conns c)) c)
           | None => c
           end in
  set_pending ∅ (set_tasks [] c).

Definition carrier_on_request c : Carrier * result unit XacppError :=
  if ct_connected c then (c, Err AlreadyConnected) else (set_hooks true (ct_hooks c) c, Ok tt).

(** ** The read and dispatch tasks *)

Definition set_inbox (inbox : list (option (list byte))) (reading : bool) cn : Connection :=
  mkConnection (cn_egress cn) inbox reading (cn_dispatching cn).

Definition upd_conn (k : nat) (f : Connection → Connection) c : Carrier :=
  set_conns (alter f k (ct_conns c)) c.

(** The reader forwards an envelope payload, while the dispatch task listens;
    otherwise [send] fails and the reader stops. *)
Definition read_envelope (k : nat) (data : list byte) c : Carrier :=
  match ct_conns c !! k with
  | Some cn =>
      if negb (cn_reading cn) then c
      else if cn_dispatching cn
      then upd_conn k (set_inbox (cn_inbox cn ++ [Some data]) true) c
      else upd_conn k (set_inbox (cn_inbox cn) false) c
  | None => c
  end.

(** End of stream ([failed = false]), read error or fatal decode error: the hooks
    are detached and the reader stops. *)
Definition read_stop (k : nat) (failed : bool) c : Carrier :=
  match ct_conns c !! k with
  | Some cn =>
      if negb (cn_reading cn) then c
      else
        let inbox := if failed then cn_inbox cn ++ [None] else cn_inbox cn in
        set_hooks (ct_handler c) false (upd_conn k (set_inbox inbox false) c)
  | None => c
  end.

(** The cleanup at the end of [reader_task] / [accept_loop]. *)
Definition dispatch_exit (k : nat) c : Carrier :=
  let c := set_shared false (ct_closed c) ∅ c in
  let c := close_conn k c in
  upd_conn k (λ cn, mkConnection (cn_egress cn) (cn_inbox cn) (cn_reading cn) false) c.

(** A request: a handler task, or the [no_handler] response. *)
Definition dispatch_request (k : nat) (id : string) (sid : option string)
    (payload : XacppRequest) (fresh : txid) c : Carrier :=
  if ct_handler c
  then set_tasks (ct_inflight c ++ [mkTask k id sid payload]) c
  else
    let payload := if ct_inline c then respond (Err NoHandler)
                   else RespError "no_handler" (Lit "no handler registered") in
    send_response k (Response id sid payload) fresh c.

(** A response goes to the slot that waits for it. *)
Definition dispatch_response (id : string) (payload : XacppResponse) c : Carrier :=
  let c' := set_pending (delete id (ct_pending c)) c in
  match ct_pending c !! id with
  | Some SlotRespond => set_delivered (<[id := payload]> (ct_delivered c)) c'
  | Some SlotDrop => c'
  | None => c
  end.

Definition dispatch_envelope (k : nat) (data : list byte) (fresh : txid) c : Carrier :=
  match envelope_from_slice data with
  | None => c
  | Some (Request id sid payload) => dispatch_request k id sid payload fresh c
  | Some (Response id _ payload) => dispatch_response id payload c
  end.

(** One turn of the dispatch task; on stdio it waits for its handler first. *)
Definition dispatch_step (k : nat) (fresh : txid) c : Carrier :=
  match ct_conns c !! k with
  | Some cn =>
      if negb (cn_dispatching cn) then c
      else if ct_inline c && existsb (λ t, bool_decide (tk_conn t = k)) (ct_inflight c) then c
      else
        match cn_inbox cn with
        | Some data :: rest =>
            dispatch_envelope k data fresh (upd_conn k (set_inbox rest (cn_reading cn)) c)
        | None :: rest => dispatch_exit k (upd_conn k (set_inbox rest (cn_reading cn)) c)
        | [] => if cn_reading cn then c else dispatch_exit k c
        end
  | None => c
  end.

(** Handler task [i] finishes with [r] and answers under the request's id. *)
Definition handler_done (i : nat) (r : result XacppResponse XacppError) (fresh : txid) c :
    Carrier :=
  match ct_inflight c !! i with
  | Some t =>
      send_response (tk_conn t) (Response (tk_id t) (tk_session t) (respond r)) fresh
        (set_tasks (delete i (ct_inflight c)) c)
  | None => c
  end.

(** ** Calls *)

Definition set_phase (ph : Phase) (cl : Call) : Call := mkCall (cl_id cl) (cl_faf cl) ph.

Definition upd_call (i : nat) (ph : Phase) c : Carrier :=
  set_calls (alter (set_phase ph) i (ct_calls c)) c.

(** Up to the slot: id, envelope, frame, [pending.insert]. *)
Definition call_start (faf : bool) (sid : option string) (req : XacppRequest)
    (fresh : txid) c : Carrier :=
  let id := request_id (ct_next_id c) in
  let c := set_counters ((ct_next_id c + 1) mod 2 ^ 64)%N (ct_receipts c) c in
  match serialize_envelope (Request id sid req) fresh with
  | Err e => set_calls (ct_calls c ++ [mkCall id faf (Returned (Err e))]) c
  | Ok frame =>
      set_pending (<[id := if faf then SlotDrop else SlotRespond]> (ct_pending c))
        (set_calls (ct_calls c ++ [mkCall id faf (Registered frame)]) c)
  end.

(** One further step of call [i]: clone the egress; enqueue; take the receipt;
    take the response.  A wait that is not over changes nothing. *)
Definition call_step (i : nat) c : Carrier :=
  match ct_calls c !! i with
  | None => c
  | Some cl =>
      match cl_phase cl with
      | Registered frame =>
          match ct_egress c with
          | None => upd_call i (Returned (Err NotConnected)) c
          | Some k => upd_call i (Cloned frame k) c
          end
      | Cloned frame k =>
          let a := ct_receipts c in
          let '(c, r) :=
            on_egress k (λ e, if cl_faf cl then send_faf e frame else send_acked e frame a)
              (set_counters (ct_next_id c) (S a) c) in
          match r with
          | Some (Ok _) => upd_call i (if cl_faf cl then Returned (Ok None) else WaitAck k a) c
          | Some (Err e) =>
              upd_call i (Returned (Err e)) (set_pending (delete (cl_id cl) (ct_pending c)) c)
          | None => c
          end
      | WaitAck k a =>
          match list_find (λ r, r.1 = a) (default [] (eg_acks ∘ cn_egress <$> ct_conns c !! k)) with
          | Some (_, (_, true)) => upd_call i (WaitResponse k) c
          | Some (_, (_, false)) =>
              upd_call i (Returned (Err Closed)) (set_pending (delete (cl_id cl) (ct_pending c)) c)
          | None => c
          end
      | WaitResponse k =>
          match ct_delivered c !! cl_id cl with
          | Some r => upd_call i (Returned (Ok (Some r))) c
          | None =>
              match ct_pending c !! cl_id cl with
              | Some SlotRespond => c
              | _ => upd_call i (Returned (Err Closed)) c
              end
          end
      | Returned _ => c
      end
  end.

(** [write_control_frame] / [write_data_frame] of encoded bytes. *)
Definition carrier_write (control : bool) (bytes : list byte) c :
    Carrier * result unit XacppError :=
  match ct_egress c with
  | None => (c, Err NotConnected)
  | Some k =>
      let '(c, r) := on_egress k (λ e, if control then send_control e bytes
                                       else send_faf e bytes) c in
      (c, default (Err NotConnected) r)
  end.

(** ** Interleavings *)

Inductive CarrierOp : Type :=
  | OpConnectBegin (tcp : bool)
  | OpConnectFinish
  | OpDisconnect
  | OpOnRequest
  | OpHooks (hooks : bool)
  | OpWrite (control : bool) (bytes : list byte)
  | OpDrain (k : nat) (ok : bool)
  | OpRead (k : nat) (data : list byte)
  | OpReadStop (k : nat) (failed : bool)
  | OpDispatch (k : nat) (fresh : txid)
  | OpHandlerDone (i : nat) (r : result XacppResponse XacppError) (fresh : txid)
  | OpStart (faf : bool) (sid : option string) (req : XacppRequest) (fresh : txid)
  | OpCall (i : nat).

(** [connect_lock] keeps [connect] and [disconnect] apart. *)
Definition carrier_exec c (op : CarrierOp) : Carrier :=
  match op with
  | OpConnectBegin tcp => if ct_connecting c is None then (connect_begin tcp c).1 else c
  | OpConnectFinish => connect_finish c
  | OpDisconnect => if ct_connecting c is None then carrier_disconnect c else c
  | OpOnRequest => (carrier_on_request c).1
  | OpHooks hooks => set_hooks (ct_handler c) hooks c
  | OpWrite control bytes => (carrier_write control bytes c).1
  | OpDrain k ok => drain_conn k ok c
  | OpRead k data => read_envelope k data c
  | OpReadStop k failed => read_stop k failed c
  | OpDispatch k fresh => dispatch_step k fresh c
  | OpHandlerDone i r fresh => handler_done i r fresh c
  | OpStart faf sid req fresh => call_start faf sid req fresh c
  | OpCall i => call_step i c
  end.

Definition carrier_run (client inline : bool) (ops : list CarrierOp) : Carrier :=
  foldl carrier_exec (Carrier_new client inline) ops.

(** ** What a connection owes its callers *)

Fixpoint before_close (q : list EgressItem) : list EgressItem :=
  match q with
  | [] | EClose :: _ => []
  | i :: q => i :: before_close q
  end.

(** The receipts handed out on a connection, resolved or queued. *)
Definition receipts_of (e : Egress) : list nat := (eg_acks e).*1 ++ acks_of (eg_data e).

(** A receipt that will not be resolved with success any more. *)
Definition doomed (e : Egress) (a : nat) : Prop :=
  (a ∉ acks_of (before_close (eg_data e))) ∧ ((a, true) ∉ eg_acks e).

Definition live cn : bool := cn_dispatching cn && eg_running (cn_egress cn).

Record conn_ok (n : nat) cn : Prop := {
  co_handles : eg_handles (cn_egress cn) = true;
  co_open : cn_dispatching cn = true → EClose ∉ eg_data (cn_egress cn);
  co_closing : cn_dispatching cn = false → eg_running (cn_egress cn) = true →
    EClose ∈ eg_data (cn_egress cn);
  co_ended : eg_running (cn_egress cn) = false → eg_data (cn_egress cn) = [];
  co_fresh : ∀ a, a ∈ receipts_of (cn_egress cn) → a < n;
  co_unique : NoDup (receipts_of (cn_egress cn));
}.

(** A step of a connection: receipts are kept, and on a dead connection a doomed
    receipt (of those handed out so far) stays doomed. *)
Record conn_step (n : nat) cn cn' : Prop := {
  cs_receipts : receipts_of (cn_egress cn) ⊆ receipts_of (cn_egress cn');
  cs_doomed : live cn = false →
    live cn' = false ∧ ∀ a, a < n → doomed (cn_egress cn) a → doomed (cn_egress cn') a;
}.

Lemma before_close_app q q' :
  before_close (q ++ q') =
  if decide (EClose ∈ q) then before_close q else before_close q ++ before_close q'.
Proof using Type.
  induction q as [|[f a|] q IH]; cbn.
  - by destruct (decide _) as [H|H]; [apply elem_of_nil in H|].
  - rw IH. destruct (decide (EClose ∈ q)), (decide (EClose ∈ EFrame f a :: q)); set_solver.
  - destruct (decide (EClose ∈ EClose :: q)) as [H|H]; [done|]. destruct H. by left.
Qed.

Lemma acks_of_app q q' : acks_of (q ++ q') = acks_of q ++ acks_of q'.
Proof using Type. apply omap_app. Qed.

Lemma before_close_acks q : acks_of (before_close q) ⊆ acks_of q.
Proof using Type.
  induction q as [|[f a|] q IH]; cbn; [done| |set_solver]. destruct a; set_solver.
Qed.

Lemma conn_step_refl n cn : conn_step n cn cn.
Proof using Type. by split. Qed.

Lemma conn_ok_mono n n' cn : conn_ok n cn → n ≤ n' → conn_ok n' cn.
Proof using Type.
  intros [] ?. split; try done. intros a Ha. specialize (co_fresh0 a Ha). lia.
Qed.

(** An egress with the same queue of data frames, receipts and task. *)
Definition same_core (e e' : Egress) : Prop :=
  eg_data e' = eg_data e ∧ eg_acks e' = eg_acks e ∧ eg_handles e' = eg_handles e ∧
  eg_running e' = eg_running e.

Lemma same_core_ok n cn e' :
  conn_ok n cn → same_core (cn_egress cn) e' →
  conn_ok n (set_egress e' cn) ∧ conn_step n cn (set_egress e' cn) ∧
  live (set_egress e' cn) = live cn.
Proof using Type.
  intros [] (Hd & Ha & Hh & Hr). unfold receipts_of in *.
  split; [|split]; [split|split|unfold live]; cbn; unfold receipts_of, live, doomed; cbn;
    by rw ?Hd ?Ha ?Hh ?Hr.
Qed.

(** A frame is queued, with receipt [n] or with none. *)
Lemma enqueue_ok n n' cn e' f oa :
  conn_ok n cn → eg_running (cn_egress cn) = true → n ≤ n' →
  (oa = None ∨ oa = Some n ∧ n < n') →
  same_core (set_queues (eg_data (cn_egress cn) ++ [EFrame f oa]) (eg_control (cn_egress cn))
               (cn_egress cn)) e' →
  conn_ok n' (set_egress e' cn) ∧ conn_step n cn (set_egress e' cn) ∧
  live (set_egress e' cn) = live cn.
Proof using Type.
  intros [Hh Ho Hc He Hf Hu] Hrun Hn Hoa (Hd & Ha & Hh' & Hr). cbn in *.
  assert (Hrec : receipts_of e' = receipts_of (cn_egress cn) ++ acks_of [EFrame f oa]).
  { unfold receipts_of. by rw Hd Ha acks_of_app app_assoc. }
  split_and!; [split|split|]; unfold live; cbn [set_egress cn_egress cn_dispatching].
  - by rw Hh'.
  - intros Hdis. rw Hd. specialize (Ho Hdis). set_solver.
  - intros Hdis _. rw Hd. specialize (Hc Hdis Hrun). set_solver.
  - by rw Hr Hrun.
  - intros a. rw Hrec elem_of_app. intros [Hx|Hx]; [specialize (Hf a Hx); lia|].
    destruct Hoa as [->|[-> ?]]; cbn in Hx; set_solver by lia.
  - rw Hrec. apply NoDup_app. split; [done|]. destruct Hoa as [->|[-> _]]; cbn.
    + split; [by intros ?? ?%elem_of_nil|constructor].
    + split; [|apply NoDup_singleton]. intros a Hx ->%list_elem_of_singleton.
      specialize (Hf _ Hx). lia.
  - rw Hrec. set_solver.
  - intros Hdead. rw Hr Hrun. rw Hrun in Hdead. split; [done|].
    rw andb_true_r in Hdead. intros a _ [Hb Hx]. split; [|by rw Ha].
    rw Hd before_close_app. destruct (decide _) as [|Hnc]; [done|]. by destruct Hnc; apply Hc.
  - by rw Hr Hrun.
Qed.

(** The close marker is queued and the dispatch task ends. *)
Lemma close_ok n cn e' reading :
  conn_ok n cn →
  same_core (if eg_running (cn_egress cn)
             then set_queues (eg_data (cn_egress cn) ++ [EClose]) (eg_control (cn_egress cn))
                    (cn_egress cn)
             else cn_egress cn) e' →
  let cn' := mkConnection e' (cn_inbox cn) reading false in
  conn_ok n cn' ∧ conn_step n cn cn'.
Proof using Type.
  intros [Hh Ho Hc He Hf Hu] Hcore.
  assert (Hrec : receipts_of e' = receipts_of (cn_egress cn)).
  { unfold receipts_of. destruct Hcore as (Hd & Ha & _). rw Hd Ha.
    destruct (eg_running (cn_egress cn)); [|done]. cbn [eg_data set_queues eg_acks].
    by rw acks_of_app app_nil_r. }
  assert (Hbc : before_close (eg_data e') = before_close (eg_data (cn_egress cn))).
  { destruct Hcore as (Hd & _). rw Hd. destruct (eg_running (cn_egress cn)); [|done].
    cbn [eg_data set_queues]. rw before_close_app app_nil_r. by destruct (decide _). }
  destruct Hcore as (Hd & Ha & Hh' & Hr).
  split; [split|split]; cbn [cn_egress cn_dispatching]; rw ?Hrec; try done.
  - rw Hh'. by destruct (eg_running _).
  - intros _ Hrun. rw Hd. rw Hr in Hrun. destruct (eg_running (cn_egress cn)) eqn:E; cbn in *.
    + set_solver.
    + by rw E in Hrun.
  - rw Hr Hd. by destruct (eg_running (cn_egress cn)) eqn:E; cbn; rw ?E; auto.
  - intros _. split; [done|]. intros a _ [Hb Hx]. split; [by rw Hbc|].
    rw Ha. by destruct (eg_running _).
Qed.

(** The drain task ends, for whatever reason: what was queued fails. *)
Lemma exit_ok n cn e' :
  conn_ok n cn → eg_running e' = false → eg_data e' = [] → eg_handles e' = true →
  eg_acks e' = eg_acks (cn_egress cn) ++ ((λ a, (a, false)) <$> acks_of (eg_data (cn_egress cn))) →
  conn_ok n (set_egress e' cn) ∧ conn_step n cn (set_egress e' cn).
Proof using Type.
  intros [Hh Ho Hc He Hf Hu] Hr Hd Hh' Ha.
  assert (Hrec : receipts_of e' = receipts_of (cn_egress cn)).
  { unfold receipts_of. by rw Hd Ha fmap_app fst_failed app_nil_r. }
  split; [split|split]; unfold live; cbn [set_egress cn_egress cn_dispatching];
    rw ?Hrec ?Hr ?Hd ?Ha; try done.
  - intros _. apply not_elem_of_nil.
  - intros _. split; [by rw andb_false_r|]. intros a _ [_ Hx]. split; [by rw Hd; apply not_elem_of_nil|].
    rw Ha elem_of_app list_elem_of_fmap. by intros [?|(? & [=] & _)].
Qed.

(** The head of the queue reaches the writer. *)
Lemma written_ok n cn e' f oa rest :
  conn_ok n cn → eg_running (cn_egress cn) = true →
  eg_data (cn_egress cn) = EFrame f oa :: rest →
  eg_data e' = rest → eg_handles e' = true → eg_running e' = true →
  eg_acks e' = eg_acks (cn_egress cn) ++ match oa with Some a => [(a, true)] | None => [] end →
  conn_ok n (set_egress e' cn) ∧ conn_step n cn (set_egress e' cn) ∧
  live (set_egress e' cn) = live cn.
Proof using Type.
  intros [Hh Ho Hc He Hf Hu] Hrun Hq Hd Hh' Hr Ha.
  assert (Hrec : receipts_of e' = receipts_of (cn_egress cn)).
  { unfold receipts_of. rw Hd Ha Hq fmap_app -app_assoc. by destruct oa. }
  split_and!; [split|split|]; unfold live; cbn [set_egress cn_egress cn_dispatching];
    rw ?Hrec ?Hr ?Hd ?Hrun; try done.
  - intros Hdis. specialize (Ho Hdis). rw Hq in Ho. set_solver.
  - intros Hdis _. specialize (Hc Hdis Hrun). rw Hq in Hc. set_solver.
  - intros Hdead. split; [done|]. intros a _ [Hb Hx]. unfold doomed. rw Hd Ha.
    rw Hq in Hb. cbn in Hb. destruct oa; cbn in Hb; set_solver.
Qed.

Lemma task_exit_handles e : eg_handles (task_exit e) = eg_handles e.
Proof using Type.
  unfold task_exit. cbn. unfold fail_acks. generalize (eg_data e). intros l. revert e.
  induction l as [|[f a|] l IH]; intros e; [done|..]; cbn; by rw IH.
Qed.

(** What a turn of the drain task owes: either the connection's callers were all
    released, or it is as live as before. *)
Definition drained n cn c (e' : Egress) : Prop :=
  conn_ok n (set_egress e' cn) ∧ conn_step n cn (set_egress e' cn) ∧
  (eg_pending e' = ∅ ∨
   eg_pending e' = ct_pending c ∧ (live cn = true → live (set_egress e' cn) = true)).

Lemma drained_same n cn c e' :
  conn_ok n cn → same_core (cn_egress cn) e' → eg_pending e' = ct_pending c → drained n cn c e'.
Proof using Type.
  intros Hok Hc Hp. destruct (same_core_ok n cn e' Hok Hc) as (? & ? & Hl).
  split_and!; [done..|]. right. by rw Hl.
Qed.

Lemma drained_exit n cn c e1 :
  conn_ok n cn → eg_handles e1 = true →
  eg_acks e1 ++ ((λ a, (a, false)) <$> acks_of (eg_data e1)) =
  eg_acks (cn_egress cn) ++ ((λ a, (a, false)) <$> acks_of (eg_data (cn_egress cn))) →
  (eg_pending e1 = ∅ ∨ eg_pending e1 = ct_pending c ∧ live cn = false) →
  drained n cn c (task_exit e1).
Proof using Type.
  intros Hok Hh1 Ha1 Hp1. destruct (task_exit_spec e1) as (H1 & H2 & _ & H4 & _ & _ & H7).
  destruct (exit_ok n cn (task_exit e1)) as [? ?]; [done..|by rw task_exit_handles|by rw H4|].
  split_and!; [done..|]. rw H7. destruct Hp1 as [?|[? Hl]]; [by left|right].
  by rw Hl.
Qed.

Lemma drain_data_ok n cn c ok :
  conn_ok n cn → eg_running (cn_egress cn) = true →
  drained n cn c (drain_data (load c (cn_egress cn)) ok).
Proof using Type.
  intros Hok Hrun. pose proof Hok as [Hh Ho Hc He Hf Hu]. set (e := load c (cn_egress cn)).
  unfold drain_data. change (eg_data e) with (eg_data (cn_egress cn)).
  change (eg_handles e) with (eg_handles (cn_egress cn)). rw Hh.
  destruct (eg_data (cn_egress cn)) as [|[f oa|] rest] eqn:Hq.
  - by apply drained_same.
  - destruct ok.
    + destruct (written_ok n cn (resolve oa true (log_write DataCh f (set_queues rest (eg_control e) e)))
        f oa rest) as (? & ? & Hl); try done.
      { by destruct oa; cbn; rw ?app_nil_r. }
      split_and!; [done..|]. right. by rw Hl.
    + apply drained_exit; [done|done| |by left]. rw Hq. destruct oa; cbn; by rw -?app_assoc.
  - apply drained_exit; [done|done|by rw Hq|right]. split; [done|].
    apply not_true_iff_false. intros [Hdis _]%andb_true_iff. destruct (Ho Hdis). by left.
Qed.

Lemma drain_ok n cn c ok :
  conn_ok n cn → drained n cn c (drain_step (load c (cn_egress cn)) ok).
Proof using Type.
  intros Hok. pose proof Hok as [Hh _ _ _ _ _]. set (e := load c (cn_egress cn)).
  unfold drain_step. destruct (eg_running e) eqn:Hrun; cbn [negb]; [|by apply drained_same].
  pose proof (drain_data_ok n cn c ok Hok Hrun) as Hdata.
  change (eg_handles e) with (eg_handles (cn_egress cn)). rw Hh.
  destruct (eg_control_open e), (eg_control e) as [|[f oa|] rest]; try exact Hdata.
  - destruct ok; [by apply drained_same|]. apply drained_exit; [done..|by left].
  - by apply drained_same.
Qed.

(** ** The invariant of a transport *)

Definition slot_waits c (id : string) : Prop := ct_pending c !! id = Some SlotRespond.

Definition call_ok c (cl : Call) : Prop :=
  match cl_phase cl with
  | Registered _ | Returned _ => True
  | Cloned _ k => is_Some (ct_conns c !! k)
  | WaitAck k a => ∃ cn, ct_conns c !! k = Some cn ∧ a ∈ receipts_of (cn_egress cn) ∧
      (slot_waits c (cl_id cl) → live cn = true ∨ doomed (cn_egress cn) a)
  | WaitResponse k => ∃ cn, ct_conns c !! k = Some cn ∧
      (slot_waits c (cl_id cl) → live cn = true)
  end.

(** Outside [connect] the egress and the task handle belong to one connection. *)
Definition slots_ok c : Prop :=
  (∀ k, ct_egress c = Some k → k < length (ct_conns c)) ∧
  match ct_connecting c with
  | None => ct_reader_handle c = ct_egress c
  | Some k => ct_egress c = Some k
  end.

Record carrier_inv c : Prop := {
  ci_next : ct_next_id c = (N.of_nat (length (ct_calls c)) + 1)%N;
  ci_ids : ∀ i cl, ct_calls c !! i = Some cl → cl_id cl = request_id (N.of_nat i + 1);
  ci_conns : ∀ k cn, ct_conns c !! k = Some cn → conn_ok (ct_receipts c) cn;
  ci_calls : ∀ i cl, ct_calls c !! i = Some cl → call_ok c cl;
  ci_slots : slots_ok c;
}.

(** A step that is not a call's: connections step, slots only empty, and a
    connection that dies releases every waiting caller. *)
Record evolves c c' : Prop := {
  ev_calls : ct_calls c' = ct_calls c;
  ev_next : ct_next_id c' = ct_next_id c;
  ev_conns : ∀ k cn, ct_conns c !! k = Some cn → ∃ cn', ct_conns c' !! k = Some cn' ∧
    conn_step (ct_receipts c) cn cn' ∧
    (live cn = true → live cn' = true ∨ ∀ id, ¬ slot_waits c' id);
  ev_ok : ∀ k cn', ct_conns c' !! k = Some cn' → conn_ok (ct_receipts c') cn';
  ev_pending : ∀ id, slot_waits c' id → slot_waits c id;
}.

Lemma call_ok_evolves c c' cl :
  (∀ k cn, ct_conns c !! k = Some cn → conn_ok (ct_receipts c) cn) →
  evolves c c' → call_ok c cl → call_ok c' cl.
Proof using Type.
  intros Hok [_ _ Hcn _ Hp]. unfold call_ok. destruct (cl_phase cl) as [|f k|k a|k|]; try done.
  - intros [cn Hk]. destruct (Hcn _ _ Hk) as (cn' & -> & _). by eexists.
  - intros (cn & Hk & Ha & Hw). destruct (Hcn _ _ Hk) as (cn' & Hk' & [Hr Hd] & Hl).
    exists cn'. split; [done|]. split; [by apply Hr|]. intros Hs.
    destruct (live cn) eqn:El.
    { destruct (Hl eq_refl) as [?|Hn]; [by left|]. by destruct (Hn _ Hs). }
    destruct (Hw (Hp _ Hs)) as [|Hdm]; [done|]. right. apply Hd; [done| |done].
    by apply (Hok _ _ Hk).
  - intros (cn & Hk & Hw). destruct (Hcn _ _ Hk) as (cn' & Hk' & _ & Hl).
    exists cn'. split; [done|]. intros Hs. destruct (Hl (Hw (Hp _ Hs))) as [?|Hn]; [done|].
    by destruct (Hn _ Hs).
Qed.

Lemma inv_evolves c c' : carrier_inv c → evolves c c' → slots_ok c' → carrier_inv c'.
Proof using Type.
  intros [Hn Hi Hc Hk Hs] Hev Hs'. pose proof Hev as [E1 E2 _ E4 _].
  split; rw ?E1 ?E2; try done.
  intros i cl Hcl. eapply call_ok_evolves; [exact Hc|exact Hev|by eapply Hk].
Qed.

(** One connection changes. *)
Lemma evolves_conn c c' k f :
  (∀ k cn, ct_conns c !! k = Some cn → conn_ok (ct_receipts c) cn) →
  ct_conns c' = alter f k (ct_conns c) →
  ct_calls c' = ct_calls c → ct_next_id c' = ct_next_id c →
  ct_receipts c ≤ ct_receipts c' →
  (∀ cn, ct_conns c !! k = Some cn →
     conn_ok (ct_receipts c') (f cn) ∧ conn_step (ct_receipts c) cn (f cn) ∧
     (live cn = true → live (f cn) = true ∨ ∀ id, ¬ slot_waits c' id)) →
  (∀ id, slot_waits c' id → slot_waits c id) →
  evolves c c'.
Proof using Type.
  intros Hok Hc Hcl Hn Hr Hf Hp. split; try done.
  - intros k' cn Hk. rw Hc. destruct (decide (k = k')) as [<-|Hne].
    + rw list_lookup_alter_eq Hk. eexists. split; [done|]. by apply Hf.
    + rw list_lookup_alter_ne //. eexists. split; [done|]. split; [apply conn_step_refl|by left].
  - intros k' cn'. rw Hc. destruct (decide (k = k')) as [<-|Hne].
    + rw list_lookup_alter_eq. intros (cn & Hk & ->)%fmap_Some. by apply Hf.
    + rw list_lookup_alter_ne //. intros Hk. eapply conn_ok_mono; [by eapply Hok|done].
Qed.

(** The connections are as they were. *)
Lemma inv_same c c' :
  carrier_inv c → ct_conns c' = ct_conns c → ct_calls c' = ct_calls c →
  ct_next_id c' = ct_next_id c → ct_receipts c ≤ ct_receipts c' →
  (∀ id, slot_waits c' id → slot_waits c id) → slots_ok c' → carrier_inv c'.
Proof using Type.
  intros Hi Hc Hcl Hn Hr Hp Hs. eapply inv_evolves; [exact Hi| |done].
  eapply (evolves_conn c c' 0 id); try done; [apply Hi|by rw list_alter_id|].
  intros cn Hk. split; [|split; [apply conn_step_refl|by left]].
  eapply conn_ok_mono; [by eapply Hi|done].
Qed.

(** An egress operation that queues at most one frame, with receipt [n] if any,
    and leaves the flags alone. *)
Definition sending (n n' : nat) {A} (op : Egress → Egress * A) : Prop :=
  ∀ e, eg_pending (op e).1 = eg_pending e ∧
    (same_core e (op e).1 ∨
     eg_running e = true ∧ ∃ f oa, (oa = None ∨ oa = Some n ∧ n < n') ∧
       same_core (set_queues (eg_data e ++ [EFrame f oa]) (eg_control e) e) (op e).1).

Lemma send_acked_sending n n' f : n < n' → sending n n' (λ e, send_acked e f n).
Proof using Type.
  intros Hn e. unfold send_acked, push_data.
  destruct (eg_connected e); [|by split; [|left]]. cbn [negb].
  destruct (eg_running e) eqn:Hr; [|by split; [|left]]. split; [done|right].
  split; [done|]. exists f, (Some n). split; [by right|done].
Qed.

Lemma send_faf_sending n n' f : sending n n' (λ e, send_faf e f).
Proof using Type.
  intros e. unfold send_faf, push_data.
  destruct (eg_connected e); [|by split; [|left]]. cbn [negb].
  destruct (eg_running e) eqn:Hr; [|by split; [|left]]. split; [done|right].
  split; [done|]. exists f, None. split; [by left|done].
Qed.

Lemma send_control_sending n n' f : sending n n' (λ e, send_control e f).
Proof using Type.
  intros e. unfold send_control. destruct (eg_connected e); [|by split; [|left]].
  destruct (eg_running e) eqn:Hr; by split; [|left].
Qed.

Lemma on_egress_fields {A} k (op : Egress → Egress * A) c :
  let c' := (on_egress k op c).1 in
  ct_calls c' = ct_calls c ∧ ct_next_id c' = ct_next_id c ∧ ct_receipts c' = ct_receipts c ∧
  length (ct_conns c') = length (ct_conns c) ∧ ct_egress c' = ct_egress c ∧
  ct_connecting c' = ct_connecting c ∧ ct_reader_handle c' = ct_reader_handle c ∧
  ct_delivered c' = ct_delivered c.
Proof using Type.
  unfold on_egress. destruct (ct_conns c !! k) as [cn|]; [|done].
  destruct (op _) as [e r]. cbn. by rw length_alter.
Qed.

Lemma slots_ok_fields c c' :
  slots_ok c → ct_egress c' = ct_egress c → ct_connecting c' = ct_connecting c →
  ct_reader_handle c' = ct_reader_handle c → length (ct_conns c) ≤ length (ct_conns c') →
  slots_ok c'.
Proof using Type.
  intros [H1 H2] He Hc Hr Hl. unfold slots_ok. rw He Hc Hr. split; [|done].
  intros k Hk. specialize (H1 k Hk). lia.
Qed.

Lemma inv_sending {A} k (op : Egress → Egress * A) c n' :
  carrier_inv c → ct_receipts c ≤ n' → sending (ct_receipts c) n' op →
  carrier_inv (on_egress k op (set_counters (ct_next_id c) n' c)).1.
Proof using Type.
  intros Hi Hn Hs. set (c1 := set_counters _ _ c).
  destruct (on_egress_fields k op c1) as (H1 & H2 & H3 & H4 & H5 & H6 & H7 & _).
  eapply inv_evolves; [exact Hi| |].
  2:{ eapply slots_ok_fields; [apply Hi|done..|by rw H4]. }
  unfold on_egress in *. change (ct_conns c1) with (ct_conns c) in *.
  destruct (ct_conns c !! k) as [cn|] eqn:Hk.
  2:{ eapply (evolves_conn c c1 k id); try done; [apply Hi|by rw list_alter_id|].
      by rw Hk. }
  specialize (Hs (load c1 (cn_egress cn))).
  destruct (op (load c1 (cn_egress cn))) as [e' r]. cbn [fst] in *.
  destruct Hs as [Hp Hcore].
  assert (Hpend : ∀ id, slot_waits (store k e' c1) id → slot_waits c id).
  { intros id. unfold slot_waits. cbn. by rw Hp. }
  eapply (evolves_conn c _ k (set_egress e')); try done; [apply Hi|].
  intros cn0. rw Hk. intros [= <-]. cbn [ct_receipts store set_shared set_conns set_counters c1].
  pose proof (ci_conns c Hi k cn Hk) as Hok.
  destruct Hcore as [Hc|(Hrun & f & oa & Hoa & Hc)].
  - destruct (same_core_ok (ct_receipts c) cn e') as (Ho & Hst & Hl); [done|done|].
    split; [by eapply conn_ok_mono|]. split; [done|]. intros; left; by rw Hl.
  - destruct (enqueue_ok (ct_receipts c) n' cn e' f oa) as (Ho & Hst & Hl); try done.
    split_and!; [done..|]. intros; left; by rw Hl.
Qed.

Lemma set_counters_id c : set_counters (ct_next_id c) (ct_receipts c) c = c.
Proof using Type. by destruct c. Qed.

Lemma inv_write control bytes c :
  carrier_inv c → carrier_inv (carrier_write control bytes c).1.
Proof using Type.
  intros Hi. unfold carrier_write. destruct (ct_egress c) as [k|]; [|done].
  pose proof (inv_sending k (λ e, if control then send_control e bytes else send_faf e bytes)
    c (ct_receipts c) Hi) as H.
  rw set_counters_id in H. destruct (on_egress k _ c) as [c' r]. apply H; [done|].
  destruct control; [apply send_control_sending|apply send_faf_sending].
Qed.

Lemma inv_send_response k msg fresh c :
  carrier_inv c → carrier_inv (send_response k msg fresh c).
Proof using Type.
  intros Hi. unfold send_response. destruct (serialize_envelope msg fresh); [|done].
  apply inv_sending; [done|lia|]. apply send_acked_sending. lia.
Qed.

Lemma inv_drain k ok c : carrier_inv c → carrier_inv (drain_conn k ok c).
Proof using Type.
  intros Hi. unfold drain_conn.
  destruct (on_egress_fields k (λ e, (drain_step e ok, tt)) c) as (H1 & H2 & H3 & H4 & H5 & H6 & H7 & _).
  eapply inv_evolves; [exact Hi| |].
  2:{ eapply slots_ok_fields; [apply Hi|done..|by rw H4]. }
  unfold on_egress in *. destruct (ct_conns c !! k) as [cn|] eqn:Hk.
  2:{ eapply (evolves_conn c c k id); try done; [apply Hi|by rw list_alter_id|by rw Hk]. }
  cbn [fst] in *. set (e' := drain_step _ ok) in *.
  destruct (drain_ok (ct_receipts c) cn c ok) as (Ho & Hst & Hl); [by eapply Hi|].
  fold e' in Ho, Hst, Hl.
  eapply (evolves_conn c _ k (set_egress e')); try done; [apply Hi| |].
  - intros cn0. rw Hk. intros [= <-]. split_and!; [done..|]. intros Hlive.
    destruct Hl as [Hp|[_ Hl]]; [right|by left; apply Hl].
    intros id. unfold slot_waits. cbn. rw Hp. by rw lookup_empty.
  - intros id. unfold slot_waits. cbn. destruct Hl as [->|[-> _]]; [by rw lookup_empty|done].
Qed.

(** Only the envelope channel or the read flag of a connection changes. *)
Lemma inv_inbox k inbox reading c :
  carrier_inv c → carrier_inv (upd_conn k (set_inbox inbox reading) c).
Proof using Type.
  intros Hi. eapply inv_evolves; [exact Hi| |].
  2:{ eapply slots_ok_fields; [apply Hi|done..|by cbn; rw length_alter]. }
  eapply (evolves_conn c _ k (set_inbox inbox reading)); try done; [apply Hi|].
  intros cn Hk. destruct (ci_conns c Hi k cn Hk). split; [by split|]. split; [|by left].
  by split.
Qed.

Lemma inv_read k data c : carrier_inv c → carrier_inv (read_envelope k data c).
Proof using Type.
  intros Hi. unfold read_envelope. destruct (ct_conns c !! k) as [cn|]; [|done].
  destruct (cn_reading cn), (cn_dispatching cn); cbn [negb]; try done; by apply inv_inbox.
Qed.

Lemma inv_read_stop k failed c : carrier_inv c → carrier_inv (read_stop k failed c).
Proof using Type.
  intros Hi. unfold read_stop. destruct (ct_conns c !! k) as [cn|]; [|done].
  destruct (cn_reading cn); cbn [negb]; [|done]. set (c1 := upd_conn _ _ c).
  assert (Hi1 : carrier_inv c1) by by apply inv_inbox.
  eapply inv_same; [exact Hi1|done..|]. by apply Hi1.
Qed.

Lemma egress_close_core c e :
  same_core (if eg_running e then set_queues (eg_data e ++ [EClose]) (eg_control e) e else e)
    (egress_close (load c e)).
Proof using Type.
  unfold egress_close, push_data. cbn. by destruct (eg_running e) eqn:Hr; unfold same_core; cbn; rw ?Hr.
Qed.

(** Close the egress, end the dispatch task, release every caller. *)
Lemma inv_close k c c0 c' (reading : Connection → bool) :
  carrier_inv c →
  ct_conns c' = alter (λ cn, mkConnection (egress_close (load c0 (cn_egress cn)))
                         (cn_inbox cn) (reading cn) false) k (ct_conns c) →
  ct_calls c' = ct_calls c → ct_next_id c' = ct_next_id c → ct_receipts c' = ct_receipts c →
  ct_pending c' = ∅ → slots_ok c' → carrier_inv c'.
Proof using Type.
  intros Hi Hc Hcl Hn Hr Hp Hs.
  assert (Hnw : ∀ id, ¬ slot_waits c' id).
  { intros id. unfold slot_waits. rw Hp. by rw lookup_empty. }
  eapply inv_evolves; [exact Hi| |done].
  eapply (evolves_conn c c' k _); [apply Hi|exact Hc|done|done|by rw Hr| |].
  - intros cn Hk. rw Hr.
    destruct (close_ok (ct_receipts c) cn (egress_close (load c0 (cn_egress cn))) (reading cn))
      as [? ?]; [by eapply Hi|apply egress_close_core|].
    split_and!; [done..|]. by right.
  - intros id Hw. by destruct (Hnw id).
Qed.

Lemma alter_absent {A} (f : A → A) k (l : list A) : l !! k = None → alter f k l = l.
Proof using Type.
  intros Hk. apply list_eq. intros i. destruct (decide (k = i)) as [<-|Hne].
  - by rw list_lookup_alter_eq Hk.
  - by rw list_lookup_alter_ne.
Qed.

Lemma inv_dispatch_exit k c : carrier_inv c → carrier_inv (dispatch_exit k c).
Proof using Type.
  intros Hi. unfold dispatch_exit, close_conn, on_egress. set (c1 := set_shared false _ ∅ c).
  change (ct_conns c1) with (ct_conns c). destruct (ct_conns c !! k) as [cn|] eqn:Hk.
  - eapply (inv_close k c c1 _ cn_reading); try done.
    + cbn. rw list_alter_alter_eq. apply list_alter_ext; [|done].
      intros cn' Hk'. rw Hk in Hk'. by injection Hk' as <-.
    + cbn. unfold push_data. cbn. by destruct (eg_running _).
    + eapply slots_ok_fields; [apply Hi|done..|]. cbn. by rw !length_alter.
  - eapply inv_same; [exact Hi| |done..| |].
    + cbn. by apply alter_absent.
    + intros id. unfold slot_waits. cbn. by rw lookup_empty.
    + eapply slots_ok_fields; [apply Hi|done..|]. cbn. by rw length_alter.
Qed.

Lemma inv_disconnect c :
  carrier_inv c → ct_connecting c = None → carrier_inv (carrier_disconnect c).
Proof using Type.
  intros Hi Hcn. pose proof (ci_slots c Hi) as [Hlt Hs]. rw Hcn in Hs.
  unfold carrier_disconnect. cbn [ct_egress set_shared set_hooks].
  destruct (ct_egress c) as [k|] eqn:He.
  - destruct (lookup_lt_is_Some_2 (ct_conns c) k) as [cn Hk]; [by apply Hlt|].
    unfold close_conn, on_egress. cbn [ct_conns set_shared set_hooks]. rw Hk.
    cbn [fst ct_reader_handle set_slots store set_shared set_conns set_hooks]. rw Hs.
    eapply (inv_close k c (set_shared false (ct_closed c) (ct_pending c) (set_hooks (ct_handler c) false c))
      _ (λ cn, if ct_inline c then false else cn_reading cn)); try done.
    + cbn. rw list_alter_alter_eq. apply list_alter_ext; [|done].
      intros cn' Hk'. rw Hk in Hk'. by injection Hk' as <-.
    + split; [done|]. cbn. by rw Hcn.
  - cbn [ct_reader_handle set_shared set_hooks]. rw Hs.
    eapply inv_same; [exact Hi|done..| |].
    + intros id. unfold slot_waits. cbn. by rw lookup_empty.
    + eapply slots_ok_fields; [apply Hi|done..].
Qed.

Lemma new_conn_ok n connected closed pending :
  conn_ok n (mkConnection (spawn_egress connected closed pending) [] true true).
Proof using Type.
  split; try done; cbn.
  - intros _. apply not_elem_of_nil.
  - by intros a ?%elem_of_nil.
  - constructor.
Qed.

Lemma inv_connect_begin tcp c :
  carrier_inv c → ct_connecting c = None → carrier_inv (connect_begin tcp c).1.
Proof using Type.
  intros Hi Hcn. unfold connect_begin. destruct (ct_connected c); [done|].
  destruct (ct_client c && negb tcp); [done|].
  destruct (negb (ct_client c) && negb (ct_parked c)); [done|].
  cbn [fst]. eapply inv_evolves; [exact Hi| |].
  - split; try done; cbn.
    + intros k cn Hk. exists cn. rw lookup_app_l; [by eapply lookup_lt_Some|].
      split; [done|]. split; [apply conn_step_refl|by left].
    + intros k cn' [Hk|[_ Hk]]%lookup_app_Some; [by eapply Hi|].
      apply list_elem_of_lookup_2, list_elem_of_singleton in Hk as ->. apply new_conn_ok.
  - split; cbn; [|done]. intros k [= <-]. rw length_app /=. lia.
Qed.

Lemma inv_connect_finish c : carrier_inv c → carrier_inv (connect_finish c).
Proof using Type.
  intros Hi. unfold connect_finish. destruct (ct_connecting c) as [k|] eqn:Hk; [|done].
  eapply inv_same; [exact Hi|done..|]. destruct (ci_slots c Hi) as [Hl Hs].
  rw Hk in Hs. split; [exact Hl|]. cbn. by rw Hs.
Qed.

Lemma inv_fields c c' :
  carrier_inv c → ct_conns c' = ct_conns c → ct_calls c' = ct_calls c →
  ct_next_id c' = ct_next_id c → ct_receipts c' = ct_receipts c →
  (∀ id, slot_waits c' id → slot_waits c id) → ct_egress c' = ct_egress c →
  ct_connecting c' = ct_connecting c → ct_reader_handle c' = ct_reader_handle c →
  carrier_inv c'.
Proof using Type.
  intros Hi H1 H2 H3 H4 H5 H6 H7 H8. eapply inv_same; [exact Hi|done..|by rw H4|done|].
  eapply slots_ok_fields; [apply Hi|done..|by rw H1].
Qed.

Lemma inv_dispatch_response id r c :
  carrier_inv c → carrier_inv (dispatch_response id r c).
Proof using Type.
  intros Hi. unfold dispatch_response.
  destruct (ct_pending c !! id) as [[]|]; [..|done]; eapply inv_fields; try done.
  all: intros id'; unfold slot_waits; cbn; by intros [_ ?]%lookup_delete_Some.
Qed.

Lemma inv_dispatch k fresh c : carrier_inv c → carrier_inv (dispatch_step k fresh c).
Proof using Type.
  intros Hi. unfold dispatch_step. destruct (ct_conns c !! k) as [cn|]; [|done].
  destruct (negb (cn_dispatching cn)); [done|].
  destruct (ct_inline c && _); [done|].
  destruct (cn_inbox cn) as [|[data|] rest].
  - destruct (cn_reading cn); [done|by apply inv_dispatch_exit].
  - set (c1 := upd_conn _ _ c). assert (Hi1 : carrier_inv c1) by by apply inv_inbox.
    unfold dispatch_envelope, dispatch_request.
    destruct (envelope_from_slice data) as [[id sid p|id sid p]|]; [..|done].
    + destruct (ct_handler c1); [|by apply inv_send_response]. by eapply inv_fields.
    + by apply inv_dispatch_response.
  - apply inv_dispatch_exit. by apply inv_inbox.
Qed.

Lemma inv_handler_done i r fresh c : carrier_inv c → carrier_inv (handler_done i r fresh c).
Proof using Type.
  intros Hi. unfold handler_done. destruct (ct_inflight c !! i) as [t|]; [|done].
  apply inv_send_response. by eapply inv_fields.
Qed.

(** Ids are not reused before the counter wraps. *)
Definition ids_left c : Prop := (N.of_nat (length (ct_calls c)) + 1 < 2 ^ 64)%N.

Lemma inv_call_start faf sid req fresh c :
  carrier_inv c → ids_left (call_start faf sid req fresh c) →
  carrier_inv (call_start faf sid req fresh c).
Proof using Type.
  intros Hi Hids. pose proof Hi as [Hn Hid Hc Hk Hs].
  set (id := request_id (ct_next_id c)).
  assert (Hgen : ∀ cl m pend, cl_id cl = id →
    (cl_phase cl = Registered m ∨ ∃ e, cl_phase cl = Returned e) →
    (∀ id', id' ≠ id → pend !! id' = ct_pending c !! id') →
    ids_left (set_pending pend (set_calls (ct_calls c ++ [cl])
      (set_counters ((ct_next_id c + 1) mod 2 ^ 64)%N (ct_receipts c) c))) →
    carrier_inv (set_pending pend (set_calls (ct_calls c ++ [cl])
      (set_counters ((ct_next_id c + 1) mod 2 ^ 64)%N (ct_receipts c) c)))).
  { intros cl m pend Hcl Hph Hp Hl. unfold ids_left in Hl. cbn in Hl.
    split; cbn -[N.modulo N.pow]; try done.
    - rw length_app /= in Hl. rw length_app /= Hn N.mod_small; lia.
    - intros i x [Hx|[Hlen Hx]]%lookup_app_Some; [by eapply Hid|].
      pose proof (lookup_lt_Some _ _ _ Hx) as Hlt. cbn in Hlt.
      apply list_elem_of_lookup_2, list_elem_of_singleton in Hx as ->. rw Hcl.
      unfold id. f_equal. rw Hn. lia.
    - intros i x [Hx|[_ Hx]]%lookup_app_Some.
      + assert (Hne : cl_id x ≠ id).
        { rw (Hid _ _ Hx). intros Heq%(inj request_id). apply lookup_lt_Some in Hx. lia. }
        specialize (Hk _ _ Hx). unfold call_ok, slot_waits in *. cbn.
        by destruct (cl_phase x); cbn; rw ?Hp.
      + apply list_elem_of_lookup_2, list_elem_of_singleton in Hx as ->.
        unfold call_ok. by destruct Hph as [->|[e ->]]. }
  revert Hids. unfold call_start. fold id. destruct (serialize_envelope _ fresh) as [f|e]; intros Hids.
  - apply (Hgen _ f); [done|by left| |done]. intros id' Hne. cbn. by rw lookup_insert_ne.
  - apply (Hgen (mkCall id faf (Returned (Err e))) [] (ct_pending c)); try done. right. by eexists.
Qed.

Lemma inv_phase i cl ph c :
  carrier_inv c → ct_calls c !! i = Some cl → call_ok c (set_phase ph cl) →
  carrier_inv (upd_call i ph c).
Proof using Type.
  intros [Hn Hid Hc Hk Hs] Hcl Hok. split; cbn; try done.
  - by rw length_alter.
  - intros j x. destruct (decide (i = j)) as [<-|Hne].
    + rw list_lookup_alter_eq Hcl. intros [= <-]. exact (Hid _ _ Hcl).
    + rw list_lookup_alter_ne //. apply Hid.
  - intros j x. destruct (decide (i = j)) as [<-|Hne].
    + rw list_lookup_alter_eq Hcl. intros [= <-]. exact Hok.
    + rw list_lookup_alter_ne //. apply Hk.
Qed.

Lemma inv_delete id c :
  carrier_inv c → carrier_inv (set_pending (delete id (ct_pending c)) c).
Proof using Type.
  intros Hi. eapply inv_fields; try done.
  intros id'. unfold slot_waits. cbn. by intros [_ ?]%lookup_delete_Some.
Qed.

(** A receipt just handed out is queued on a live connection or doomed. *)
Lemma acked_enqueued k f n c c' :
  (∀ k cn, ct_conns c !! k = Some cn → conn_ok n cn) →
  on_egress k (λ e, send_acked e f n) c = (c', Some (Ok tt)) →
  ∃ cn', ct_conns c' !! k = Some cn' ∧ n ∈ receipts_of (cn_egress cn') ∧
    (live cn' = true ∨ doomed (cn_egress cn') n).
Proof using Type.
  intros Hok. unfold on_egress. destruct (ct_conns c !! k) as [cn|] eqn:Hk; [|done].
  unfold send_acked, push_data. cbn [load eg_connected eg_running].
  destruct (ct_connected c); cbn [negb]; [|done].
  destruct (eg_running (cn_egress cn)) eqn:Hr; [|done]. intros [= <-].
  destruct (Hok _ _ Hk) as [_ _ Hc _ Hf _]. cbn [ct_conns store set_shared set_conns].
  eexists. split; [by rw list_lookup_alter_eq Hk|].
  assert (Hn : n ∉ receipts_of (cn_egress cn)) by (intros ?%Hf; lia).
  unfold receipts_of in Hn. rw not_elem_of_app in Hn. destruct Hn as [Hna Hnd].
  split.
  { unfold receipts_of. cbn [cn_egress set_egress set_queues load eg_acks eg_data].
    rw acks_of_app !elem_of_app. right. right. by left. }
  unfold live. cbn. rw Hr. destruct (cn_dispatching cn); [by left|right].
  split; cbn.
  - rw before_close_app. destruct (decide _) as [|Hx]; [|by destruct Hx; apply Hc].
    intros ?%before_close_acks. done.
  - intros Hx. apply Hna. apply list_elem_of_fmap. by exists (n, true).
Qed.

Lemma inv_call_enqueue i cl frame k c :
  carrier_inv c → ct_calls c !! i = Some cl → cl_phase cl = Cloned frame k →
  carrier_inv (call_step i c).
Proof using Type.
  intros Hi Hcl Hph. unfold call_step. rw Hcl Hph. set (n := ct_receipts c).
  set (op := λ e, if cl_faf cl then send_faf e frame else send_acked e frame n).
  set (c1 := set_counters (ct_next_id c) (S n) c).
  assert (Hi2 : carrier_inv (on_egress k op c1).1).
  { apply inv_sending; [done|unfold n; lia|]. unfold op. destruct (cl_faf cl).
    - apply send_faf_sending.
    - apply send_acked_sending. unfold n. lia. }
  destruct (on_egress_fields k op c1) as (Hcl2 & _).
  destruct (on_egress k op c1) as [c2 r] eqn:Hop. cbn [fst] in *.
  assert (Hcl' : ct_calls c2 !! i = Some cl) by by rw Hcl2.
  destruct r as [[[]|e]|]; [| |done].
  - eapply inv_phase; [done|exact Hcl'|]. unfold call_ok, op in *.
    destruct (cl_faf cl); [done|]. cbn.
    destruct (acked_enqueued k frame n c1 c2) as (cn' & Hk & Hr & Hl); [apply Hi|done|].
    exists cn'. by split_and!.
  - eapply inv_phase; [by apply inv_delete|exact Hcl'|done].
Qed.

(** Uniqueness makes the first matching receipt the only one. *)
Lemma receipt_found (acks : list (nat * bool)) a j b ok :
  list_find (λ r, r.1 = a) acks = Some (j, (b, ok)) → (a, ok) ∈ acks.
Proof using Type.
  intros (Hj & Hb & _)%list_find_Some. cbn in Hb. subst b. by apply list_elem_of_lookup_2 in Hj.
Qed.

Lemma inv_call_step i c : carrier_inv c → carrier_inv (call_step i c).
Proof using Type.
  intros Hi. destruct (ct_calls c !! i) as [cl|] eqn:Hcl; [|by unfold call_step; rw Hcl].
  pose proof (ci_calls c Hi i cl Hcl) as Hok.
  destruct (cl_phase cl) as [f|f k|k a|k|] eqn:Hph.
  2: by eapply inv_call_enqueue.
  all: unfold call_step; rw Hcl Hph; unfold call_ok in Hok; rw Hph in Hok.
  - destruct (ct_egress c) as [k|] eqn:He; [|by eapply inv_phase].
    eapply inv_phase; [done|done|]. cbn. apply lookup_lt_is_Some_2.
    by apply (ci_slots c Hi).
  - destruct Hok as (cn & Hk & Ha & Hw). rw Hk. cbn.
    destruct (list_find _ _) as [[j [b []]]|] eqn:Hf; [| |done].
    + eapply inv_phase; [done|done|]. exists cn. split; [done|]. cbn. intros Hs.
      destruct (Hw Hs) as [|[_ Hd]]; [done|]. by apply receipt_found in Hf.
    + eapply inv_phase; [by apply inv_delete|done|done].
  - destruct (ct_delivered c !! _) as [r|]; [by eapply inv_phase|].
    destruct (ct_pending c !! _) as [[]|]; [done|by eapply inv_phase..].
  - done.
Qed.

(** A step that starts, answers and advances no call. *)
Definition quiet c c' : Prop :=
  ct_calls c' = ct_calls c ∧ ct_delivered c' = ct_delivered c ∧
  ∀ id, slot_waits c' id → slot_waits c id.

Lemma quiet_trans c1 c2 c3 : quiet c1 c2 → quiet c2 c3 → quiet c1 c3.
Proof using Type.
  intros (H1 & H2 & H3) (H4 & H5 & H6). unfold quiet. rw H4 H5. split_and!; auto.
Qed.

Lemma quiet_egress {A} k (op : Egress → Egress * A) c :
  (∀ e, eg_pending (op e).1 = eg_pending e ∨ eg_pending (op e).1 = ∅) →
  quiet c (on_egress k op c).1.
Proof using Type.
  intros Hop. destruct (on_egress_fields k op c) as (H1 & _ & _ & _ & _ & _ & _ & H8).
  split_and!; [done..|]. unfold on_egress, slot_waits. intros id.
  destruct (ct_conns c !! k) as [cn|]; [|done].
  specialize (Hop (load c (cn_egress cn))). destruct (op _) as [e r]. cbn in *.
  destruct Hop as [->| ->]; [done|by rw lookup_empty].
Qed.

Lemma quiet_sending {A} k (op : Egress → Egress * A) n n' c :
  sending n n' op → quiet c (on_egress k op c).1.
Proof using Type. intros Hs. apply quiet_egress. intros e. left. apply Hs. Qed.

Lemma task_exit_pending e : eg_pending (task_exit e) = eg_pending e.
Proof using Type. apply task_exit_spec. Qed.

Lemma drain_step_pending e ok :
  eg_pending (drain_step e ok) = eg_pending e ∨ eg_pending (drain_step e ok) = ∅.
Proof using Type.
  unfold drain_step, drain_data, write_failed.
  repeat case_match; rw ?task_exit_pending; by auto.
Qed.

Lemma close_pending e : eg_pending (egress_close e) = eg_pending e.
Proof using Type. unfold egress_close, push_data. cbn. by destruct (eg_running e). Qed.

Lemma quiet_close k c : quiet c (close_conn k c).
Proof using Type. apply quiet_egress. intros e. left. apply close_pending. Qed.

Lemma quiet_send_response k msg fresh c : quiet c (send_response k msg fresh c).
Proof using Type.
  unfold send_response. destruct (serialize_envelope _ _); [|done].
  eapply quiet_trans; [|eapply quiet_sending, (send_acked_sending _ (S (ct_receipts c))); lia].
  done.
Qed.

Lemma quiet_dispatch_exit k c : quiet c (dispatch_exit k c).
Proof using Type.
  unfold dispatch_exit. set (c1 := set_shared false _ ∅ c).
  eapply (quiet_trans _ c1); [|eapply quiet_trans; [apply quiet_close|done]].
  split_and!; [done..|]. intros id. unfold slot_waits. cbn. by rw lookup_empty.
Qed.

Lemma quiet_disconnect c : quiet c (carrier_disconnect c).
Proof using Type.
  unfold carrier_disconnect. cbn [ct_egress set_shared set_hooks].
  set (c1 := set_shared false _ _ _).
  assert (H1 : quiet c (match ct_egress c with
    | Some k => set_slots None (ct_reader_handle c1) (ct_connecting c1) (ct_parked c1) (close_conn k c1)
    | None => c1 end)).
  { destruct (ct_egress c) as [k|]; [|done]. apply (quiet_trans _ c1); [done|].
    eapply quiet_trans; [apply quiet_close|done]. }
  set (c2 := match ct_egress c with Some _ => _ | None => _ end) in *. clearbody c2.
  destruct H1 as (H1 & H2 & _). unfold quiet, slot_waits.
  destruct (ct_reader_handle c2); cbn; split_and!; try done; intros id; by rw lookup_empty.
Qed.

(** The turn of a dispatch task other than a response. *)
Definition pops_response c (k : nat) : option (string * XacppResponse) :=
  match ct_conns c !! k with
  | Some cn =>
      if negb (cn_dispatching cn) ||
         (ct_inline c && existsb (λ t, bool_decide (tk_conn t = k)) (ct_inflight c))
      then None
      else
        match cn_inbox cn with
        | Some data :: _ =>
            match envelope_from_slice data with
            | Some (Response id _ r) => Some (id, r)
            | _ => None
            end
        | _ => None
        end
  | None => None
  end.

Lemma dispatch_outcome k fresh c :
  match pops_response c k with
  | None => quiet c (dispatch_step k fresh c)
  | Some (id, r) => ∃ c1, quiet c c1 ∧ ct_pending c1 = ct_pending c ∧
      dispatch_step k fresh c = dispatch_response id r c1
  end.
Proof using Type.
  unfold pops_response, dispatch_step. destruct (ct_conns c !! k) as [cn|]; [|done].
  destruct (negb (cn_dispatching cn)), (ct_inline c && _); try done. cbn [orb].
  destruct (cn_inbox cn) as [|[data|] rest].
  - destruct (cn_reading cn); [done|apply quiet_dispatch_exit].
  - unfold dispatch_envelope. set (c1 := upd_conn _ _ c).
    destruct (envelope_from_slice data) as [[id sid p|id sid p]|]; [|by exists c1|done].
    unfold dispatch_request. destruct (ct_handler c1); [done|].
    apply (quiet_trans _ c1); [done|apply quiet_send_response].
  - eapply quiet_trans; [|apply quiet_dispatch_exit]. done.
Qed.

Lemma dispatched_calls id r c : ct_calls (dispatch_response id r c) = ct_calls c.
Proof using Type. unfold dispatch_response. by repeat case_match. Qed.

Lemma call_step_length i c : length (ct_calls (call_step i c)) = length (ct_calls c).
Proof using Type.
  unfold call_step. destruct (ct_calls c !! i) as [cl|]; [|done].
  destruct (cl_phase cl) as [f|f k|k a|k|]; [..|done].
  2:{ set (c1 := set_counters _ _ c). set (op := λ e, _).
      pose proof (proj1 (on_egress_fields k op c1)) as H. destruct (on_egress k op c1) as [c2 r].
      cbn in H. repeat case_match; cbn; rw ?length_alter; by rw H. }
  all: repeat case_match; cbn; by rw ?length_alter.
Qed.

Definition is_call_op (op : CarrierOp) : bool :=
  match op with OpStart _ _ _ _ | OpCall _ | OpDispatch _ _ => true | _ => false end.

Lemma exec_quiet c op : is_call_op op = false → quiet c (carrier_exec c op).
Proof using Type.
  destruct op; cbn; try done; intros _.
  - destruct (ct_connecting c); [done|]. unfold connect_begin. by repeat case_match.
  - unfold connect_finish. by case_match.
  - destruct (ct_connecting c); [done|]. apply quiet_disconnect.
  - unfold carrier_on_request. by case_match.
  - unfold carrier_write. destruct (ct_egress c) as [k|]; [|done]. set (op := λ e, _).
    assert (H : quiet c (on_egress k op c).1).
    { unfold op. destruct control; eapply quiet_sending;
        [apply (send_control_sending 0 0)|apply (send_faf_sending 0 0)]. }
    destruct (on_egress k op c). exact H.
  - apply quiet_egress. intros e. apply drain_step_pending.
  - unfold read_envelope. by repeat case_match.
  - unfold read_stop. by repeat case_match.
  - unfold handler_done. case_match; [|done]. eapply quiet_trans; [|apply quiet_send_response]. done.
Qed.

Lemma exec_calls_length c op :
  length (ct_calls c) ≤ length (ct_calls (carrier_exec c op)).
Proof using Type.
  destruct (is_call_op op) eqn:Hop; [|by destruct (exec_quiet c op Hop) as [-> _]].
  destruct op; try done; cbn -[call_start].
  - pose proof (dispatch_outcome k fresh c) as H. destruct (pops_response c k) as [[id r]|].
    + destruct H as (c1 & (Hc & _) & _ & ->). by rw dispatched_calls Hc.
    + by destruct H as [-> _].
  - unfold call_start. case_match; cbn; rw length_app; lia.
  - by rw call_step_length.
Qed.

Lemma exec_inv c op :
  carrier_inv c → ids_left (carrier_exec c op) → carrier_inv (carrier_exec c op).
Proof using Type.
  intros Hi. destruct op; intros Hids; cbn -[call_start] in *.
  - destruct (ct_connecting c) eqn:H; [done|]. by apply inv_connect_begin.
  - by apply inv_connect_finish.
  - destruct (ct_connecting c) eqn:H; [done|]. by apply inv_disconnect.
  - unfold carrier_on_request. destruct (ct_connected c); [done|]. by eapply inv_fields.
  - by eapply inv_fields.
  - by apply inv_write.
  - by apply inv_drain.
  - by apply inv_read.
  - by apply inv_read_stop.
  - by apply inv_dispatch.
  - by apply inv_handler_done.
  - by apply inv_call_start.
  - by apply inv_call_step.
Qed.

Lemma run_inv client inline ops :
  ids_left (carrier_run client inline ops) → carrier_inv (carrier_run client inline ops).
Proof using Type.
  unfold carrier_run. induction ops as [|op ops IH] using rev_ind.
  - intros _. by split.
  - rw foldl_app /=. intros Hids. apply exec_inv; [|done]. apply IH.
    pose proof (exec_calls_length (foldl carrier_exec (Carrier_new client inline) ops) op).
    unfold ids_left in *. lia.
Qed.

(** The connection a call depends on. *)
Definition call_conn c (cl : Call) : option nat :=
  match cl_phase cl with
  | Registered _ => ct_egress c
  | Cloned _ k | WaitAck k _ | WaitResponse k => Some k
  | Returned _ => None
  end.

(** A connection with no task left that could serve a caller. *)
Definition dead cn : Prop := cn_dispatching cn = false ∧ eg_running (cn_egress cn) = false.

Definition returned c (i : nat) : Prop := ∃ cl r, ct_calls c !! i = Some cl ∧ cl_phase cl = Returned r.

Lemma call_step_returned i cl r c :
  ct_calls c !! i = Some cl → cl_phase cl = Returned r → call_step i c = c.
Proof using Type. intros Hcl Hph. unfold call_step. by rw Hcl Hph. Qed.

Lemma returned_upd i cl r c :
  ct_calls c !! i = Some cl → returned (upd_call i (Returned r) c) i.
Proof using Type.
  intros Hcl. exists (set_phase (Returned r) cl), r. cbn.
  by rw list_lookup_alter_eq Hcl.
Qed.

Lemma returned_step i c : returned c i → returned (call_step i c) i.
Proof using Type.
  intros (cl & r & Hcl & Hph). rw (call_step_returned i cl r c Hcl Hph). by exists cl, r.
Qed.

(** Enqueueing on a dead connection fails at once. *)
Lemma enqueue_dead i cl f k cn c :
  ct_calls c !! i = Some cl → cl_phase cl = Cloned f k → ct_conns c !! k = Some cn →
  dead cn → returned (call_step i c) i.
Proof using Type.
  intros Hcl Hph Hk [_ Hr]. unfold call_step. rw Hcl Hph. unfold on_egress.
  cbn [ct_conns set_counters]. rw Hk. unfold send_faf, send_acked, push_data.
  cbn [load eg_connected eg_running ct_connected set_counters]. rw Hr.
  destruct (cl_faf cl), (ct_connected c); by eapply returned_upd.
Qed.

(** Nothing answers any more: the wait for the response is over. *)
Lemma await_released i cl k c :
  ct_calls c !! i = Some cl → cl_phase cl = WaitResponse k → ¬ slot_waits c (cl_id cl) →
  returned (call_step i c) i.
Proof using Type.
  unfold slot_waits. intros Hcl Hph Hns. unfold call_step. rw Hcl Hph.
  destruct (ct_delivered c !! _), (ct_pending c !! _) as [[]|]; try done; by eapply returned_upd.
Qed.

(** C14: no caller waits on a dead connection.  In every interleaving of callers,
    tasks, connects, disconnects and reconnects (fewer than 2^64 requests), a
    call of [send] or [send_faf] whose connection has lost its dispatch and drain
    tasks returns within two further steps of its own, whatever phase it is in;
    nobody else has to act. *)
Theorem no_stuck_call client inline ops i cl :
  let c := carrier_run client inline ops in
  ids_left c → ct_calls c !! i = Some cl →
  (∀ k cn, call_conn c cl = Some k → ct_conns c !! k = Some cn → dead cn) →
  returned (call_step i (call_step i c)) i.
Proof using Type.
  intros c Hids Hcl Hdead. pose proof (run_inv client inline ops Hids) as Hi. fold c in Hi.
  clearbody c. pose proof (ci_calls c Hi i cl Hcl) as Hok.
  unfold call_ok, call_conn in *. destruct (cl_phase cl) as [f|f k|k a|k|r] eqn:Hph.
  - unfold call_step at 2. rw Hcl Hph. destruct (ct_egress c) as [k|] eqn:He.
    + destruct (lookup_lt_is_Some_2 (ct_conns c) k) as [cn Hk]; [by apply (ci_slots c Hi)|].
      eapply (enqueue_dead i (set_phase (Cloned f k) cl) f k cn); [|done|done|by eapply Hdead].
      cbn. by rw list_lookup_alter_eq Hcl.
    + by eapply returned_step, returned_upd.
  - destruct Hok as [cn Hk]. eapply returned_step, enqueue_dead; [done|done|done|by eapply Hdead].
  - destruct Hok as (cn & Hk & Ha & Hw). destruct (Hdead k cn eq_refl Hk) as [Hdis Hrun].
    unfold call_step at 2. rw Hcl Hph Hk. cbn -[returned call_step].
    destruct (list_find _ _) as [[j [b ok]]|] eqn:Hf.
    + destruct ok; [|by eapply returned_step, returned_upd].
      assert (Hns : ¬ slot_waits c (cl_id cl)).
      { intros [Hl|[_ Hd]]%Hw; [unfold live in Hl; by rw Hdis in Hl|].
        by apply receipt_found in Hf. }
      eapply (await_released i (set_phase (WaitResponse k) cl) k); [|done|exact Hns].
      cbn. by rw list_lookup_alter_eq Hcl.
    + exfalso. unfold receipts_of in Ha. destruct (ci_conns c Hi k cn Hk) as [_ _ _ He _ _].
      rw (He Hrun) app_nil_r in Ha. apply list_elem_of_fmap in Ha as ([a' ok] & Haa & Hin).
      cbn in Haa. subst a'. apply list_find_None in Hf. rw Forall_forall in Hf. by eapply Hf.
  - destruct Hok as (cn & Hk & Hw). destruct (Hdead k cn eq_refl Hk) as [Hdis _].
    eapply returned_step, await_released; [done|done|].
    intros Hl%Hw. unfold live in Hl. by rw Hdis in Hl.
  - do 2 apply returned_step. by exists cl, r.
Qed.

(** ** Correlation *)

Inductive LogEntry : Type :=
  | LStart (id : string)
  | LResponse (k : nat) (id : string) (r : XacppResponse).

(** What a step adds to the history: requests issued, responses dispatched. *)
Definition op_log c (op : CarrierOp) : list LogEntry :=
  match op with
  | OpStart _ _ _ _ => [LStart (request_id (ct_next_id c))]
  | OpDispatch k _ =>
      match pops_response c k with Some (id, r) => [LResponse k id r] | None => [] end
  | _ => []
  end.

Definition carrier_trace (client inline : bool) (ops : list CarrierOp) : Carrier * list LogEntry :=
  foldl (λ '(c, log) op, (carrier_exec c op, log ++ op_log c op))
    (Carrier_new client inline, []) ops.

(** The answer a request deserves: the first response that carries its id and
    is dispatched after the request was issued. *)
Inductive Track : Type := NotStarted | Waiting | Answered (r : XacppResponse).

Definition track_step (id : string) (t : Track) (e : LogEntry) : Track :=
  match e with
  | LStart id' => if decide (id' = id) then Waiting else t
  | LResponse _ id' r =>
      if decide (id' = id) then if t is Waiting then Answered r else t else t
  end.

Definition track (id : string) (log : list LogEntry) : Track :=
  foldl (track_step id) NotStarted log.

Definition issued c (id : string) : Prop :=
  ∃ i, i < length (ct_calls c) ∧ id = request_id (N.of_nat i + 1).

Record correlated c (log : list LogEntry) : Prop := {
  cr_delivered : ∀ id r, ct_delivered c !! id = Some r → issued c id ∧ track id log = Answered r;
  cr_waits : ∀ id, slot_waits c id → issued c id ∧ track id log = Waiting;
  cr_returned : ∀ i cl r, ct_calls c !! i = Some cl → cl_phase cl = Returned (Ok (Some r)) →
    ct_delivered c !! cl_id cl = Some r;
}.

Lemma track_snoc id log e : track id (log ++ [e]) = track_step id (track id log) e.
Proof using Type. unfold track. by rw foldl_app. Qed.

Lemma correlated_quiet c c' log : correlated c log → quiet c c' → correlated c' log.
Proof using Type.
  intros [Hd Hw Hr] (Hc & Hdl & Hs). unfold issued in *.
  split; unfold issued; rw Hc ?Hdl; auto.
Qed.

Lemma correlated_start c log faf sid req fresh :
  carrier_inv c → correlated c log →
  correlated (call_start faf sid req fresh c) (log ++ [LStart (request_id (ct_next_id c))]).
Proof using Type.
  intros Hi [Hd Hw Hr]. set (id := request_id (ct_next_id c)). set (c' := call_start _ _ _ _ c).
  assert (Hcalls : ∃ cl, ct_calls c' = ct_calls c ++ [cl] ∧ (∀ r, cl_phase cl ≠ Returned (Ok r)) ∧
    ct_delivered c' = ct_delivered c ∧ ∀ id', slot_waits c' id' → id' = id ∨ slot_waits c id').
  { unfold c', call_start, slot_waits. destruct (serialize_envelope _ fresh);
      eexists; (split; [done|]); split_and!; try done; [|by right].
    intros id'. cbn. fold id. destruct (decide (id' = id)) as [->|]; [by left|].
    rw lookup_insert_ne //. by right. }
  destruct Hcalls as (cl & Hc & Hnr & Hdl & Hs).
  assert (Hold : ∀ id', issued c id' → issued c' id' ∧ id' ≠ id).
  { intros id' (i & Hlt & ->). split; [exists i; rw Hc length_app; split; [lia|done]|].
    unfold id. intros Heq%(inj request_id). rw (ci_next c Hi) in Heq. lia. }
  assert (Hnew : issued c' id).
  { exists (length (ct_calls c)). rw Hc length_app /=. split; [lia|]. unfold id.
    by rw (ci_next c Hi). }
  assert (Htr : ∀ id', id' ≠ id → track id' (log ++ [LStart id]) = track id' log).
  { intros id' Hne. rw track_snoc /=. by destruct (decide (id = id')). }
  split.
  - intros id' r. rw Hdl. intros [Hi' Ht]%Hd. apply Hold in Hi' as [? ?]. by rw Htr.
  - intros id' [->|Hw']%Hs; [|apply Hw in Hw' as [Hi' Ht]; apply Hold in Hi' as [? ?]; by rw Htr].
    split; [done|]. rw track_snoc /=. by destruct (decide (id = id)).
  - intros i x r. rw Hc Hdl. intros [Hx|[_ Hx]]%lookup_app_Some; [by eapply Hr|].
    apply list_elem_of_lookup_2, list_elem_of_singleton in Hx as ->. intros Hph. by destruct (Hnr (Some r)).
Qed.

Lemma correlated_response c log k id r :
  correlated c log → correlated (dispatch_response id r c) (log ++ [LResponse k id r]).
Proof using Type.
  intros [Hd Hw Hr].
  assert (Htr : ∀ id', id' ≠ id ∨ track id log ≠ Waiting →
    track id' (log ++ [LResponse k id r]) = track id' log).
  { intros id' Hne. rw track_snoc /=. destruct (decide (id = id')) as [<-|]; [|done].
    destruct Hne; [done|]. by destruct (track id log). }
  assert (Hiss : ∀ id', issued (dispatch_response id r c) id' ↔ issued c id').
  { intros id'. unfold issued. by rw dispatched_calls. }
  assert (Hdel : ∀ id' r', ct_delivered c !! id' = Some r' →
    issued c id' ∧ track id' (log ++ [LResponse k id r]) = Answered r').
  { intros id' r' [Hi Ht]%Hd. split; [done|]. rw Htr; [|done].
    destruct (decide (id' = id)) as [->|]; [right; by rw Ht|by left]. }
  unfold dispatch_response in *. destruct (ct_pending c !! id) as [[]|] eqn:Hp.
  - pose proof (Hw id Hp) as [Hi Ht]. split.
    + intros id' r'. rw Hiss. cbn. destruct (decide (id' = id)) as [->|Hne].
      * rw lookup_insert_eq. intros [= <-]. split; [done|]. rw track_snoc /= Ht.
        by destruct (decide (id = id)).
      * rw lookup_insert_ne //. apply Hdel.
    + intros id'. rw Hiss. unfold slot_waits. cbn. intros [Hne Hx]%lookup_delete_Some.
      rw Htr; [by left|]. by apply Hw.
    + intros i cl r' Hcl Hph. cbn in Hcl |- *. specialize (Hr i cl r' Hcl Hph).
      rw lookup_insert_ne //. intros ->. apply Hd in Hr as [_ Hx]. by rw Ht in Hx.
  - split; [intros id' r'; rw Hiss; apply Hdel| |by apply Hr].
    intros id'. rw Hiss. unfold slot_waits. cbn. intros [Hne Hx]%lookup_delete_Some.
    rw Htr; [by left|]. by apply Hw.
  - split; [by apply Hdel| |by apply Hr]. intros id' Hx.
    assert (id' ≠ id) by (intros ->; unfold slot_waits in Hx; by rw Hp in Hx).
    rw Htr; [by left|]. by apply Hw.
Qed.

(** A step of a call changes its phase only, and frees at most its own slot. *)
Definition advances i c c' : Prop :=
  quiet c c' ∨ ∃ cl ph, ct_calls c !! i = Some cl ∧
    ct_calls c' = alter (set_phase ph) i (ct_calls c) ∧
    ct_delivered c' = ct_delivered c ∧
    (∀ id, slot_waits c' id → slot_waits c id) ∧
    ∀ r, ph = Returned (Ok (Some r)) → ct_delivered c !! cl_id cl = Some r.

Lemma advances_to i cl ph c c1 :
  ct_calls c !! i = Some cl → quiet c c1 →
  (∀ r, ph = Returned (Ok (Some r)) → ct_delivered c !! cl_id cl = Some r) →
  advances i c (upd_call i ph c1).
Proof using Type.
  intros Hcl (H1 & H2 & H3) Hr. right. exists cl, ph. split_and!; try done. cbn. by rw H1.
Qed.

Lemma quiet_delete id c : quiet c (set_pending (delete id (ct_pending c)) c).
Proof using Type.
  split_and!; [done..|]. intros id'. unfold slot_waits. cbn. by intros [_ ?]%lookup_delete_Some.
Qed.

Lemma call_step_advances i c : advances i c (call_step i c).
Proof using Type.
  unfold call_step. destruct (ct_calls c !! i) as [cl|] eqn:Hcl; [|by left].
  destruct (cl_phase cl) as [f|f k|k a|k|]; [..|by left].
  - destruct (ct_egress c); by eapply advances_to.
  - set (c1 := set_counters _ _ c). set (op := λ e, _).
    assert (Hq : quiet c (on_egress k op c1).1).
    { apply (quiet_trans _ c1); [done|]. unfold op. destruct (cl_faf cl); eapply quiet_sending;
        [apply (send_faf_sending 0 0)|apply (send_acked_sending _ (S (ct_receipts c))); lia]. }
    destruct (on_egress k op c1) as [c2 r]. cbn [fst] in Hq.
    destruct r as [[[]|e]|]; [| |by left].
    + eapply advances_to; [done..|]. by destruct (cl_faf cl).
    + eapply advances_to; [done| |done]. eapply quiet_trans; [exact Hq|apply quiet_delete].
  - destruct (list_find _ _) as [[j [b []]]|]; [by eapply advances_to| |by left].
    eapply advances_to; [done|apply quiet_delete|done].
  - destruct (ct_delivered c !! cl_id cl) as [r|] eqn:Hd.
    + eapply advances_to; [done..|]. by intros ? [= <-].
    + destruct (ct_pending c !! cl_id cl) as [[]|]; [by left|by eapply advances_to..].
Qed.

Lemma correlated_call i c log : correlated c log → correlated (call_step i c) log.
Proof using Type.
  intros Hcr. destruct (call_step_advances i c) as [Hq|(cl & ph & Hcl & Hc & Hd & Hs & Hph)];
    [by eapply correlated_quiet|].
  destruct Hcr as [Hdl Hw Hr]. unfold issued in *.
  split; unfold issued; rw ?Hc ?Hd ?length_alter; auto.
  intros j x r. destruct (decide (i = j)) as [<-|Hne].
  - rw list_lookup_alter_eq Hcl. intros [= <-]. cbn. apply Hph.
  - rw list_lookup_alter_ne //. apply Hr.
Qed.

Lemma exec_correlated c log op :
  carrier_inv c → correlated c log → correlated (carrier_exec c op) (log ++ op_log c op).
Proof using Type.
  intros Hi Hcr. destruct (is_call_op op) eqn:Hop.
  2:{ replace (op_log c op) with (@nil LogEntry) by by destruct op. rw app_nil_r.
      eapply correlated_quiet; [done|by apply exec_quiet]. }
  destruct op; try done; cbn -[call_start].
  - pose proof (dispatch_outcome k fresh c) as H. destruct (pops_response c k) as [[id r]|].
    + destruct H as (c1 & Hq & _ & ->). apply correlated_response. by eapply correlated_quiet.
    + rw app_nil_r. by eapply correlated_quiet.
  - by apply correlated_start.
  - rw app_nil_r. by apply correlated_call.
Qed.

Lemma trace_run client inline ops :
  (carrier_trace client inline ops).1 = carrier_run client inline ops.
Proof using Type.
  unfold carrier_trace, carrier_run. induction ops as [|op ops IH] using rev_ind; [done|].
  rw !foldl_app /= -IH. by destruct (foldl _ _ ops).
Qed.

Lemma trace_correlated client inline ops :
  let '(c, log) := carrier_trace client inline ops in ids_left c → correlated c log.
Proof using Type.
  induction ops as [|op ops IH] using rev_ind.
  - intros _. by split.
  - pose proof (trace_run client inline ops) as Hrun.
    unfold carrier_trace in *. rw foldl_app /=. destruct (foldl _ _ ops) as [c log]. cbn in Hrun.
    intros Hids. assert (ids_left c) as Hids'.
    { pose proof (exec_calls_length c op). unfold ids_left in *. lia. }
    apply exec_correlated; [|by apply IH]. subst c. by apply run_inv.
Qed.

(** C15: a caller gets its own answer.  In every interleaving (fewer than 2^64
    requests), no two requests carry the same id, and a call of [send] that
    returns [Ok] returns the payload of the first response envelope with that id
    dispatched after the request was issued, on whichever connection; responses
    with other ids, duplicates and responses that came before the request never
    reach it. *)
Theorem response_correlation client inline ops :
  let '(c, log) := carrier_trace client inline ops in
  ids_left c →
  (∀ i j cl cl', ct_calls c !! i = Some cl → ct_calls c !! j = Some cl' →
     cl_id cl = cl_id cl' → i = j) ∧
  ∀ i cl r, ct_calls c !! i = Some cl → cl_phase cl = Returned (Ok (Some r)) →
    track (cl_id cl) log = Answered r.
Proof using Type.
  pose proof (trace_correlated client inline ops) as Hcr.
  pose proof (trace_run client inline ops) as Hrun.
  destruct (carrier_trace client inline ops) as [c log]. cbn in Hrun. intros Hids. split.
  - assert (Hi : carrier_inv c) by (subst c; by apply run_inv).
    intros i j cl cl' Hi1 Hi2. rw (ci_ids c Hi _ _ Hi1) (ci_ids c Hi _ _ Hi2).
    intros Heq%(inj request_id). lia.
  - intros i cl r Hcl Hph. by apply (Hcr Hids), (cr_returned _ _ (Hcr Hids) i).
Qed.

End carrier.
