(* ===== verification/Stdio.v ===== *)
(** * The stdio transport ([src/carrier/stdio.rs])

    One pair of pipe halves, parked until [connect]; a read task that decodes the
    pipe and routes frames, an accept loop that handles each request itself and
    waits until its answer is written, callers of [send] and [send_faf].  The
    tasks are cut at their awaits into phases; a step of one of them is one
    operation, and histories are sequences of operations.

    The transport is a restriction of the interleaving machine of [Carrier]
    ([stdio_refines_carrier]), so what is proved there of every interleaving holds
    here; what is special to it is that requests are served one at a time. *)
From S2P Require Import Prelude Crc Frame Control Sender Reassemble Errors Stream Transfer.
From S2P Require Import Egress Messages Carrier.

(** The capacity of the channel between the read task and the accept loop. *)
Definition FRAME_CHANNEL_CAPACITY : nat := 256.

Section stdio.
Context `{CRC : Crc32} `{JSON : JsonLib} {CODEC : EnvelopeCodec} {DISPLAY : Display}.

(** ** State *)

(** The read task: reading, routing decoded frames, handing over its error. *)
Inductive ReadPhase : Type :=
  | Reading
  | Routing (frames : list Frame)
  | Failing
  | ReadEnded.

(** The accept loop: at [recv], in the handler, waiting for the receipt of its
    response, gone. *)
Inductive AcceptPhase : Type :=
  | Listening
  | Handling (id : string) (sid : option string) (payload : XacppRequest)
  | Answering (receipt : nat)
  | AcceptEnded.

(** What [connect] spawned. *)
Record Pipe : Type := mkPipe {
  pp_egress : Egress;
  pp_decoder : FrameDecoder;
  pp_channel : list (option (list byte));
  pp_reader : ReadPhase;
  pp_accept : AcceptPhase;
}.

(** [StdioTransport] and its [SharedState]; [st_delivered] are the responses put
    into the callers' oneshot channels, [st_routed] the frames handed to the
    transfer hooks ([None]: activity only). *)
Record StdioTransport : Type := mkStdioTransport {
  st_pipe : option Pipe;
  parked_writer : bool;
  parked_reader : bool;
  st_egress : bool;
  reader_handle : bool;
  accept_handle : bool;
  st_connecting : bool;
  st_connected : bool;
  st_closed : bool;
  st_pending : gmap string PendingSlot;
  st_delivered : gmap string XacppResponse;
  st_next_id : N;
  request_handler : bool;
  transfer_hooks : bool;
  st_routed : list (option Frame);
  st_calls : list Call;
  st_receipts : nat;
}.

(** [StdioTransport::new]. *)
Definition stdio_new : StdioTransport :=
  mkStdioTransport None true true false false false false false false ∅ ∅ 1 false false [] [] 0.

Implicit Types (s : StdioTransport) (p : Pipe).

(** *** Field updates *)

Definition st_set_pipe (o : option Pipe) s : StdioTransport :=
  mkStdioTransport o (parked_writer s) (parked_reader s) (st_egress s) (reader_handle s)
    (accept_handle s) (st_connecting s) (st_connected s) (st_closed s) (st_pending s)
    (st_delivered s) (st_next_id s) (request_handler s) (transfer_hooks s) (st_routed s)
    (st_calls s) (st_receipts s).

Definition st_set_slots (pw pr eg rh ah connecting : bool) s : StdioTransport :=
  mkStdioTransport (st_pipe s) pw pr eg rh ah connecting (st_connected s) (st_closed s)
    (st_pending s) (st_delivered s) (st_next_id s) (request_handler s) (transfer_hooks s)
    (st_routed s) (st_calls s) (st_receipts s).

Definition st_set_shared (connected closed : bool) (pending : gmap string PendingSlot) s :
    StdioTransport :=
  mkStdioTransport (st_pipe s) (parked_writer s) (parked_reader s) (st_egress s)
    (reader_handle s) (accept_handle s) (st_connecting s) connected closed pending
    (st_delivered s) (st_next_id s) (request_handler s) (transfer_hooks s) (st_routed s)
    (st_calls s) (st_receipts s).

Definition st_set_delivered (m : gmap string XacppResponse) s : StdioTransport :=
  mkStdioTransport (st_pipe s) (parked_writer s) (parked_reader s) (st_egress s)
    (reader_handle s) (accept_handle s) (st_connecting s) (st_connected s) (st_closed s)
    (st_pending s) m (st_next_id s) (request_handler s) (transfer_hooks s) (st_routed s)
    (st_calls s) (st_receipts s).

Definition st_set_hooks (handler hooks : bool) (routed : list (option Frame)) s :
    StdioTransport :=
  mkStdioTransport (st_pipe s) (parked_writer s) (parked_reader s) (st_egress s)
    (reader_handle s) (accept_handle s) (st_connecting s) (st_connected s) (st_closed s)
    (st_pending s) (st_delivered s) (st_next_id s) handler hooks routed (st_calls s)
    (st_receipts s).

Definition st_set_calls (calls : list Call) s : StdioTransport :=
  mkStdioTransport (st_pipe s) (parked_writer s) (parked_reader s) (st_egress s)
    (reader_handle s) (accept_handle s) (st_connecting s) (st_connected s) (st_closed s)
    (st_pending s) (st_delivered s) (st_next_id s) (request_handler s) (transfer_hooks s)
    (st_routed s) calls (st_receipts s).

Definition st_set_counters (next_id : N) (receipts : nat) s : StdioTransport :=
  mkStdioTransport (st_pipe s) (parked_writer s) (parked_reader s) (st_egress s)
    (reader_handle s) (accept_handle s) (st_connecting s) (st_connected s) (st_closed s)
    (st_pending s) (st_delivered s) next_id (request_handler s) (transfer_hooks s)
    (st_routed s) (st_calls s) receipts.

Definition st_set_pending (m : gmap string PendingSlot) s : StdioTransport :=
  st_set_shared (st_connected s) (st_closed s) m s.

Definition pp_set_egress (e : Egress) p : Pipe :=
  mkPipe e (pp_decoder p) (pp_channel p) (pp_reader p) (pp_accept p).

Definition pp_set_reader (d : FrameDecoder) (ch : list (option (list byte))) (r : ReadPhase) p :
    Pipe :=
  mkPipe (pp_egress p) d ch r (pp_accept p).

Definition pp_set_accept (ch : list (option (list byte))) (a : AcceptPhase) p : Pipe :=
  mkPipe (pp_egress p) (pp_decoder p) ch (pp_reader p) a.

Definition on_pipe (f : Pipe → Pipe) s : StdioTransport := st_set_pipe (f <$> st_pipe s) s.

(** An egress operation of the pipe; the flags and the pending table it works on
    are the transport's. *)
Definition st_on_egress {A} (f : Egress → Egress * A) s : StdioTransport * option A :=
  match st_pipe s with
  | Some p =>
      let e := pp_egress p in
      let e := mkEgress (eg_data e) (eg_control e) (st_connected s) (st_closed s) (eg_handles e)
        (eg_control_open e) (eg_running e) (eg_written e) (eg_acks e) (st_pending s) in
      let '(e, r) := f e in
      (st_set_shared (eg_connected e) (eg_closed e) (eg_pending e)
         (on_pipe (pp_set_egress e) s), Some r)
  | None => (s, None)
  end.

Definition st_close_egress s : StdioTransport :=
  (st_on_egress (λ e, (egress_close e, tt)) s).1.

Definition st_drain (ok : bool) s : StdioTransport :=
  (st_on_egress (λ e, (drain_step e ok, tt)) s).1.

(** ** Connection management *)

(** [connect] up to the spawned tasks. *)
Definition stdio_connect_begin s : StdioTransport * result unit XacppError :=
  if st_connected s then (s, Err AlreadyConnected)
  else if negb (parked_writer s) then (s, Err AlreadyConnected)
  else
    let s := st_set_slots false (parked_reader s) (st_egress s) (reader_handle s)
      (accept_handle s) (st_connecting s) s in
    if negb (parked_reader s) then (s, Err AlreadyConnected)
    else
      let pipe := mkPipe (spawn_egress (st_connected s) (st_closed s) (st_pending s))
        FrameDecoder_new [] Reading Listening in
      (st_set_slots false false true (reader_handle s) (accept_handle s) true
         (st_set_pipe (Some pipe) s), Ok tt).

(** The rest of [connect]: the flag, the task handles. *)
Definition stdio_connect_finish s : StdioTransport :=
  if st_connecting s then
    st_set_slots (parked_writer s) (parked_reader s) (st_egress s) true true false
      (st_set_shared true (st_closed s) (st_pending s) s)
  else s.

Definition stdio_disconnect s : StdioTransport :=
  let s := st_set_hooks (request_handler s) false (st_routed s) s in
  let s := st_set_shared false (st_closed s) (st_pending s) s in
  let s := if st_egress s then
      st_set_slots (parked_writer s) (parked_reader s) false (reader_handle s) (accept_handle s)
        (st_connecting s) (st_close_egress s)
    else s in
  let s := if reader_handle s then
      st_set_slots (parked_writer s) (parked_reader s) (st_egress s) false (accept_handle s)
        (st_connecting s)
        (on_pipe (λ p, pp_set_reader (pp_decoder p) (pp_channel p) ReadEnded p) s)
    else s in
  let s := if accept_handle s then
      st_set_slots (parked_writer s) (parked_reader s) (st_egress s) (reader_handle s) false
        (st_connecting s) (on_pipe (λ p, pp_set_accept (pp_channel p) AcceptEnded p) s)
    else s in
  st_set_pending ∅ s.

Definition stdio_on_request s : StdioTransport * result unit XacppError :=
  if st_connected s then (s, Err AlreadyConnected)
  else (st_set_hooks true (transfer_hooks s) (st_routed s) s, Ok tt).

(** [TransferWiring::on_transfer_activity]. *)
Definition stdio_on_transfer_activity (hooks : bool) s : StdioTransport :=
  st_set_hooks (request_handler s) hooks (st_routed s) s.

(** ** The read task *)

Definition accept_ended (a : AcceptPhase) : bool := match a with AcceptEnded => true | _ => false end.

(** [detach_hooks], then the task ends. *)
Definition detach_and_end (ch : list (option (list byte))) s : StdioTransport :=
  st_set_hooks (request_handler s) false (st_routed s)
    (on_pipe (λ p, pp_set_reader (pp_decoder p) ch ReadEnded p) s).

(** A successful read of [chunk].  [feed] answers on every input ([feed_run]). *)
Definition read_bytes (chunk : list byte) s : StdioTransport :=
  match st_pipe s with
  | Some p =>
      match pp_reader p with
      | Reading =>
          match feed (pp_decoder p) chunk with
          | Some (d, Ok frames) => on_pipe (pp_set_reader d (pp_channel p) (Routing frames)) s
          | Some (d, Err _) => on_pipe (pp_set_reader d (pp_channel p) Failing) s
          | None => s
          end
      | _ => s
      end
  | None => s
  end.

(** End of file, or a read error. *)
Definition read_over (failed : bool) s : StdioTransport :=
  match st_pipe s with
  | Some p =>
      match pp_reader p with
      | Reading =>
          if failed then on_pipe (pp_set_reader (pp_decoder p) (pp_channel p) Failing) s
          else detach_and_end (pp_channel p) s
      | _ => s
      end
  | None => s
  end.

(** The hooks see the frame, if any are registered. *)
Definition tell_hooks (f : option Frame) s : StdioTransport :=
  if transfer_hooks s
  then st_set_hooks (request_handler s) (transfer_hooks s) (st_routed s ++ [f]) s else s.

(** One step of the loop over the decoded frames, or of handing over the error.
    A full channel parks the task; a channel whose receiver is gone ends it. *)
Definition route_step s : StdioTransport :=
  match st_pipe s with
  | None => s
  | Some p =>
      match pp_reader p with
      | Routing [] => on_pipe (pp_set_reader (pp_decoder p) (pp_channel p) Reading) s
      | Routing (f :: frames) =>
          match frame_type f with
          | DataJson =>
              if accept_ended (pp_accept p) then
                on_pipe (pp_set_reader (pp_decoder p) (pp_channel p) ReadEnded) (tell_hooks None s)
              else if length (pp_channel p) <? FRAME_CHANNEL_CAPACITY then
                on_pipe (pp_set_reader (pp_decoder p) (pp_channel p ++ [Some (payload f)])
                           (Routing frames)) (tell_hooks None s)
              else s
          | _ =>
              on_pipe (pp_set_reader (pp_decoder p) (pp_channel p) (Routing frames))
                (tell_hooks (Some f) s)
          end
      | Failing =>
          if accept_ended (pp_accept p) then detach_and_end (pp_channel p) s
          else if length (pp_channel p) <? FRAME_CHANNEL_CAPACITY then
            detach_and_end (pp_channel p ++ [None]) s
          else s
      | Reading | ReadEnded => s
      end
  end.

(** ** The accept loop *)

(** Serialize a response and enqueue it; the loop then waits for its receipt. *)
Definition answer (ch : list (option (list byte))) (msg : XacppEnvelope) (fresh : txid) s :
    StdioTransport :=
  match serialize_envelope msg fresh with
  | Err _ => on_pipe (pp_set_accept ch Listening) s
  | Ok frame =>
      let a := st_receipts s in
      let '(s, r) :=
        st_on_egress (λ e, send_acked e frame a) (st_set_counters (st_next_id s) (S a) s) in
      match r with
      | Some (Ok _) => on_pipe (pp_set_accept ch (Answering a)) s
      | _ => on_pipe (pp_set_accept ch Listening) s
      end
  end.

(** The cleanup after the loop. *)
Definition accept_exit (ch : list (option (list byte))) s : StdioTransport :=
  on_pipe (pp_set_accept ch AcceptEnded)
    (st_close_egress (st_set_shared false (st_closed s) ∅ s)).

(** The arms of the loop's [match envelope]. *)
Definition accept_envelope (ch : list (option (list byte))) (data : list byte) (fresh : txid) s :
    StdioTransport :=
  match envelope_from_slice data with
  | None => on_pipe (pp_set_accept ch Listening) s
  | Some (Request id sid payload) =>
      if request_handler s then on_pipe (pp_set_accept ch (Handling id sid payload)) s
      else answer ch (Response id sid (respond (Err NoHandler))) fresh s
  | Some (Response id _ payload) =>
      let s' := st_set_pending (delete id (st_pending s)) (on_pipe (pp_set_accept ch Listening) s) in
      match st_pending s !! id with
      | Some SlotRespond => st_set_delivered (<[id := payload]> (st_delivered s)) s'
      | Some SlotDrop => s'
      | None => on_pipe (pp_set_accept ch Listening) s
      end
  end.

(** One step of the loop.  [recv] returns [None] when the channel is empty and
    its sender, the read task, is gone. *)
Definition accept_step (fresh : txid) s : StdioTransport :=
  match st_pipe s with
  | None => s
  | Some p =>
      match pp_accept p with
      | Listening =>
          match pp_channel p with
          | Some data :: rest => accept_envelope rest data fresh s
          | None :: rest => accept_exit rest s
          | [] => match pp_reader p with ReadEnded => accept_exit [] s | _ => s end
          end
      | Answering a =>
          match list_find (λ r, r.1 = a) (eg_acks (pp_egress p)) with
          | Some _ => on_pipe (pp_set_accept (pp_channel p) Listening) s
          | None => s
          end
      | Handling _ _ _ | AcceptEnded => s
      end
  end.

(** The handler the loop awaits returns [r]. *)
Definition handler_returns (r : result XacppResponse XacppError) (fresh : txid) s :
    StdioTransport :=
  match st_pipe s with
  | Some p =>
      match pp_accept p with
      | Handling id sid _ => answer (pp_channel p) (Response id sid (respond r)) fresh s
      | _ => s
      end
  | None => s
  end.

(** ** Calls *)

Definition st_upd_call (i : nat) (ph : Phase) s : StdioTransport :=
  st_set_calls (alter (set_phase ph) i (st_calls s)) s.

(** [send] / [send_faf] up to the pending slot. *)
Definition stdio_call_start (faf : bool) (sid : option string) (req : XacppRequest)
    (fresh : txid) s : StdioTransport :=
  let id := request_id (st_next_id s) in
  let s := st_set_counters ((st_next_id s + 1) mod 2 ^ 64)%N (st_receipts s) s in
  match serialize_envelope (Request id sid req) fresh with
  | Err e => st_set_calls (st_calls s ++ [mkCall id faf (Returned (Err e))]) s
  | Ok frame =>
      st_set_pending (<[id := if faf then SlotDrop else SlotRespond]> (st_pending s))
        (st_set_calls (st_calls s ++ [mkCall id faf (Registered frame)]) s)
  end.

(** One further step of call [i]: clone the egress, enqueue, take the receipt,
    take the response. *)
Definition stdio_call_step (i : nat) s : StdioTransport :=
  match st_calls s !! i with
  | None => s
  | Some cl =>
      match cl_phase cl with
      | Registered frame =>
          st_upd_call i (if st_egress s then Cloned frame 0 else Returned (Err NotConnected)) s
      | Cloned frame k =>
          let a := st_receipts s in
          let '(s, r) :=
            st_on_egress (λ e, if cl_faf cl then send_faf e frame else send_acked e frame a)
              (st_set_counters (st_next_id s) (S a) s) in
          match r with
          | Some (Ok _) => st_upd_call i (if cl_faf cl then Returned (Ok None) else WaitAck k a) s
          | Some (Err e) =>
              st_upd_call i (Returned (Err e)) (st_set_pending (delete (cl_id cl) (st_pending s)) s)
          | None => s
          end
      | WaitAck k a =>
          match list_find (λ r, r.1 = a) (default [] (eg_acks ∘ pp_egress <$> st_pipe s)) with
          | Some (_, (_, true)) => st_upd_call i (WaitResponse k) s
          | Some (_, (_, false)) =>
              st_upd_call i (Returned (Err Closed)) (st_set_pending (delete (cl_id cl) (st_pending s)) s)
          | None => s
          end
      | WaitResponse k =>
          match st_delivered s !! cl_id cl with
          | Some r => st_upd_call i (Returned (Ok (Some r))) s
          | None =>
              match st_pending s !! cl_id cl with
              | Some SlotRespond => s
              | _ => st_upd_call i (Returned (Err Closed)) s
              end
          end
      | Returned _ => s
      end
  end.

Definition stdio_write_control_frame (bytes : list byte) s : StdioTransport * result unit XacppError :=
  if st_egress s then
    let '(s, r) := st_on_egress (λ e, send_control e bytes) s in (s, default (Err NotConnected) r)
  else (s, Err NotConnected).

Definition stdio_write_data_frame (f : Frame) s : StdioTransport * result unit XacppError :=
  if st_egress s then
    match encode f with
    | Err e => (s, Err (Internal (DisplayFrame e)))
    | Ok wire =>
        let '(s, r) := st_on_egress (λ e, send_faf e wire) s in (s, default (Err NotConnected) r)
    end
  else (s, Err NotConnected).

(** ** Histories *)

Inductive StdioOp : Type :=
  | SConnectBegin
  | SConnectFinish
  | SDisconnect
  | SOnRequest
  | SHooks (hooks : bool)
  | SWriteControl (bytes : list byte)
  | SWriteData (f : Frame)
  | SDrain (ok : bool)
  | SRead (chunk : list byte)
  | SReadOver (failed : bool)
  | SRoute
  | SAccept (fresh : txid)
  | SHandler (r : result XacppResponse XacppError) (fresh : txid)
  | SStart (faf : bool) (sid : option string) (req : XacppRequest) (fresh : txid)
  | SCall (i : nat).

Definition stdio_exec s (op : StdioOp) : StdioTransport :=
  match op with
  | SConnectBegin => if st_connecting s then s else (stdio_connect_begin s).1
  | SConnectFinish => stdio_connect_finish s
  | SDisconnect => if st_connecting s then s else stdio_disconnect s
  | SOnRequest => (stdio_on_request s).1
  | SHooks hooks => stdio_on_transfer_activity hooks s
  | SWriteControl bytes => (stdio_write_control_frame bytes s).1
  | SWriteData f => (stdio_write_data_frame f s).1
  | SDrain ok => st_drain ok s
  | SRead chunk => read_bytes chunk s
  | SReadOver failed => read_over failed s
  | SRoute => route_step s
  | SAccept fresh => accept_step fresh s
  | SHandler r fresh => handler_returns r fresh s
  | SStart faf sid req fresh => stdio_call_start faf sid req fresh s
  | SCall i => stdio_call_step i s
  end.

Definition stdio_run (ops : list StdioOp) : StdioTransport := foldl stdio_exec stdio_new ops.

(** ** The transport as an instance of the interleaving machine *)

Definition abs_pipe p : Connection :=
  mkConnection (pp_egress p) (pp_channel p)
    (match pp_reader p with ReadEnded => false | _ => true end) (negb (accept_ended (pp_accept p))).

Definition abs_tasks (o : option Pipe) : list Task :=
  match o with
  | Some p => match pp_accept p with Handling id sid payload => [mkTask 0 id sid payload] | _ => [] end
  | None => []
  end.

Definition slot (b : bool) : option nat := if b then Some 0 else None.

Definition stdio_abs s : Carrier :=
  mkCarrier (option_list (abs_pipe <$> st_pipe s)) (slot (st_egress s)) (slot (reader_handle s))
    (slot (st_connecting s)) false true (parked_writer s) (st_connected s) (st_closed s)
    (st_pending s) (st_delivered s) (st_next_id s) (request_handler s) (transfer_hooks s)
    (abs_tasks (st_pipe s)) (st_calls s) (st_receipts s).

(** The carrier operations an operation stands for. *)
Definition abs_op s (op : StdioOp) : list CarrierOp :=
  match op with
  | SConnectBegin => [OpConnectBegin true]
  | SConnectFinish => [OpConnectFinish]
  | SDisconnect => [OpDisconnect]
  | SOnRequest => [OpOnRequest]
  | SHooks hooks => [OpHooks hooks]
  | SWriteControl bytes => [OpWrite true bytes]
  | SWriteData f => match encode f with Ok wire => [OpWrite false wire] | Err _ => [] end
  | SDrain ok => [OpDrain 0 ok]
  | SRead _ => []
  | SReadOver failed =>
      match st_pipe s with
      | Some p => match pp_reader p with
                  | Reading => if failed then [] else [OpReadStop 0 false]
                  | _ => []
                  end
      | None => []
      end
  | SRoute =>
      match st_pipe s with
      | None => []
      | Some p =>
          match pp_reader p with
          | Routing (f :: _) =>
              match frame_type f with
              | DataJson =>
                  if accept_ended (pp_accept p) || (length (pp_channel p) <? FRAME_CHANNEL_CAPACITY)
                  then [OpRead 0 (payload f)] else []
              | _ => []
              end
          | Failing =>
              if accept_ended (pp_accept p) then [OpReadStop 0 false]
              else if length (pp_channel p) <? FRAME_CHANNEL_CAPACITY then [OpReadStop 0 true]
              else []
          | _ => []
          end
      end
  | SAccept fresh =>
      match st_pipe s with
      | Some p => match pp_accept p with Listening => [OpDispatch 0 fresh] | _ => [] end
      | None => []
      end
  | SHandler r fresh =>
      match st_pipe s with
      | Some p => match pp_accept p with Handling _ _ _ => [OpHandlerDone 0 r fresh] | _ => [] end
      | None => []
      end
  | SStart faf sid req fresh => [OpStart faf sid req fresh]
  | SCall i => [OpCall i]
  end.

(** The tasks' handles are held while the accept loop runs; the pipe exists once
    its halves are taken. *)
Record stdio_inv s : Prop := {
  si_halves : parked_writer s = parked_reader s;
  si_parked : parked_writer s = true → st_pipe s = None;
  si_taken : parked_writer s = false → is_Some (st_pipe s);
  si_handles : reader_handle s = accept_handle s;
  si_running : ∀ p, st_pipe s = Some p → accept_ended (pp_accept p) = false →
    st_connecting s = true ∨ accept_handle s = true;
  si_calls : Forall (λ cl, match cl_phase cl with
                           | Cloned _ k | WaitAck k _ | WaitResponse k => k = 0
                           | _ => True
                           end) (st_calls s);
}.

Lemma abs_on_egress {A} (f : Egress → Egress * A) s :
  stdio_abs (st_on_egress f s).1 = (on_egress 0 f (stdio_abs s)).1 ∧
  (st_on_egress f s).2 = (on_egress 0 f (stdio_abs s)).2.
Proof using Type.
  destruct s as [[p|] ? ? ? ? ? ? ? ? ? ? ? ? ? ? ? ?]; [|done].
  unfold st_on_egress, on_egress, load. cbn. destruct (f _) as [e r]. done.
Qed.

Lemma abs_egress_step f s :
  stdio_abs (st_on_egress (λ e, (f e, tt)) s).1 = (on_egress 0 (λ e, (f e, tt)) (stdio_abs s)).1.
Proof using Type. apply abs_on_egress. Qed.

Lemma st_on_egress_fields {A} (f : Egress → Egress * A) s :
  let s' := (st_on_egress f s).1 in
  parked_writer s' = parked_writer s ∧ parked_reader s' = parked_reader s ∧
  st_egress s' = st_egress s ∧ reader_handle s' = reader_handle s ∧
  accept_handle s' = accept_handle s ∧ st_connecting s' = st_connecting s ∧
  st_calls s' = st_calls s ∧ request_handler s' = request_handler s ∧
  st_delivered s' = st_delivered s ∧ st_next_id s' = st_next_id s ∧
  st_receipts s' = st_receipts s ∧ transfer_hooks s' = transfer_hooks s ∧
  st_routed s' = st_routed s ∧
  (pp_accept <$> st_pipe s') = (pp_accept <$> st_pipe s) ∧
  (pp_reader <$> st_pipe s') = (pp_reader <$> st_pipe s) ∧
  (pp_channel <$> st_pipe s') = (pp_channel <$> st_pipe s).
Proof using Type.
  destruct s as [[p|] ? ? ? ? ? ? ? ? ? ? ? ? ? ? ? ?]; [|done].
  unfold st_on_egress. cbn. by destruct (f _) as [e r].
Qed.

Lemma abs_connect_begin s :
  stdio_inv s → stdio_abs (stdio_connect_begin s).1 = (connect_begin true (stdio_abs s)).1.
Proof using Type.
  intros [Hh Hp Ht _ _ _]. unfold stdio_connect_begin, connect_begin. cbn.
  destruct (st_connected s); [done|]. rw -Hh. destruct (parked_writer s); [|done].
  unfold stdio_abs, set_slots, set_conns. cbn. by rw !(Hp eq_refl).
Qed.

Lemma abs_connect_finish s : stdio_abs (stdio_connect_finish s) = connect_finish (stdio_abs s).
Proof using Type. unfold stdio_connect_finish, connect_finish. cbn. by destruct (st_connecting s). Qed.

Lemma abs_answer ch msg fresh s p :
  st_pipe s = Some p →
  stdio_abs (answer ch msg fresh s) =
  send_response 0 msg fresh (stdio_abs (on_pipe (pp_set_accept ch Listening) s)).
Proof using Type.
  intros Hp. destruct s as [o ? ? ? ? ? ? ? ? ? ? ? ? ? ? ? ?]. cbn in Hp. subst o.
  unfold answer, send_response. destruct (serialize_envelope msg fresh) as [frame|]; [|done].
  unfold st_on_egress, on_egress, load. cbn. destruct (send_acked _ _ _) as [e [|]]; done.
Qed.

Lemma abs_disconnect s :
  stdio_inv s → st_connecting s = false →
  stdio_abs (stdio_disconnect s) = carrier_disconnect (stdio_abs s).
Proof using Type.
  intros [_ _ _ Hr Hrun _] Hc.
  destruct s as [[[e d ch rd ac]|] pw pr eg rh ah co cd cl pe dl ni hd hk ro ca re];
    cbn in *; subst rh co; [|by destruct eg, ah].
  specialize (Hrun _ eq_refl). cbn in Hrun.
  destruct ah; [by destruct eg|]. destruct ac; [..|by destruct eg]; by destruct Hrun.
Qed.

Lemma abs_accept_exit ch s p :
  st_pipe s = Some p →
  stdio_abs (accept_exit ch s) =
  dispatch_exit 0 (stdio_abs (on_pipe (pp_set_accept ch Listening) s)).
Proof using Type.
  intros Hp. destruct s as [o ? ? ? ? ? ? ? ? ? ? ? ? ? ? ? ?]. cbn in Hp. by subst o.
Qed.

Lemma dispatch_idle c cn fresh :
  ct_conns c !! 0 = Some cn → cn_dispatching cn = true → ct_inflight c = [] →
  dispatch_step 0 fresh c =
  match cn_inbox cn with
  | Some data :: rest =>
      dispatch_envelope 0 data fresh (upd_conn 0 (set_inbox rest (cn_reading cn)) c)
  | None :: rest => dispatch_exit 0 (upd_conn 0 (set_inbox rest (cn_reading cn)) c)
  | [] => if cn_reading cn then c else dispatch_exit 0 c
  end.
Proof using Type. intros Hc Hd Hf. unfold dispatch_step. rw Hc Hd Hf. by rw andb_false_r. Qed.

Lemma abs_accept s p fresh :
  st_pipe s = Some p → pp_accept p = Listening →
  stdio_abs (accept_step fresh s) = dispatch_step 0 fresh (stdio_abs s).
Proof using Type.
  intros Hp Ha. rw (dispatch_idle (stdio_abs s) (abs_pipe p)).
  { cbn. by rw Hp. } { cbn. by rw Ha. } { cbn. by rw Hp /= Ha. }
  unfold accept_step. rw Hp Ha. cbn [cn_inbox abs_pipe].
  assert (∀ rest, upd_conn 0 (set_inbox rest (cn_reading (abs_pipe p))) (stdio_abs s) =
    stdio_abs (on_pipe (pp_set_accept rest Listening) s)) as Hu.
  { intros rest. destruct s, p. cbn in Hp, Ha. by subst. }
  destruct (pp_channel p) as [|[data|] rest] eqn:Hch.
  - assert (on_pipe (pp_set_accept [] Listening) s = s) as Hid.
    { destruct s, p. cbn in *. by subst. }
    unfold abs_pipe. cbn [cn_reading]. destruct (pp_reader p); [done..|].
    by rw (abs_accept_exit _ _ _ Hp) Hid.
  - rw Hu. unfold accept_envelope, dispatch_envelope.
    destruct (envelope_from_slice data) as [[id sid req|id sid r]|]; [| |done].
    + unfold dispatch_request. cbn [stdio_abs ct_handler on_pipe st_set_pipe request_handler].
      destruct (request_handler s) eqn:Hh.
      * unfold stdio_abs, set_tasks. cbn. by rw Hp Hh.
      * rw (abs_answer _ _ _ _ _ Hp). done.
    + unfold dispatch_response. cbn [stdio_abs ct_pending on_pipe st_set_pipe st_pending].
      destruct (st_pending s !! id) as [[]|]; done.
  - rw Hu. apply (abs_accept_exit _ _ _ Hp).
Qed.

Lemma abs_handler s p r fresh id sid req :
  st_pipe s = Some p → pp_accept p = Handling id sid req →
  stdio_abs (handler_returns r fresh s) = handler_done 0 r fresh (stdio_abs s).
Proof using Type.
  intros Hp Ha. unfold handler_returns, handler_done. rw Hp Ha.
  assert (ct_inflight (stdio_abs s) = [mkTask 0 id sid req]) as -> by (cbn; by rw Hp /= Ha).
  cbn [lookup list_lookup tk_conn tk_id tk_session delete list_delete].
  rw (abs_answer _ _ _ _ _ Hp). f_equal. destruct s, p. cbn in Hp, Ha. by subst.
Qed.

Lemma abs_route s :
  stdio_abs (route_step s) = foldl carrier_exec (stdio_abs s) (abs_op s SRoute).
Proof using Type.
  destruct s as [[p|] pw pr eg rh ah co cd cl pe dl ni hd hk ro ca re]; [|done].
  destruct p as [e d ch rd ac].
  unfold route_step, abs_op. cbn [st_pipe pp_reader pp_accept pp_channel].
  destruct rd as [|[|f frames]| |]; try done.
  - destruct (frame_type f); try (by destruct hk).
    destruct (accept_ended ac) eqn:Hac; cbn [orb].
    + unfold carrier_exec, read_envelope. cbn. rw Hac. cbn. by destruct hk; cbn; rw ?Hac.
    + destruct (length ch <? FRAME_CHANNEL_CAPACITY); [|done].
      unfold carrier_exec, read_envelope. cbn. rw Hac. cbn. by destruct hk.
  - destruct (accept_ended ac) eqn:Hac.
    + unfold carrier_exec, read_stop. by cbn.
    + destruct (length ch <? FRAME_CHANNEL_CAPACITY); [|done]. by cbn.
Qed.

Lemma abs_read_over failed s :
  stdio_abs (read_over failed s) = foldl carrier_exec (stdio_abs s) (abs_op s (SReadOver failed)).
Proof using Type.
  destruct s as [[[e d ch rd ac]|] pw pr eg rh ah co cd cl pe dl ni hd hk ro ca re]; [|done].
  by destruct rd, failed.
Qed.

Lemma abs_read chunk s : stdio_abs (read_bytes chunk s) = stdio_abs s.
Proof using Type.
  destruct s as [[[e d ch rd ac]|] pw pr eg rh ah co cd cl pe dl ni hd hk ro ca re]; [|done].
  unfold read_bytes. cbn [st_pipe pp_reader pp_decoder pp_channel]. destruct rd; try done. by destruct (feed d chunk) as [[d' []]|].
Qed.

Lemma abs_call i s :
  stdio_inv s → stdio_abs (stdio_call_step i s) = call_step i (stdio_abs s).
Proof using Type.
  intros Hi. unfold stdio_call_step, call_step. cbn [ct_calls stdio_abs].
  destruct (st_calls s !! i) as [cl|] eqn:Hcl; [|done].
  pose proof (Forall_lookup_1 _ _ _ _ (si_calls s Hi) Hcl) as Hk.
  cbn beta in Hk. destruct (cl_phase cl) as [f|f k|k a|k|r] eqn:Hph; try subst k.
  - cbn. destruct (st_egress s) eqn:He; unfold stdio_abs, upd_call, set_calls; cbn; by rw He.
  - cbn zeta. change (ct_receipts (stdio_abs s)) with (st_receipts s).
    set (g := λ e, if cl_faf cl then _ else _).
    pose proof (abs_on_egress g (st_set_counters (st_next_id s) (S (st_receipts s)) s)) as [H1 H2].
    change (stdio_abs (st_set_counters (st_next_id s) (S (st_receipts s)) s)) with
      (set_counters (ct_next_id (stdio_abs s)) (S (st_receipts s)) (stdio_abs s)) in H1, H2.
    destruct (st_on_egress g _) as [s' r], (on_egress 0 g _) as [c' r']. cbn in H1, H2. subst r' c'.
    destruct r as [[]|]; done.
  - assert (∀ A (f : Egress → A), f ∘ cn_egress <$> option_list (abs_pipe <$> st_pipe s) !! 0 =
      f ∘ pp_egress <$> st_pipe s) as Hf by (intros A f; by destruct (st_pipe s)).
    cbn [ct_conns]. rw (Hf _ eg_acks).
    by destruct (list_find _ _) as [[? [? []]]|].
  - change (ct_delivered (stdio_abs s)) with (st_delivered s).
    change (ct_pending (stdio_abs s)) with (st_pending s). destruct (st_delivered s !! _); [done|].
    by destruct (st_pending s !! _) as [[]|].
  - done.
Qed.

Lemma abs_write (control : bool) bytes s :
  stdio_abs (if st_egress s then
      (st_on_egress (λ e, if control then send_control e bytes else send_faf e bytes) s).1
    else s) = (carrier_write control bytes (stdio_abs s)).1.
Proof using Type.
  unfold carrier_write. cbn [ct_egress stdio_abs]. destruct (st_egress s); [|done]. cbn [slot].
  destruct (abs_on_egress (λ e, if control then send_control e bytes else send_faf e bytes) s)
    as [H1 _]. rw H1. by destruct (on_egress 0 _ _).
Qed.

Lemma abs_exec s op :
  stdio_inv s → stdio_abs (stdio_exec s op) = foldl carrier_exec (stdio_abs s) (abs_op s op).
Proof using Type.
  intros Hi. destruct op; cbn [stdio_exec abs_op foldl carrier_exec].
  - change (ct_connecting (stdio_abs s)) with (slot (st_connecting s)).
    destruct (st_connecting s); [done|]. by apply abs_connect_begin.
  - apply abs_connect_finish.
  - change (ct_connecting (stdio_abs s)) with (slot (st_connecting s)).
    destruct (st_connecting s) eqn:Hc; [done|]. by apply abs_disconnect.
  - unfold stdio_on_request, carrier_on_request. cbn. by destruct (st_connected s).
  - done.
  - rw -abs_write. unfold stdio_write_control_frame. destruct (st_egress s); [|done].
    by destruct (st_on_egress _ s).
  - unfold stdio_write_data_frame. destruct (encode f) as [wire|]; [|by destruct (st_egress s)].
    cbn [foldl carrier_exec]. rw -abs_write. destruct (st_egress s); [|done].
    by destruct (st_on_egress _ s).
  - apply abs_egress_step.
  - apply abs_read.
  - apply abs_read_over.
  - apply abs_route.
  - destruct (st_pipe s) as [p|] eqn:Hp; [|unfold accept_step; by rw Hp].
    destruct (pp_accept p) as [|id sid req|a|] eqn:Ha; [by apply (abs_accept s p)|..];
      unfold accept_step; rw Hp Ha; try done.
    destruct (list_find _ _); [|done]. destruct s, p. cbn in *. by subst.
  - destruct (st_pipe s) as [p|] eqn:Hp; [|unfold handler_returns; by rw Hp].
    destruct (pp_accept p) as [|id sid req|a|] eqn:Ha;
      [|by eapply (abs_handler s p)|..]; unfold handler_returns; rw Hp Ha; done.
  - unfold stdio_call_start, call_start. cbn. by destruct (serialize_envelope _ _).
  - by apply abs_call.
Qed.

(** *** The invariant *)

Definition local_call (cl : Call) : Prop :=
  match cl_phase cl with Cloned _ k | WaitAck k _ | WaitResponse k => k = 0 | _ => True end.

(** A step that leaves the slots alone and does not bring the loop back. *)
Record calm s s' : Prop := {
  cm_writer : parked_writer s' = parked_writer s;
  cm_reader : parked_reader s' = parked_reader s;
  cm_reader_handle : reader_handle s' = reader_handle s;
  cm_accept_handle : accept_handle s' = accept_handle s;
  cm_connecting : st_connecting s' = st_connecting s;
  cm_pipe : option_Forall2 (λ p p', accept_ended (pp_accept p) = true →
              accept_ended (pp_accept p') = true) (st_pipe s) (st_pipe s');
  cm_calls : Forall local_call (st_calls s) → Forall local_call (st_calls s');
}.

Lemma calm_inv s s' : stdio_inv s → calm s s' → stdio_inv s'.
Proof using Type.
  intros [H1 H2 H3 H4 H5 H6] [C1 C2 C3 C4 C5 C6 C7]. split; rw ?C1 ?C2 ?C3 ?C4 ?C5; try done.
  - intros Hw. specialize (H2 Hw). rw H2 in C6. by inversion C6.
  - intros Hw. destruct (H3 Hw) as [p Hp]. rw Hp in C6. inversion C6; subst. by eexists.
  - intros p' Hp' Ha. rw Hp' in C6. inversion C6 as [p ? Hpp Hp|]; subst. symmetry in Hp.
    apply (H5 p Hp). destruct (accept_ended (pp_accept p)); [|done]. by rw Hpp in Ha.
  - by apply C7.
Qed.

Lemma calm_refl s : calm s s.
Proof using Type. split; try done. destruct (st_pipe s); by constructor. Qed.

Lemma calm_trans s1 s2 s3 : calm s1 s2 → calm s2 s3 → calm s1 s3.
Proof using Type.
  intros [A1 A2 A3 A4 A5 A6 A7] [B1 B2 B3 B4 B5 B6 B7]. split; try congruence; [|by auto].
  destruct A6; inversion B6; subst; constructor; auto.
Qed.

Lemma calm_on_pipe f s :
  (∀ p, accept_ended (pp_accept p) = true → accept_ended (pp_accept (f p)) = true) →
  calm s (on_pipe f s).
Proof using Type. intros Hf. split; try done. cbn. destruct (st_pipe s); constructor; auto. Qed.

Lemma calm_on_egress {A} (f : Egress → Egress * A) s : calm s (st_on_egress f s).1.
Proof using Type.
  destruct s as [[p|] ? ? ? ? ? ? ? ? ? ? ? ? ? ? ? ?]; [|apply calm_refl].
  unfold st_on_egress. cbn. destruct (f _). split; try done. by constructor.
Qed.

Lemma calm_reader d ch r s : calm s (on_pipe (pp_set_reader d ch r) s).
Proof using Type. by apply calm_on_pipe. Qed.

(** The accept loop's own steps: it runs, or has ended. *)
Lemma calm_accept ch a s p :
  st_pipe s = Some p → accept_ended (pp_accept p) = false → calm s (on_pipe (pp_set_accept ch a) s).
Proof using Type.
  intros Hp Ha. split; try done. cbn. rw Hp. constructor. by rw Ha.
Qed.

Lemma answer_calm ch msg fresh s p :
  st_pipe s = Some p → accept_ended (pp_accept p) = false → calm s (answer ch msg fresh s).
Proof using Type.
  intros Hp Ha. unfold answer. destruct (serialize_envelope msg fresh); [|by eapply calm_accept].
  set (s1 := st_set_counters _ _ s). pose proof (calm_on_egress (λ e, send_acked e a (st_receipts s)) s1) as Hc.
  pose proof (st_on_egress_fields (λ e, send_acked e a (st_receipts s)) s1) as Hf. cbn zeta in *.
  destruct (st_on_egress _ s1) as [s2 r]. cbn in Hc, Hf.
  assert (calm s s2) as Hs by (apply (calm_trans _ s1); [|done]; by split; try done; cbn; rw Hp; constructor).
  destruct Hf as (_ & _ & _ & _ & _ & _ & _ & _ & _ & _ & _ & _ & _ & Hacc & _).
  rw Hp /= in Hacc. destruct (st_pipe s2) as [p2|] eqn:Hp2; [|done]. injection Hacc as Hacc.
  apply (calm_trans _ s2); [done|].
  destruct r as [[]|]; (eapply calm_accept; [exact Hp2|by rw Hacc]).
Qed.

(** Updates of the shared fields only. *)
Lemma calm_shared cd cl pe s : calm s (st_set_shared cd cl pe s).
Proof using Type. destruct (calm_refl s). by split. Qed.
Lemma calm_hooks hd hk ro s : calm s (st_set_hooks hd hk ro s).
Proof using Type. destruct (calm_refl s). by split. Qed.
Lemma calm_delivered m s : calm s (st_set_delivered m s).
Proof using Type. destruct (calm_refl s). by split. Qed.
Lemma calm_counters n r s : calm s (st_set_counters n r s).
Proof using Type. destruct (calm_refl s). by split. Qed.

Lemma calm_upd_call i ph s :
  match ph with Cloned _ k | WaitAck k _ | WaitResponse k => k = 0 | _ => True end →
  calm s (st_upd_call i ph s).
Proof using Type.
  intros Hph. destruct (calm_refl s). split; try done. cbn. intros H. apply Forall_alter; [done|].
  by intros cl _ _.
Qed.

Lemma calm_push_call cl s : local_call cl → calm s (st_set_calls (st_calls s ++ [cl]) s).
Proof using Type.
  intros Hcl. destruct (calm_refl s). split; try done. cbn. intros H.
  apply Forall_app. split; [done|by constructor].
Qed.

Lemma calm_tell f s : calm s (tell_hooks f s).
Proof using Type. unfold tell_hooks. destruct (transfer_hooks s); [apply calm_hooks|apply calm_refl]. Qed.

Lemma calm_detach ch s : calm s (detach_and_end ch s).
Proof using Type.
  eapply calm_trans; [|apply calm_hooks]. by apply calm_on_pipe.
Qed.

Lemma accept_calm fresh s : calm s (accept_step fresh s).
Proof using Type.
  unfold accept_step. destruct (st_pipe s) as [p|] eqn:Hp; [|apply calm_refl].
  destruct (pp_accept p) as [|id sid req|a|] eqn:Ha; try apply calm_refl.
  - assert (∀ ch ph, calm s (on_pipe (pp_set_accept ch ph) s)) as Hon
      by (intros ch ph; eapply calm_accept; [exact Hp|by rw Ha]).
    assert (∀ ch, calm s (accept_exit ch s)) as Hexit.
    { intros ch. unfold accept_exit, st_close_egress. eapply calm_trans; [apply calm_shared|].
      eapply calm_trans; [|by apply calm_on_pipe]. apply calm_on_egress. }
    destruct (pp_channel p) as [|[data|] rest]; [destruct (pp_reader p); [apply calm_refl..|]| |];
      [apply Hexit| |apply Hexit].
    unfold accept_envelope. destruct (envelope_from_slice data) as [[id sid req|id sid r]|]; [| |done].
    + destruct (request_handler s); [done|]. eapply answer_calm; [exact Hp|by rw Ha].
    + assert (∀ m, calm s (st_set_pending m (on_pipe (pp_set_accept rest Listening) s))) as Hm
        by (intros m; eapply calm_trans; [apply Hon|apply calm_shared]).
      destruct (st_pending s !! id) as [[]|]; [|apply Hm|apply Hon].
      eapply calm_trans; [apply Hm|apply calm_delivered].
  - destruct (list_find _ _); [|apply calm_refl]. eapply calm_accept; [exact Hp|by rw Ha].
Qed.

Lemma route_calm s : calm s (route_step s).
Proof using Type.
  unfold route_step. destruct (st_pipe s) as [p|]; [|apply calm_refl].
  destruct (pp_reader p) as [|[|f frames]| |]; try apply calm_refl; try apply calm_reader.
  - assert (∀ o d ch r, calm s (on_pipe (pp_set_reader d ch r) (tell_hooks o s))) as Ht
      by (intros o d ch r; eapply calm_trans; [apply calm_tell|apply calm_reader]).
    destruct (frame_type f); try apply Ht.
    destruct (accept_ended _); [apply Ht|]. destruct (_ <? _); [apply Ht|apply calm_refl].
  - destruct (accept_ended _); [apply calm_detach|]. destruct (_ <? _); [apply calm_detach|apply calm_refl].
Qed.

Lemma call_calm i s : Forall local_call (st_calls s) → calm s (stdio_call_step i s).
Proof using Type.
  intros Hl. unfold stdio_call_step. destruct (st_calls s !! i) as [cl|] eqn:Hcl; [|apply calm_refl].
  pose proof (Forall_lookup_1 _ _ _ _ Hl Hcl) as Hk. unfold local_call in Hk.
  destruct (cl_phase cl) as [f|f k|k a|k|r].
  - apply calm_upd_call. by destruct (st_egress s).
  - pose proof (calm_on_egress (λ e, if cl_faf cl then send_faf e f else send_acked e f (st_receipts s))
      (st_set_counters (st_next_id s) (S (st_receipts s)) s)) as Hc.
    destruct (st_on_egress _ _) as [s' r]. cbn in Hc.
    assert (calm s s') as Hs by (eapply calm_trans; [apply calm_counters|exact Hc]).
    destruct r as [[]|]; [| |done].
    + eapply calm_trans; [exact Hs|]. apply calm_upd_call. by destruct (cl_faf cl).
    + eapply calm_trans; [exact Hs|]. eapply calm_trans; [apply calm_shared|]. by apply calm_upd_call.
  - destruct (list_find _ _) as [[? [? []]]|]; [by apply calm_upd_call| |apply calm_refl].
    eapply calm_trans; [apply calm_shared|]. by apply calm_upd_call.
  - destruct (st_delivered s !! _); [by apply calm_upd_call|].
    destruct (st_pending s !! _) as [[]|]; [apply calm_refl|by apply calm_upd_call..].
  - apply calm_refl.
Qed.

Lemma stdio_exec_inv s op : stdio_inv s → stdio_inv (stdio_exec s op).
Proof using Type.
  intros Hi. destruct op; cbn [stdio_exec].
  - destruct (st_connecting s); [done|]. unfold stdio_connect_begin.
    destruct (st_connected s); [done|]. destruct (parked_writer s) eqn:Hw; [|done]. cbn.
    destruct Hi as [H1 H2 H3 H4 H5 H6]. rw -H1 Hw. cbn. split; cbn; try done.
    + intros p [= <-] _. by left.
  - unfold stdio_connect_finish. destruct (st_connecting s); [|done].
    destruct Hi as [H1 H2 H3 H4 H5 H6]. split; cbn; try done. by right.
  - destruct (st_connecting s) eqn:Hc; [done|]. destruct Hi as [H1 H2 H3 H4 H5 H6].
    destruct s as [[[e d ch rd ac]|] pw pr eg rh ah co cd cl pe dl ni hd hk ro ca re];
      cbn in *; subst; specialize (H5 _ eq_refl) || clear H5.
    all: destruct eg, ah; split; cbn in *; try done; try (intros Hw; by specialize (H2 Hw));
      intros p [= <-] Ha; try done; by destruct (H5 Ha).
  - unfold stdio_on_request. destruct (st_connected s); [done|]. eapply calm_inv, calm_hooks. done.
  - eapply calm_inv, calm_hooks. done.
  - unfold stdio_write_control_frame. destruct (st_egress s); [|done].
    pose proof (calm_on_egress (λ e, send_control e bytes) s) as Hc.
    destruct (st_on_egress _ s). by eapply calm_inv.
  - unfold stdio_write_data_frame. destruct (st_egress s); [|done]. destruct (encode f) as [wire|]; [|done].
    pose proof (calm_on_egress (λ e, send_faf e wire) s) as Hc.
    destruct (st_on_egress _ s). by eapply calm_inv.
  - eapply calm_inv, calm_on_egress. done.
  - unfold read_bytes. destruct (st_pipe s) as [p|]; [|done]. destruct (pp_reader p); try done.
    destruct (feed _ _) as [[? []]|]; [eapply calm_inv, calm_reader; done..|done].
  - unfold read_over. destruct (st_pipe s) as [p|]; [|done]. destruct (pp_reader p); try done.
    destruct failed; [eapply calm_inv, calm_reader; done|eapply calm_inv, calm_detach; done].
  - eapply calm_inv, route_calm. done.
  - eapply calm_inv, accept_calm. done.
  - unfold handler_returns. destruct (st_pipe s) as [p|] eqn:Hp; [|done].
    destruct (pp_accept p) eqn:Ha; try done.
    eapply calm_inv; [done|]. eapply answer_calm; [exact Hp|by rw Ha].
  - unfold stdio_call_start. destruct (serialize_envelope _ _).
    + eapply calm_inv; [done|]. eapply calm_trans; [apply calm_counters|].
      eapply calm_trans; [|apply calm_shared]. by apply calm_push_call.
    + eapply calm_inv; [done|]. eapply calm_trans; [apply calm_counters|apply calm_push_call; exact I].
  - eapply calm_inv; [done|]. apply call_calm, si_calls, Hi.
Qed.

Lemma stdio_new_inv : stdio_inv stdio_new.
Proof using Type. by split. Qed.

Lemma stdio_run_inv ops : stdio_inv (stdio_run ops).
Proof using Type.
  unfold stdio_run. generalize stdio_new_inv. generalize stdio_new.
  induction ops as [|op ops IH]; intros s Hs; [done|]. by apply IH, stdio_exec_inv.
Qed.

Lemma stdio_runs_carrier ops :
  ∃ cops, stdio_abs (stdio_run ops) = carrier_run false true cops ∧ length cops ≤ length ops.
Proof using Type.
  unfold stdio_run, carrier_run. change (Carrier_new false true) with (stdio_abs stdio_new).
  generalize stdio_new_inv. generalize stdio_new.
  induction ops as [|op ops IH]; intros s Hs; [by exists []|].
  destruct (IH (stdio_exec s op) (stdio_exec_inv s op Hs)) as (cops & Hrun & Hlen).
  exists (abs_op s op ++ cops). rw foldl_app. cbn [foldl]. rw Hrun (abs_exec s op Hs). split; [done|].
  rw length_app. cbn [length]. assert (length (abs_op s op) ≤ 1); [|lia].
  destruct op; cbn; repeat case_match; cbn; lia.
Qed.

(** C16: the stdio transport is the interleaving machine with inline handling.
    Every history of the transport (its bounded channel, its decoder, the accept
    loop's wait for each receipt, the parked pipe halves) is a history of the
    carrier machine with one connection: after the same prefix the two agree on
    the queue, the pending table, the delivered responses, the flags and every
    call, so what holds of all interleavings of the machine holds of it. *)
Theorem stdio_refines_carrier ops :
  ∃ cops, stdio_abs (stdio_run ops) = carrier_run false true cops ∧ length cops ≤ length ops.
Proof using Type. apply stdio_runs_carrier. Qed.

(** ** Requests are served one at a time *)

(** Operations that neither end the running handler nor cut the connection. *)
Definition undisturbed (op : StdioOp) : bool :=
  match op with SHandler _ _ | SDisconnect | SDrain false => false | _ => true end.

(** The loop is in a handler, and call [i] waits for its answer. *)
Definition blocked (i : nat) (cl : Call) s : Prop :=
  (∃ p id sid req, st_pipe s = Some p ∧ pp_accept p = Handling id sid req) ∧
  st_calls s !! i = Some cl ∧ (∃ k, cl_phase cl = WaitResponse k) ∧
  st_pending s !! cl_id cl = Some SlotRespond ∧ st_delivered s !! cl_id cl = None.

Lemma drain_pending e : eg_pending (drain_step e true) = eg_pending e.
Proof using Type.
  unfold drain_step, drain_data. repeat case_match; cbn; try done; rw ?task_exit_pending //.
Qed.

Lemma on_egress_pending {A} (f : Egress → Egress * A) s :
  (∀ e, eg_pending (f e).1 = eg_pending e) → st_pending (st_on_egress f s).1 = st_pending s.
Proof using Type.
  intros Hf. unfold st_on_egress. destruct (st_pipe s); [|done]. cbn.
  match goal with |- context [f ?e] => specialize (Hf e); destruct (f e) as [e' r] end.
  exact Hf.
Qed.

Lemma send_keeps_pending e frame a :
  eg_pending (send_acked e frame a).1 = eg_pending e ∧
  eg_pending (send_faf e frame).1 = eg_pending e ∧
  eg_pending (send_control e frame).1 = eg_pending e.
Proof using Type. unfold send_acked, send_faf, send_control, push_data. by repeat case_match. Qed.

Lemma blocked_egress {A} (f : Egress → Egress * A) i cl s :
  (∀ e, eg_pending (f e).1 = eg_pending e) → blocked i cl s → blocked i cl (st_on_egress f s).1.
Proof using Type.
  intros Hf ((p & id & sid & req & Hp & Ha) & Hc & Hk & Hpe & Hd).
  pose proof (on_egress_pending f s Hf) as Hpe'.
  destruct (st_on_egress_fields f s) as (_ & _ & _ & _ & _ & _ & Hca & _ & Hde & _ & _ & _ & _ & Hac & _).
  cbn zeta in *. unfold blocked. rw Hca Hde Hpe'. split_and!; try done.
  rw Hp /= Ha in Hac. apply fmap_Some in Hac as (p' & Hp' & Hac). by exists p', id, sid, req.
Qed.

Lemma blocked_pipe f i cl s :
  (∀ p, pp_accept (f p) = pp_accept p) → blocked i cl s → blocked i cl (on_pipe f s).
Proof using Type.
  intros Hf ((p & id & sid & req & Hp & Ha) & H). split; [|done]. cbn. rw Hp.
  exists (f p), id, sid, req. by rw Hf.
Qed.

Lemma blocked_route i cl s : blocked i cl s → blocked i cl (route_step s).
Proof using Type.
  intros Hb. unfold route_step. destruct (st_pipe s) as [p|]; [|done].
  assert (∀ o, blocked i cl (tell_hooks o s)) as Ht by (intros o; unfold tell_hooks; by case_match).
  destruct (pp_reader p) as [|[|f frames]| |]; try done; [by apply blocked_pipe| |].
  - destruct (frame_type f); try (by apply blocked_pipe).
    repeat case_match; try done; by apply blocked_pipe.
  - repeat case_match; try done; by apply (blocked_pipe (λ p, pp_set_reader _ _ _ p)).
Qed.

Lemma blocked_upd_call i j cl ph s :
  i ≠ j → blocked i cl s → blocked i cl (st_upd_call j ph s).
Proof using Type.
  intros Hne (Hp & Hc & H). split_and!; try apply H; [exact Hp|].
  cbn. by rw list_lookup_alter_ne.
Qed.

Lemma blocked_delete i cl id s :
  id ≠ cl_id cl → blocked i cl s → blocked i cl (st_set_pending (delete id (st_pending s)) s).
Proof using Type.
  intros Hne (Hp & Hc & Hk & Hpe & Hd). split_and!; try done. cbn. by rw lookup_delete_ne.
Qed.

Lemma blocked_call i j cl s :
  carrier_inv (stdio_abs s) → blocked i cl s → blocked i cl (stdio_call_step j s).
Proof using Type.
  intros Hi Hb. unfold stdio_call_step. destruct (st_calls s !! j) as [cj|] eqn:Hj; [|done].
  pose proof Hb as (_ & Hc & [k Hk] & Hpe & Hd). destruct (decide (i = j)) as [<-|Hne].
  { rw Hc in Hj. injection Hj as <-. rw Hk Hd. by rw Hpe. }
  assert (cl_id cj ≠ cl_id cl) as Hids.
  { rw (ci_ids _ Hi i cl Hc) (ci_ids _ Hi j cj Hj). intros Heq%(inj request_id). lia. }
  destruct (cl_phase cj) as [f|f k'|k' a|k'|r]; [by apply blocked_upd_call| | | |done].
  - set (g := λ e, if cl_faf cj then _ else _).
    assert (∀ e, eg_pending (g e).1 = eg_pending e) as Hg.
    { intros e. subst g. cbn. destruct (send_keeps_pending e f (st_receipts s)) as (? & ? & _).
      by destruct (cl_faf cj). }
    pose proof (blocked_egress g i cl (st_set_counters (st_next_id s) (S (st_receipts s)) s) Hg Hb) as Hb'.
    destruct (st_on_egress g _) as [s' r]. cbn [fst] in Hb'.
    destruct r as [[]|]; [by apply blocked_upd_call| |done].
    by apply blocked_upd_call, blocked_delete.
  - destruct (list_find _ _) as [[? [? []]]|]; [by apply blocked_upd_call| |done].
    by apply blocked_upd_call, blocked_delete.
  - repeat case_match; try done; by apply blocked_upd_call.
Qed.

Lemma blocked_start i cl faf sid req fresh s :
  carrier_inv (stdio_abs s) → blocked i cl s → blocked i cl (stdio_call_start faf sid req fresh s).
Proof using Type.
  intros Hi (Hp & Hc & Hk & Hpe & Hd). unfold stdio_call_start.
  assert (request_id (st_next_id s) ≠ cl_id cl) as Hids.
  { pose proof (ci_next _ Hi) as Hn. cbn in Hn. rw (ci_ids _ Hi i cl Hc) Hn.
    intros Heq%(inj request_id). apply lookup_lt_Some in Hc. lia. }
  destruct (serialize_envelope _ _); split_and!; try done; cbn.
  - by apply lookup_app_l_Some.
  - by rw lookup_insert_ne.
  - by apply lookup_app_l_Some.
Qed.

Lemma stdio_blocked_exec i cl s op :
  stdio_inv s → carrier_inv (stdio_abs s) → undisturbed op = true →
  blocked i cl s → blocked i cl (stdio_exec s op).
Proof using Type.
  intros Hs Hi Hop Hb. destruct op as [| | | | |bytes|f|ok|chunk|failed| |fresh|r fresh|faf sid req fresh|j];
    try done; cbn [stdio_exec].
  - destruct (st_connecting s); [done|]. unfold stdio_connect_begin. destruct (st_connected s); [done|].
    destruct (parked_writer s) eqn:Hw; [|done]. destruct Hb as ((p & ? & ? & ? & Hp & ?) & ?).
    by rw (si_parked s Hs Hw) in Hp.
  - unfold stdio_connect_finish. by destruct (st_connecting s).
  - unfold stdio_on_request. by destruct (st_connected s).
  - unfold stdio_write_control_frame. destruct (st_egress s); [|done].
    pose proof (blocked_egress (λ e, send_control e bytes) i cl s
      (λ e, proj2 (proj2 (send_keeps_pending e bytes 0))) Hb) as H. by destruct (st_on_egress _ s).
  - unfold stdio_write_data_frame. destruct (st_egress s); [|done]. destruct (encode f) as [w|]; [|done].
    pose proof (blocked_egress (λ e, send_faf e w) i cl s
      (λ e, proj1 (proj2 (send_keeps_pending e w 0))) Hb) as H. by destruct (st_on_egress _ s).
  - destruct ok; [|done]. apply blocked_egress; [|done]. intros e. apply drain_pending.
  - unfold read_bytes. repeat case_match; try done; by apply blocked_pipe.
  - unfold read_over. repeat case_match; try done; [by apply blocked_pipe|].
    by apply (blocked_pipe (λ p, pp_set_reader _ _ _ p)).
  - by apply blocked_route.
  - destruct Hb as ((p & id & sid & req & Hp & Ha) & H). unfold accept_step. rw Hp Ha.
    split; [by eauto 10|done].
  - by apply blocked_start.
  - by apply blocked_call.
Qed.

Lemma stdio_carrier_inv ops :
  ids_left (stdio_abs (stdio_run ops)) → carrier_inv (stdio_abs (stdio_run ops)).
Proof using Type. destruct (stdio_runs_carrier ops) as (cops & -> & _). apply run_inv. Qed.

Lemma stdio_calls_mono s op :
  stdio_inv s → length (st_calls s) ≤ length (st_calls (stdio_exec s op)).
Proof using Type.
  intros Hs. change (length (ct_calls (stdio_abs s)) ≤ length (ct_calls (stdio_abs (stdio_exec s op)))).
  rw (abs_exec s op Hs). generalize (abs_op s op). intros l. generalize (stdio_abs s). intros c.
  revert c. induction l as [|o l IH]; intros c; [done|]. cbn [foldl].
  etransitivity; [apply exec_calls_length|]. apply IH.
Qed.

(** C40: a request made from inside a handler is not answered.  While the accept
    loop is in a handler, no bytes that arrive, no step of the loop, of the read
    and drain tasks and of other callers completes a [send] that waits for its
    response: only the handler's return, a disconnect or a failed write does.  A
    handler that itself awaits such a [send] never returns. *)
Theorem nested_call_blocked ops more i cl :
  let s := stdio_run ops in
  blocked i cl s → forallb undisturbed more = true →
  ids_left (stdio_abs (stdio_run (ops ++ more))) →
  blocked i cl (stdio_run (ops ++ more)) ∧
  stdio_call_step i (stdio_run (ops ++ more)) = stdio_run (ops ++ more).
Proof using Type.
  intros s Hb Hu Hids. assert (blocked i cl (stdio_run (ops ++ more))) as Hb'.
  - revert Hu Hids. induction more as [|op more IH] using rev_ind; intros Hu Hids; [by rw app_nil_r|].
    rw app_assoc in Hids |- *. rw forallb_app /= andb_true_r in Hu. apply andb_true_iff in Hu as [Hu Hop].
    set (s' := stdio_run (ops ++ more)) in *. pose proof (stdio_run_inv (ops ++ more)) as Hs. fold s' in Hs.
    assert (stdio_run ((ops ++ more) ++ [op]) = stdio_exec s' op) as Hrun
      by (unfold stdio_run; by rw foldl_app).
    rw Hrun in Hids |- *. assert (ids_left (stdio_abs s')) as Hids'.
    { pose proof (stdio_calls_mono s' op Hs). unfold ids_left in *. cbn in *. lia. }
    apply stdio_blocked_exec; [done|by apply stdio_carrier_inv|done|by apply IH].
  - split; [done|]. destruct Hb' as (_ & Hc & [k Hk] & Hpe & Hd).
    unfold stdio_call_step. rw Hc Hk Hd. by rw Hpe.
Qed.
End stdio.
