(* ===== verification/Peer.v ===== *)
(** * The protocol endpoint ([src/session/peer.rs], [src/session/handler.rs])

    [XacppPeer]: the connect / negotiate / establish / disconnect lifecycle and
    the routing of inbound requests.  Sessions are shared objects ([Arc]): they
    live in a heap, the peer holds locations.  The consumer's handlers are
    arguments; a session handler is known by its handle, and routing says which
    one is called with what.  A call here is the call as it runs when nothing else
    touches the peer meanwhile; [Lifecycle] cuts it into its turns and shows that the
    turns, run without interruption, compute these functions. *)
From S2P Require Import Prelude Crc Frame Control Sender Reassemble Errors Stream Transfer.
From S2P Require Import Delivery Clock Sink Egress Messages Logical Carrier.

(** ** State *)

Inductive PeerState : Type := Disconnected | Connected | PNegotiated.

#[export] Instance PeerState_eq_dec : EqDecision PeerState.
Proof. solve_decision. Defined.

(** [Arc<dyn XacppSessionHandler>]: its handle and [is_fetch_responder]. *)
Record SessionHandler : Type := mkSessionHandler {
  h_handle : nat;
  h_is_fetch_responder : bool;
}.

Section peer.
Context `{JSON : JsonLib}.

Record PeerInner : Type := mkPeerInner {
  pi_state : PeerState;
  pi_remote_capabilities : Capabilities;
  pi_emit_events : list string;
  pi_fetch_enabled : bool;
}.

(** [p_emit_events] and [p_fetch_enabled] are the caches shared with the request
    closure. *)
Record XacppPeer : Type := mkXacppPeer {
  p_session : option nat;
  p_inner : PeerInner;
  p_emit_events : list string;
  p_fetch_enabled : bool;
  p_sessions : gmap string SessionHandler;
  p_local_capabilities : Capabilities;
}.

Inductive EstablishDecision : Type :=
  | ChallengeRequired (challenge : string)
  | DecidedEstablished (session_id : string) (handler : SessionHandler) (credentials : string).

(** The consumer's answers: [NegotiateHandler::on_negotiate],
    [EstablishHandler::on_establish] and [on_establish_confirm]. *)
Record PeerHandlers : Type := mkPeerHandlers {
  on_negotiate : EffectiveCapabilities → result unit XacppError;
  on_establish : option string → result EstablishDecision XacppError;
  on_establish_confirm : result (string * SessionHandler * string) XacppError;
}.

Definition PeerInner_new : PeerInner :=
  mkPeerInner Disconnected Capabilities_default [] false.

(** [XacppPeer::new]. *)
Definition XacppPeer_new (capabilities : Capabilities) (session : option nat) : XacppPeer :=
  mkXacppPeer session PeerInner_new [] false ∅ capabilities.

Definition set_inner (i : PeerInner) (p : XacppPeer) : XacppPeer :=
  mkXacppPeer (p_session p) i (p_emit_events p) (p_fetch_enabled p) (p_sessions p)
    (p_local_capabilities p).

Definition set_caches (emit : list string) (fetch : bool) (p : XacppPeer) : XacppPeer :=
  mkXacppPeer (p_session p) (p_inner p) emit fetch (p_sessions p) (p_local_capabilities p).

Definition set_sessions (m : gmap string SessionHandler) (p : XacppPeer) : XacppPeer :=
  mkXacppPeer (p_session p) (p_inner p) (p_emit_events p) (p_fetch_enabled p) m
    (p_local_capabilities p).

(** ** Inbound requests *)

(** What the request closure does: answer itself, or call a session handler,
    whose answer is returned unchanged. *)
Inductive Routed : Type :=
  | Answer (r : result XacppResponse XacppError)
  | CallCommand (h : SessionHandler) (c : XacppCommand)
  | CallEvent (h : SessionHandler) (e : XacppActivityEvent).

Definition route (hs : PeerHandlers) (p : XacppPeer) (session_id : option string)
    (req : XacppRequest) : XacppPeer * Routed :=
  match session_id, req with
  | None, ReqCommand (CmdNegotiate capabilities) =>
      let effective := from_capabilities (p_local_capabilities p) capabilities in
      match on_negotiate hs effective with
      | Err e => (p, Answer (Err e))
      | Ok _ =>
          (set_caches (eff_emit_events effective) (eff_fetch_enabled effective) p,
           Answer (Ok (Negotiated (p_local_capabilities p))))
      end
  | None, ReqCommand (Establish credentials) =>
      match on_establish hs credentials with
      | Ok (ChallengeRequired challenge) => (p, Answer (Ok (EstablishPrepare challenge)))
      | Ok (DecidedEstablished sid handler creds) =>
          (set_sessions (<[sid := handler]> (p_sessions p)) p,
           Answer (Ok (Established sid creds)))
      | Err e => (p, Answer (Err e))
      end
  | None, ReqCommand EstablishConfirm =>
      match on_establish_confirm hs with
      | Ok (sid, handler, creds) =>
          (set_sessions (<[sid := handler]> (p_sessions p)) p,
           Answer (Ok (Established sid creds)))
      | Err e => (p, Answer (Err e))
      end
  | None, _ => (p, Answer (Err (InvalidRequest (Lit "missing session_id"))))
  | Some sid, ReqCommand c =>
      match p_sessions p !! sid with
      | Some h =>
          if is_fetch_family c && (negb (p_fetch_enabled p) || negb (h_is_fetch_responder h))
          then (p, Answer (Ok (RespError FETCH_UNAVAILABLE
                  (Lit "fetch unavailable on this end (not enabled by negotiation, or no fetch responder loaded)"))))
          else (p, CallCommand h c)
      | None => (p, Answer (Err (Internal (Fmt "unknown session: " [sid]))))
      end
  | Some sid, ReqEvent e =>
      match p_sessions p !! sid with
      | Some h => (p, CallEvent h e)
      | None => (p, Answer (Err (Internal (Fmt "unknown session: " [sid]))))
      end
  end.

(** ** Lifecycle *)

Context `{CRC : Crc32} `{UUID : UuidLib} {W : Type} `{WIRE : TransferWiring W}.
Context `{TRANSPORT : !XacppTransport W} `{RPC : !RpcTransport W}.
Implicit Types (w : W) (p : XacppPeer) (h : list XacppSession).

Definition negotiate (hs : PeerHandlers) p w : XacppPeer * W * result unit XacppError :=
  if decide (pi_state (p_inner p) ≠ Connected)
  then (p, w, Err (Internal (Lit "negotiate requires Connected state")))
  else
    match rpc_send w None (ReqCommand (CmdNegotiate (p_local_capabilities p))) with
    | (w, Err e) => (p, w, Err e)
    | (w, Ok (Negotiated capabilities)) =>
        let effective := from_capabilities (p_local_capabilities p) capabilities in
        match on_negotiate hs effective with
        | Err e => (p, w, Err e)
        | Ok _ =>
            let inner := mkPeerInner PNegotiated capabilities (eff_emit_events effective)
                           (eff_fetch_enabled effective) in
            (set_caches (p_emit_events p) (eff_fetch_enabled effective) (set_inner inner p),
             w, Ok tt)
        end
    | (w, Ok (RespError code message)) => (p, w, Err (Application code message))
    | (w, Ok _) => (p, w, Err (Internal (Lit "unexpected response to negotiate")))
    end.

(** [self.session] on the heap, updated by [f]. *)
Definition upd_session (l : nat) (x : XacppSession) h : list XacppSession := <[l := x]> h.

Definition peer_connect p h (tr : nat) w (now : N) :
    XacppPeer * list XacppSession * W * result unit XacppError :=
  match rpc_on_request w with
  | (w, Err e) => (p, h, w, Err e)
  | (w, Ok _) =>
      match rpc_connect w with
      | (w, Err e) => (p, h, w, Err e)
      | (w, Ok _) =>
          let '(h, w, r) :=
            match p_session p ≫= λ l, (l,.) <$> h !! l with
            | Some (l, x) =>
                let '(x, w, r) := wire_without_declaration x tr w now in
                (upd_session l x h, w, r)
            | None => (h, w, Ok tt)
            end in
          match r with
          | Err e => (p, h, w, Err e)
          | Ok _ =>
              let i := p_inner p in
              let state := if decide (pi_state i = Disconnected) then Connected
                           else pi_state i in
              (set_inner (mkPeerInner state (pi_remote_capabilities i) (pi_emit_events i)
                 (pi_fetch_enabled i)) p, h, w, Ok tt)
          end
      end
  end.

(** [session_for_establish]: the session an answer binds. *)
Definition session_for_establish p h (tr : nat) w (session_id : string) (now : N) :
    list XacppSession * W * result nat XacppError :=
  let fresh h w :=
    let '(x, w, r) := session_wire (XacppSession_new None now) tr w now in
    match r with
    | Ok _ => (h ++ [x], w, Ok (length h))
    | Err e => (h, w, Err e)
    end in
  match p_session p ≫= λ l, (l,.) <$> h !! l with
  | Some (l, held) =>
      if decide (xs_session_id held = "" ∨ xs_session_id held = session_id) then
        let '(held, w, r) := attach_transfer held tr w now in
        (upd_session l held h, w,
         match r with Ok _ => Ok l | Err e => Err e end)
      else
        let '(held, w) := detach_transfer held w in fresh (upd_session l held h) w
  | None => fresh h w
  end.

(** The success branch of both establish paths: register the handler, bind and
    backfill the session, declare its pending sends. *)
Definition bind_established p h (tr : nat) w (handler : SessionHandler)
    (session_id credentials : string) (now : N) :
    XacppPeer * list XacppSession * W * result nat XacppError :=
  let p := set_sessions (<[session_id := handler]> (p_sessions p)) p in
  match session_for_establish p h tr w session_id now with
  | (h, w, Err e) => (p, h, w, Err e)
  | (h, w, Ok l) =>
      match h !! l with
      | None => (p, h, w, Ok l)
      | Some x =>
          let x := backfill session_id credentials (pi_emit_events (p_inner p))
                     (pi_fetch_enabled (p_inner p)) x in
          let '(x, w) := session_declare_pending_sends x w now in
          (p, upd_session l x h, w, Ok l)
      end
  end.

(** [verify_challenge] is the caller's check. *)
Definition establish p h (tr : nat) w (credentials : option string)
    (handler : SessionHandler) (verify_challenge : string → result unit XacppError)
    (now : N) : XacppPeer * list XacppSession * W * result nat XacppError :=
  match p_session p with
  | None => (p, h, w, Err (Internal (Lit
      "establish requires an initiator-side session (pass Some at XacppPeer::new)")))
  | Some _ =>
      if decide (pi_state (p_inner p) ≠ PNegotiated)
      then (p, h, w, Err (Internal (Lit "establish requires Negotiated state")))
      else
        match rpc_send w None (ReqCommand (Establish credentials)) with
        | (w, Err e) => (p, h, w, Err e)
        | (w, Ok (Established sid creds)) => bind_established p h tr w handler sid creds now
        | (w, Ok (EstablishPrepare challenge)) =>
            match verify_challenge challenge with
            | Err e => (p, h, w, Err e)
            | Ok _ =>
                match rpc_send w None (ReqCommand EstablishConfirm) with
                | (w, Err e) => (p, h, w, Err e)
                | (w, Ok (Established sid creds)) =>
                    bind_established p h tr w handler sid creds now
                | (w, Ok (RespEstablishReject reason)) => (p, h, w, Err (EstablishReject reason))
                | (w, Ok (RespError code message)) => (p, h, w, Err (Application code message))
                | (w, Ok _) =>
                    (p, h, w, Err (Internal (Lit "unexpected response to establish_confirm")))
                end
            end
        | (w, Ok (RespEstablishReject reason)) => (p, h, w, Err (EstablishReject reason))
        | (w, Ok (RespError code message)) => (p, h, w, Err (Application code message))
        | (w, Ok _) => (p, h, w, Err (Internal (Lit "unexpected response to establish")))
        end
  end.

Definition peer_disconnect p h w : XacppPeer * list XacppSession * W * result unit XacppError :=
  let held := p_session p ≫= λ l, (l,.) <$> h !! l in
  let '(h, w) :=
    match held with
    | Some (l, x) => let '(x, w) := session_unwire x w in (upd_session l x h, w)
    | None => (h, w)
    end in
  match disconnect w with
  | (w, Err e) => (p, h, w, Err e)
  | (w, Ok _) =>
      let p := set_caches (p_emit_events p) false p in
      let h := match p_session p with
               | Some l => alter (set_fetch_enabled false) l h
               | None => h
               end in
      (set_sessions ∅ (set_inner PeerInner_new p), h, w, Ok tt)
  end.

(** ** Properties *)

(** Detaching first, or checking first, leaves [wire] nothing to refuse. *)
Lemma wire_without_declaration_ok (x : XacppSession) tr w now :
  ∃ x' w', wire_without_declaration x tr w now = (x', w', Ok tt).
Proof using Type.
  unfold wire_without_declaration, unwire, wire. cbn [xs_transfer set_transport set_transfer].
  by repeat eexists.
Qed.

Lemma session_wire_ok (x : XacppSession) tr w now :
  ∃ x' w', session_wire x tr w now = (x', w', Ok tt).
Proof using Type.
  unfold session_wire. destruct (wire_without_declaration_ok x tr w now) as (x1 & w1 & ->).
  destruct (session_declare_pending_sends x1 w1 now) as [x2 w2]. by eauto.
Qed.

Lemma attach_transfer_ok (x : XacppSession) tr w now :
  ∃ x' w', attach_transfer x tr w now = (x', w', Ok tt).
Proof using Type.
  unfold attach_transfer, is_wired, wire. destruct (ts_wiring (xs_transfer x)); by repeat eexists.
Qed.

Lemma declare_keeps_identity (x x' : XacppSession) w w' now :
  session_declare_pending_sends x w now = (x', w') →
  xs_session_id x' = xs_session_id x ∧ xs_credentials x' = xs_credentials x ∧
  xs_emit_events x' = xs_emit_events x ∧ xs_fetch_enabled x' = xs_fetch_enabled x ∧
  xs_transport x' = xs_transport x.
Proof using Type.
  unfold session_declare_pending_sends. destruct (declare_pending_sends _ _ _). by intros [= <- <-].
Qed.

Lemma peer_connect_outcome p h tr w now p' h' w' r :
  peer_connect p h tr w now = (p', h', w', r) →
  match r with
  | Ok _ =>
      let i := p_inner p in
      p' = set_inner (mkPeerInner (if decide (pi_state i = Disconnected) then Connected
             else pi_state i) (pi_remote_capabilities i) (pi_emit_events i)
             (pi_fetch_enabled i)) p
  | Err _ => p' = p
  end.
Proof using Type.
  unfold peer_connect. destruct (rpc_on_request w) as [w1 [|]]; [|by intros [= <- <- <- <-]].
  destruct (rpc_connect w1) as [w2 [|]]; [|by intros [= <- <- <- <-]].
  destruct (match p_session p ≫= _ with Some _ => _ | None => _ end) as [[h1 w3] [|]];
    by intros [= <- <- <- <-].
Qed.

(** The responder grants identity [sid], at once or after a challenge the caller
    accepts. *)
Definition grants w (creds : option string) (verify : string → result unit XacppError)
    (sid cr : string) (w' : W) : Prop :=
  rpc_send w None (ReqCommand (Establish creds)) = (w', Ok (Established sid cr)) ∨
  ∃ ch w0, rpc_send w None (ReqCommand (Establish creds)) = (w0, Ok (EstablishPrepare ch)) ∧
    verify ch = Ok tt ∧
    rpc_send w0 None (ReqCommand EstablishConfirm) = (w', Ok (Established sid cr)).

Lemma establish_granted p h tr w creds handler verify now l sid cr w' :
  p_session p = Some l → pi_state (p_inner p) = PNegotiated →
  grants w creds verify sid cr w' →
  establish p h tr w creds handler verify now =
  bind_established p h tr w' handler sid cr now.
Proof using Type.
  intros Hl Hs Hg. unfold establish. rw Hl. destruct (decide _); [done|].
  destruct Hg as [->|(ch & w0 & -> & Hv & Hc)]; [done|]. by rw Hv Hc.
Qed.

(** Declaring on a wired session gates what it holds and touches nothing else. *)
Lemma declare_wired (x : XacppSession) w now x' w' :
  is_wired (xs_transfer x) = true → session_declare_pending_sends x w now = (x', w') →
  ts_wiring (xs_transfer x') = ts_wiring (xs_transfer x) ∧
  st_reassembler (ts_state (xs_transfer x')) = st_reassembler (ts_state (xs_transfer x)) ∧
  st_streams (ts_state (xs_transfer x')) = st_streams (ts_state (xs_transfer x)) ∧
  ∀ id, s_pending (st_sender (ts_state (xs_transfer x'))) !! id =
        set_gate true (Some now) <$> s_pending (st_sender (ts_state (xs_transfer x))) !! id.
Proof using Type.
  unfold is_wired, session_declare_pending_sends, declare_pending_sends,
    send_resume_declaration.
  destruct (ts_wiring (xs_transfer x)) eqn:Hw; [|done]. intros _.
  pose proof (declare_pending_lookup (st_sender (ts_state (xs_transfer x))) now) as Hd.
  destruct (declare_pending _ _) as [tx [|e es]]; cbn in *; intros [= <- <-]; by split_and!.
Qed.

(** What a re-attached session keeps; its sends end up behind the gate. *)
Definition carried (now : N) (x x' : XacppSession) : Prop :=
  is_wired (xs_transfer x') = true ∧ xs_transport x' = xs_transport x ∧
  st_reassembler (ts_state (xs_transfer x')) = st_reassembler (ts_state (xs_transfer x)) ∧
  st_streams (ts_state (xs_transfer x')) = st_streams (ts_state (xs_transfer x)) ∧
  ∀ id, s_pending (st_sender (ts_state (xs_transfer x'))) !! id =
        set_gate true (Some now) <$> s_pending (st_sender (ts_state (xs_transfer x))) !! id.

Lemma attach_then_declare (x : XacppSession) tr w now sid cr emit fe x1 w1 r x2 w2 w3 :
  attach_transfer x tr w now = (x1, w1, r) →
  session_declare_pending_sends (backfill sid cr emit fe x1) w3 now = (x2, w2) →
  carried now x x2.
Proof using Type.
  intros Ha Hd.
  pose proof (declare_keeps_identity _ _ _ _ _ Hd) as (_ & _ & _ & _ & Ht).
  assert (Hx : is_wired (xs_transfer x1) = true ∧ xs_transport x1 = xs_transport x ∧
    st_reassembler (ts_state (xs_transfer x1)) = st_reassembler (ts_state (xs_transfer x)) ∧
    st_streams (ts_state (xs_transfer x1)) = st_streams (ts_state (xs_transfer x)) ∧
    ∀ id, set_gate true (Some now) <$> s_pending (st_sender (ts_state (xs_transfer x1))) !! id =
      set_gate true (Some now) <$> s_pending (st_sender (ts_state (xs_transfer x))) !! id).
  { unfold attach_transfer, is_wired, wire in *.
    destruct (ts_wiring (xs_transfer x)) eqn:Hw; injection Ha as <- <- <-; [by rw Hw|].
    split_and!; [done..|]. intros id. cbn -[declare_pending].
    rw declare_pending_lookup -option_fmap_compose. by apply option_fmap_ext. }
  destruct Hx as (Hw & Ht1 & Hr & Hs & Hp).
  apply declare_wired in Hd as (Hw2 & Hr2 & Hs2 & Hp2); [|exact Hw].
  unfold carried, is_wired in *. rw Hw2 Hr2 Hs2 Ht. split_and!; [done..|].
  intros id. by rw Hp2 -Hp.
Qed.

(** A new session starts empty, and declaring on it keeps it empty. *)
Lemma fresh_session tr w now sid cr emit fe x w1 r x' w' w2 :
  session_wire (XacppSession_new None now) tr w now = (x, w1, r) →
  session_declare_pending_sends (backfill sid cr emit fe x) w2 now = (x', w') →
  is_wired (xs_transfer x') = true ∧ s_pending (st_sender (ts_state (xs_transfer x'))) = ∅ ∧
  st_streams (ts_state (xs_transfer x')) = ∅.
Proof using Type.
  intros Hw Hd. unfold session_wire, wire_without_declaration, unwire, wire in Hw.
  cbn -[declare_pending session_declare_pending_sends] in Hw.
  destruct (session_declare_pending_sends _ _ now) as [x1 w3] eqn:Hd1.
  injection Hw as -> _ _.
  apply declare_wired in Hd1 as (Hw1 & _ & Hs1 & Hp1); [|done].
  assert (Hwired : is_wired (xs_transfer x) = true) by by unfold is_wired; rw Hw1.
  apply declare_wired in Hd as (Hw2 & _ & Hs2 & Hp2); [|exact Hwired].
  cbn -[declare_pending] in *. unfold is_wired in *. rw Hw2 Hs2 Hs1.
  split; [done|]. split; [|done]. apply map_eq. intros id.
  rw Hp2 Hp1 declare_pending_lookup. by rw !lookup_empty.
Qed.

(** C18: which session an establishment binds.  When the responder grants [sid],
    the peer binds exactly one session to it, with the granted credentials and
    the negotiated facts, wired, and routes [sid] to the caller's handler.  If the
    held session is unbound or already bound to [sid] it is the held session, and
    its sends (behind the resume gate), receive slots and streams survive;
    otherwise a new session is born with no transactions, and the held one
    keeps its identity, envelope path and transactions but loses its transfer
    mount.  No other session is touched. *)
Theorem establish_binds p h tr w creds handler verify now l0 held sid cr w1 :
  p_session p = Some l0 → h !! l0 = Some held → pi_state (p_inner p) = PNegotiated →
  grants w creds verify sid cr w1 →
  let '(p', h', _, r) := establish p h tr w creds handler verify now in
  p' = set_sessions (<[sid := handler]> (p_sessions p)) p ∧
  (∀ k, k ≠ l0 → k < length h → h' !! k = h !! k) ∧
  ∃ l x, r = Ok l ∧ h' !! l = Some x ∧ xs_session_id x = sid ∧ xs_credentials x = cr ∧
    xs_emit_events x = pi_emit_events (p_inner p) ∧
    xs_fetch_enabled x = pi_fetch_enabled (p_inner p) ∧
    is_wired (xs_transfer x) = true ∧
    if decide (xs_session_id held = "" ∨ xs_session_id held = sid)
    then l = l0 ∧ length h' = length h ∧ carried now held x
    else l = length h ∧ length h' = S (length h) ∧
      s_pending (st_sender (ts_state (xs_transfer x))) = ∅ ∧
      st_streams (ts_state (xs_transfer x)) = ∅ ∧
      ∃ held', h' !! l0 = Some held' ∧ is_wired (xs_transfer held') = false ∧
        xs_session_id held' = xs_session_id held ∧ xs_transport held' = xs_transport held ∧
        st_sender (ts_state (xs_transfer held')) = st_sender (ts_state (xs_transfer held)).
Proof using Type.
  intros Hl Hh Hs Hg. rw (establish_granted _ _ _ _ _ _ _ _ _ _ _ _ Hl Hs Hg).
  pose proof (lookup_lt_Some _ _ _ Hh) as Hlt.
  unfold bind_established, session_for_establish. cbn [p_session set_sessions]. rw Hl.
  cbn [mbind option_bind]. rw Hh. cbn [fmap option_fmap option_map].
  destruct (decide (xs_session_id held = "" ∨ xs_session_id held = sid)) as [Hd|Hd].
  - destruct (attach_transfer_ok held tr w1 now) as (x1 & w2 & Ha). rw Ha.
    unfold upd_session. rw list_lookup_insert_eq; [done|].
    destruct (session_declare_pending_sends _ w2 now) as [x2 w3] eqn:Hdec.
    pose proof (attach_then_declare _ _ _ _ _ _ _ _ _ _ _ _ _ _ Ha Hdec) as Hc.
    apply declare_keeps_identity in Hdec as (Hid & Hcr & He & Hf & _).
    split; [done|]. split; [intros k Hk _; by rw !list_lookup_insert_ne|].
    exists l0, x2. rw list_lookup_insert_eq; [by rw length_insert|]. rw !length_insert.
    rw Hid Hcr He Hf. split_and!; try done. by apply Hc.
  - destruct (detach_transfer held w1) as [held' w2] eqn:Hdt.
    destruct (session_wire_ok (XacppSession_new None now) tr w2 now) as (x1 & w3 & Hw). rw Hw.
    set (h1 := upd_session l0 held' h).
    assert (Hh1 : length h1 = length h) by apply length_insert.
    assert (Hl0 : h1 !! l0 = Some held') by by apply list_lookup_insert_eq.
    rw (lookup_app_r h1 [x1] (length h1)); [lia|]. rw Nat.sub_diag. cbn [lookup list_lookup].
    destruct (session_declare_pending_sends _ w3 now) as [x2 w4] eqn:Hdec.
    pose proof (fresh_session _ _ _ _ _ _ _ _ _ _ _ _ _ Hw Hdec) as (Hwd & Hp & Hst).
    apply declare_keeps_identity in Hdec as (Hid & Hcr & He & Hf & _).
    unfold upd_session at 1. split; [done|]. split.
    { intros k Hk Hlen. rw list_lookup_insert_ne; [lia|]. rw lookup_app_l; [lia|].
      by apply list_lookup_insert_ne. }
    exists (length h1), x2. unfold upd_session.
    rw list_lookup_insert_eq; [rw length_app /=; lia|]. rw length_insert length_app Hh1 /=.
    rw Hid Hcr He Hf. split_and!; try done; [lia|]. exists held'.
    rw list_lookup_insert_ne; [lia|]. rw lookup_app_l; [lia|]. split; [done|].
    unfold detach_transfer, unwire in Hdt. by injection Hdt as <- _.
Qed.

(** Reconnecting after a connection died without [disconnect] leaves the peer in
    [Negotiated], with the dead connection's facts, and refuses to negotiate the
    new connection. *)
Theorem reconnect_keeps_negotiated hs p h tr w now p' h' w' :
  pi_state (p_inner p) = PNegotiated → peer_connect p h tr w now = (p', h', w', Ok tt) →
  p_inner p' = p_inner p ∧ p_fetch_enabled p' = p_fetch_enabled p ∧
  ∀ w, (negotiate hs p' w).2 = Err (Internal (Lit "negotiate requires Connected state")).
Proof using Type.
  intros Hs Hc%peer_connect_outcome. cbn in Hc. subst p'. cbn. rw Hs. cbn.
  split; [|split; [done|by intros]]. destruct (p_inner p) as [st rc em fe]. cbn in *. by subst.
Qed.

(** [disconnect] ends the negotiated facts of the held session only: a session
    born by an establishment under another identity goes on announcing fetch. *)
Theorem disconnect_keeps_born_session p h w p' h' w' l0 l x :
  p_session p = Some l0 → l ≠ l0 → h !! l = Some x →
  peer_disconnect p h w = (p', h', w', Ok tt) → h' !! l = Some x.
Proof using Type.
  intros Hp Hne Hl. unfold peer_disconnect. cbn [p_session set_caches]. rw Hp.
  cbn [mbind option_bind].
  destruct (h !! l0) as [y|] eqn:H0; cbn [fmap option_fmap option_map];
    [destruct (session_unwire y w) as [y' w1]|]; destruct (disconnect _) as [w2 [[]|]];
    intros [=]; subst; rw list_lookup_alter_ne //; unfold upd_session; by rw ?list_lookup_insert_ne.
Qed.
End peer.

(** ** Two endpoints over a lossless link *)

Section pair.
Context `{JSON : JsonLib} {DISPLAY : Display}.

(** The responding end: its peer, its handlers, and what its consumer's session
    handlers answer. *)
Record Endpoint : Type := mkEndpoint {
  ep_peer : XacppPeer;
  ep_handlers : PeerHandlers;
  ep_consumer : SessionHandler → XacppRequest → result XacppResponse XacppError;
}.

(** A request runs the other end's request closure; its error comes back as the
    error response ([respond]). *)
Definition link_send (w : Endpoint) (sid : option string) (req : XacppRequest) :
    Endpoint * result XacppResponse XacppError :=
  let '(p, r) := route (ep_handlers w) (ep_peer w) sid req in
  let answer :=
    match r with
    | Answer a => a
    | CallCommand h c => ep_consumer w h (ReqCommand c)
    | CallEvent h e => ep_consumer w h (ReqEvent e)
    end in
  (mkEndpoint p (ep_handlers w) (ep_consumer w), Ok (respond answer)).

Instance link_transport : RpcTransport Endpoint := {|
  rpc_connect w := (w, Ok tt);
  rpc_send := link_send;
  rpc_send_faf w sid req := ((link_send w sid req).1, Ok tt);
  rpc_on_request w := (w, Ok tt);
|}.

(** C19: negotiation leaves both ends with the same facts.  An initiator in
    [Connected] negotiates over a link with a responder, both consumers agreeing.
    The initiator ends in [Negotiated] knowing the responder's declaration; each
    end may emit exactly the events it declared that the other declared to
    accept; and both fetch gates open exactly when both declared the supported
    version, so a fetch command the initiator's session sends out is never
    refused by the responder for want of negotiation. *)
Theorem negotiated_pair (hs : PeerHandlers) (p : XacppPeer) (w : Endpoint) :
  let a := p_local_capabilities p in
  let b := p_local_capabilities (ep_peer w) in
  pi_state (p_inner p) = Connected →
  on_negotiate hs (from_capabilities a b) = Ok tt →
  on_negotiate (ep_handlers w) (from_capabilities b a) = Ok tt →
  let '(p', w', r) := negotiate hs p w in
  let q := ep_peer w' in
  r = Ok tt ∧ pi_state (p_inner p') = PNegotiated ∧ pi_remote_capabilities (p_inner p') = b ∧
  (∀ name, name ∈ pi_emit_events (p_inner p') ↔
     name ∈ extract_names (produce_events a) ∧ name ∈ extract_names (accept_events b)) ∧
  (∀ name, name ∈ p_emit_events q ↔
     name ∈ extract_names (produce_events b) ∧ name ∈ extract_names (accept_events a)) ∧
  p_fetch_enabled q = pi_fetch_enabled (p_inner p') ∧
  (pi_fetch_enabled (p_inner p') = true ↔
     fetch_ext a = Some FETCH_EXT_VERSION ∧ fetch_ext b = Some FETCH_EXT_VERSION) ∧
  ∀ x c sid h, xs_fetch_enabled x = pi_fetch_enabled (p_inner p') →
    (is_fetch_family c = true → xs_fetch_enabled x = true) →
    p_sessions q !! sid = Some h → (is_fetch_family c = true → h_is_fetch_responder h = true) →
    (route (ep_handlers w') q (Some sid) (ReqCommand c)).2 = CallCommand h c.
Proof using Type.
  intros a b Hst Ha Hb. unfold negotiate. destruct (decide _) as [Hn|_]; [done|].
  cbn [rpc_send link_transport]. unfold link_send, route. fold a b. rw Hb. cbn -[from_capabilities].
  rw Ha. cbn -[is_fetch_family FETCH_EXT_VERSION].
  split_and!; try done.
  - intros name. rw list_elem_of_filter. tauto.
  - intros name. rw list_elem_of_filter. tauto.
  - apply andb_comm.
  - by rw andb_true_iff !bool_decide_eq_true.
  - intros x c sid h Hx Hgate -> Hresp.
    rw (andb_comm (bool_decide (fetch_ext b = _))) -Hx.
    destruct (is_fetch_family c); [|done]. by rw (Hresp eq_refl) (Hgate eq_refl).
Qed.
End pair.
