(* ===== verification/Lifecycle.v ===== *)
(** * The endpoint's calls, interleaved ([src/session/peer.rs])

    [negotiate], [connect], [establish], [disconnect] and the request closure are
    async: each holds a lock for a short section and awaits between sections, and the
    endpoint is shared ([Clone] over [Arc]s), so the sections of several calls
    interleave.  Here a call is a task, one turn per section: what it does from one
    await to the next.  An await on the transport or on a consumer's handler is one
    turn, which takes the answer.  Run alone, a task computes the function of [Peer]
    with the call's name. *)
From S2P Require Import Prelude Crc Frame Control Sender Reassemble Errors Stream Transfer.
From S2P Require Import Delivery Clock Sink Egress Messages Logical Carrier Peer.

(** ** What the turns make observable *)

Section events.
Context `{JSON : JsonLib}.

(** One event per write to the endpoint's shared state, and one when a call passes its
    state check. *)
Inductive PeerEvent : Type :=
  | EvConnected
  | EvNegotiating
  | EvNegotiated (remote : Capabilities)
  | EvCached (remote : Capabilities)
  | EvEstablishing
  | EvEstablished (session_id : string) (handler : SessionHandler)
  | EvEmits (remote : Capabilities)
  | EvAgreed (remote : Capabilities)
  | EvAccepted (session_id : string) (handler : SessionHandler)
  | EvClosed
  | EvReset.
End events.

(** ** The turns of each call *)

Section turns.
Context `{JSON : JsonLib}.
Context `{CRC : Crc32} `{UUID : UuidLib} {W : Type} `{WIRE : TransferWiring W}.
Context `{TRANSPORT : !XacppTransport W} `{RPC : !RpcTransport W}.
Implicit Types (w : W) (p : XacppPeer) (h : list XacppSession).

(** *** [negotiate] *)

Inductive NegotiatePhase : Type :=
  | NStart
  | NSend
  | NHandler (capabilities : Capabilities)
  | NCommit (capabilities : Capabilities)
  | NCache (capabilities : Capabilities).

Definition negotiate_turn (hs : PeerHandlers) (ph : NegotiatePhase) p w :
    XacppPeer * W * (NegotiatePhase + result unit XacppError) * list PeerEvent :=
  match ph with
  | NStart =>
      if decide (pi_state (p_inner p) ≠ Connected)
      then (p, w, inr (Err (Internal (Lit "negotiate requires Connected state"))), [])
      else (p, w, inl NSend, [EvNegotiating])
  | NSend =>
      match rpc_send w None (ReqCommand (CmdNegotiate (p_local_capabilities p))) with
      | (w, Err e) => (p, w, inr (Err e), [])
      | (w, Ok (Negotiated capabilities)) => (p, w, inl (NHandler capabilities), [])
      | (w, Ok (RespError code message)) => (p, w, inr (Err (Application code message)), [])
      | (w, Ok _) => (p, w, inr (Err (Internal (Lit "unexpected response to negotiate"))), [])
      end
  | NHandler capabilities =>
      match on_negotiate hs (from_capabilities (p_local_capabilities p) capabilities) with
      | Err e => (p, w, inr (Err e), [])
      | Ok _ => (p, w, inl (NCommit capabilities), [])
      end
  | NCommit capabilities =>
      let effective := from_capabilities (p_local_capabilities p) capabilities in
      (set_inner (mkPeerInner PNegotiated capabilities (eff_emit_events effective)
         (eff_fetch_enabled effective)) p, w, inl (NCache capabilities), [EvNegotiated capabilities])
  | NCache capabilities =>
      let effective := from_capabilities (p_local_capabilities p) capabilities in
      (set_caches (p_emit_events p) (eff_fetch_enabled effective) p, w, inr (Ok tt),
       [EvCached capabilities])
  end.

(** *** [connect] *)

Inductive ConnectPhase : Type :=
  | CStart (tr : nat)
  | CTransport (tr : nat)
  | CWire (tr : nat)
  | CState.

(** [f] on the session at [l], threading the transport. *)
Definition on_session {A} (l : nat) (f : XacppSession → W → XacppSession * W * A) (a : A) h w :
    list XacppSession * W * A :=
  match h !! l with
  | Some x => let '(x, w, a) := f x w in (upd_session l x h, w, a)
  | None => (h, w, a)
  end.

Definition connect_turn (ph : ConnectPhase) p h w (now : N) :
    XacppPeer * list XacppSession * W * (ConnectPhase + result unit XacppError) * list PeerEvent :=
  match ph with
  | CStart tr =>
      match rpc_on_request w with
      | (w, Err e) => (p, h, w, inr (Err e), [])
      | (w, Ok _) => (p, h, w, inl (CTransport tr), [])
      end
  | CTransport tr =>
      match rpc_connect w with
      | (w, Err e) => (p, h, w, inr (Err e), [])
      | (w, Ok _) => (p, h, w, inl (CWire tr), [])
      end
  | CWire tr =>
      match p_session p with
      | None => (p, h, w, inl CState, [])
      | Some l =>
          let '(h, w, r) :=
            on_session l (λ x w, wire_without_declaration x tr w now) (Ok tt) h w in
          match r with
          | Err e => (p, h, w, inr (Err e), [])
          | Ok _ => (p, h, w, inl CState, [])
          end
      end
  | CState =>
      let i := p_inner p in
      let state := if decide (pi_state i = Disconnected) then Connected else pi_state i in
      (set_inner (mkPeerInner state (pi_remote_capabilities i) (pi_emit_events i)
         (pi_fetch_enabled i)) p, h, w, inr (Ok tt), [EvConnected])
  end.

(** *** [establish], with [session_for_establish] *)

Inductive EstablishPhase : Type :=
  | EStart (tr : nat) (credentials : option string) (handler : SessionHandler)
      (verify_challenge : string → result unit XacppError)
  | ESend (tr : nat) (credentials : option string) (handler : SessionHandler)
      (verify_challenge : string → result unit XacppError)
  | EConfirm (tr : nat) (handler : SessionHandler)
  | ERegister (tr : nat) (handler : SessionHandler) (session_id credentials : string)
  | EPeek (tr : nat) (session_id credentials : string)
  | EAttach (tr l : nat) (session_id credentials : string)
  | EDetach (tr l : nat) (session_id credentials : string)
  | EFresh (tr : nat) (session_id credentials : string)
  | EFacts (l : nat) (session_id credentials : string)
  | EBackfill (l : nat) (session_id credentials : string) (emit : list string) (fetch : bool)
  | EDeclare (l : nat).

Definition establish_turn (ph : EstablishPhase) p h w (now : N) :
    XacppPeer * list XacppSession * W * (EstablishPhase + result nat XacppError) * list PeerEvent :=
  match ph with
  | EStart tr credentials handler verify_challenge =>
      match p_session p with
      | None => (p, h, w, inr (Err (Internal (Lit
          "establish requires an initiator-side session (pass Some at XacppPeer::new)"))), [])
      | Some _ =>
          if decide (pi_state (p_inner p) ≠ PNegotiated)
          then (p, h, w, inr (Err (Internal (Lit "establish requires Negotiated state"))), [])
          else (p, h, w, inl (ESend tr credentials handler verify_challenge), [EvEstablishing])
      end
  | ESend tr credentials handler verify_challenge =>
      match rpc_send w None (ReqCommand (Establish credentials)) with
      | (w, Err e) => (p, h, w, inr (Err e), [])
      | (w, Ok (Established sid creds)) => (p, h, w, inl (ERegister tr handler sid creds), [])
      | (w, Ok (EstablishPrepare challenge)) =>
          match verify_challenge challenge with
          | Err e => (p, h, w, inr (Err e), [])
          | Ok _ => (p, h, w, inl (EConfirm tr handler), [])
          end
      | (w, Ok (RespEstablishReject reason)) => (p, h, w, inr (Err (EstablishReject reason)), [])
      | (w, Ok (RespError code message)) => (p, h, w, inr (Err (Application code message)), [])
      | (w, Ok _) => (p, h, w, inr (Err (Internal (Lit "unexpected response to establish"))), [])
      end
  | EConfirm tr handler =>
      match rpc_send w None (ReqCommand EstablishConfirm) with
      | (w, Err e) => (p, h, w, inr (Err e), [])
      | (w, Ok (Established sid creds)) => (p, h, w, inl (ERegister tr handler sid creds), [])
      | (w, Ok (RespEstablishReject reason)) => (p, h, w, inr (Err (EstablishReject reason)), [])
      | (w, Ok (RespError code message)) => (p, h, w, inr (Err (Application code message)), [])
      | (w, Ok _) =>
          (p, h, w, inr (Err (Internal (Lit "unexpected response to establish_confirm"))), [])
      end
  | ERegister tr handler sid creds =>
      (set_sessions (<[sid := handler]> (p_sessions p)) p, h, w, inl (EPeek tr sid creds),
       [EvEstablished sid handler])
  | EPeek tr sid creds =>
      match p_session p ≫= λ l, (l,.) <$> h !! l with
      | Some (l, held) =>
          if decide (xs_session_id held = "" ∨ xs_session_id held = sid)
          then (p, h, w, inl (EAttach tr l sid creds), [])
          else (p, h, w, inl (EDetach tr l sid creds), [])
      | None => (p, h, w, inl (EFresh tr sid creds), [])
      end
  | EAttach tr l sid creds =>
      let '(h, w, r) := on_session l (λ x w, attach_transfer x tr w now) (Ok tt) h w in
      match r with
      | Err e => (p, h, w, inr (Err e), [])
      | Ok _ => (p, h, w, inl (EFacts l sid creds), [])
      end
  | EDetach tr l sid creds =>
      let '(h, w, _) := on_session l (λ x w, (detach_transfer x w, tt)) tt h w in
      (p, h, w, inl (EFresh tr sid creds), [])
  | EFresh tr sid creds =>
      let '(x, w, r) := session_wire (XacppSession_new None now) tr w now in
      match r with
      | Err e => (p, h, w, inr (Err e), [])
      | Ok _ => (p, h ++ [x], w, inl (EFacts (length h) sid creds), [])
      end
  | EFacts l sid creds =>
      (p, h, w, inl (EBackfill l sid creds (pi_emit_events (p_inner p))
         (pi_fetch_enabled (p_inner p))), [])
  | EBackfill l sid creds emit fetch =>
      let '(h, w, _) := on_session l (λ x w, (backfill sid creds emit fetch x, w, tt)) tt h w in
      (p, h, w, inl (EDeclare l), [])
  | EDeclare l =>
      let '(h, w, _) := on_session l (λ x w, (session_declare_pending_sends x w now, tt)) tt h w in
      (p, h, w, inr (Ok l), [])
  end.

(** *** [disconnect]

    The last section resets [inner] and, still holding its lock, clears the routing
    table; nothing that runs in between reads [inner]. *)

Inductive DisconnectPhase : Type := DUnwire | DTransport | DCache | DSession | DReset.

Definition disconnect_turn (ph : DisconnectPhase) p h w :
    XacppPeer * list XacppSession * W * (DisconnectPhase + result unit XacppError) * list PeerEvent :=
  match ph with
  | DUnwire =>
      match p_session p with
      | None => (p, h, w, inl DTransport, [])
      | Some l =>
          let '(h, w, _) := on_session l (λ x w, (session_unwire x w, tt)) tt h w in
          (p, h, w, inl DTransport, [])
      end
  | DTransport =>
      match disconnect w with
      | (w, Err e) => (p, h, w, inr (Err e), [])
      | (w, Ok _) => (p, h, w, inl DCache, [])
      end
  | DCache => (set_caches (p_emit_events p) false p, h, w, inl DSession, [EvClosed])
  | DSession =>
      (p, match p_session p with Some l => alter (set_fetch_enabled false) l h | None => h end,
       w, inl DReset, [])
  | DReset => (set_sessions ∅ (set_inner PeerInner_new p), h, w, inr (Ok tt), [EvReset])
  end.

(** *** The request closure *)

Inductive RequestPhase : Type :=
  | RStart (session_id : option string) (req : XacppRequest)
  | REmit (capabilities : Capabilities)
  | RFetch (capabilities : Capabilities)
  | RInsert (session_id : string) (handler : SessionHandler) (credentials : string)
  | RLookup (session_id : string) (req : XacppRequest)
  | RGate (handler : SessionHandler) (c : XacppCommand).

Definition request_turn (hs : PeerHandlers) (ph : RequestPhase) p :
    XacppPeer * (RequestPhase + Routed) * list PeerEvent :=
  match ph with
  | RStart None (ReqCommand (CmdNegotiate capabilities)) =>
      match on_negotiate hs (from_capabilities (p_local_capabilities p) capabilities) with
      | Err e => (p, inr (Answer (Err e)), [])
      | Ok _ => (p, inl (REmit capabilities), [])
      end
  | RStart None (ReqCommand (Establish credentials)) =>
      match on_establish hs credentials with
      | Ok (ChallengeRequired challenge) => (p, inr (Answer (Ok (EstablishPrepare challenge))), [])
      | Ok (DecidedEstablished sid handler creds) => (p, inl (RInsert sid handler creds), [])
      | Err e => (p, inr (Answer (Err e)), [])
      end
  | RStart None (ReqCommand EstablishConfirm) =>
      match on_establish_confirm hs with
      | Ok (sid, handler, creds) => (p, inl (RInsert sid handler creds), [])
      | Err e => (p, inr (Answer (Err e)), [])
      end
  | RStart None _ => (p, inr (Answer (Err (InvalidRequest (Lit "missing session_id")))), [])
  | RStart (Some sid) req => (p, inl (RLookup sid req), [])
  | REmit capabilities =>
      (set_caches (eff_emit_events (from_capabilities (p_local_capabilities p) capabilities))
         (p_fetch_enabled p) p, inl (RFetch capabilities), [EvEmits capabilities])
  | RFetch capabilities =>
      (set_caches (p_emit_events p)
         (eff_fetch_enabled (from_capabilities (p_local_capabilities p) capabilities)) p,
       inr (Answer (Ok (Negotiated (p_local_capabilities p)))), [EvAgreed capabilities])
  | RInsert sid handler creds =>
      (set_sessions (<[sid := handler]> (p_sessions p)) p,
       inr (Answer (Ok (Established sid creds))), [EvAccepted sid handler])
  | RLookup sid req =>
      match p_sessions p !! sid, req with
      | Some hd, ReqCommand c => (p, inl (RGate hd c), [])
      | Some hd, ReqEvent e => (p, inr (CallEvent hd e), [])
      | None, _ => (p, inr (Answer (Err (Internal (Fmt "unknown session: " [sid])))), [])
      end
  | RGate hd c =>
      if is_fetch_family c && (negb (p_fetch_enabled p) || negb (h_is_fetch_responder hd))
      then (p, inr (Answer (Ok (RespError FETCH_UNAVAILABLE
             (Lit "fetch unavailable on this end (not enabled by negotiation, or no fetch responder loaded)")))), [])
      else (p, inr (CallCommand hd c), [])
  end.

(** ** Tasks *)

(** A call in flight, in some phase, or with its result. *)
Inductive PeerTask : Type :=
  | TNegotiate (ph : NegotiatePhase + result unit XacppError)
  | TConnect (ph : ConnectPhase + result unit XacppError)
  | TEstablish (ph : EstablishPhase + result nat XacppError)
  | TDisconnect (ph : DisconnectPhase + result unit XacppError)
  | TRequest (ph : RequestPhase + Routed).

(** One turn of a task; a finished one stays. *)
Definition task_turn (hs : PeerHandlers) (t : PeerTask) p h w (now : N) :
    XacppPeer * list XacppSession * W * PeerTask * list PeerEvent :=
  match t with
  | TNegotiate (inl ph) =>
      let '(p, w, r, evs) := negotiate_turn hs ph p w in (p, h, w, TNegotiate r, evs)
  | TConnect (inl ph) =>
      let '(p, h, w, r, evs) := connect_turn ph p h w now in (p, h, w, TConnect r, evs)
  | TEstablish (inl ph) =>
      let '(p, h, w, r, evs) := establish_turn ph p h w now in (p, h, w, TEstablish r, evs)
  | TDisconnect (inl ph) =>
      let '(p, h, w, r, evs) := disconnect_turn ph p h w in (p, h, w, TDisconnect r, evs)
  | TRequest (inl ph) =>
      let '(p, r, evs) := request_turn hs ph p in (p, h, w, TRequest r, evs)
  | _ => (p, h, w, t, [])
  end.

(** A task that runs alone. *)
Fixpoint alone (n : nat) (hs : PeerHandlers) (t : PeerTask) p h w (now : N) :
    XacppPeer * list XacppSession * W * PeerTask :=
  match n with
  | O => (p, h, w, t)
  | S n => let '(p, h, w, t, _) := task_turn hs t p h w now in alone n hs t p h w now
  end.

(** Undisturbed, the calls are the functions of [Peer]. *)
Lemma negotiate_alone hs p h w now :
  alone 5 hs (TNegotiate (inl NStart)) p h w now =
  let '(p', w', r) := negotiate hs p w in (p', h, w', TNegotiate (inr r)).
Proof using Type.
  unfold negotiate. cbn [alone task_turn negotiate_turn]. case_decide; [done|].
  cbn [task_turn negotiate_turn]. destruct (rpc_send w None _) as [w1 [[]|]]; try done.
  cbn [task_turn negotiate_turn]. by destruct (on_negotiate hs _) as [[]|].
Qed.

Lemma connect_alone hs p h tr w now :
  alone 4 hs (TConnect (inl (CStart tr))) p h w now =
  let '(p', h', w', r) := peer_connect p h tr w now in (p', h', w', TConnect (inr r)).
Proof using Type.
  unfold peer_connect. cbn [alone task_turn connect_turn].
  destruct (rpc_on_request w) as [w1 []]; [|done]. cbn [task_turn connect_turn].
  destruct (rpc_connect w1) as [w2 []]; [|done]. cbn [task_turn connect_turn]. unfold on_session.
  destruct (p_session p) as [l|]; cbn [mbind option_bind]; [|done].
  destruct (h !! l) as [x|]; cbn [fmap option_fmap option_map]; [|done].
  by destruct (wire_without_declaration x tr w2 now) as [[x' w3] []].
Qed.

Lemma disconnect_alone hs p h w now :
  alone 5 hs (TDisconnect (inl DUnwire)) p h w now =
  let '(p', h', w', r) := peer_disconnect p h w in (p', h', w', TDisconnect (inr r)).
Proof using Type.
  unfold peer_disconnect. cbn [alone task_turn disconnect_turn].
  destruct (p_session p) as [l|] eqn:Hl; cbn [mbind option_bind].
  - unfold on_session. destruct (h !! l) as [x|]; cbn [fmap option_fmap option_map];
      [destruct (session_unwire x w) as [x' w1]|]; cbn [task_turn disconnect_turn];
      (destruct (disconnect _) as [w2 []]; [|done]); cbn; by rw Hl.
  - cbn [task_turn disconnect_turn]. destruct (disconnect w) as [w2 []]; [|done]. cbn. by rw Hl.
Qed.

Lemma request_alone hs sid req p h w now :
  alone 3 hs (TRequest (inl (RStart sid req))) p h w now =
  let '(p', r) := route hs p sid req in (p', h, w, TRequest (inr r)).
Proof using Type.
  destruct sid as [sid|]; cbn [alone task_turn request_turn route].
  - destruct req as [c|e]; cbn [task_turn request_turn]; (destruct (p_sessions p !! sid); [|done]);
      cbn [task_turn request_turn]; [by destruct (is_fetch_family c && _)|done].
  - destruct req as [[]|]; try done.
    + by destruct (on_negotiate hs _).
    + by destruct (on_establish hs _) as [[]|].
    + by destruct (on_establish_confirm hs) as [[[]]|].
Qed.

Lemma alone_S n hs t p h w now :
  alone (S n) hs t p h w now =
  let '(p, h, w, t, _) := task_turn hs t p h w now in alone n hs t p h w now.
Proof using Type. done. Qed.

Lemma session_alone n hs r p h w now : alone n hs (TEstablish (inr r)) p h w now = (p, h, w, TEstablish (inr r)).
Proof using Type. by induction n. Qed.

Lemma bound_alone n hs p h l sid cr w now x :
  h !! l = Some x →
  alone (3 + n) hs (TEstablish (inl (EFacts l sid cr))) p h w now =
  let '(x', w') := session_declare_pending_sends (backfill sid cr (pi_emit_events (p_inner p))
    (pi_fetch_enabled (p_inner p)) x) w now in
  (p, upd_session l x' h, w', TEstablish (inr (Ok l))).
Proof using Type.
  intros Hx. change (3 + n) with (S (S (S n))). rw alone_S. cbn [task_turn establish_turn].
  rw alone_S. cbn [task_turn establish_turn]. unfold on_session at 1. rw Hx.
  rw alone_S. cbn [task_turn establish_turn]. unfold on_session, upd_session.
  rw list_lookup_insert_eq; [by eapply lookup_lt_Some|].
  destruct (session_declare_pending_sends _ w now) as [x' w'].
  by rw list_insert_insert_eq session_alone.
Qed.

Lemma bind_alone n hs p h tr w handler sid cr now :
  alone (7 + n) hs (TEstablish (inl (ERegister tr handler sid cr))) p h w now =
  let '(p', h', w', r) := bind_established p h tr w handler sid cr now in (p', h', w', TEstablish (inr r)).
Proof using Type.
  unfold bind_established. change (7 + n) with (S (S (5 + n))). rw alone_S. cbn [task_turn establish_turn].
  set (p1 := set_sessions _ p). rw alone_S. cbn [task_turn establish_turn].
  unfold session_for_establish.
  assert (Hfresh : ∀ h w k, alone (4 + k) hs (TEstablish (inl (EFresh tr sid cr))) p1 h w now =
    let '(p', h', w', r) :=
      match (let '(x, w, r) := session_wire (XacppSession_new None now) tr w now in
             match r with Ok _ => (h ++ [x], w, Ok (length h)) | Err e => (h, w, Err e) end) with
      | (h, w, Err e) => (p1, h, w, Err e)
      | (h, w, Ok l) =>
          match h !! l with
          | None => (p1, h, w, Ok l)
          | Some x =>
              let '(x, w) := session_declare_pending_sends
                (backfill sid cr (pi_emit_events (p_inner p1)) (pi_fetch_enabled (p_inner p1)) x) w now in
              (p1, upd_session l x h, w, Ok l)
          end
      end in (p', h', w', TEstablish (inr r))).
  { intros h0 w0 k. change (4 + k) with (S (3 + k)). rw alone_S. cbn [task_turn establish_turn].
    destruct (session_wire _ tr w0 now) as [[x w1] []]; [|by apply session_alone].
    assert (Hx : (h0 ++ [x]) !! length h0 = Some x) by by rw lookup_app_r // Nat.sub_diag.
    rw (bound_alone k hs p1 _ _ sid cr w1 now x Hx) Hx.
    by destruct (session_declare_pending_sends _ w1 now). }
  destruct (p_session p1) as [l|] eqn:Hl; cbn [mbind option_bind]; [|apply (Hfresh h w (S n))].
  destruct (h !! l) as [held|] eqn:Hh; cbn [fmap option_fmap option_map]; [|apply (Hfresh h w (S n))].
  case_decide; [change (5 + n) with (S (3 + S n))|change (5 + n) with (S (4 + n))]; rw alone_S;
    cbn [task_turn establish_turn]; unfold on_session; rw Hh.
  - destruct (attach_transfer held tr w now) as [[x w1] []]; [|by apply session_alone].
    assert (Hx : upd_session l x h !! l = Some x) by (apply list_lookup_insert_eq; by eapply lookup_lt_Some).
    rw (bound_alone (S n) hs p1 _ _ sid cr w1 now x Hx) Hx.
    by destruct (session_declare_pending_sends _ w1 now).
  - destruct (detach_transfer held w) as [x w1]. apply (Hfresh (upd_session l x h) w1 n).
Qed.

Lemma establish_alone hs p h tr w creds handler verify now :
  alone 10 hs (TEstablish (inl (EStart tr creds handler verify))) p h w now =
  let '(p', h', w', r) := establish p h tr w creds handler verify now in (p', h', w', TEstablish (inr r)).
Proof using Type.
  unfold establish. rw alone_S. cbn [task_turn establish_turn].
  destruct (p_session p); [|done]. case_decide; [done|]. rw alone_S.
  cbn [task_turn establish_turn].
  destruct (rpc_send w None _) as [w1 [[]|]]; try done; [apply (bind_alone 1 hs)||idtac..].
  destruct (verify challenge); [|done]. rw alone_S. cbn [task_turn establish_turn].
  destruct (rpc_send w1 None _) as [w2 [[]|]]; try done. apply (bind_alone 0).
Qed.

(** ** The machine *)

(** An endpoint with its calls in flight; the log names the call of each event. *)
Record System : Type := mkSystem {
  sy_peer : XacppPeer;
  sy_heap : list XacppSession;
  sy_transport : W;
  sy_tasks : list PeerTask;
  sy_log : list (nat * PeerEvent);
}.

(** A call or a request begins; a task takes its next turn, with the answers its
    consumer's handlers give at that time; the transport or the sessions change on
    their own. *)
Inductive PeerOp : Type :=
  | CallNegotiate
  | CallConnect (tr : nat)
  | CallEstablish (tr : nat) (credentials : option string) (handler : SessionHandler)
      (verify_challenge : string → result unit XacppError)
  | CallDisconnect
  | Inbound (session_id : option string) (req : XacppRequest)
  | Turn (i : nat) (hs : PeerHandlers) (now : N)
  | World h (w : W).

Definition spawn (t : PeerTask) (sy : System) : System :=
  mkSystem (sy_peer sy) (sy_heap sy) (sy_transport sy) (sy_tasks sy ++ [t]) (sy_log sy).

Definition peer_exec (sy : System) (op : PeerOp) : System :=
  match op with
  | CallNegotiate => spawn (TNegotiate (inl NStart)) sy
  | CallConnect tr => spawn (TConnect (inl (CStart tr))) sy
  | CallEstablish tr creds handler verify => spawn (TEstablish (inl (EStart tr creds handler verify))) sy
  | CallDisconnect => spawn (TDisconnect (inl DUnwire)) sy
  | Inbound sid req => spawn (TRequest (inl (RStart sid req))) sy
  | Turn i hs now =>
      match sy_tasks sy !! i with
      | None => sy
      | Some t =>
          let '(p, h, w, t, evs) := task_turn hs t (sy_peer sy) (sy_heap sy) (sy_transport sy) now in
          mkSystem p h w (<[i := t]> (sy_tasks sy)) (sy_log sy ++ ((i,.) <$> evs))
      end
  | World h w => mkSystem (sy_peer sy) h w (sy_tasks sy) (sy_log sy)
  end.

Definition peer_run (sy : System) (ops : list PeerOp) : System := foldl peer_exec sy ops.

Definition at_rest p h w : System := mkSystem p h w [] [].

(** ** The contract: what the log alone determines *)

(** Where the writes leave the state. *)
Definition state_step (st : PeerState) (ev : PeerEvent) : PeerState :=
  match ev with
  | EvConnected => if decide (st = Disconnected) then Connected else st
  | EvNegotiated _ => PNegotiated
  | EvReset => Disconnected
  | _ => st
  end.

Definition state_of (log : list (nat * PeerEvent)) : PeerState :=
  foldl state_step Disconnected log.*2.

(** The documented lifecycle: an own negotiation completes in [Connected], an own
    establishment in [Negotiated]; [None]: out of order. *)
Definition required_state (ev : PeerEvent) : option PeerState :=
  match ev with
  | EvNegotiated _ => Some Connected
  | EvEstablished _ _ => Some PNegotiated
  | _ => None
  end.

Definition lifecycle (st : PeerState) (ev : PeerEvent) : option PeerState :=
  match required_state ev with
  | Some st' => if decide (st = st') then Some (state_step st ev) else None
  | None => Some (state_step st ev)
  end.

Definition lifecycle_run (log : list (nat * PeerEvent)) : option PeerState :=
  foldl (λ st ev, st ≫= λ st, lifecycle st ev) (Some Disconnected) log.*2.

(** The state check whose result a write relies on. *)
Definition check_of (ev : PeerEvent) : PeerEvent :=
  match ev with EvEstablished _ _ => EvEstablishing | _ => EvNegotiating end.

(** A call checked the state, something changed it, and the call wrote nevertheless. *)
Definition overtaken (log : list (nat * PeerEvent)) : Prop :=
  ∃ la i lb ev lc st, log = la ++ (i, check_of ev) :: lb ++ (i, ev) :: lc ∧
    required_state ev = Some st ∧ state_of la = st ∧
    ∃ j ev', (j, ev') ∈ lb ∧ state_step st ev' ≠ st.

(** The fetch gate: opened by the last negotiation that was cached, whichever end asked
    for it, closed by a disconnect. *)
Definition fetch_open (local : Capabilities) (log : list (nat * PeerEvent)) : bool :=
  foldl (λ b ev, match ev with
    | EvCached c | EvAgreed c => eff_fetch_enabled (from_capabilities local c)
    | EvClosed => false
    | _ => b
    end) false log.*2.

(** The handler each session id was last bound to since the last reset. *)
Definition bound (log : list (nat * PeerEvent)) : gmap string SessionHandler :=
  foldl (λ m ev, match ev with
    | EvEstablished sid h | EvAccepted sid h => <[sid := h]> m
    | EvReset => ∅
    | _ => m
    end) ∅ log.*2.

(** The facts of the last own negotiation since the last reset. *)
Definition facts (local : Capabilities) (log : list (nat * PeerEvent)) :
    Capabilities * list string * bool :=
  foldl (λ f ev, match ev with
    | EvNegotiated c =>
        let e := from_capabilities local c in (c, eff_emit_events e, eff_fetch_enabled e)
    | EvReset => (Capabilities_default, [], false)
    | _ => f
    end) (Capabilities_default, [], false) log.*2.

Record conforms (local : Capabilities) (log : list (nat * PeerEvent)) p : Prop := {
  cf_local : p_local_capabilities p = local;
  cf_state : pi_state (p_inner p) = state_of log;
  cf_fetch : p_fetch_enabled p = fetch_open local log;
  cf_sessions : p_sessions p = bound log;
  cf_facts : (pi_remote_capabilities (p_inner p), pi_emit_events (p_inner p),
    pi_fetch_enabled (p_inner p)) = facts local log;
}.

(** ** Invariant *)

(** A call past its check has the check in the log. *)
Definition checked (log : list (nat * PeerEvent)) (i : nat) (ev : PeerEvent) (st : PeerState) : Prop :=
  ∃ la lb, log = la ++ (i, ev) :: lb ∧ state_of la = st.

(** What the call has written so far; with its result, what its success means. *)
Definition task_ok (log : list (nat * PeerEvent)) (i : nat) (t : PeerTask) : Prop :=
  match t with
  | TNegotiate (inl (NSend | NHandler _ | NCommit _)) => checked log i EvNegotiating Connected
  | TNegotiate (inl (NCache c)) => (i, EvNegotiated c) ∈ log
  | TNegotiate (inr (Ok _)) => ∃ c, (i, EvNegotiated c) ∈ log ∧ (i, EvCached c) ∈ log
  | TConnect (inr (Ok _)) => (i, EvConnected) ∈ log
  | TEstablish (inl (ESend _ _ _ _ | EConfirm _ _ | ERegister _ _ _ _)) =>
      checked log i EvEstablishing PNegotiated
  | TEstablish (inl (EPeek _ _ _ | EAttach _ _ _ _ | EDetach _ _ _ _ | EFresh _ _ _ | EFacts _ _ _ |
      EBackfill _ _ _ _ _ | EDeclare _) | inr (Ok _)) => ∃ sid hd, (i, EvEstablished sid hd) ∈ log
  | TDisconnect (inl (DSession | DReset)) => (i, EvClosed) ∈ log
  | TDisconnect (inr (Ok _)) => (i, EvClosed) ∈ log ∧ (i, EvReset) ∈ log
  | TRequest (inl (RFetch c)) => (i, EvEmits c) ∈ log
  | TRequest (inr (Answer (Ok (Negotiated _)))) => ∃ c, (i, EvEmits c) ∈ log ∧ (i, EvAgreed c) ∈ log
  | TRequest (inr (Answer (Ok (Established sid _)))) => ∃ hd, (i, EvAccepted sid hd) ∈ log
  | _ => True
  end.

(** The log follows the lifecycle as long as no call was overtaken. *)
Definition follows (log : list (nat * PeerEvent)) : Prop :=
  match lifecycle_run log with Some st => st = state_of log | None => overtaken log end.

Record system_inv (local : Capabilities) (sy : System) : Prop := {
  si_conforms : conforms local (sy_log sy) (sy_peer sy);
  si_tasks : ∀ i t, sy_tasks sy !! i = Some t → task_ok (sy_log sy) i t;
  si_follows : follows (sy_log sy);
}.

Lemma snoc_events (log : list (nat * PeerEvent)) i ev : (log ++ [(i, ev)]).*2 = log.*2 ++ [ev].
Proof using Type. by rw fmap_app. Qed.

Lemma state_snoc log i ev : state_of (log ++ [(i, ev)]) = state_step (state_of log) ev.
Proof using Type. unfold state_of. by rw snoc_events foldl_app. Qed.

(** One more event: each component of the contract takes one fold step. *)
Lemma conforms_snoc local log i ev p p' :
  conforms local log p → p_local_capabilities p' = local →
  pi_state (p_inner p') = state_step (pi_state (p_inner p)) ev →
  p_fetch_enabled p' = match ev with
    | EvCached c | EvAgreed c => eff_fetch_enabled (from_capabilities local c)
    | EvClosed => false
    | _ => p_fetch_enabled p
    end →
  p_sessions p' = match ev with
    | EvEstablished sid h | EvAccepted sid h => <[sid := h]> (p_sessions p)
    | EvReset => ∅
    | _ => p_sessions p
    end →
  (pi_remote_capabilities (p_inner p'), pi_emit_events (p_inner p'), pi_fetch_enabled (p_inner p')) =
    match ev with
    | EvNegotiated c =>
        let e := from_capabilities local c in (c, eff_emit_events e, eff_fetch_enabled e)
    | EvReset => (Capabilities_default, [], false)
    | _ => (pi_remote_capabilities (p_inner p), pi_emit_events (p_inner p), pi_fetch_enabled (p_inner p))
    end →
  conforms local (log ++ [(i, ev)]) p'.
Proof using Type.
  intros [_ Hs Hf Hb Hx] Hl Hs' Hf' Hb' Hx'.
  split; [done|by rw state_snoc -Hs| | |]; unfold fetch_open, bound, facts in *;
    rw snoc_events foldl_app; cbn [foldl]; [by rw -Hf|by rw -Hb|by rw -Hx].
Qed.

(** What a turn may do to the endpoint: nothing, or one write with its event. *)
Inductive turn_effect (local : Capabilities) (log : list (nat * PeerEvent)) (i : nat) :
    XacppPeer → list PeerEvent → Prop :=
  | effect_none p : conforms local log p → turn_effect local log i p []
  | effect_one p ev : conforms local (log ++ [(i, ev)]) p →
      (∀ st, required_state ev = Some st → checked log i (check_of ev) st) →
      turn_effect local log i p [ev].

Lemma checked_now log i ev st : state_of log = st → checked (log ++ [(i, ev)]) i ev st.
Proof using Type. intros Hs. by exists log, []. Qed.

Lemma checked_app log log' i ev st : checked log i ev st → checked (log ++ log') i ev st.
Proof using Type.
  intros (la & lb & -> & Hs). exists la, (lb ++ log'). split; [by rw -app_assoc|done].
Qed.

Lemma task_ok_app log log' i t : task_ok log i t → task_ok (log ++ log') i t.
Proof using Type.
  pose proof (checked_app log log' i) as Hc.
  assert (Hin : ∀ x, x ∈ log → x ∈ log ++ log') by (intros x Hx; apply elem_of_app; by left).
  destruct t as [[[]|[]]|[[]|[]]|[[]|[]]|[[]|[]]|[[]|[[[]|]| |]]]; cbn; naive_solver.
Qed.

Lemma logged (log : list (nat * PeerEvent)) i ev : (i, ev) ∈ log ++ ((i,.) <$> [ev]).
Proof using Type. apply elem_of_app. right. by left. Qed.

Lemma logged_before (log : list (nat * PeerEvent)) i ev x : x ∈ log → x ∈ log ++ ((i,.) <$> [ev]).
Proof using Type. intros Hx. apply elem_of_app. by left. Qed.

(** The same turn for every call: an effect, and the task goes on with its check. *)
Definition turn_ok (local : Capabilities) (log : list (nat * PeerEvent)) (i : nat) p (t : PeerTask)
    (evs : list PeerEvent) : Prop :=
  turn_effect local log i p evs ∧ task_ok (log ++ ((i,.) <$> evs)) i t.

Lemma turn_quiet local log i p t : conforms local log p → task_ok log i t → turn_ok local log i p t [].
Proof using Type. intros Hc Ht. split; [by constructor|]. by rw app_nil_r. Qed.

Lemma negotiate_turn_ok hs local log i ph p h w now :
  conforms local log p → task_ok log i (TNegotiate (inl ph)) →
  let '(p', _, _, t', evs) := task_turn hs (TNegotiate (inl ph)) p h w now in
  turn_ok local log i p' t' evs.
Proof using Type.
  intros Hc Ht. pose proof Hc as [Hl Hs _ _ _].
  destruct ph as [| |c|c|c]; cbn [task_turn negotiate_turn].
  - case_decide as Hd; [by apply turn_quiet|]. split; [|apply checked_now; by rw -Hs].
    constructor; [|done]. by eapply conforms_snoc.
  - destruct (rpc_send w None _) as [w1 [[]|]]; by apply turn_quiet.
  - destruct (on_negotiate hs _); by apply turn_quiet.
  - split; [|by apply logged]. constructor; [|by intros st [= <-]].
    eapply conforms_snoc; [done..|]. cbn. by rw Hl.
  - split; [|exists c; split; [by apply logged_before|apply logged]]. constructor; [|done].
    eapply conforms_snoc; [done..| | |]; cbn; by rw ?Hl.
Qed.

Lemma connect_turn_ok hs local log i ph p h w now :
  conforms local log p →
  let '(p', _, _, t', evs) := task_turn hs (TConnect (inl ph)) p h w now in
  turn_ok local log i p' t' evs.
Proof using Type.
  intros Hc. destruct ph as [tr|tr|tr|]; cbn [task_turn connect_turn].
  - destruct (rpc_on_request w) as [w1 []]; by apply turn_quiet.
  - destruct (rpc_connect w) as [w1 []]; by apply turn_quiet.
  - destruct (p_session p); [|by apply turn_quiet].
    destruct (on_session _ _ _ _ _) as [[h1 w1] []]; by apply turn_quiet.
  - split; [|by apply logged]. constructor; [|done]. eapply conforms_snoc; [done|by apply Hc|done..].
Qed.

Lemma establish_turn_ok hs local log i ph p h w now :
  conforms local log p → task_ok log i (TEstablish (inl ph)) →
  let '(p', _, _, t', evs) := task_turn hs (TEstablish (inl ph)) p h w now in
  turn_ok local log i p' t' evs.
Proof using Type.
  intros Hc Ht. pose proof Hc as [Hl Hs _ _ _].
  destruct ph; cbn [task_turn establish_turn].
  - destruct (p_session p); [|by apply turn_quiet]. case_decide as Hd; [by apply turn_quiet|].
    split; [|apply checked_now; by rw -Hs]. constructor; [|done]. by eapply conforms_snoc.
  - destruct (rpc_send w None _) as [w1 [[]|]]; try by apply turn_quiet.
    destruct (verify_challenge _); by apply turn_quiet.
  - destruct (rpc_send w None _) as [w1 [[]|]]; by apply turn_quiet.
  - split; [|do 2 eexists; apply logged]. constructor; [|by intros st [= <-]]. by eapply conforms_snoc.
  - destruct (p_session p ≫= _) as [[l held]|]; [case_decide|]; by apply turn_quiet.
  - destruct (on_session _ _ _ _ _) as [[h1 w1] []]; by apply turn_quiet.
  - destruct (on_session _ _ _ _ _) as [[h1 w1] []]; by apply turn_quiet.
  - destruct (session_wire _ _ _ _) as [[x w1] []]; by apply turn_quiet.
  - by apply turn_quiet.
  - destruct (on_session _ _ _ _ _) as [[h1 w1] []]; by apply turn_quiet.
  - destruct (on_session _ _ _ _ _) as [[h1 w1] []]; by apply turn_quiet.
Qed.

Lemma disconnect_turn_ok hs local log i ph p h w now :
  conforms local log p → task_ok log i (TDisconnect (inl ph)) →
  let '(p', _, _, t', evs) := task_turn hs (TDisconnect (inl ph)) p h w now in
  turn_ok local log i p' t' evs.
Proof using Type.
  intros Hc Ht. pose proof Hc as [Hl _ _ _ _]. destruct ph; cbn [task_turn disconnect_turn].
  - destruct (p_session p); [|by apply turn_quiet].
    destruct (on_session _ _ _ _ _) as [[h1 w1] []]; by apply turn_quiet.
  - destruct (disconnect w) as [w1 []]; by apply turn_quiet.
  - split; [|by apply logged]. constructor; [|done]. by eapply conforms_snoc.
  - by apply turn_quiet.
  - split; [|split; [by apply logged_before|apply logged]]. constructor; [|done]. by eapply conforms_snoc.
Qed.

Lemma request_turn_ok hs local log i ph p h w now :
  conforms local log p → task_ok log i (TRequest (inl ph)) →
  let '(p', _, _, t', evs) := task_turn hs (TRequest (inl ph)) p h w now in
  turn_ok local log i p' t' evs.
Proof using Type.
  intros Hc Ht. pose proof Hc as [Hl _ _ _ _].
  destruct ph as [[sid|] req|c|c|sid hd cr|sid req|hd c]; cbn [task_turn request_turn].
  - by apply turn_quiet.
  - destruct req as [[]|]; try by apply turn_quiet.
    + destruct (on_negotiate hs _); by apply turn_quiet.
    + destruct (on_establish hs _) as [[]|]; by apply turn_quiet.
    + destruct (on_establish_confirm hs) as [[[]]|]; by apply turn_quiet.
  - split; [|by apply logged]. constructor; [|done]. by eapply conforms_snoc.
  - split; [|exists c; split; [by apply logged_before|apply logged]]. constructor; [|done].
    eapply conforms_snoc; [done..| | |]; cbn; by rw ?Hl.
  - split; [|exists hd; apply logged]. constructor; [|done]. by eapply conforms_snoc.
  - destruct (p_sessions p !! sid), req; by apply turn_quiet.
  - destruct (is_fetch_family c && _); by apply turn_quiet.
Qed.

Lemma task_turn_ok hs local log i t p h w now :
  conforms local log p → task_ok log i t →
  let '(p', _, _, t', evs) := task_turn hs t p h w now in turn_ok local log i p' t' evs.
Proof using Type.
  intros Hc Ht.
  destruct t as [[ph|r]|[ph|r]|[ph|r]|[ph|r]|[ph|r]]; [by apply negotiate_turn_ok|by apply turn_quiet|
    by apply connect_turn_ok|by apply turn_quiet|by apply establish_turn_ok|by apply turn_quiet|
    by apply disconnect_turn_ok|by apply turn_quiet|by apply request_turn_ok|by apply turn_quiet].
Qed.

(** A state that changed was changed by an event. *)
Lemma state_changed st (l : list (nat * PeerEvent)) :
  foldl state_step st l.*2 ≠ st → ∃ j ev, (j, ev) ∈ l ∧ state_step st ev ≠ st.
Proof using Type.
  revert st. induction l as [|[j ev] l IH]; intros st Hne; [done|]. cbn in Hne.
  destruct (decide (state_step st ev = st)) as [He|He].
  - rw He in Hne. destruct (IH st Hne) as (k & e & Hin & Hs). exists k, e. split; [by right|done].
  - exists j, ev. split; [by left|done].
Qed.

Lemma overtaken_app log log' : overtaken log → overtaken (log ++ log').
Proof using Type.
  intros (la & i & lb & ev & lc & st & -> & Hr & Hs & Hj). exists la, i, lb, ev, (lc ++ log'), st.
  split_and!; [|done..]. by rw -app_assoc -app_comm_cons -app_assoc.
Qed.

(** A write out of order was overtaken. *)
Lemma follows_snoc log i ev :
  follows log → (∀ st, required_state ev = Some st → checked log i (check_of ev) st) →
  follows (log ++ [(i, ev)]).
Proof using Type.
  unfold follows. intros Hf Hc.
  assert (Hrun : lifecycle_run (log ++ [(i, ev)]) = lifecycle_run log ≫= λ st, lifecycle st ev)
    by (unfold lifecycle_run; by rw snoc_events foldl_app).
  rw Hrun state_snoc. destruct (lifecycle_run log) as [st|]; cbn [mbind option_bind];
    [subst st|by apply overtaken_app].
  unfold lifecycle. destruct (required_state ev) as [st|] eqn:Hr; [|done]. case_decide as Hst; [done|].
  destruct (Hc st eq_refl) as (la & lb & -> & Hla).
  exists la, i, lb, ev, [], st. split; [by rw -app_assoc|]. split_and!; [done..|].
  apply state_changed. unfold state_of in Hla, Hst. rw fmap_app foldl_app Hla in Hst. cbn in Hst.
  by destruct ev.
Qed.

Lemma peer_exec_inv local sy op : system_inv local sy → system_inv local (peer_exec sy op).
Proof using Type.
  assert (Hspawn : ∀ t, (∀ log i, task_ok log i t) → system_inv local sy → system_inv local (spawn t sy)).
  { intros t Ht [Hc Hts Hf]. split; [done| |done]. intros i t' Hi. cbn in Hi |- *.
    apply lookup_app_Some in Hi as [Hi|[_ Hi]]; [by apply Hts|].
    apply list_lookup_singleton_Some in Hi as [_ <-]. apply Ht. }
  intros Hi. destruct op as [|tr|tr cr hd vf| |sid req|i hs now|h w]; cbn [peer_exec]; try by apply Hspawn.
  - destruct (sy_tasks sy !! i) as [t|] eqn:Ht; [|done]. destruct Hi as [Hc Hts Hf].
    pose proof (task_turn_ok hs local _ i t _ (sy_heap sy) (sy_transport sy) now Hc (Hts i t Ht)) as Hok.
    destruct (task_turn hs t _ _ _ now) as [[[[p h] w] t'] evs]. destruct Hok as [He Hok].
    split; cbn [sy_log sy_peer sy_tasks].
    + destruct He as [p Hp|p ev Hp _]; cbn [fmap list_fmap]; [by rw app_nil_r|done].
    + intros j t1 Hj. destruct (decide (j = i)) as [->|Hne].
      * rw list_lookup_insert_eq in Hj; [by eapply lookup_lt_Some|]. by injection Hj as <-.
      * rw list_lookup_insert_ne // in Hj. apply task_ok_app. by apply Hts.
    + destruct He as [p _|p ev _ Hch]; cbn [fmap list_fmap]; [by rw app_nil_r|by apply follows_snoc].
  - destruct Hi as [Hc Hts Hf]. by split.
Qed.

Lemma peer_run_inv local session h w ops :
  system_inv local (peer_run (at_rest (XacppPeer_new local session) h w) ops).
Proof using Type.
  assert (Hi : system_inv local (at_rest (XacppPeer_new local session) h w)) by by split.
  unfold peer_run. revert Hi. generalize (at_rest (XacppPeer_new local session) h w) as sy.
  induction ops as [|op ops IH]; intros sy Hi; [done|]. by apply IH, peer_exec_inv.
Qed.

(** ** Properties *)

(** C17: the endpoint refines its documented lifecycle, under every interleaving.  Calls and
    inbound requests begin at any time and take their turns in any order, each from one
    await to the next, among changes of the transport and of the sessions.  The log of the
    turns determines the endpoint: its state, the facts of the last own negotiation, the
    fetch gate and the routing table; a call that has returned success, an answered
    request included, has made its writes.  The log is a path of the documented lifecycle
    (an own negotiation completes in [Connected], an own establishment in [Negotiated])
    that ends in the endpoint's state, unless a call was overtaken: it checked the state it
    requires, another call then changed it, and the first wrote without a second check.
    An inbound command is looked up in what the log binds, and reaches the handler found
    unless it is a fetch command and, when the gate is read, negotiation has not opened
    fetch or the handler does not answer it. *)
Theorem peer_refines_lifecycle local session h w ops :
  let sy := peer_run (at_rest (XacppPeer_new local session) h w) ops in
  let p := sy_peer sy in
  let log := sy_log sy in
  conforms local log p ∧
  (∀ i t, sy_tasks sy !! i = Some t → task_ok log i t) ∧
  match lifecycle_run log with Some st => st = pi_state (p_inner p) | None => overtaken log end ∧
  (∀ hs sid c hd, (request_turn hs (RLookup sid (ReqCommand c)) p).1.2 = inl (RGate hd c) ↔
     bound log !! sid = Some hd) ∧
  (∀ hs c hd, (request_turn hs (RGate hd c) p).1.2 = inr (CallCommand hd c) ↔
     (is_fetch_family c = true → fetch_open local log = true ∧ h_is_fetch_responder hd = true)).
Proof using Type.
  cbn zeta. destruct (peer_run_inv local session h w ops) as [Hc Ht Hf].
  destruct (peer_run _ ops) as [p h' w' ts log]. cbn [sy_peer sy_log sy_tasks] in *.
  pose proof Hc as [_ Hs Hfe Hb _]. split_and!; [done..| | |].
  - unfold follows in Hf. destruct (lifecycle_run log); [by rw Hs|done].
  - intros hs sid c hd. cbn [request_turn]. rw -Hb.
    destruct (p_sessions p !! sid); cbn; [split; by intros [= ->]|by split].
  - intros hs c hd. cbn [request_turn]. rw -Hfe.
    destruct (is_fetch_family c), (p_fetch_enabled p), (h_is_fetch_responder hd); cbn;
      split; try done; try (intros Hx; by destruct (Hx eq_refl)); by auto.
Qed.

(** The endpoint while a negotiation outlives the connection: the negotiation has its
    answer, the disconnect runs, the negotiation goes on. *)
Definition late_negotiation (hs : PeerHandlers) (now : N) : list PeerOp :=
  [CallNegotiate; CallDisconnect; Turn 0 hs now; Turn 0 hs now] ++
  replicate 5 (Turn 1 hs now) ++ replicate 3 (Turn 0 hs now).

Lemma run_cons sy op ops : peer_run sy (op :: ops) = peer_run (peer_exec sy op) ops.
Proof using Type. done. Qed.

Lemma run_turn i hs now ops p h w ts log t p' h' w' t' evs :
  ts !! i = Some t → task_turn hs t p h w now = (p', h', w', t', evs) →
  peer_run (mkSystem p h w ts log) (Turn i hs now :: ops) =
  peer_run (mkSystem p' h' w' (<[i := t']> ts) (log ++ ((i,.) <$> evs))) ops.
Proof using Type.
  intros Ht Hturn. rw run_cons. cbn [peer_exec sy_tasks]. rw Ht.
  cbn [sy_peer sy_heap sy_transport sy_log]. by rw Hturn.
Qed.

Lemma unwire_turn hs p h w now :
  ∃ h' w', task_turn hs (TDisconnect (inl DUnwire)) p h w now =
    (p, h', w', TDisconnect (inl DTransport), []).
Proof using Type.
  cbn [task_turn disconnect_turn]. destruct (p_session p) as [l|]; [|by do 2 eexists].
  destruct (on_session _ _ _ _ _) as [[h1 w1] []]. by do 2 eexists.
Qed.

(** C22: a negotiation that completes after a disconnect brings the dead connection back to
    life in the endpoint.  The negotiation passed its check and has the peer's answer
    when [disconnect] runs to its end; then its handler returns and it writes.  Both calls
    succeed; the endpoint is left in [Negotiated], with the declaration, the emittable
    events and the fetch flag of the connection that is gone, and with no session.  The
    next [connect] keeps all of it, and every [negotiate] on the new connection is
    refused. *)
Theorem late_negotiation_survives hs p h w w1 c now :
  pi_state (p_inner p) = Connected →
  rpc_send w None (ReqCommand (CmdNegotiate (p_local_capabilities p))) = (w1, Ok (Negotiated c)) →
  (∀ w, ∃ w', disconnect w = (w', Ok tt)) →
  let effective := from_capabilities (p_local_capabilities p) c in
  on_negotiate hs effective = Ok tt →
  let sy := peer_run (at_rest p h w) (late_negotiation hs now) in
  let inner := mkPeerInner PNegotiated c (eff_emit_events effective) (eff_fetch_enabled effective) in
  sy_tasks sy = [TNegotiate (inr (Ok tt)); TDisconnect (inr (Ok tt))] ∧
  p_inner (sy_peer sy) = inner ∧ p_fetch_enabled (sy_peer sy) = eff_fetch_enabled effective ∧
  p_sessions (sy_peer sy) = ∅ ∧
  ∀ h' tr w' now' p'' h'' w'', peer_connect (sy_peer sy) h' tr w' now' = (p'', h'', w'', Ok tt) →
    p_inner p'' = inner ∧
    ∀ hs w, (negotiate hs p'' w).2 = Err (Internal (Lit "negotiate requires Connected state")).
Proof using Type.
  intros Hst Hsend Hdis effective Hneg sy inner.
  assert (Hsy : ∃ h' w', sy = mkSystem (set_caches (p_emit_events p) (eff_fetch_enabled effective)
    (set_inner inner (set_sessions ∅ (set_inner PeerInner_new (set_caches (p_emit_events p) false p)))))
    h' w' [TNegotiate (inr (Ok tt)); TDisconnect (inr (Ok tt))]
    [(0, EvNegotiating); (1, EvClosed); (1, EvReset); (0, EvNegotiated c); (0, EvCached c)]).
  { unfold sy, late_negotiation, at_rest.
    cbn [app replicate]. rw (run_cons _ CallNegotiate) (run_cons _ CallDisconnect). cbn [peer_exec].
    unfold spawn. cbn [sy_peer sy_heap sy_transport sy_tasks sy_log app].
    assert (H0 : task_turn hs (TNegotiate (inl NStart)) p h w now =
      (p, h, w, TNegotiate (inl NSend), [EvNegotiating])) by (cbn [task_turn negotiate_turn]; by case_decide).
    erewrite run_turn; [|done|exact H0].
    erewrite run_turn; [|done|cbn [task_turn negotiate_turn]; by rw Hsend].
    destruct (unwire_turn hs p h w1 now) as (h2 & w2 & Hun).
    erewrite run_turn; [|done|exact Hun].
    destruct (Hdis w2) as [w3 Hd].
    erewrite run_turn; [|done|cbn [task_turn disconnect_turn]; by rw Hd].
    do 3 (erewrite run_turn; [|done|reflexivity]).
    erewrite run_turn; [|done|cbn [task_turn negotiate_turn p_local_capabilities set_sessions set_inner set_caches];
      unfold effective in Hneg; by rw Hneg].
    do 2 (erewrite run_turn; [|done|reflexivity]).
    by do 2 eexists. }
  destruct Hsy as (h1 & w2 & ->). cbn [sy_tasks sy_peer]. split_and!; [done..|].
  intros h' tr w' now' p'' h'' w'' Hconn.
  split; [by eapply (reconnect_keeps_negotiated hs) in Hconn as [-> _]|].
  intros hs' w0. by eapply (reconnect_keeps_negotiated hs') in Hconn as (_ & _ & ->).
Qed.
End turns.
