(* ===== verification/Rpc.v ===== *)
(** * One request over two transports ([src/carrier/socket.rs],
    [src/carrier/mod.rs], [src/wire/frame.rs])

    The envelope layer composed with the frame codec: a request issued on one
    transport crosses the wire in arbitrary chunks, reaches the other end's
    handler, and its answer comes back to the caller. *)
From S2P Require Import Prelude Crc Frame Control Sender Reassemble Errors Stream Transfer.
From S2P Require Import Egress Messages Carrier.

Section rpc.
Context `{CRC : Crc32} {LAWS : Crc32Laws CRC} `{JSON : JsonLib} {CODEC : EnvelopeCodec} {DISPLAY : Display}.
Implicit Types (c : Carrier) (cn : Connection).

(** The read task's envelope arm over the frames of a fresh connection. *)
Definition read_frame (k : nat) c (f : Frame) : Carrier :=
  match frame_type f with DataJson => read_envelope k (payload f) c | _ => c end.

Definition read_chunks (k : nat) (chunks : list (list byte)) c : option Carrier :=
  match feed_all FrameDecoder_new chunks with
  | Some (_, frames, None) => Some (foldl (read_frame k) c frames)
  | _ => None
  end.

(** What connection [k] handed to its writer since [before] frames. *)
Definition wrote (k before : nat) c : list (list byte) :=
  match ct_conns c !! k with
  | Some cn => (drop before (eg_written (cn_egress cn))).*2
  | None => []
  end.

(** A connection in service with nothing in flight. *)
Record idle (k : nat) c cn : Prop := {
  id_current : ct_egress c = Some k;
  id_connected : ct_connected c = true;
  id_conn : ct_conns c !! k = Some cn;
  id_reading : cn_reading cn = true;
  id_dispatching : cn_dispatching cn = true;
  id_inbox : cn_inbox cn = [];
  id_running : eg_running (cn_egress cn) = true;
  id_handles : eg_handles (cn_egress cn) = true;
  id_data : eg_data (cn_egress cn) = [];
  id_control : eg_control (cn_egress cn) = [];
  id_tasks : ct_inflight c = [];
}.

(** An envelope survives framing, however the bytes are cut. *)
Lemma read_envelope_wire k c msg fresh wire chunks :
  serialize_envelope msg fresh = Ok wire → concat chunks = wire →
  ∃ json, envelope_to_vec msg = Some json ∧
    read_chunks k chunks c = Some (read_envelope k json c).
Proof using LAWS.
  unfold serialize_envelope, encode_data_json_frame, read_chunks.
  destruct (envelope_to_vec msg) as [json|]; [|done].
  set (f := Frame_new DataJson fresh _ 0 json).
  destruct (encode f) as [b|] eqn:He; intros [= <-] Hc. exists json. split; [done|].
  rw (decode_encode_core [f] [b]); [|by cbn; rw He|by cbn; rw app_nil_r|done].
  apply Forall_singleton. split_and!; try done. cbn. apply as_u32_le.
Qed.

Definition with_conn (k : nat) cn c : Carrier := set_conns (<[k := cn]> (ct_conns c)) c.

(** The egress of an idle connection after it queued, then wrote, one frame. *)
Definition queued (frame : list byte) (a : nat) (e : Egress) : Egress :=
  set_queues [EFrame frame (Some a)] [] e.

Definition written (frame : list byte) (a : nat) (e : Egress) : Egress :=
  resolve (Some a) true (log_write DataCh frame e).

Lemma alter_insert_eq {A} (f : A → A) k (l : list A) x :
  l !! k = Some x → alter f k l = <[k := f x]> l.
Proof using Type.
  intros Hk. apply list_eq. intros i. destruct (decide (k = i)) as [<-|Hne].
  - rw list_lookup_alter_eq Hk list_lookup_insert_eq //. by eapply lookup_lt_Some.
  - by rw list_lookup_alter_ne // list_lookup_insert_ne.
Qed.

Lemma acked_idle k frame a c cn :
  idle k c cn →
  on_egress k (λ e, send_acked e frame a) c =
  (with_conn k (set_egress (queued frame a (load c (cn_egress cn))) cn) c, Some (Ok tt)).
Proof using Type.
  intros []. unfold on_egress. rw id_conn0. unfold send_acked, push_data.
  cbn [load eg_connected eg_running eg_data eg_control]. rw id_connected0 id_running0 id_data0 id_control0.
  cbn [negb app]. unfold store, with_conn. rw (alter_insert_eq _ _ _ _ id_conn0).
  destruct c. cbn in *. by subst.
Qed.

Lemma drain_queued k frame a c cn e :
  ct_conns c !! k = Some cn → cn_egress cn = queued frame a e →
  eg_running e = true → eg_handles e = true →
  drain_conn k true c =
  with_conn k (set_egress (written frame a (load c (set_queues [] [] e))) cn) c.
Proof using Type.
  intros Hk He Hr Hh. unfold drain_conn, on_egress. rw Hk He. cbn [fst].
  unfold drain_step, drain_data.
  cbn [load queued set_queues eg_running eg_control_open eg_control eg_data eg_handles].
  rw Hr Hh. cbn [negb]. unfold store, with_conn. rw (alter_insert_eq _ _ _ _ Hk).
  destruct c. cbn in *. by destruct (eg_control_open e).
Qed.

(** The caller's side: register, clone, enqueue; the drain task writes. *)
Definition issue (k : nat) (sid : option string) (req : XacppRequest) (fresh : txid) c : Carrier :=
  let i := length (ct_calls c) in
  drain_conn k true (call_step i (call_step i (call_start false sid req fresh c))).

Lemma issue_idle k sid req fresh wire c cn :
  idle k c cn →
  let id := request_id (ct_next_id c) in
  serialize_envelope (Request id sid req) fresh = Ok wire →
  ∃ cn', idle k (issue k sid req fresh c) cn' ∧
    ct_calls (issue k sid req fresh c) = ct_calls c ++ [mkCall id false (WaitAck k (ct_receipts c))] ∧
    ct_pending (issue k sid req fresh c) = <[id := SlotRespond]> (ct_pending c) ∧
    eg_written (cn_egress cn') = eg_written (cn_egress cn) ++ [(DataCh, wire)] ∧
    eg_acks (cn_egress cn') = eg_acks (cn_egress cn) ++ [(ct_receipts c, true)].
Proof using Type.
  intros Hid id Hser. unfold issue, call_start. fold id. rw Hser.
  set (i := length (ct_calls c)). set (c1 := set_pending _ _).
  assert (Hi1 : idle k c1 cn) by by destruct Hid.
  assert (Hcl1 : ct_calls c1 !! i = Some (mkCall id false (Registered wire))).
  { cbn. unfold i. rw lookup_app_r // Nat.sub_diag //. }
  set (c2 := upd_call i (Cloned wire k) c1).
  assert (Hc2 : call_step i c1 = c2).
  { unfold call_step. rw Hcl1. cbn. by rw (id_current _ _ _ Hid). }
  rw Hc2. assert (Hcl2 : ct_calls c2 !! i = Some (mkCall id false (Cloned wire k))).
  { cbn [ct_calls upd_call set_calls c2]. by rw list_lookup_alter_eq Hcl1. }
  set (a := ct_receipts c). set (c2' := set_counters (ct_next_id c2) (S a) c2).
  assert (Hi2 : idle k c2' cn) by by destruct Hi1.
  set (e1 := queued wire a (load c2' (cn_egress cn))).
  assert (Hc3 : call_step i c2 = upd_call i (WaitAck k a) (with_conn k (set_egress e1 cn) c2')).
  { unfold call_step. rw Hcl2. cbn [cl_phase cl_faf cl_id].
    change (ct_receipts c2) with a. fold c2'. by rw (acked_idle k wire a c2' cn Hi2). }
  rw Hc3. set (c3 := upd_call i _ _).
  assert (Hk3 : ct_conns c3 !! k = Some (set_egress e1 cn)).
  { cbn. apply list_lookup_insert_eq. eapply lookup_lt_Some, Hi2. }
  rw (drain_queued k wire a c3 _ (load c2' (cn_egress cn)) Hk3); [done|apply Hi2..|].
  set (cn' := set_egress _ _). exists cn'. split_and!; [|cbn|done|done|done].
  - destruct Hi1. split; try done. cbn. rw list_insert_insert_eq.
    apply list_lookup_insert_eq. by eapply lookup_lt_Some.
  - rw list_alter_alter_eq alter_app_r_alt; [unfold i; lia|]. unfold i. by rw Nat.sub_diag.
Qed.

(** An envelope that arrives on an idle connection is dispatched next. *)
Lemma read_dispatch k json fresh c cn :
  idle k c cn →
  dispatch_step k fresh (read_envelope k json c) = dispatch_envelope k json fresh c.
Proof using Type.
  intros []. unfold read_envelope. rw id_conn0 id_reading0 id_dispatching0. cbn [negb].
  unfold dispatch_step, upd_conn. cbn [ct_conns set_conns ct_inline ct_inflight].
  rw list_lookup_alter_eq id_conn0. cbn [fmap option_fmap option_map set_inbox cn_dispatching cn_inbox cn_reading].
  rw id_dispatching0 id_tasks0 id_inbox0 andb_false_r. cbn [negb app].
  f_equal. rw list_alter_alter_eq. destruct c. unfold set_conns. cbn in *. f_equal. apply list_eq. intros i.
  destruct (decide (k = i)) as [<-|Hne]; [|by rw list_lookup_alter_ne].
  rw list_lookup_alter_eq id_conn0. cbn. destruct cn. cbn in *. by subst.
Qed.

(** The responder's side: the handler runs with the request and its result goes
    out under the request's id. *)
Lemma serve_idle k json id sid req r fresh fresh' wire c cn :
  idle k c cn → ct_handler c = true → envelope_from_slice json = Some (Request id sid req) →
  serialize_envelope (Response id sid (respond r)) fresh' = Ok wire →
  let c1 := dispatch_step k fresh (read_envelope k json c) in
  let c2 := drain_conn k true (handler_done 0 r fresh' c1) in
  ct_inflight c1 = [mkTask k id sid req] ∧
  ∃ cn', idle k c2 cn' ∧ eg_written (cn_egress cn') = eg_written (cn_egress cn) ++ [(DataCh, wire)].
Proof using Type.
  intros Hid Hh Hj Hser c1 c2.
  assert (Hc1 : c1 = set_tasks [mkTask k id sid req] c).
  { unfold c1. rw (read_dispatch k json fresh c cn Hid). unfold dispatch_envelope, dispatch_request.
    by rw Hj Hh (id_tasks _ _ _ Hid). }
  rw Hc1. split; [done|]. unfold c2. rw Hc1. unfold handler_done. cbn [ct_inflight set_tasks lookup list_lookup].
  unfold send_response. cbn [tk_id tk_session tk_conn]. rw Hser.
  set (c3 := set_tasks _ _). set (a := ct_receipts c3).
  set (c4 := set_counters _ _ c3).
  assert (Hi4 : idle k c4 cn) by by destruct Hid.
  rw (acked_idle k wire a c4 cn Hi4). cbn [fst]. set (c5 := with_conn _ _ c4).
  assert (Hk5 : ct_conns c5 !! k = Some (set_egress (queued wire a (load c4 (cn_egress cn))) cn)).
  { cbn. apply list_lookup_insert_eq. eapply lookup_lt_Some, Hi4. }
  rw (drain_queued k wire a c5 _ (load c4 (cn_egress cn)) Hk5); [done|apply Hi4..|].
  set (cn' := set_egress _ _). exists cn'. split; [|done]. destruct Hi4. split; try done. cbn.
  rw list_insert_insert_eq. apply list_lookup_insert_eq. by eapply lookup_lt_Some.
Qed.

(** The answer arrives: the caller takes its receipt, then the response. *)
Lemma answer_idle k json id sid payload fresh c cn i a :
  idle k c cn → envelope_from_slice json = Some (Response id sid payload) →
  ct_pending c !! id = Some SlotRespond → ct_calls c !! i = Some (mkCall id false (WaitAck k a)) →
  (∃ j, list_find (λ r, r.1 = a) (eg_acks (cn_egress cn)) = Some (j, (a, true))) →
  ct_calls (call_step i (call_step i (dispatch_step k fresh (read_envelope k json c)))) !! i =
  Some (mkCall id false (Returned (Ok (Some payload)))).
Proof using Type.
  intros Hid Hj Hp Hcl [j Hf]. rw (read_dispatch k json fresh c cn Hid).
  unfold dispatch_envelope, dispatch_response. rw Hj Hp. set (c1 := set_delivered _ _).
  assert (H2 : call_step i c1 = upd_call i (WaitResponse k) c1).
  { unfold call_step. rw Hcl. cbn [cl_phase]. rw (id_conn _ _ _ Hid). cbn. by rw Hf. }
  rw H2. unfold call_step. cbn [ct_calls upd_call set_calls].
  rw list_lookup_alter_eq Hcl. cbn. rw lookup_insert_eq. cbn.
  by rw list_lookup_alter_eq list_lookup_alter_eq Hcl.
Qed.

(** [serde_json] gives back the envelope it wrote. *)
Definition codec_ok (m : XacppEnvelope) : Prop :=
  ∀ json, envelope_to_vec m = Some json → envelope_from_slice json = Some m.

Lemma wrote_one k c cn n wire :
  ct_conns c !! k = Some cn → ∀ l, length l = n →
  eg_written (cn_egress cn) = l ++ [(DataCh, wire)] → wrote k n c = [wire].
Proof using Type. intros Hk l <- He. unfold wrote. rw Hk He drop_app_length. done. Qed.

(** C5: a request / response round trip over the wire.  A reachable transport
    [a] issues a request on its idle connection; whatever chunks the bytes it
    writes arrive in, the other end's handler is called once, with exactly that
    session id and payload; and when the bytes the other end then writes arrive
    back, in any chunks, the caller's [send] returns the handler's answer: its
    response, or for an error [e] the error response with [e]'s code and with
    [e]'s message as text. *)
Theorem rpc_round_trip client inline ops ka kb cna cnb b sid req r t1 t2 t3 t4 wire1 wire2 :
  let a := carrier_run client inline ops in
  let id := request_id (ct_next_id a) in
  ids_left a → idle ka a cna → idle kb b cnb → ct_handler b = true →
  serialize_envelope (Request id sid req) t1 = Ok wire1 →
  serialize_envelope (Response id sid (respond r)) t3 = Ok wire2 →
  codec_ok (Request id sid req) → codec_ok (Response id sid (respond r)) →
  let a1 := issue ka sid req t1 a in
  let na := length (eg_written (cn_egress cna)) in
  let nb := length (eg_written (cn_egress cnb)) in
  ∀ chunks1, concat chunks1 = concat (wrote ka na a1) →
  ∃ b1, read_chunks kb chunks1 b = Some b1 ∧
    let b2 := dispatch_step kb t2 b1 in
    ct_inflight b2 = [mkTask kb id sid req] ∧
    let b3 := drain_conn kb true (handler_done 0 r t3 b2) in
    ∀ chunks2, concat chunks2 = concat (wrote kb nb b3) →
    ∃ a2, read_chunks ka chunks2 a1 = Some a2 ∧
      let i := length (ct_calls a) in
      ct_calls (call_step i (call_step i (dispatch_step ka t4 a2))) !! i =
      Some (mkCall id false (Returned (Ok (Some (respond r))))).
Proof using LAWS.
  intros a id Hids Hia Hib Hh Hs1 Hs2 Hc1 Hc2 a1 na nb chunks1 Hch1.
  pose proof (run_inv client inline ops Hids) as Hinv. fold a in Hinv. clearbody a.
  destruct (issue_idle ka sid req t1 wire1 a cna Hia Hs1) as (cna' & Hia1 & Hcalls & Hpend & Hw1 & Hacks).
  fold a1 id in Hia1, Hcalls, Hpend.
  rw (wrote_one ka a1 cna' na wire1 (id_conn _ _ _ Hia1) _ eq_refl Hw1) in Hch1.
  destruct (read_envelope_wire kb b _ _ _ chunks1 Hs1) as (json1 & Hj1 & Hr1).
  { by rw Hch1 /= app_nil_r. }
  eexists. split; [exact Hr1|].
  destruct (serve_idle kb json1 id sid req r t2 t3 wire2 b cnb Hib Hh (Hc1 _ Hj1) Hs2)
    as (Hfl & cnb' & Hib3 & Hw2).
  split; [exact Hfl|]. intros b3 chunks2 Hch2.
  rw (wrote_one kb b3 cnb' nb wire2 (id_conn _ _ _ Hib3) _ eq_refl Hw2) in Hch2.
  destruct (read_envelope_wire ka a1 _ _ _ chunks2 Hs2) as (json2 & Hj2 & Hr2).
  { by rw Hch2 /= app_nil_r. }
  eexists. split; [exact Hr2|].
  eapply (answer_idle ka json2 id sid (respond r) t4 a1 cna' _ (ct_receipts a) Hia1 (Hc2 _ Hj2)).
  - rw Hpend. apply lookup_insert_eq.
  - rw Hcalls lookup_app_r // Nat.sub_diag //.
  - rw Hacks. destruct (ci_conns a Hinv ka cna (id_conn _ _ _ Hia)) as [_ _ _ _ Hf _].
    exists (length (eg_acks (cn_egress cna))). apply list_find_Some. split_and!; [|done|].
    + rw lookup_app_r // Nat.sub_diag //.
    + intros j y Hy Hlt Heq. rw lookup_app_l // in Hy.
      assert (y.1 < ct_receipts a) as Hy1; [|lia]. apply Hf. unfold receipts_of.
      apply elem_of_app. left. apply list_elem_of_fmap. exists y. split; [done|].
      by apply list_elem_of_lookup_2 in Hy.
Qed.
End rpc.
