(* ===== verification/EnvelopeJson.v ===== *)
(** * The wire form of messages

    The codecs of [src/wire/message.rs], [commands/mod.rs], [capability.rs],
    [activity_ref.rs] and [events/] derived from their serde attributes, the
    typed view of command declarations, the interaction commands of
    [events/interaction.rs], and the envelope codec the transports use.

    [serde_json]'s [Value] and its text are parameters: [JsonValue] states how a
    [Value] relates to documents, [JsonText] prints and parses them. *)
From S2P Require Import Prelude Crc Frame Control Sender Errors Json Payloads Messages Carrier Rpc.

(** [Value] as a document.  [to_value] is [serde_json::to_value] of a value
    whose document is given: an object becomes a map, which has its own order. *)
Class JsonValue `{JSON : JsonLib} : Type := {
  Value_ser : Value → json;
  Value_de : json → option Value;
  to_value : json → option Value;
}.

Class JsonValueLaws `{JsonValue} : Prop := {
  Value_de_ser v : Value_de (Value_ser v) = Some v;
  Value_de_proper j j' : json_eqv j j' → Value_de j = Value_de j';
  Value_document v : json_eqv (Value_ser v) (Value_ser v);
  Value_ser_Null v : Value_ser v = JNull ↔ v = Value_Null;
  Value_de_Null j : Value_de j = Some Value_Null → j = JNull;
  to_value_document j : json_eqv j j → ∃ v, to_value j = Some v ∧ json_eqv j (Value_ser v);
}.

(** [serde_json::to_vec] and [from_slice] on the text of a document. *)
Class JsonText : Type := {
  json_to_vec : json → option (list byte);
  json_from_slice : list byte → option json;
}.

Section wire.
Context `{JV : JsonValue} {DISPLAY : Display}.

#[export] Instance serde_value : Serde Value := {| ser := Value_ser; de := Value_de |}.

#[export] Instance serde_text : Serde text := {|
  ser m := JStr (display m);
  de j := match j with JStr s => Some (Lit s) | _ => None end |}.

(** ** Capabilities and command declarations *)

#[export] Instance Capabilities_struct : Struct Capabilities := {|
  to_fields c :=
    [vec_f "commands" (cap_commands c); vec_f "produceEvents" (produce_events c);
     vec_f "acceptEvents" (accept_events c); opt_f "fetchExt" (fetch_ext c)];
  of_fields :=
    commands ← dflt [] "commands";
    produce ← dflt [] "produceEvents";
    accept ← dflt [] "acceptEvents";
    fetch ← opt_default "fetchExt";
    mret (mkCapabilities commands produce accept fetch) |}.

#[export] Instance Dispatcher_serde : Serde Dispatcher := {|
  ser d := JStr (Dispatcher_serialize d);
  de j := match j with JStr s => Some (Dispatcher_deserialize s) | _ => None end |}.

#[export] Instance ExtraScope_serde : Serde ExtraScope := {|
  ser e := JStr (ExtraScope_serialize e);
  de j := match j with JStr s => Some (ExtraScope_deserialize s) | _ => None end |}.

#[export] Instance RequireToolCall_struct : Struct RequireToolCall := {|
  to_fields p := [Some_f "require" (rtc_require p); Some_f "onFailure" (rtc_on_failure p)];
  of_fields :=
    require ← req "require";
    on_failure ← req "onFailure";
    mret (mkRequireToolCall require on_failure) |}.

#[export] Instance EvaluationPolicy_struct : Struct EvaluationPolicy := {|
  to_fields p := [opt_f "requireToolCall" (ep_require_tool_call p)];
  of_fields :=
    require_tool_call ← opt_default "requireToolCall";
    mret (mkEvaluationPolicy require_tool_call) |}.

#[export] Instance CommandDeclaration_struct : Struct CommandDeclaration := {|
  to_fields d :=
    [Some_f "name" (cd_name d); opt_f "description" (cd_description d);
     opt_f "parameters" (cd_parameters d); opt_f "dispatcher" (cd_dispatcher d);
     opt_f "evaluationPolicy" (cd_evaluation_policy d); vec_f "extraScopes" (cd_extra_scopes d)];
  of_fields :=
    name ← req "name";
    description ← opt_default "description";
    parameters ← opt_default "parameters";
    dispatcher ← opt_default "dispatcher";
    evaluation_policy ← opt_default "evaluationPolicy";
    extra_scopes ← dflt [] "extraScopes";
    mret (mkCommandDeclaration name description parameters dispatcher evaluation_policy
            extra_scopes) |}.

(** [serde_json::from_value]: the target's decoder over the value. *)
Definition from_value {A} `{Serde A} (v : Value) : option A := de (Value_ser v).

Definition CommandDeclaration_from_value (v : Value) : option CommandDeclaration := from_value v.
Definition CommandDeclaration_to_value (d : CommandDeclaration) : option Value := to_value (ser d).

(** ** Commands and events *)

#[export] Instance ActivityRef_struct : Struct ActivityRef := {|
  to_fields r := [Some_f "id" (act_id r)];
  of_fields := id ← req "id"; mret (mkActivityRef id) |}.

#[export] Instance XacppEvent_struct : Struct XacppEvent := {|
  to_fields e := [Some_f "name" (ev_name e); Some_f "data" (ev_data e)];
  of_fields :=
    name ← req "name";
    data ← dflt Value_Null "data";
    mret (mkXacppEvent name data) |}.

#[export] Instance XacppActivityEvent_struct : Struct XacppActivityEvent := {|
  to_fields e := [Some_f "activity" (ae_activity e); Some_f "event" (ae_event e)];
  of_fields :=
    activity ← req "activity";
    event ← req "event";
    mret (mkXacppActivityEvent activity event) |}.

(** Externally tagged: a struct variant is an object with one key, a unit
    variant its name. *)
Definition command_fields (c : XacppCommand) : list (string * option json) :=
  match c with
  | CmdNegotiate caps => [Some_f "capabilities" caps]
  | Establish credentials => [opt_f "credentials" credentials]
  | EstablishConfirm => []
  | Fetch uri => [Some_f "uri" uri]
  | FetchBegin t | FetchPause t | FetchResume t | FetchAbort t => [Some_f "txid" t]
  | Generic name arguments activity =>
      [Some_f "name" name; Some_f "arguments" arguments; opt_f "activity" activity]
  end.

Definition command_tag (c : XacppCommand) : string :=
  match c with Generic _ _ _ => "generic" | _ => command_name c end.

Definition command_variants : list (string * Fields XacppCommand) :=
  [("negotiate", caps ← req "capabilities"; mret (CmdNegotiate caps));
   ("establish", credentials ← opt "credentials"; mret (Establish credentials));
   ("fetch", uri ← req "uri"; mret (Fetch uri));
   ("fetch_begin", t ← req "txid"; mret (FetchBegin t));
   ("fetch_pause", t ← req "txid"; mret (FetchPause t));
   ("fetch_resume", t ← req "txid"; mret (FetchResume t));
   ("fetch_abort", t ← req "txid"; mret (FetchAbort t));
   ("generic", name ← req "name"; arguments ← req "arguments"; activity ← opt "activity";
               mret (Generic name arguments activity))].

(** The value of a struct variant: an object or a sequence of its fields. *)
Definition variant_input (j : json) : option input :=
  match j with JObj o => Some (IMap o) | JArr l => Some (ISeq l) | _ => None end.

Definition read_struct_variant (j : json) : option XacppCommand :=
  match j with
  | JObj [(tag, v)] => i ← variant_input v; variant tag i command_variants
  | _ => None
  end.

#[export] Instance XacppCommand_serde : Serde XacppCommand := {|
  ser c :=
    match c with
    | EstablishConfirm => JStr (command_tag c)
    | _ => JObj [(command_tag c, JObj (emit (command_fields c)))]
    end;
  de j :=
    if decide (unit_name j = Some "establish_confirm") then Some EstablishConfirm
    else read_struct_variant j |}.

(** ** Requests, responses, envelopes *)

(** Adjacently tagged: [kind] says what [payload] is. *)
#[export] Instance XacppRequest_struct : Struct XacppRequest := {|
  to_fields r :=
    match r with
    | ReqCommand c => [Some_f "kind" "command"; Some_f "payload" c]
    | ReqEvent e => [Some_f "kind" "event"; Some_f "payload" e]
    end;
  of_fields :=
    kind ← field unit_name None None "kind";
    if String.eqb kind "command" then c ← req "payload"; mret (ReqCommand c)
    else if String.eqb kind "event" then e ← req "payload"; mret (ReqEvent e)
    else λ _, None |}.

#[export] Instance XacppResponse_tagged : Tagged XacppResponse := {|
  tag_key := "kind";
  variants :=
    [("negotiated", caps ← req "capabilities"; mret (Negotiated caps));
     ("established", session_id ← req "sessionId"; credentials ← req "credentials";
                     mret (Established session_id credentials));
     ("establish_prepare", challenge ← req "challenge"; mret (EstablishPrepare challenge));
     ("establish_reject", reason ← req "reason"; mret (RespEstablishReject reason));
     ("fetch_ready", t ← req "txid"; sha256 ← req "sha256"; size_bytes ← req "sizeBytes";
                     mime ← req "mime"; mret (FetchReady t sha256 size_bytes mime));
     ("generic", name ← req "name"; data ← dflt Value_Null "data"; mret (RespGeneric name data));
     ("error", code ← req "code"; message ← req "message"; mret (RespError code message))];
  to_variant r :=
    match r with
    | Negotiated caps => ("negotiated", [Some_f "capabilities" caps])
    | Established session_id credentials =>
        ("established", [Some_f "sessionId" session_id; Some_f "credentials" credentials])
    | EstablishPrepare challenge => ("establish_prepare", [Some_f "challenge" challenge])
    | RespEstablishReject reason => ("establish_reject", [Some_f "reason" reason])
    | FetchReady t sha256 size_bytes mime =>
        ("fetch_ready", [Some_f "txid" t; Some_f "sha256" sha256;
                         Some_f "sizeBytes" size_bytes; Some_f "mime" mime])
    | RespGeneric name data => ("generic", [Some_f "name" name; Some_f "data" data])
    | RespError code message => ("error", [Some_f "code" code; Some_f "message" message])
    end |}.

(** The payload is read out of the envelope's buffered content. *)
#[export] Instance XacppEnvelope_tagged : Tagged XacppEnvelope := {|
  tag_key := "type";
  variants :=
    [("request", id ← req "id"; session_id ← opt "session_id"; payload ← req "payload";
                 mret (Request id session_id payload));
     ("response", id ← req "id"; session_id ← opt "session_id";
                  payload ← field (tagged_de true) None None "payload";
                  mret (Response id session_id payload))];
  to_variant m :=
    match m with
    | Request id session_id payload =>
        ("request", [Some_f "id" id; opt_f "session_id" session_id; Some_f "payload" payload])
    | Response id session_id payload =>
        ("response", [Some_f "id" id; opt_f "session_id" session_id; Some_f "payload" payload])
    end |}.

(** The codec of the transports. *)
Definition json_codec {TEXT : JsonText} : EnvelopeCodec := {|
  envelope_to_vec m := json_to_vec (ser m);
  envelope_from_slice b := json_from_slice b ≫= de |}.

(** ** Interaction commands ([events/interaction.rs]) *)

Definition unwrap_or_null (v : option Value) : Value := default Value_Null v.

(** [XacppCommand::generic_with_activity]. *)
Definition generic_with_activity (name : string) (arguments : Value) (activity : ActivityRef) : XacppCommand :=
  Generic name arguments (Some activity).

Definition action_request_command (activity : string) (payload : ActionRequestPayload) : XacppCommand :=
  generic_with_activity "action_request" (unwrap_or_null (to_value (ser payload)))
    (mkActivityRef activity).

Definition question_command (activity : string) (payload : QuestionPayload) : XacppCommand :=
  generic_with_activity "question" (unwrap_or_null (to_value (ser payload)))
    (mkActivityRef activity).

Definition sensitive_info_command (activity : string) (payload : SensitiveInfoOperationPayload) : XacppCommand :=
  generic_with_activity "sensitive_info_operation" (unwrap_or_null (to_value (ser payload)))
    (mkActivityRef activity).
End wire.

(** ** Laws *)

Section laws.
Context `{JVL : JsonValueLaws} {DISPLAY : Display}.

#[export] Instance laws_value : SerdeLaws Value.
Proof.
  refine {| serde_wf _ := True |}; [by intros v _; apply Value_de_ser|done|apply Value_de_proper|].
  intros v _. apply Value_document.
Defined.

(** [Some(Value::Null)] is written like [None]. *)
#[export] Instance laws_option_value : SerdeLaws (option Value) | 0.
Proof.
  refine {| serde_wf o := o ≠ Some Value_Null |}.
  - intros [v|] Hv; [|done]. pose proof (Value_de_ser v) as Hd. cbn.
    assert (Value_ser v ≠ JNull) as Hn by (by intros Hn%Value_ser_Null; subst).
    destruct (Value_ser v); [done|..]; by rw Hd.
  - intros j o Hj ->. cbn in Hj.
    destruct j; [done|..]; apply fmap_Some in Hj as (v & Hv & [= <-]);
      by apply Value_de_Null in Hv.
  - intros j j' Hj. pose proof (Value_de_proper j j' Hj) as Hd. cbn. by destruct Hj; rw ?Hd.
  - intros [v|] _; cbn; [apply Value_document|constructor].
Defined.

(** A message read from the wire. *)
#[export] Instance laws_text : SerdeLaws text.
Proof.
  refine {| serde_wf m := m = Lit (display m) |}; [by intros m ->; cbn; rw display_lit| | |constructor].
  - intros [] m; try done. cbn. intros [= <-]. by rw display_lit.
  - by intros j j' [].
Defined.
#[export] Instance nonnull_text : NonNull text. Proof. done. Qed.

Lemma values_wf (l : list Value) : serde_wf l.
Proof. by apply Forall_true. Qed.
#[local] Hint Resolve values_wf : core.

Definition Capabilities_wf (c : Capabilities) : Prop := serde_wf (fetch_ext c).

#[export] Instance Capabilities_laws : StructLaws Capabilities.
Proof. refine {| struct_wf := Capabilities_wf |}; struct_laws. Defined.

Definition Dispatcher_wf (d : Dispatcher) : Prop :=
  d ≠ DispatcherUnknown "tool" ∧ d ≠ DispatcherUnknown "bridge".

#[export] Instance Dispatcher_laws : SerdeLaws Dispatcher.
Proof.
  refine {| serde_wf := Dispatcher_wf |}; [| |by intros j j' []|constructor].
  - intros [| |s] [H1 H2]; [done|done|]. cbn. unfold Dispatcher_deserialize.
    repeat case_decide; subst; done.
  - intros [] d; try done. cbn. intros [= <-]. unfold Dispatcher_deserialize, Dispatcher_wf.
    repeat case_decide; subst; split; congruence.
Defined.
#[export] Instance nonnull_dispatcher : NonNull Dispatcher. Proof. done. Qed.

#[export] Instance ExtraScope_laws : SerdeLaws ExtraScope.
Proof.
  refine {| serde_wf e := e ≠ ScopeUnknown "compact" |}; [| |by intros j j' []|constructor].
  - intros [|s] H1; [done|]. cbn. unfold ExtraScope_deserialize. case_decide; subst; done.
  - intros [] e; try done. cbn. intros [= <-]. unfold ExtraScope_deserialize.
    case_decide; congruence.
Defined.

#[export] Instance RequireToolCall_laws : StructLaws RequireToolCall.
Proof. refine {| struct_wf _ := True |}; struct_laws. Defined.

#[export] Instance EvaluationPolicy_laws : StructLaws EvaluationPolicy.
Proof. refine {| struct_wf _ := True |}; struct_laws. Defined.

Definition CommandDeclaration_wf (d : CommandDeclaration) : Prop :=
  serde_wf (cd_parameters d) ∧ serde_wf (cd_dispatcher d) ∧ serde_wf (cd_extra_scopes d).

#[export] Instance CommandDeclaration_laws : StructLaws CommandDeclaration.
Proof. refine {| struct_wf := CommandDeclaration_wf |}; struct_laws. Defined.

#[export] Instance ActivityRef_laws : StructLaws ActivityRef.
Proof. refine {| struct_wf _ := True |}; struct_laws. Defined.

#[export] Instance XacppEvent_laws : StructLaws XacppEvent.
Proof. refine {| struct_wf _ := True |}; struct_laws. Defined.

#[export] Instance XacppActivityEvent_laws : StructLaws XacppActivityEvent.
Proof. refine {| struct_wf _ := True |}; struct_laws. Defined.

(** *** Commands *)

Definition XacppCommand_wf (c : XacppCommand) : Prop :=
  match c with CmdNegotiate caps => Capabilities_wf caps | _ => True end.

Lemma command_round c :
  XacppCommand_wf c → c ≠ EstablishConfirm →
  variant (command_tag c) (IMap (emit (command_fields c))) command_variants = Some c.
Proof.
  intros Hc Hne. unfold command_variants.
  destruct c; try done; cbn [command_tag command_name command_fields variant String.eqb Ascii.eqb Bool.eqb];
    round_tac.
Qed.

Lemma command_typed : Forall (λ v, typed XacppCommand_wf v.2) command_variants.
Proof.
  unfold command_variants.
  repeat (apply Forall_cons; split; [cbn [snd]; solve [typed_tac]|]); by constructor.
Qed.

Lemma command_orderless : Forall (λ v, orderless v.2) command_variants.
Proof.
  unfold command_variants.
  repeat (apply Forall_cons; split; [cbn [snd]; solve [orderless_tac]|]); by constructor.
Qed.

Lemma command_documents c : XacppCommand_wf c → documents (command_fields c).
Proof. intros Hc. destruct c; cbn [command_fields]; document_tac. Qed.

Lemma variant_input_eqv j j' :
  json_eqv j j' → option_Forall2 input_eqv (variant_input j) (variant_input j').
Proof.
  intros Hj. pose proof Hj as Hj'. destruct Hj; cbn; constructor; by constructor.
Qed.

(** An object with one key: related to objects with that key only. *)
Lemma single_eqv k v j' :
  json_eqv (JObj [(k, v)]) j' → ∃ v', j' = JObj [(k, v')] ∧ json_eqv v v'.
Proof.
  inversion 1 as [| | | | |? p o' _ Hp Hk Hv]; subst.
  apply Permutation_singleton_l in Hp as <-. destruct o' as [|[k' v'] [|]]; try done.
  injection Hk as ->. apply Forall2_cons in Hv as [Hv _]. by exists v'.
Qed.

Lemma single_length o o' : json_eqv (JObj o) (JObj o') → length o = length o'.
Proof.
  inversion 1 as [| | | | |? p ? _ Hp Hk Hv]; subst.
  rw (Permutation_length Hp). apply (f_equal length) in Hk. by rw !length_fmap in Hk.
Qed.

Lemma command_struct_eqv j j' : json_eqv j j' → read_struct_variant j = read_struct_variant j'.
Proof.
  intros Hj. pose proof Hj as Hj'. destruct Hj as [| | | | |o p o' _ _ _ _]; try done.
  destruct o as [|[k v] [|e o]].
  - apply single_length in Hj'. by destruct o'.
  - apply single_eqv in Hj' as (v' & [= ->] & Hv). unfold read_struct_variant.
    destruct (variant_input_eqv _ _ Hv) as [i i' Hi|]; [|done].
    apply variant_eqv; [apply command_orderless|done].
  - apply single_length in Hj'. destruct o' as [|[] [|]]; done.
Qed.

Lemma command_struct_typed j c : read_struct_variant j = Some c → XacppCommand_wf c.
Proof.
  unfold read_struct_variant. destruct j as [| | | | |[|[tag v] [|]]]; try done.
  destruct (variant_input v) as [i|]; [|done]. apply variant_typed, command_typed.
Qed.

#[export] Instance XacppCommand_laws : SerdeLaws XacppCommand.
Proof.
  refine {| serde_wf := XacppCommand_wf |}.
  - intros c Hc. assert (c = EstablishConfirm ∨ c ≠ EstablishConfirm) as [->|Hne] by (destruct c; auto); [done|].
    assert (ser c = JObj [(command_tag c, JObj (emit (command_fields c)))]) as -> by by destruct c.
    cbn [de XacppCommand_serde unit_name]. case_decide; [done|]. by apply command_round.
  - intros j c. cbn [de XacppCommand_serde]. case_decide; [by intros [= <-]|apply command_struct_typed].
  - intros j j' Hj. cbn [de XacppCommand_serde].
    by rw (unit_name_eqv _ _ Hj) (command_struct_eqv _ _ Hj).
  - intros c Hc. destruct (command_documents c Hc) as [Hn Hf].
    pose proof (emit_document _ Hn Hf) as Hd.
    destruct c; cbn; try constructor;
      (eapply eqv_obj; [apply NoDup_singleton|done..|]; constructor; [exact Hd|constructor]).
Defined.

(** *** Requests, responses, envelopes *)

Definition XacppRequest_wf (r : XacppRequest) : Prop :=
  match r with ReqCommand c => serde_wf c | ReqEvent e => serde_wf e end.

Lemma kind_written (k : string) o :
  get "kind" o = [JStr k] → field unit_name None None "kind" (IMap o) = Some (k, IMap o).
Proof. cbn. by intros ->. Qed.

#[export] Instance XacppRequest_laws : StructLaws XacppRequest.
Proof.
  refine {| struct_wf := XacppRequest_wf |}.
  - intros [] Hr; open_struct;
      (erewrite map_bind; [|apply kind_written; get_tac]; cbn [String.eqb Ascii.eqb Bool.eqb];
       round_tac).
  - open_struct. eapply (typed_bind (λ _, True)); [by intros ?|intros kind _].
    destruct (String.eqb kind "command"); [typed_tac|].
    destruct (String.eqb kind "event"); [typed_tac|by intros ?].
  - open_struct. apply orderless_bind; [apply orderless_field, unit_name_eqv|intros kind].
    destruct (String.eqb kind "command"); [orderless_tac|].
    destruct (String.eqb kind "event"); [orderless_tac|by intros ???; constructor].
  - intros [] Hr; open_struct; document_tac.
Defined.

Definition XacppResponse_wf (r : XacppResponse) : Prop :=
  match r with
  | Negotiated caps => serde_wf caps
  | RespEstablishReject reason => serde_wf reason
  | FetchReady _ _ size_bytes _ => serde_wf size_bytes
  | RespError _ message => serde_wf message
  | _ => True
  end.

#[export] Instance XacppResponse_laws : TaggedLaws XacppResponse.
Proof. refine {| tagged_wf := XacppResponse_wf |}; tagged_laws. Defined.

Definition XacppEnvelope_wf (m : XacppEnvelope) : Prop :=
  match m with
  | Request _ _ payload => serde_wf payload
  | Response _ _ payload => serde_wf payload
  end.

Lemma buffered_written (r : XacppResponse) o :
  get "payload" o = [ser r] → serde_wf r →
  field (tagged_de true) None None "payload" (IMap o) = Some (r, IMap o).
Proof. intros Hg Hr. unfold field. rw Hg. by rw (tagged_de_ser true r Hr). Qed.

#[export] Instance XacppEnvelope_laws : TaggedLaws XacppEnvelope.
Proof.
  refine {| tagged_wf := XacppEnvelope_wf |}.
  - intros [] Hm; open_tagged; cbn [variant String.eqb Ascii.eqb Bool.eqb]; round_tac.
    by erewrite map_bind; [|apply buffered_written; [get_tac|exact Hm]].
  - open_tagged. repeat (apply Forall_cons; split; [cbn [snd]|]); [typed_tac| |by constructor].
    repeat (eapply typed_bind; [solve [typed_one]|intros ? ?]).
    eapply (typed_bind tagged_wf); [apply typed_field; [apply tagged_de_typed|done..]|].
    intros r Hr. by apply typed_ret.
  - open_tagged. repeat (apply Forall_cons; split; [cbn [snd]|]); [orderless_tac| |by constructor].
    repeat (apply orderless_bind; [orderless_one|intros ?]).
    apply orderless_bind; [apply orderless_field, tagged_de_proper|intros ?; orderless_one].
  - intros [] Hm; open_tagged; document_tac.
Defined.

(** ** Properties *)

(** [serde_json] parses the text it prints for this document. *)
Definition text_ok `{JsonText} (j : json) : Prop :=
  ∀ b, json_to_vec j = Some b → json_from_slice b = Some j.

Lemma json_codec_ok {TEXT : JsonText} (m : XacppEnvelope) :
  serde_wf m → text_ok (ser m) → codec_ok (CODEC := json_codec) m.
Proof.
  intros Hm Ht b Hb. change (json_to_vec (ser m) = Some b) in Hb.
  change (json_from_slice b ≫= de = Some m). rw (Ht b Hb). exact (de_ser m Hm).
Qed.

(** An error a handler returns is written as its code and its message, and read back. *)
Lemma error_response_ok {TEXT : JsonText} id sid e :
  text_ok (ser (Response id sid (respond (Err e)))) →
  codec_ok (CODEC := json_codec) (Response id sid (respond (Err e))).
Proof. apply json_codec_ok. cbn. by rw display_lit. Qed.

(** C20: the derived envelope codec gives back the envelope it wrote.  For every
    envelope whose values have their Rust types, if [serde_json] parses the text
    it printed, the transports' codec returns the envelope itself: every request
    (each command variant, events), every response variant, with or without a
    session id. *)
Theorem envelope_codec {TEXT : JsonText} (m : XacppEnvelope) :
  serde_wf m → text_ok (ser m) → codec_ok (CODEC := json_codec) m.
Proof. apply json_codec_ok. Qed.

(** The other end's view of a command: what the document of its request envelope,
    in any order of fields, decodes to. *)
Definition received (id : string) (sid : option string) (c : XacppCommand) (j : json) : Prop :=
  json_eqv (ser (Request id sid (ReqCommand c))) j.

(** A typed payload inside a generic command. *)
Definition carries {A} `{Serde A} (c : XacppCommand) (name activity : string) (p : A) : Prop :=
  ∃ v, c = Generic name v (Some (mkActivityRef activity)) ∧ from_value v = Some p.

Lemma to_value_carries {A} `{SerdeLaws A} (p : A) name activity :
  serde_wf p →
  carries (generic_with_activity name (unwrap_or_null (to_value (ser p))) (mkActivityRef activity))
    name activity p.
Proof.
  intros Hp. destruct (to_value_document (ser p) (ser_document p Hp)) as (v & -> & Hv).
  exists v. split; [done|]. unfold from_value. rw -(de_proper _ _ Hv). by apply de_ser.
Qed.

Lemma received_command id sid name v a j :
  received id sid (Generic name v a) j → de j = Some (Request id sid (ReqCommand (Generic name v a))).
Proof. intros Hj. rw -(de_proper _ _ Hj). by apply de_ser. Qed.

(** C23: interactions reach the user interface typed.  A command built by
    [action_request_command], [question_command] or [sensitive_info_command]
    carries, under its registered name and its activity, arguments from which the
    handler recovers the payload; and the request envelope that carries it, its
    fields in any order, decodes to that same command. *)
Theorem interaction_delivery id sid activity
    (a : ActionRequestPayload) (q : QuestionPayload) (s : SensitiveInfoOperationPayload) :
  (carries (action_request_command activity a) "action_request" activity a ∧
   carries (question_command activity q) "question" activity q ∧
   carries (sensitive_info_command activity s) "sensitive_info_operation" activity s) ∧
  Forall (λ c, ∀ j, received id sid c j → de j = Some (Request id sid (ReqCommand c)))
    [action_request_command activity a; question_command activity q;
     sensitive_info_command activity s].
Proof.
  split; [split_and!; by apply to_value_carries|].
  repeat (apply Forall_cons; split; [intros j; apply received_command|]). constructor.
Qed.

(** a typed declaration converts to the raw form and back unchanged, unknown
    dispatcher and scope words included. *)
Theorem declaration_roundtrip (d : CommandDeclaration) :
  serde_wf d →
  ∃ v, CommandDeclaration_to_value d = Some v ∧ CommandDeclaration_from_value v = Some d.
Proof.
  intros Hd. destruct (to_value_document (ser d) (ser_document d Hd)) as (v & Hv & Hj).
  exists v. split; [done|]. unfold CommandDeclaration_from_value, from_value.
  rw -(de_proper _ _ Hj). by apply de_ser.
Qed.

(** an [established] response needs its credentials.  The documented example
    of the wire protocol, which has a session id only, is refused as a response
    and as the payload of an envelope. *)
Theorem established_needs_credentials o :
  get "kind" o = [JStr "established"] → get "credentials" o = [] →
  (de (JObj o) : option XacppResponse) = None ∧
  ∀ id, (de (JObj [("type", JStr "response"); ("id", JStr id); ("payload", JObj o)])
          : option XacppEnvelope) = None.
Proof.
  intros Hk Hc.
  assert (∀ b, (tagged_de b (JObj o) : option XacppResponse) = None) as Hd.
  { intros b. unfold tagged_de, untag. cbn [tag_key XacppResponse_tagged]. rw Hk.
    cbn [fmap option_fmap option_map variants XacppResponse_tagged variant String.eqb Ascii.eqb Bool.eqb].
    set (o' := filter _ o). assert (get "credentials" o' = []) as Hc'.
    { subst o'. clear -Hc. induction o as [|[k v] o IH]; [done|]. cbn in Hc. rw filter_cons.
      destruct (String.eqb k "credentials") eqn:Hk; [done|].
      case_decide; cbn; rw ?Hk; auto. }
    destruct (field_map (de (A:=string)) None None "sessionId" o') as [H1|[x H1]].
    - by rw (bind_None _ _ _ H1).
    - rw (map_bind _ _ _ _ H1) bind_None; [by apply req_absent|done]. }
  split; [apply Hd|]. intros id. cbn [de serde_tagged]. unfold tagged_de at 1. cbn -[tagged_de].
  repeat (case_decide; try done). unfold mbind, fields_bind. cbn -[tagged_de]. by rw Hd.
Qed.
End laws.
