(* ===== verification/Reconnect.v ===== *)
(** * What an old connection does to its successor ([src/carrier/socket.rs],
    [src/session/egress.rs])

    [disconnect] aborts the dispatch task only: the read task and the drain task
    of the connection run on, and the flags, the pending table and the hook slot
    they end with belong to the transport, not to the connection. *)
From S2P Require Import Prelude Crc Frame Control Sender Reassemble Errors Stream Transfer.
From S2P Require Import Egress Messages Carrier.

Section reconnect.
Context `{CRC : Crc32} `{JSON : JsonLib} {CODEC : EnvelopeCodec} {DISPLAY : Display}.
Implicit Types (c : Carrier) (cn : Connection).

(** A socket client on connection [k] disconnects, reconnects, and a session
    registers its hooks. *)
Definition reconnected c : Carrier :=
  let c := connect_finish (connect_begin true (carrier_disconnect c)).1 in
  set_hooks (ct_handler c) true c.

Definition on_connection (k : nat) c cn : Prop :=
  ct_client c = true ∧ ct_inline c = false ∧ ct_egress c = Some k ∧
  ct_reader_handle c = Some k ∧ ct_conns c !! k = Some cn.

Lemma disconnected_conn k c cn :
  on_connection k c cn →
  let c' := carrier_disconnect c in
  ct_connected c' = false ∧ ct_client c' = true ∧ ct_pending c' = ∅ ∧
  length (ct_conns c') = length (ct_conns c) ∧
  ∃ cl, ct_conns c' !! k =
    Some (mkConnection (egress_close (load cl (cn_egress cn))) (cn_inbox cn) (cn_reading cn) false).
Proof using Type.
  intros (Hcl & Hin & He & Hr & Hk).
  unfold carrier_disconnect. cbn [ct_egress set_shared set_hooks]. rw He.
  unfold close_conn, on_egress. cbn [ct_conns set_shared set_hooks]. rw Hk.
  cbn [fst ct_reader_handle set_slots store set_shared set_conns set_hooks]. rw Hr.
  cbn [ct_connected ct_client ct_pending ct_conns set_pending set_shared set_tasks set_slots set_conns].
  rw !length_alter. split_and!; try done.
  - unfold egress_close, push_data. cbn. by destruct (eg_running _).
  - eexists. cbn. by rw !list_lookup_alter_eq Hk /= Hin.
Qed.

(** The old connection after the reconnect, and the new one next to it. *)
Lemma reconnected_conns k c cn :
  on_connection k c cn →
  let c' := reconnected c in
  ct_connected c' = true ∧ ct_hooks c' = true ∧ ct_egress c' = Some (length (ct_conns c)) ∧
  (∃ cl, ct_conns c' !! k =
     Some (mkConnection (egress_close (load cl (cn_egress cn))) (cn_inbox cn) (cn_reading cn) false)) ∧
  (∃ new, ct_conns c' !! length (ct_conns c) = Some new ∧ live new = true).
Proof using Type.
  intros Hon. destruct (disconnected_conn k c cn Hon) as (Hc & Hcl & Hp & Hlen & cl & Hold).
  unfold reconnected. set (c1 := carrier_disconnect c) in *. clearbody c1.
  unfold connect_begin. rw Hc Hcl. cbn. rw Hlen. split_and!; try done.
  - exists cl. rw lookup_app_l //. by eapply lookup_lt_Some.
  - eexists. rw -Hlen lookup_app_r // Nat.sub_diag //.
Qed.

Lemma read_stop_effect k failed c cn :
  ct_conns c !! k = Some cn → cn_reading cn = true →
  ct_hooks (read_stop k failed c) = false ∧
  ct_connected (read_stop k failed c) = ct_connected c ∧
  ct_egress (read_stop k failed c) = ct_egress c ∧
  ∀ j, k ≠ j → ct_conns (read_stop k failed c) !! j = ct_conns c !! j.
Proof using Type.
  intros Hk Hr. unfold read_stop. rw Hk Hr. cbn [negb]. split_and!; [done..|].
  intros j Hj. cbn. by apply list_lookup_alter_ne.
Qed.

(** the read task of a disconnected socket detaches its successor's hooks.
    The old read task is not aborted; when it sees the end of its stream (which
    the close of its own writer provokes) after the reconnect, it clears the hook
    slot the session has registered on the new connection, which stays connected
    and live: every further transfer frame is dropped. *)
Theorem stale_reader_detaches k c cn failed :
  on_connection k c cn → cn_reading cn = true →
  let c1 := reconnected c in
  let c2 := read_stop k failed c1 in
  ct_hooks c1 = true ∧ ct_hooks c2 = false ∧ ct_connected c2 = true ∧
  ct_egress c2 = Some (length (ct_conns c)) ∧
  ∃ new, ct_conns c2 !! length (ct_conns c) = Some new ∧ live new = true.
Proof using Type.
  intros Hon Hrd. pose proof Hon as (_ & _ & _ & _ & Hk). apply lookup_lt_Some in Hk.
  destruct (reconnected_conns k c cn Hon) as (Hc & Hh & He & [cl Hold] & new & Hnew & Hl).
  destruct (read_stop_effect k failed (reconnected c) _ Hold Hrd) as (H1 & H2 & H3 & H4).
  cbn zeta. rw H2 H3. split_and!; [exact Hh|exact H1|exact Hc|exact He|].
  exists new. split; [|exact Hl]. rw H4; [lia|exact Hnew].
Qed.

(** The old writer still owes a frame. *)
Definition owes_frame cn : Prop :=
  eg_running (cn_egress cn) = true ∧
  ((eg_control_open (cn_egress cn) = true ∧ ∃ f a rest, eg_control (cn_egress cn) = EFrame f a :: rest) ∨
   eg_control (cn_egress cn) = [] ∧ eg_handles (cn_egress cn) = true ∧
   ∃ f a rest, eg_data (cn_egress cn) = EFrame f a :: rest).

(** Closing the egress queues the marker behind what it owes. *)
Lemma closing_owes c cn inbox reading :
  owes_frame cn →
  owes_frame (mkConnection (egress_close (load c (cn_egress cn))) inbox reading false).
Proof using Type.
  intros [Hr Ho]. unfold owes_frame. cbn [cn_egress]. unfold egress_close, push_data.
  cbn [set_flags load eg_running]. rw Hr.
  cbn [fst mark_closed set_flags set_queues eg_running eg_control eg_control_open eg_data eg_handles].
  split; [exact Hr|]. destruct Ho as [Ho|(Hc & Hh & f & a & rest & Hq)]; [by left|right].
  split; [exact Hc|]. split; [exact Hh|]. rw Hq. by exists f, a, (rest ++ [EClose]).
Qed.

Lemma failed_write_clears k c cn :
  ct_conns c !! k = Some cn → owes_frame cn →
  let c' := drain_conn k false c in
  ct_connected c' = false ∧ ct_closed c' = true ∧ ct_pending c' = ∅ ∧
  ∀ j, k ≠ j → ct_conns c' !! j = ct_conns c !! j.
Proof using Type.
  intros Hk [Hr Ho]. unfold drain_conn, on_egress. rw Hk.
  assert (Hw : ∃ e1, drain_step (load c (cn_egress cn)) false = write_failed e1).
  { unfold drain_step, drain_data. cbn [load eg_running eg_control_open eg_control eg_data eg_handles].
    rw Hr. cbn [negb]. destruct Ho as [[Hco (f & a & rest & ->)]|(-> & Hh & f & a & rest & ->)].
    - rw Hco. by eexists.
    - rw Hh. destruct (eg_control_open (cn_egress cn)); by eexists. }
  destruct Hw as [e1 ->].
  destruct (task_exit_spec (clear_pending (set_flags false true e1))) as (_ & _ & _ & _ & H1 & H2 & H3).
  unfold write_failed. cbn. rw H1 H2 H3. split_and!; try done.
  intros j Hj. by apply list_lookup_alter_ne.
Qed.

(** a write failure of a disconnected socket takes its successor down.  Frames
    queued before [disconnect] are still written afterwards; if that fails once
    the transport has reconnected, the failure marks the transport disconnected,
    fires the close watch and fails every request pending on the new connection,
    whose own tasks are healthy. *)
Theorem stale_writer_disconnects k c cn calls :
  on_connection k c cn → owes_frame cn →
  let c1 := set_pending calls (reconnected c) in
  let c2 := drain_conn k false c1 in
  ct_connected c1 = true ∧ ct_connected c2 = false ∧ ct_closed c2 = true ∧ ct_pending c2 = ∅ ∧
  ∃ new, ct_conns c2 !! length (ct_conns c) = Some new ∧ live new = true.
Proof using Type.
  intros Hon Ho. pose proof Hon as (_ & _ & _ & _ & Hk). apply lookup_lt_Some in Hk.
  destruct (reconnected_conns k c cn Hon) as (Hc & _ & _ & [cl Hold] & new & Hnew & Hl).
  generalize dependent (reconnected c). intros c1 Hc Hold Hnew.
  destruct (failed_write_clears k (set_pending calls c1) _ Hold) as (H1 & H2 & H3 & H4).
  { by apply closing_owes. }
  cbn zeta. split_and!; [exact Hc|exact H1|exact H2|exact H3|].
  exists new. split; [|exact Hl]. rw H4; [lia|exact Hnew].
Qed.

Lemma dispatch_exit_fields k c cn :
  ct_conns c !! k = Some cn →
  ct_connecting (dispatch_exit k c) = ct_connecting c ∧
  ∃ cn', ct_conns (dispatch_exit k c) !! k = Some cn' ∧ cn_dispatching cn' = false.
Proof using Type.
  intros Hk. unfold dispatch_exit, close_conn, on_egress. cbn [ct_conns set_shared]. rw Hk.
  cbn. split; [done|]. eexists. by rw !list_lookup_alter_eq Hk.
Qed.

(** A connection that dies while [connect] is still running is reported as
    connected: the dispatch task's cleanup clears the flag before [connect] sets
    it, and the transport then refuses to reconnect until it is disconnected. *)
Theorem connect_race_marks_connected c fresh :
  ct_connecting c = None → ct_client c = true → ct_connected c = false → ct_inflight c = [] →
  let k := length (ct_conns c) in
  let c1 := (connect_begin true c).1 in
  let c2 := connect_finish (dispatch_step k fresh (read_stop k false c1)) in
  ct_connected c2 = true ∧ (connect_begin true c2).2 = Err AlreadyConnected ∧
  ∃ cn, ct_conns c2 !! k = Some cn ∧ live cn = false.
Proof using Type.
  intros Hcn Hcl Hco Hin k c1. unfold c1, connect_begin. rw Hco Hcl. cbn [andb negb fst].
  set (new := mkConnection _ [] true true). set (c2 := set_slots _ _ _ _ _).
  assert (Hk2 : ct_conns c2 !! k = Some new).
  { cbn. unfold k. by rw lookup_app_r // Nat.sub_diag. }
  unfold read_stop. rw Hk2. cbn [new cn_reading negb cn_inbox]. set (c3 := set_hooks _ _ _).
  assert (Hk3 : ct_conns c3 !! k = Some (set_inbox [] false new)).
  { cbn. rw list_lookup_alter_eq. by rw -[_ !! _]/(ct_conns c2 !! k) Hk2. }
  assert (Hd : dispatch_step k fresh c3 = dispatch_exit k c3).
  { unfold dispatch_step. rw Hk3. cbn. by rw Hin andb_false_r. }
  rw Hd. destruct (dispatch_exit_fields k c3 _ Hk3) as (H1 & cn' & H2 & H3).
  unfold connect_finish. rw H1. cbn [ct_connecting c3 set_hooks upd_conn set_conns c2 set_slots].
  split; [done|]. split; [done|]. exists cn'. split; [exact H2|]. unfold live. by rw H3.
Qed.

(** A request issued while there is no connection leaves its slot behind: the
    call fails, nobody waits for the slot, and it stays in the table. *)
Theorem unconnected_call_leaks_slot faf sid req fresh frame c :
  ct_egress c = None →
  let id := request_id (ct_next_id c) in
  serialize_envelope (Request id sid req) fresh = Ok frame →
  let i := length (ct_calls c) in
  let c' := call_step i (call_start faf sid req fresh c) in
  ct_calls c' !! i = Some (mkCall id faf (Returned (Err NotConnected))) ∧
  is_Some (ct_pending c' !! id).
Proof using Type.
  intros He id Hs i c'. unfold c', call_start. fold id. rw Hs. unfold call_step. cbn.
  rw lookup_app_r // /i Nat.sub_diag. cbn. rw He. cbn. split.
  - rw list_lookup_alter_eq lookup_app_r // Nat.sub_diag //.
  - by rw lookup_insert_eq.
Qed.
End reconnect.
