(* ===== verification/Fetch.v ===== *)
(** * The fetch service ([src/ext/fetch.rs], responder side)

    [FetchService]: the uri / txid idempotency tables, the resolve rendezvous,
    the begin gate and the forced serving lifetime.  Handler calls and serving
    tasks run concurrently, so each is a machine over the points where others can
    run in between; servings and resolve slots are shared objects ([Arc]) on a
    heap, and who still holds one decides whether [Arc::try_unwrap] succeeds.

    The provider's answers, the answer of [open_binary_sink] and the moment a
    provider's [serve] ends are inputs of the steps; what the service does to
    sinks is its log. *)
From S2P Require Import Prelude Crc Frame Control Sender Errors Messages.

Section fetch.
Context `{JSON : JsonLib} {DISPLAY : Display}.

(** ** State *)

Inductive ServeControl : Type := CPause | CResume | CAbort.

#[export] Instance ServeControl_eq_dec : EqDecision ServeControl.
Proof. solve_decision. Defined.

Record ResolvedResource : Type := mkResolvedResource {
  res_size_bytes : N;
  res_sha256 : string;
  res_mime : string;
}.

(** [sv_rx]: the control receiver has not been taken; [sv_queue]: what was sent
    on the control channel and not yet received. *)
Record Serving : Type := mkServing {
  sv_uri : string;
  sv_txid : txid;
  sv_meta : FetchReadyMeta;
  sv_begun : bool;
  sv_rx : bool;
  sv_queue : list ServeControl;
}.

(** Servings and resolve slots are locations. *)
Inductive UriEntry : Type := Resolving (slot : nat) | Ready (sv : nat).

#[export] Instance UriEntry_eq_dec : EqDecision UriEntry.
Proof. solve_decision. Defined.

Definition Outcome : Type := result nat XacppError.

(** Where a handler call stands. *)
Inductive Handler : Type :=
  | HFetch (uri : string)
  | HMiss (uri : string)
  | HCheck (slot : nat)
  | HSeenNone (slot : nat)
  | HParked (slot : nat)
  | HResolve (uri : string) (slot : nat)
  | HResolved (uri : string) (slot : nat) (o : Outcome)
  | HFilled (slot : nat) (o : Outcome) (r : XacppResponse)
  | HStored (slot : nat) (o : Outcome) (r : XacppResponse)
  | HBegin (txid_hex : string)
  | HGate (sv : nat)
  | HSpawned (sv : nat)
  | HAbort (txid_hex : string)
  | HRemoved (sv : nat)
  | HSent (sv : nat)
  | HDone (r : result XacppResponse XacppError)
  | HCancelled.

(** Where a serving task stands: its provider runs; it left the loop; it evicted
    the serving; it is over. *)
Inductive TaskPhase : Type :=
  | TServing
  | TLeft (aborted : bool)
  | TEvicted (aborted : bool)
  | TEnded.

Record ServeTask : Type := mkServeTask { st_sv : nat; st_phase : TaskPhase }.

(** What happened to sinks and providers. *)
Inductive FetchEffect : Type :=
  | FxOpen (sv : nat)
  | FxServe (sv : nat)
  | FxPause (sv : nat)
  | FxResume (sv : nat)
  | FxFinish (sv : nat)
  | FxAbort (sv : nat)
  | FxSkipped (sv : nat).

Record FetchService : Type := mkFetchService {
  fs_by_uri : gmap string UriEntry;
  fs_by_txid : gmap txid nat;
  fs_servings : list Serving;
  fs_slots : list (option Outcome);
  fs_calls : list Handler;
  fs_tasks : list ServeTask;
  fs_log : list FetchEffect;
}.

Implicit Types (f : FetchService) (s : Serving).

Definition FetchService_new : FetchService := mkFetchService ∅ ∅ [] [] [] [] [].

Definition set_tables (u : gmap string UriEntry) (t : gmap txid nat) f : FetchService :=
  mkFetchService u t (fs_servings f) (fs_slots f) (fs_calls f) (fs_tasks f) (fs_log f).

Definition set_servings (l : list Serving) f : FetchService :=
  mkFetchService (fs_by_uri f) (fs_by_txid f) l (fs_slots f) (fs_calls f) (fs_tasks f) (fs_log f).

Definition set_slots (l : list (option Outcome)) f : FetchService :=
  mkFetchService (fs_by_uri f) (fs_by_txid f) (fs_servings f) l (fs_calls f) (fs_tasks f) (fs_log f).

Definition set_handlers (l : list Handler) f : FetchService :=
  mkFetchService (fs_by_uri f) (fs_by_txid f) (fs_servings f) (fs_slots f) l (fs_tasks f) (fs_log f).

Definition set_serve_tasks (l : list ServeTask) f : FetchService :=
  mkFetchService (fs_by_uri f) (fs_by_txid f) (fs_servings f) (fs_slots f) (fs_calls f) l (fs_log f).

Definition emit (e : FetchEffect) f : FetchService :=
  mkFetchService (fs_by_uri f) (fs_by_txid f) (fs_servings f) (fs_slots f) (fs_calls f)
    (fs_tasks f) (fs_log f ++ [e]).

Definition to_phase (i : nat) (h : Handler) f : FetchService :=
  set_handlers (<[i := h]> (fs_calls f)) f.

Definition with_control (begun rx : bool) (q : list ServeControl) s : Serving :=
  mkServing (sv_uri s) (sv_txid s) (sv_meta s) begun rx q.

Definition upd_serving (l : nat) (g : Serving → Serving) f : FetchService :=
  set_servings (alter g l (fs_servings f)) f.

(** ** Responses *)

Definition error_response (e : XacppError) : XacppResponse :=
  match e with
  | Application code message => RespError code message
  | other => RespError FETCH_NOT_FOUND (Lit (XacppError_to_string other))
  end.

(** What a waiter answers from the resolver's outcome. *)
Definition outcome_response f (o : Outcome) : XacppResponse :=
  match o with
  | Ok l => match fs_servings f !! l with
            | Some s => ready_response (sv_meta s)
            | None => acknowledge
            end
  | Err e => error_response e
  end.

(** ** [handle_fetch] *)

(** The look-up both locked sections start with; [miss] runs on an absent uri. *)
Definition fetch_lookup (i : nat) (uri : string) (miss : FetchService → FetchService) f :
    FetchService :=
  match fs_by_uri f !! uri with
  | Some (Ready l) => to_phase i (HDone (Ok (outcome_response f (Ok l)))) f
  | Some (Resolving slot) => to_phase i (HCheck slot) f
  | None => miss f
  end.

(** The placeholder of a miss. *)
Definition insert_placeholder (i : nat) (uri : string) f : FetchService :=
  let slot := length (fs_slots f) in
  to_phase i (HResolve uri slot)
    (set_slots (fs_slots f ++ [None])
       (set_tables (<[uri := Resolving slot]> (fs_by_uri f)) (fs_by_txid f) f)).

(** [build_serving]; [opened] is the answer of [open_binary_sink]. *)
Definition build_serving (uri : string) (r : ResolvedResource) (opened : result txid XacppError) f :
    FetchService * Outcome :=
  if (res_size_bytes r =? 0)%N then
    (f, Err (Application FETCH_REFUSED (Lit "resource size must be non-zero")))
  else if (U32_MAX <? res_size_bytes r)%N then
    (f, Err (Application FETCH_REFUSED (Lit "resource exceeds protocol size limit (u32::MAX)")))
  else
    match opened with
    | Err e => (f, Err e)
    | Ok id =>
        let l := length (fs_servings f) in
        let meta := mkFetchReadyMeta id (res_sha256 r) (res_size_bytes r) (res_mime r) in
        (emit (FxOpen l)
           (set_servings (fs_servings f ++ [mkServing uri id meta false true []]) f), Ok l)
    end.

(** The provider answered. *)
Definition resolve_done (i : nat) (uri : string) (slot : nat)
    (resolved : result ResolvedResource XacppError) (opened : result txid XacppError) f :
    FetchService :=
  match resolved with
  | Ok r => let '(f, o) := build_serving uri r opened f in to_phase i (HResolved uri slot o) f
  | Err e => to_phase i (HResolved uri slot (Err e)) f
  end.

(** The tables are updated under one lock. *)
Definition fill_tables (i : nat) (uri : string) (slot : nat) (o : Outcome) f : FetchService :=
  let resp := outcome_response f o in
  let f :=
    match o with
    | Ok l =>
        match fs_servings f !! l with
        | Some s => set_tables (<[uri := Ready l]> (fs_by_uri f)) (<[sv_txid s := l]> (fs_by_txid f)) f
        | None => f
        end
    | Err _ =>
        match fs_by_uri f !! uri with
        | Some (Resolving slot') =>
            if decide (slot' = slot)
            then set_tables (delete uri (fs_by_uri f)) (fs_by_txid f) f else f
        | _ => f
        end
    end in
  to_phase i (HFilled slot o resp) f.

(** [notify_waiters]: whoever is registered wakes; nothing is stored. *)
Definition notify_waiters (slot : nat) f : FetchService :=
  set_handlers ((λ h, match h with
                      | HParked slot' => if decide (slot' = slot) then HCheck slot else h
                      | _ => h
                      end) <$> fs_calls f) f.

(** ** Who still holds a serving *)

Definition retains (l : nat) (h : Handler) : bool :=
  match h with
  | HResolved _ _ (Ok l') | HFilled _ (Ok l') _ | HStored _ (Ok l') _
  | HGate l' | HSpawned l' | HRemoved l' | HSent l' => bool_decide (l' = l)
  | _ => false
  end.

Definition retains_slot (slot : nat) (h : Handler) : bool :=
  match h with
  | HCheck s | HSeenNone s | HParked s | HResolve _ s | HResolved _ s _
  | HFilled s _ _ | HStored s _ _ => bool_decide (s = slot)
  | _ => false
  end.

(** An [Arc<Serving>] other than one the caller of [try_unwrap] gave up: in a
    table, in a running call, or in the result of a slot a call still holds. *)
Definition held f (l : nat) : bool :=
  existsb (λ p, bool_decide (p.2 = Ready l)) (map_to_list (fs_by_uri f)) ||
  existsb (λ p, bool_decide (p.2 = l)) (map_to_list (fs_by_txid f)) ||
  existsb (retains l) (fs_calls f) ||
  existsb (λ slot,
    match fs_slots f !! slot with
    | Some (Some (Ok l')) => bool_decide (l' = l) && existsb (retains_slot slot) (fs_calls f)
    | _ => false
    end) (List.seq 0 (length (fs_slots f))).

(** ** [handle_begin], [handle_flow], [handle_abort] *)

Definition refuse (m : text) : Handler := HDone (Ok (RespError FETCH_REFUSED m)).

(** The gate: the look-up and the [begun] compare-exchange, under one lock. *)
Definition begin_gate (i : nat) (hex : string) f : FetchService :=
  match parse_txid hex with
  | Err _ => to_phase i (refuse (Fmt "malformed fetch transaction id: " [hex])) f
  | Ok id =>
      match fs_by_txid f !! id with
      | None => to_phase i (refuse (Lit "unknown fetch transaction")) f
      | Some l =>
          match fs_servings f !! l with
          | None => f
          | Some s =>
              if sv_begun s then to_phase i (HDone (Ok acknowledge)) f
              else to_phase i (HGate l) (upd_serving l (λ s, with_control true (sv_rx s) (sv_queue s) s) f)
          end
      end
  end.

(** The receiver is taken and the serving task spawned. *)
Definition begin_spawn (i l : nat) f : FetchService :=
  match fs_servings f !! l with
  | None => f
  | Some s =>
      if sv_rx s then
        to_phase i (HSpawned l)
          (emit (FxServe l)
             (set_serve_tasks (fs_tasks f ++ [mkServeTask l TServing])
                (upd_serving l (λ s, with_control (sv_begun s) false (sv_queue s) s) f)))
      else to_phase i (refuse (Fmt "fetch serving: control channel already taken for " [])) f
  end.

(** [control_tx.send]: fails once the serving task dropped the receiver. *)
Definition task_over f (l : nat) : bool :=
  existsb (λ t, bool_decide (st_sv t = l) && match st_phase t with TEnded => true | _ => false end) (fs_tasks f).

Definition send_control (l : nat) (ctl : ServeControl) f : FetchService :=
  if task_over f l then f
  else upd_serving l (λ s, with_control (sv_begun s) (sv_rx s) (sv_queue s ++ [ctl]) s) f.

Definition handle_flow (i : nat) (hex : string) (ctl : ServeControl) (what : string) f : FetchService :=
  match parse_txid hex with
  | Err _ => to_phase i (refuse (Fmt "malformed fetch transaction id: " [hex])) f
  | Ok id =>
      match fs_by_txid f !! id with
      | Some l => to_phase i (HDone (Ok acknowledge)) (send_control l ctl f)
      | None => to_phase i (refuse (Fmt "unknown fetch transaction" [what])) f
      end
  end.

(** [remove_serving], also the locked section of [handle_abort]. *)
Definition evict (id : txid) f : FetchService :=
  match fs_by_txid f !! id with
  | None => f
  | Some l =>
      match fs_servings f !! l with
      | None => f
      | Some s =>
          let uris :=
            match fs_by_uri f !! sv_uri s with
            | Some (Ready l2) =>
                match fs_servings f !! l2 with
                | Some s2 => if decide (sv_txid s2 = id) then delete (sv_uri s) (fs_by_uri f) else fs_by_uri f
                | None => fs_by_uri f
                end
            | _ => fs_by_uri f
            end in
          set_tables uris (delete id (fs_by_txid f)) f
      end
  end.

Definition abort_remove (i : nat) (hex : string) f : FetchService :=
  match parse_txid hex with
  | Err _ => to_phase i (HDone (Ok acknowledge)) f
  | Ok id =>
      match fs_by_txid f !! id with
      | None => to_phase i (HDone (Ok acknowledge)) f
      | Some l => to_phase i (HRemoved l) (evict id f)
      end
  end.

(** [begun.swap(true)]: no serving task yet, so the sink is unwrapped and aborted
    here (the call's own reference was dropped before); otherwise the task is
    told. *)
Definition abort_swap (i l : nat) f : FetchService :=
  match fs_servings f !! l with
  | None => f
  | Some s =>
      let f' := upd_serving l (λ s, with_control true (sv_rx s) (sv_queue s) s) f in
      if sv_begun s then to_phase i (HSent l) (send_control l CAbort f')
      else
        let f' := to_phase i (HDone (Ok acknowledge)) f' in
        emit (if held f' l then FxSkipped l else FxAbort l) f'
  end.

(** ** One step of a handler call *)

(** [resolved] and [opened] answer [provider.resolve] and [open_binary_sink]. *)
Definition handler_step (i : nat) (resolved : result ResolvedResource XacppError)
    (opened : result txid XacppError) f : FetchService :=
  match fs_calls f !! i with
  | None => f
  | Some h =>
      match h with
      | HFetch uri => fetch_lookup i uri (to_phase i (HMiss uri)) f
      | HMiss uri => fetch_lookup i uri (insert_placeholder i uri) f
      | HCheck slot =>
          match fs_slots f !! slot with
          | Some (Some o) => to_phase i (HDone (Ok (outcome_response f o))) f
          | _ => to_phase i (HSeenNone slot) f
          end
      | HSeenNone slot => to_phase i (HParked slot) f
      | HParked _ => f
      | HResolve uri slot => resolve_done i uri slot resolved opened f
      | HResolved uri slot o => fill_tables i uri slot o f
      | HFilled slot o r => to_phase i (HStored slot o r) (set_slots (<[slot := Some o]> (fs_slots f)) f)
      | HStored slot o r => to_phase i (HDone (Ok r)) (notify_waiters slot f)
      | HBegin hex => begin_gate i hex f
      | HGate l => begin_spawn i l f
      | HSpawned _ => to_phase i (HDone (Ok acknowledge)) f
      | HAbort hex => abort_remove i hex f
      | HRemoved l => abort_swap i l f
      | HSent _ => to_phase i (HDone (Ok acknowledge)) f
      | HDone _ | HCancelled => f
      end
  end.

(** ** The serving task ([run_serving]) *)

(** What a turn of the loop sees: the control channel, or the end of [serve]
    ([false]: an error, a panic or a cancellation). *)
Inductive ServeEvent : Type := SeControl | SeDone (ok : bool).

Definition set_task (j : nat) (ph : TaskPhase) f : FetchService :=
  set_serve_tasks (alter (λ t, mkServeTask (st_sv t) ph) j (fs_tasks f)) f.

Definition task_step (j : nat) (ev : ServeEvent) f : FetchService :=
  match fs_tasks f !! j with
  | None => f
  | Some t =>
      let l := st_sv t in
      match st_phase t with
      | TServing =>
          match ev with
          | SeDone ok => set_task j (TLeft (negb ok)) f
          | SeControl =>
              match fs_servings f !! l with
              | None => f
              | Some s =>
                  let f' q := upd_serving l (λ s, with_control (sv_begun s) (sv_rx s) q s) f in
                  match sv_queue s with
                  | [] => f
                  | CPause :: q => emit (FxPause l) (f' q)
                  | CResume :: q => emit (FxResume l) (f' q)
                  | CAbort :: q => set_task j (TLeft true) (f' q)
                  end
              end
          end
      | TLeft aborted =>
          match fs_servings f !! l with
          | None => f
          | Some s => set_task j (TEvicted aborted) (evict (sv_txid s) f)
          end
      | TEvicted aborted =>
          emit (if held f l then FxSkipped l else if aborted then FxAbort l else FxFinish l)
            (set_task j TEnded f)
      | TEnded => f
      end
  end.

(** ** [on_command] and the interleavings *)

(** A command arrives; [inner] is the consumer's handler behind the service. *)
Definition on_command (inner : option (XacppCommand → result XacppResponse XacppError))
    (c : XacppCommand) f : FetchService :=
  let i := length (fs_calls f) in
  let add h := set_handlers (fs_calls f ++ [h]) f in
  match c with
  | Fetch uri => add (HFetch uri)
  | FetchBegin hex => add (HBegin hex)
  | FetchPause hex => handle_flow i hex CPause "fetch_pause" (add HCancelled)
  | FetchResume hex => handle_flow i hex CResume "fetch_resume" (add HCancelled)
  | FetchAbort hex => add (HAbort hex)
  | other =>
      add (HDone (match inner with
        | Some h => h other
        | None => Err (Application "unknown_command" (Lit "no inner handler registered"))
        end))
  end.

Definition fetch_on_event (inner : option (XacppActivityEvent → result XacppResponse XacppError))
    (e : XacppActivityEvent) : result XacppResponse XacppError :=
  match inner with
  | Some h => h e
  | None => Ok acknowledge
  end.

(** [OpCancel]: the transport aborts its handler tasks on [disconnect]. *)
Inductive FetchOp : Type :=
  | OpCommand (c : XacppCommand)
  | OpHandler (i : nat) (resolved : result ResolvedResource XacppError)
      (opened : result txid XacppError)
  | OpTask (j : nat) (ev : ServeEvent)
  | OpCancel (i : nat).

Context (inner : option (XacppCommand → result XacppResponse XacppError)).

Definition is_done (h : Handler) : bool :=
  match h with HDone _ | HCancelled => true | _ => false end.

Definition fetch_exec f (op : FetchOp) : FetchService :=
  match op with
  | OpCommand c => on_command inner c f
  | OpHandler i resolved opened => handler_step i resolved opened f
  | OpTask j ev => task_step j ev f
  | OpCancel i =>
      match fs_calls f !! i with
      | Some h => if is_done h then f else to_phase i HCancelled f
      | None => f
      end
  end.

Definition fetch_run (ops : list FetchOp) : FetchService := foldl fetch_exec FetchService_new ops.

Lemma fetch_run_app ops later :
  fetch_run (ops ++ later) = foldl fetch_exec (fetch_run ops) later.
Proof using Type. apply foldl_app. Qed.

(** ** The resolve rendezvous *)

(** The call that resolves for a slot, from the placeholder to the notification. *)
Definition owns (slot : nat) (h : Handler) : bool :=
  match h with
  | HResolve _ s | HResolved _ s _ | HFilled s _ _ | HStored s _ _ => bool_decide (s = slot)
  | _ => false
  end.

(** It still has to fill the tables: the placeholder is in place. *)
Definition resolving (uri : string) (slot : nat) (h : Handler) : Prop :=
  h = HResolve uri slot ∨ ∃ o, h = HResolved uri slot o.

Record slots_inv f : Prop := {
  si_placeholder : ∀ i uri slot h, fs_calls f !! i = Some h → resolving uri slot h →
    fs_by_uri f !! uri = Some (Resolving slot);
  si_alloc : ∀ i slot h, fs_calls f !! i = Some h → owns slot h = true → slot < length (fs_slots f);
  si_unique : ∀ i j slot h h', fs_calls f !! i = Some h → fs_calls f !! j = Some h' →
    owns slot h = true → owns slot h' = true → i = j;
  si_tables : ∀ uri slot, fs_by_uri f !! uri = Some (Resolving slot) → slot < length (fs_slots f);
}.

Lemma resolving_owns uri slot h : resolving uri slot h → owns slot h = true.
Proof using Type. intros [->|[o ->]]; cbn; by rw bool_decide_eq_true. Qed.

(** Call [i] moves from [h] to [h'] and owns no slot it did not own before. *)
Lemma slots_inv_move f f' i h h' :
  slots_inv f → fs_calls f !! i = Some h → fs_calls f' = <[i := h']> (fs_calls f) →
  length (fs_slots f) ≤ length (fs_slots f') →
  (∀ slot, owns slot h' = true → owns slot h = true) →
  (∀ uri slot, resolving uri slot h' → fs_by_uri f' !! uri = Some (Resolving slot)) →
  (∀ j uri slot hj, j ≠ i → fs_calls f !! j = Some hj → resolving uri slot hj →
     fs_by_uri f' !! uri = Some (Resolving slot)) →
  (∀ uri slot, fs_by_uri f' !! uri = Some (Resolving slot) → fs_by_uri f !! uri = Some (Resolving slot)) →
  slots_inv f'.
Proof using Type.
  intros [Hp Ha Hu Ht] Hi Hc Hlen Ho Hr Hr' Htab.
  assert (Hlook : ∀ j x, fs_calls f' !! j = Some x →
    (j = i ∧ x = h') ∨ (j ≠ i ∧ fs_calls f !! j = Some x)).
  { intros j x. rw Hc. destruct (decide (i = j)) as [<-|Hne].
    - rw list_lookup_insert_eq; [by eapply lookup_lt_Some|]. intros [= <-]. by left.
    - rw list_lookup_insert_ne //. right. by split. }
  assert (Hold : ∀ j x slot, fs_calls f' !! j = Some x → owns slot x = true →
    ∃ y, fs_calls f !! j = Some y ∧ owns slot y = true).
  { intros j x slot [[-> ->]|[_ Hx]]%Hlook Hox; [exists h; auto|by exists x]. }
  split.
  - intros j uri slot x [[-> ->]|[Hne Hx]]%Hlook Hres; [by apply Hr|by eapply Hr'].
  - intros j slot x Hx Hox. destruct (Hold _ _ _ Hx Hox) as (y & Hy & Hoy).
    specialize (Ha _ _ _ Hy Hoy). lia.
  - intros j k slot x y Hx Hy Hox Hoy.
    destruct (Hold _ _ _ Hx Hox) as (x' & Hx' & Hox'), (Hold _ _ _ Hy Hoy) as (y' & Hy' & Hoy').
    by eapply Hu.
  - intros uri slot Hs. specialize (Ht _ _ (Htab _ _ Hs)). lia.
Qed.

(** The tables keep their placeholders. *)
Lemma slots_inv_quiet f f' i h h' :
  slots_inv f → fs_calls f !! i = Some h → fs_calls f' = <[i := h']> (fs_calls f) →
  length (fs_slots f) ≤ length (fs_slots f') →
  (∀ slot, owns slot h' = true → owns slot h = true) →
  (∀ uri slot, resolving uri slot h' → resolving uri slot h) →
  (∀ uri slot, fs_by_uri f' !! uri = Some (Resolving slot) ↔ fs_by_uri f !! uri = Some (Resolving slot)) →
  slots_inv f'.
Proof using Type.
  intros Hinv Hi Hc Hlen Ho Hr Htab. eapply slots_inv_move; try done; pose proof Hinv as [Hp _ _ _].
  - intros uri slot Hres. apply Htab. eapply Hp; [exact Hi|by apply Hr].
  - intros j uri slot hj _ Hj Hres. apply Htab. by eapply Hp.
  - intros uri slot. apply Htab.
Qed.

Lemma evict_resolving id f uri slot :
  fs_by_uri (evict id f) !! uri = Some (Resolving slot) ↔ fs_by_uri f !! uri = Some (Resolving slot).
Proof using Type.
  unfold evict. destruct (fs_by_txid f !! id) as [l|]; [|done].
  destruct (fs_servings f !! l) as [s|]; [|done]. cbn.
  destruct (fs_by_uri f !! sv_uri s) as [[|l2]|] eqn:Hu; [done| |done].
  destruct (fs_servings f !! l2) as [s2|]; [|done]. destruct (decide _); [|done].
  destruct (decide (uri = sv_uri s)) as [->|Hne]; [|by rw lookup_delete_ne].
  rw lookup_delete_eq Hu. done.
Qed.

(** No call moves. *)
Lemma slots_inv_frame f f' :
  slots_inv f → fs_calls f' = fs_calls f → length (fs_slots f) ≤ length (fs_slots f') →
  (∀ uri slot, fs_by_uri f' !! uri = Some (Resolving slot) ↔ fs_by_uri f !! uri = Some (Resolving slot)) →
  slots_inv f'.
Proof using Type.
  intros [Hp Ha Hu Ht] Hc Hl Htab. split; rw ?Hc.
  - intros i uri slot h Hi Hr. apply Htab. by eapply Hp.
  - intros i slot h Hi Ho. specialize (Ha i slot h Hi Ho). lia.
  - exact Hu.
  - intros uri slot Hs%Htab%Ht. lia.
Qed.

Lemma notify_lookup slot f j h' :
  fs_calls (notify_waiters slot f) !! j = Some h' →
  ∃ h, fs_calls f !! j = Some h ∧ (h' = h ∨ h = HParked slot ∧ h' = HCheck slot).
Proof using Type.
  cbn. rw list_lookup_fmap. intros (h & -> & Hj)%fmap_Some. exists h. split; [done|].
  destruct h; try by left. destruct (decide _) as [->|]; [by right|by left].
Qed.

Lemma notify_inv slot f : slots_inv f → slots_inv (notify_waiters slot f).
Proof using Type.
  intros [Hp Ha Hu Ht].
  assert (Hn : ∀ j h' sl, fs_calls (notify_waiters slot f) !! j = Some h' → owns sl h' = true →
    fs_calls f !! j = Some h').
  { intros j h' sl (h & Hj & [->|[-> ->]])%notify_lookup Ho; [done|done]. }
  split; try done.
  - intros j uri sl h Hj Hr. pose proof (Hn _ _ _ Hj (resolving_owns _ _ _ Hr)) as Hj'.
    exact (Hp _ _ _ _ Hj' Hr).
  - intros j sl h Hj Ho. exact (Ha _ _ _ (Hn _ _ _ Hj Ho) Ho).
  - intros i j sl h h' Hi Hj Ho Ho'. exact (Hu _ _ _ _ _ (Hn _ _ _ Hi Ho) (Hn _ _ _ Hj Ho') Ho Ho').
Qed.

Lemma to_phase_inv i h h' f :
  slots_inv f → fs_calls f !! i = Some h →
  (∀ slot, owns slot h' = true → owns slot h = true) →
  (∀ uri slot, resolving uri slot h' → resolving uri slot h) →
  slots_inv (to_phase i h' f).
Proof using Type. intros Hi Hc Ho Hr. by eapply (slots_inv_quiet f _ i h h'). Qed.

(** A phase that owns nothing. *)
Lemma to_idle_inv i h h' f :
  slots_inv f → fs_calls f !! i = Some h → (∀ slot, owns slot h' = false) →
  slots_inv (to_phase i h' f).
Proof using Type.
  intros Hi Hc Ho. eapply to_phase_inv; [done..| |].
  - intros slot. by rw Ho.
  - intros uri slot Hr%resolving_owns. by rw Ho in Hr.
Qed.

Lemma placeholder_inv i uri f :
  slots_inv f → fs_calls f !! i = Some (HMiss uri) → fs_by_uri f !! uri = None →
  slots_inv (insert_placeholder i uri f).
Proof using Type.
  intros [Hp Ha Hu Ht] Hi Hn. set (sl := length (fs_slots f)).
  assert (Hlook : ∀ j h, fs_calls (insert_placeholder i uri f) !! j = Some h →
    (j = i ∧ h = HResolve uri sl) ∨ (j ≠ i ∧ fs_calls f !! j = Some h)).
  { intros j x. cbn. destruct (decide (i = j)) as [<-|Hne].
    - rw list_lookup_insert_eq; [by eapply lookup_lt_Some|]. intros [= <-]. by left.
    - rw list_lookup_insert_ne //. right. by split. }
  assert (Hlen : length (fs_slots (insert_placeholder i uri f)) = S sl).
  { cbn. rw length_app /=. unfold sl. lia. }
  split; rw ?Hlen.
  - intros j u slot h [[-> ->]|[Hne Hj]]%Hlook Hr; cbn.
    + destruct Hr as [[= <- <-]|[o [=]]]. apply lookup_insert_eq.
    + specialize (Hp _ _ _ _ Hj Hr). rw lookup_insert_ne //. intros ->. by rw Hn in Hp.
  - intros j slot h [[-> ->]|[Hne Hj]]%Hlook Ho.
    + cbn in Ho. apply bool_decide_eq_true in Ho. lia.
    + specialize (Ha _ _ _ Hj Ho). fold sl in Ha. lia.
  - assert (Hfresh : ∀ j h slot, fs_calls f !! j = Some h → owns slot h = true → slot ≠ sl).
    { intros j h slot Hj Ho ->. specialize (Ha _ _ _ Hj Ho). unfold sl in Ha. lia. }
    intros j k slot h h' [[-> ->]|[Hne Hj]]%Hlook [[-> ->]|[Hne' Hk]]%Hlook Ho Ho'; [done|..].
    + cbn in Ho. apply bool_decide_eq_true in Ho as <-. by destruct (Hfresh _ _ _ Hk Ho').
    + cbn in Ho'. apply bool_decide_eq_true in Ho' as <-. by destruct (Hfresh _ _ _ Hj Ho).
    + by eapply Hu.
  - intros u slot. cbn. destruct (decide (uri = u)) as [<-|Hne].
    + rw lookup_insert_eq. intros [= <-]. lia.
    + rw lookup_insert_ne //. intros Hs%Ht. fold sl in Hs. lia.
Qed.

Lemma fill_inv i uri slot o f :
  slots_inv f → fs_calls f !! i = Some (HResolved uri slot o) →
  slots_inv (fill_tables i uri slot o f).
Proof using Type.
  intros Hinv Hi. pose proof Hinv as [Hp _ Hu _].
  assert (Hr : resolving uri slot (HResolved uri slot o)) by (right; by eexists).
  assert (Hkeep : ∀ f', fs_calls f' = fs_calls f → fs_slots f' = fs_slots f →
    (∀ u, u ≠ uri → fs_by_uri f' !! u = fs_by_uri f !! u) →
    (∀ sl, fs_by_uri f' !! uri = Some (Resolving sl) → fs_by_uri f !! uri = Some (Resolving sl)) →
    slots_inv (to_phase i (HFilled slot o (outcome_response f o)) f')).
  { intros f' Hc Hs Hne Heq. eapply (slots_inv_move f _ i (HResolved uri slot o)
      (HFilled slot o (outcome_response f o))); try done.
    - cbn. by rw Hc.
    - cbn. by rw Hs.
    - by intros u sl [[=]|[? [=]]].
    - intros j u sl hj Hji Hj Hrj. cbn. destruct (decide (u = uri)) as [->|]; [|rw Hne //; by eapply Hp].
      destruct Hji. pose proof (Hp _ _ _ _ Hj Hrj) as H1. rw (Hp _ _ _ _ Hi Hr) in H1.
      injection H1 as <-. eapply Hu; [exact Hj|exact Hi|by eapply resolving_owns..].
    - intros u sl. cbn. destruct (decide (u = uri)) as [->|]; [apply Heq|by rw Hne]. }
  unfold fill_tables. destruct o as [l|e].
  - destruct (fs_servings f !! l) as [s|]; apply Hkeep; try done.
    + intros u Hne. cbn. by rw lookup_insert_ne.
    + intros sl. cbn. by rw lookup_insert_eq.
  - rw (Hp _ _ _ _ Hi Hr). destruct (decide _); [|by apply Hkeep]. apply Hkeep; try done.
    + intros u Hne. cbn. by rw lookup_delete_ne.
    + intros sl. cbn. by rw lookup_delete_eq.
Qed.

(** What a service does to servings, the log and the tasks is of no concern to
    the rendezvous. *)
Definition same_rendezvous f f' : Prop :=
  fs_calls f' = fs_calls f ∧ fs_slots f' = fs_slots f ∧
  ∀ uri slot, fs_by_uri f' !! uri = Some (Resolving slot) ↔ fs_by_uri f !! uri = Some (Resolving slot).

Lemma same_rendezvous_inv f f' : slots_inv f → same_rendezvous f f' → slots_inv f'.
Proof using Type. intros Hi (H1 & H2 & H3). eapply slots_inv_frame; [done..|by rw H2|done]. Qed.

Lemma evict_same id f : same_rendezvous f (evict id f).
Proof using Type.
  unfold same_rendezvous. split_and!; [..|intros; apply evict_resolving];
    unfold evict; by repeat case_match.
Qed.

Lemma send_control_same l ctl f : same_rendezvous f (send_control l ctl f).
Proof using Type. unfold send_control. by destruct (task_over f l). Qed.

Lemma build_same uri r opened f : same_rendezvous f (build_serving uri r opened f).1.
Proof using Type. unfold build_serving. by repeat case_match. Qed.

(** A call goes to a phase that owns nothing, over the same rendezvous. *)
Lemma idle_step_inv i h h' f f' :
  slots_inv f → same_rendezvous f f' → fs_calls f !! i = Some h → (∀ slot, owns slot h' = false) →
  slots_inv (to_phase i h' f').
Proof using Type.
  intros Hi Hs Hc Ho. eapply to_idle_inv; [by eapply same_rendezvous_inv| |done].
  destruct Hs as [-> _]. exact Hc.
Qed.

Lemma handler_step_inv i resolved opened f :
  slots_inv f → slots_inv (handler_step i resolved opened f).
Proof using Type.
  intros Hinv. unfold handler_step. destruct (fs_calls f !! i) as [h|] eqn:Hi; [|done].
  destruct h as [uri|uri|slot|slot|slot|uri slot|uri slot o|slot o r|slot o r|hex|l|l|hex|l|l|r|]; try done.
  - unfold fetch_lookup. destruct (fs_by_uri f !! uri) as [[]|]; by eapply to_idle_inv.
  - unfold fetch_lookup. destruct (fs_by_uri f !! uri) as [[]|] eqn:Hu; [by eapply to_idle_inv..|].
    by apply placeholder_inv.
  - repeat case_match; by eapply to_idle_inv.
  - by eapply to_idle_inv.
  - unfold resolve_done. assert (Hto : ∀ f' o, same_rendezvous f f' →
      slots_inv (to_phase i (HResolved uri slot o) f')).
    { intros f' o Hs. pose proof Hs as [Hc _].
      eapply (to_phase_inv i (HResolve uri slot)); [by eapply same_rendezvous_inv|by rw Hc|done|].
      intros u sl [[=]|[? [= <- <- _]]]. by left. }
    destruct resolved as [r|e]; [|by apply Hto]. pose proof (build_same uri r opened f) as Hb.
    destruct (build_serving uri r opened f) as [f' o]. by apply Hto.
  - by apply fill_inv.
  - eapply (slots_inv_quiet f _ i (HFilled slot o r) (HStored slot o r)); try done.
    + cbn. by rw length_insert.
    + by intros u sl [[=]|[? [=]]].
  - eapply (to_idle_inv i (HStored slot o r)); [by apply notify_inv| |done].
    cbn. by rw list_lookup_fmap Hi.
  - unfold begin_gate. repeat case_match; try done; by eapply idle_step_inv.
  - unfold begin_spawn. repeat case_match; try done; by eapply idle_step_inv.
  - by eapply to_idle_inv.
  - unfold abort_remove. repeat case_match; try (by eapply to_idle_inv).
    eapply idle_step_inv; [done|apply evict_same|done|done].
  - unfold abort_swap. destruct (fs_servings f !! l) as [s|]; [|done]. destruct (sv_begun s).
    + set (f1 := upd_serving l _ f). eapply (idle_step_inv i (HRemoved l) _ f1); [|apply send_control_same|done..].
      by eapply same_rendezvous_inv.
    + set (f1 := to_phase i _ _). apply (same_rendezvous_inv f1); [by eapply idle_step_inv|done].
  - by eapply to_idle_inv.
Qed.

Lemma task_step_same j ev f : same_rendezvous f (task_step j ev f).
Proof using Type.
  unfold task_step. destruct (fs_tasks f !! j) as [t|]; [|done].
  destruct (st_phase t); [repeat case_match; done| |done|done].
  destruct (fs_servings f !! st_sv t) as [s|]; [|done].
  destruct (evict_same (sv_txid s) f) as (H1 & H2 & H3). by split_and!.
Qed.

Lemma add_call_inv h f :
  slots_inv f → (∀ slot, owns slot h = false) → slots_inv (set_handlers (fs_calls f ++ [h]) f).
Proof using Type.
  intros [Hp Ha Hu Ht] Ho.
  assert (Hold : ∀ j x slot, (fs_calls f ++ [h]) !! j = Some x → owns slot x = true → fs_calls f !! j = Some x).
  { intros j x slot [Hx|[_ Hx]]%lookup_app_Some Hox; [done|].
    apply list_elem_of_lookup_2, list_elem_of_singleton in Hx as ->. by rw Ho in Hox. }
  split; cbn; [| | |done].
  - intros j u sl x Hx Hr. eapply Hp; [|exact Hr]. eapply Hold; [exact Hx|by eapply resolving_owns].
  - intros j sl x Hx Hox. eapply Ha; [|exact Hox]. by eapply Hold.
  - intros j k sl x y Hx Hy Hox Hoy. eapply Hu; [by eapply Hold|by eapply Hold|done..].
Qed.

Lemma handle_flow_inv i hex ctl what f :
  slots_inv f → fs_calls f !! i = Some HCancelled → slots_inv (handle_flow i hex ctl what f).
Proof using Type.
  intros Hinv Hi. unfold handle_flow. repeat case_match; try (by eapply to_idle_inv).
  eapply idle_step_inv; [done|apply send_control_same|done|done].
Qed.

Lemma exec_slots_inv f op : slots_inv f → slots_inv (fetch_exec f op).
Proof using Type.
  intros Hinv. destruct op as [c|i resolved opened|j ev|i]; cbn.
  - assert (Hf : ∀ hex ctl what, slots_inv (handle_flow (length (fs_calls f)) hex ctl what
      (set_handlers (fs_calls f ++ [HCancelled]) f))).
    { intros hex ctl what. apply handle_flow_inv; [by apply add_call_inv|].
      cbn. by rw lookup_app_r // Nat.sub_diag. }
    destruct c; cbn; try (by apply add_call_inv); apply Hf.
  - by apply handler_step_inv.
  - eapply same_rendezvous_inv; [done|apply task_step_same].
  - destruct (fs_calls f !! i) as [h|] eqn:Hi; [|done].
    destruct (is_done h); [done|]. by eapply to_idle_inv.
Qed.

Lemma run_slots_inv ops : slots_inv (fetch_run ops).
Proof using Type.
  unfold fetch_run. induction ops as [|op ops IH] using rev_ind; [by split|].
  rw foldl_app. by apply exec_slots_inv.
Qed.

(** C26: concurrent fetches of one uri resolve it once.  In every interleaving of
    commands, handler steps, serving tasks and cancellations, at most one call at
    a time runs [provider.resolve] for a uri; while it does, the uri is held by
    that call's placeholder, so it is neither ready nor resolved by anyone else. *)
Theorem resolve_once ops uri i slot h :
  let f := fetch_run ops in
  fs_calls f !! i = Some h → resolving uri slot h →
  fs_by_uri f !! uri = Some (Resolving slot) ∧
  ∀ j slot' h', fs_calls f !! j = Some h' → resolving uri slot' h' → j = i.
Proof using Type.
  intros f Hi Hr. pose proof (run_slots_inv ops) as [Hp _ Hu _]. fold f in Hp, Hu.
  pose proof (Hp _ _ _ _ Hi Hr) as Hs. split; [done|].
  intros j slot' h' Hj Hr'. pose proof (Hp _ _ _ _ Hj Hr') as Hs'.
  rw Hs in Hs'. injection Hs' as <-.
  eapply Hu; [exact Hj|exact Hi|by eapply resolving_owns..].
Qed.

(** ** The begin gate and the forced terminal operation *)

Definition is_gate (l : nat) (h : Handler) : bool :=
  match h with HGate l' => bool_decide (l' = l) | _ => false end.

Definition of_serving (l : nat) (t : ServeTask) : bool := bool_decide (st_sv t = l).

Definition is_live (l : nat) (t : ServeTask) : bool :=
  of_serving l t && match st_phase t with TEnded => false | _ => true end.

Definition is_serve (l : nat) (e : FetchEffect) : bool :=
  match e with FxServe l' => bool_decide (l' = l) | _ => false end.

(** A terminal operation, or the point where it was skipped. *)
Definition is_ending (l : nat) (e : FetchEffect) : bool :=
  match e with FxFinish l' | FxAbort l' | FxSkipped l' => bool_decide (l' = l) | _ => false end.

Definition gates l f : nat := count_if (is_gate l) (fs_calls f).
Definition tasks l f : nat := count_if (of_serving l) (fs_tasks f).
Definition live_tasks l f : nat := count_if (is_live l) (fs_tasks f).
Definition serves l f : nat := count_if (is_serve l) (fs_log f).
Definition terminals l f : nat := count_if (is_ending l) (fs_log f).

Definition begun_of l f : nat :=
  match fs_servings f !! l with Some s => Nat.b2n (sv_begun s) | None => 0 end.

(** The flag hands out one permission: to a call between gate and spawn, then to
    the serving task, then to the terminal operation. *)
Record gate_inv f : Prop := {
  gi_spawn : ∀ l, gates l f + tasks l f ≤ begun_of l f;
  gi_terminal : ∀ l, gates l f + live_tasks l f + terminals l f ≤ begun_of l f;
  gi_serves : ∀ l, serves l f = tasks l f;
  gi_rx : ∀ l s, fs_servings f !! l = Some s → sv_rx s = false → 1 ≤ tasks l f;
}.

(** Nothing is spawned, ended or logged, and no call passes the gate. *)
Record gate_quiet f f' : Prop := {
  gq_gates : ∀ l, gates l f' ≤ gates l f;
  gq_tasks : ∀ l, tasks l f' = tasks l f;
  gq_live : ∀ l, live_tasks l f' = live_tasks l f;
  gq_terminals : ∀ l, terminals l f' = terminals l f;
  gq_serves : ∀ l, serves l f' = serves l f;
  gq_begun : ∀ l, begun_of l f ≤ begun_of l f';
  gq_rx : ∀ l s, fs_servings f' !! l = Some s → sv_rx s = false →
    ∃ s0, fs_servings f !! l = Some s0 ∧ sv_rx s0 = false;
}.

Lemma gate_quiet_inv f f' : gate_inv f → gate_quiet f f' → gate_inv f'.
Proof using Type.
  intros [H1 H2 H3 H4] [Q1 Q2 Q3 Q4 Q5 Q6 Q7]. split.
  - intros l. specialize (H1 l). specialize (Q1 l). specialize (Q2 l). specialize (Q6 l). lia.
  - intros l. specialize (H2 l). specialize (Q1 l). specialize (Q3 l). specialize (Q4 l).
    specialize (Q6 l). lia.
  - intros l. by rw Q5 Q2.
  - intros l s Hs Hr. destruct (Q7 l s Hs Hr) as (s0 & Hs0 & Hr0). rw Q2. by eapply H4.
Qed.

Lemma gate_quiet_trans f1 f2 f3 : gate_quiet f1 f2 → gate_quiet f2 f3 → gate_quiet f1 f3.
Proof using Type.
  intros [A1 A2 A3 A4 A5 A6 A7] [B1 B2 B3 B4 B5 B6 B7]. split; intros l.
  - specialize (A1 l). specialize (B1 l). lia.
  - by rw B2.
  - by rw B3.
  - by rw B4.
  - by rw B5.
  - specialize (A6 l). specialize (B6 l). lia.
  - intros s Hs Hr. destruct (B7 l s Hs Hr) as (s1 & Hs1 & Hr1). by eapply A7.
Qed.

(** Calls, tasks, servings and the log as they were. *)
Lemma gate_quiet_same f f' :
  fs_calls f' = fs_calls f → fs_tasks f' = fs_tasks f → fs_log f' = fs_log f →
  fs_servings f' = fs_servings f → gate_quiet f f'.
Proof using Type.
  intros Hc Ht Hl Hs. split; intros l; unfold gates, tasks, live_tasks, terminals, serves, begun_of;
    rw ?Hc ?Ht ?Hl ?Hs; try done. by eauto.
Qed.

Lemma gate_quiet_phase i h h' f :
  fs_calls f !! i = Some h → (∀ l, is_gate l h' = false) → gate_quiet f (to_phase i h' f).
Proof using Type.
  intros Hi Hg. split; try done; [|by eauto]. intros l. unfold gates. cbn.
  pose proof (count_if_insert (is_gate l) (fs_calls f) i h h' Hi) as H. rw Hg in H. cbn in H. lia.
Qed.

Lemma gate_quiet_serving l g f :
  (∀ s, sv_begun s = true → sv_begun (g s) = true) → (∀ s, sv_rx (g s) = sv_rx s) →
  gate_quiet f (upd_serving l g f).
Proof using Type.
  intros Hb Hr. split; try done.
  - intros l'. unfold begun_of. cbn. destruct (decide (l = l')) as [<-|Hne].
    + rw list_lookup_alter_eq. destruct (fs_servings f !! l) as [s|]; cbn; [|done].
      destruct (sv_begun s) eqn:E; cbn; [by rw (Hb s E)|lia].
    + by rw list_lookup_alter_ne.
  - intros l' s. cbn. destruct (decide (l = l')) as [<-|Hne].
    + rw list_lookup_alter_eq. intros (s0 & Hs & ->)%fmap_Some. rw Hr. by eauto.
    + rw list_lookup_alter_ne //. by eauto.
Qed.

Lemma gate_quiet_evict id f : gate_quiet f (evict id f).
Proof using Type. apply gate_quiet_same; unfold evict; by repeat case_match. Qed.

Lemma gate_quiet_send l ctl f : gate_quiet f (send_control l ctl f).
Proof using Type.
  unfold send_control. destruct (task_over f l); [by apply gate_quiet_same|].
  by apply gate_quiet_serving.
Qed.

Lemma gate_quiet_then i h h' f f' :
  gate_quiet f f' → fs_calls f' !! i = Some h → (∀ l, is_gate l h' = false) →
  gate_quiet f (to_phase i h' f').
Proof using Type. intros Hq Hi Hg. eapply gate_quiet_trans; [exact Hq|by eapply gate_quiet_phase]. Qed.

Lemma gate_quiet_build uri r opened f : gate_quiet f (build_serving uri r opened f).1.
Proof using Type.
  unfold build_serving. repeat case_match; try (by apply gate_quiet_same). cbn [fst].
  split; try done; intros l.
  - unfold terminals. cbn. rw count_if_app. cbn. lia.
  - unfold serves. cbn. rw count_if_app. cbn. lia.
  - unfold begun_of. cbn. destruct (fs_servings f !! l) as [s|] eqn:Hl; [|lia].
    rw lookup_app_l; [by eapply lookup_lt_Some|]. by rw Hl.
  - intros s [Hs|[_ Hs]]%lookup_app_Some; [by eauto|].
    apply list_elem_of_lookup_2, list_elem_of_singleton in Hs as ->. done.
Qed.

Lemma gate_quiet_notify slot f : gate_quiet f (notify_waiters slot f).
Proof using Type.
  split; try done; [|by eauto]. intros l. unfold gates, notify_waiters. cbn.
  rw (count_if_ext (is_gate l)); [|done]. intros h _. destruct h; try done. by destruct (decide _).
Qed.

(** How the phases of a call count towards the gate. *)
Lemma gates_move l i h h' f :
  fs_calls f !! i = Some h →
  gates l (to_phase i h' f) + Nat.b2n (is_gate l h) = gates l f + Nat.b2n (is_gate l h').
Proof using Type. intros Hi. unfold gates. cbn. by apply count_if_insert. Qed.

(** The flag of serving [l] is set. *)
Definition set_begun s : Serving := with_control true (sv_rx s) (sv_queue s) s.

Lemma begun_set l s f l' :
  fs_servings f !! l = Some s → sv_begun s = false →
  begun_of l' (upd_serving l set_begun f) = begun_of l' f + Nat.b2n (bool_decide (l = l')).
Proof using Type.
  intros Hl Hb. unfold begun_of. cbn. destruct (decide (l = l')) as [<-|Hne].
  - by rw list_lookup_alter_eq Hl bool_decide_eq_true_2 //= Hb.
  - rw list_lookup_alter_ne // bool_decide_eq_false_2 //.
Qed.

Lemma begin_gate_inv i hex f :
  gate_inv f → fs_calls f !! i = Some (HBegin hex) → gate_inv (begin_gate i hex f).
Proof using Type.
  intros Hinv Hi. unfold begin_gate.
  destruct (parse_txid hex) as [id|]; [|by eapply gate_quiet_inv, gate_quiet_phase].
  destruct (fs_by_txid f !! id) as [l|]; [|by eapply gate_quiet_inv, gate_quiet_phase].
  destruct (fs_servings f !! l) as [s|] eqn:Hl; [|done].
  destruct (sv_begun s) eqn:Hb; [by eapply gate_quiet_inv, gate_quiet_phase|].
  set (f1 := upd_serving l _ f). pose proof Hinv as [H1 H2 H3 H4].
  assert (Hg : ∀ l', gates l' (to_phase i (HGate l) f1) = gates l' f + Nat.b2n (bool_decide (l = l'))).
  { intros l'. pose proof (gates_move l' i (HBegin hex) (HGate l) f1 Hi) as H.
    change (gates l' f1) with (gates l' f) in H. cbn [is_gate Nat.b2n] in H. lia. }
  assert (Hbg : ∀ l', begun_of l' (to_phase i (HGate l) f1) = begun_of l' f + Nat.b2n (bool_decide (l = l'))).
  { intros l'. by apply (begun_set l s). }
  split; [| |done|].
  - intros l'. rw Hg Hbg. specialize (H1 l'). change (tasks l' (to_phase _ _ _)) with (tasks l' f). lia.
  - intros l'. rw Hg Hbg. specialize (H2 l').
    change (live_tasks l' (to_phase _ _ _)) with (live_tasks l' f).
    change (terminals l' (to_phase _ _ _)) with (terminals l' f). lia.
  - destruct (gate_quiet_serving l set_begun f) as [_ _ _ _ _ _ Q]; [done..|].
    intros l' s' Hs Hr. destruct (Q l' s' Hs Hr) as (s0 & Hs0 & Hr0). exact (H4 l' s0 Hs0 Hr0).
Qed.

Lemma begin_spawn_inv i l f :
  gate_inv f → fs_calls f !! i = Some (HGate l) → gate_inv (begin_spawn i l f).
Proof using Type.
  intros Hinv Hi. unfold begin_spawn. destruct (fs_servings f !! l) as [s|] eqn:Hl; [|done].
  destruct (sv_rx s) eqn:Hrx; [|by eapply gate_quiet_inv, gate_quiet_phase].
  set (f1 := emit _ _). pose proof Hinv as [H1 H2 H3 H4].
  assert (Hg : ∀ l', gates l' (to_phase i (HSpawned l) f1) + Nat.b2n (bool_decide (l = l')) = gates l' f).
  { intros l'. pose proof (gates_move l' i (HGate l) (HSpawned l) f1 Hi) as H.
    change (gates l' f1) with (gates l' f) in H. cbn [is_gate Nat.b2n] in H. lia. }
  assert (Ht : ∀ l', tasks l' (to_phase i (HSpawned l) f1) = tasks l' f + Nat.b2n (bool_decide (l = l'))).
  { intros l'. unfold tasks. cbn. rw count_if_app. cbn. unfold of_serving. cbn. lia. }
  assert (Hlv : ∀ l', live_tasks l' (to_phase i (HSpawned l) f1) =
    live_tasks l' f + Nat.b2n (bool_decide (l = l'))).
  { intros l'. unfold live_tasks. cbn. rw count_if_app. cbn. unfold is_live, of_serving. cbn.
    rw andb_true_r. lia. }
  assert (Hs : ∀ l', serves l' (to_phase i (HSpawned l) f1) = serves l' f + Nat.b2n (bool_decide (l = l'))).
  { intros l'. unfold serves. cbn. rw count_if_app. cbn. lia. }
  assert (Hte : ∀ l', terminals l' (to_phase i (HSpawned l) f1) = terminals l' f).
  { intros l'. unfold terminals. cbn. rw count_if_app. cbn. lia. }
  assert (Hb : ∀ l', begun_of l' (to_phase i (HSpawned l) f1) = begun_of l' f).
  { intros l'. unfold begun_of. cbn. destruct (decide (l = l')) as [<-|Hne].
    - by rw list_lookup_alter_eq Hl.
    - by rw list_lookup_alter_ne. }
  split; intros l'.
  - specialize (H1 l'). specialize (Hg l'). rw Hb Ht. lia.
  - specialize (H2 l'). specialize (Hg l'). rw Hb Hlv Hte. lia.
  - rw Hs Ht. by rw H3.
  - intros s' Hs' Hr'. cbn in Hs'. rw Ht. destruct (decide (l = l')) as [<-|Hne].
    + rw bool_decide_eq_true_2; [done|]. cbn. lia.
    + rw list_lookup_alter_ne // in Hs'. specialize (H4 l' s' Hs' Hr'). lia.
Qed.

Lemma abort_swap_inv i l f :
  gate_inv f → fs_calls f !! i = Some (HRemoved l) → gate_inv (abort_swap i l f).
Proof using Type.
  intros Hinv Hi. unfold abort_swap. destruct (fs_servings f !! l) as [s|] eqn:Hl; [|done].
  fold set_begun. set (f1 := upd_serving l _ f).
  assert (Hq1 : gate_quiet f f1) by by apply gate_quiet_serving.
  destruct (sv_begun s) eqn:Hb.
  - eapply gate_quiet_inv; [exact Hinv|]. eapply (gate_quiet_then i (HRemoved l)); [|by unfold send_control; case_match|done].
    eapply gate_quiet_trans; [exact Hq1|apply gate_quiet_send].
  - set (f2 := to_phase i _ f1). destruct (gate_quiet_then i (HRemoved l) (HDone (Ok acknowledge)) f f1)
      as [Q1 Q2 Q3 Q4 Q5 _ Q7]; [done..|]. fold f2 in Q1, Q2, Q3, Q4, Q5, Q7.
    pose proof Hinv as [H1 H2 H3 H4].
    assert (Hbg : ∀ l', begun_of l' f2 = begun_of l' f + Nat.b2n (bool_decide (l = l'))).
    { intros l'. by apply (begun_set l s). }
    set (fx := if held f2 l then FxSkipped l else FxAbort l).
    assert (Hte : ∀ l', terminals l' (emit fx f2) = terminals l' f + Nat.b2n (bool_decide (l = l'))).
    { intros l'. rw -Q4. unfold terminals, emit, fx. cbn [fs_log]. rw count_if_app.
      destruct (held f2 l); cbn; lia. }
    assert (Hse : ∀ l', serves l' (emit fx f2) = serves l' f).
    { intros l'. rw -Q5. unfold serves, emit, fx. cbn [fs_log]. rw count_if_app.
      destruct (held f2 l); cbn; lia. }
    clearbody f2. split; intros l'.
    + specialize (H1 l'). specialize (Q1 l'). specialize (Q2 l').
      change (gates l' f2 + tasks l' f2 ≤ begun_of l' f2). rw Hbg. lia.
    + rw Hte. specialize (H2 l'). specialize (Q1 l'). specialize (Q3 l').
      change (gates l' f2 + live_tasks l' f2 + (terminals l' f + Nat.b2n (bool_decide (l = l'))) ≤
        begun_of l' f2). rw Hbg. lia.
    + rw Hse H3. symmetry. apply Q2.
    + intros s' Hs' Hr'. destruct (Q7 l' s' Hs' Hr') as (s0 & Hs0 & Hr0).
      change (1 ≤ tasks l' f2). rw Q2. by eapply H4.
Qed.

Lemma handler_step_gate i resolved opened f :
  gate_inv f → gate_inv (handler_step i resolved opened f).
Proof using Type.
  intros Hinv. unfold handler_step. destruct (fs_calls f !! i) as [h|] eqn:Hi; [|done].
  assert (Hph : ∀ h', (∀ l, is_gate l h' = false) → gate_inv (to_phase i h' f)).
  { intros h' Hg. by eapply gate_quiet_inv, gate_quiet_phase. }
  assert (Hth : ∀ h' f', gate_quiet f f' → fs_calls f' = fs_calls f → (∀ l, is_gate l h' = false) →
    gate_inv (to_phase i h' f')).
  { intros h' f' Hq Hc Hg. eapply gate_quiet_inv; [done|]. eapply gate_quiet_then; [done| |done]. by rw Hc. }
  destruct h as [uri|uri|slot|slot|slot|uri slot|uri slot o|slot o r|slot o r|hex|l|l|hex|l|l|r|]; try done.
  - unfold fetch_lookup. destruct (fs_by_uri f !! uri) as [[]|]; by apply Hph.
  - unfold fetch_lookup, insert_placeholder.
    destruct (fs_by_uri f !! uri) as [[]|]; [by apply Hph..|]. apply Hth; [by apply gate_quiet_same|done..].
  - repeat case_match; by apply Hph.
  - by apply Hph.
  - unfold resolve_done. destruct resolved as [r|e]; [|by apply Hph].
    pose proof (gate_quiet_build uri r opened f) as Hb. pose proof (build_same uri r opened f) as [Hc _].
    destruct (build_serving uri r opened f) as [f' o]. by apply Hth.
  - unfold fill_tables. apply Hth; [apply gate_quiet_same|..]; try done; by repeat case_match.
  - apply Hth; [by apply gate_quiet_same|done..].
  - eapply gate_quiet_inv; [done|]. eapply (gate_quiet_then i (HStored slot o r)); [apply gate_quiet_notify| |done].
    cbn. by rw list_lookup_fmap Hi.
  - by apply begin_gate_inv.
  - by apply begin_spawn_inv.
  - by apply Hph.
  - unfold abort_remove. destruct (parse_txid hex) as [id|]; [|by apply Hph].
    destruct (fs_by_txid f !! id) as [l|]; [|by apply Hph].
    apply Hth; [apply gate_quiet_evict|apply evict_same|done].
  - by apply abort_swap_inv.
  - by apply Hph.
Qed.

Lemma set_task_insert j t ph f :
  fs_tasks f !! j = Some t → fs_tasks (set_task j ph f) = <[j := mkServeTask (st_sv t) ph]> (fs_tasks f).
Proof using Type.
  intros Hj. cbn. apply list_eq. intros k. destruct (decide (j = k)) as [<-|Hne].
  - rw list_lookup_alter_eq Hj list_lookup_insert_eq //. by eapply lookup_lt_Some.
  - by rw list_lookup_alter_ne // list_lookup_insert_ne.
Qed.

Lemma set_task_counts j t ph f l :
  fs_tasks f !! j = Some t →
  tasks l (set_task j ph f) = tasks l f ∧
  live_tasks l (set_task j ph f) + Nat.b2n (is_live l t) =
  live_tasks l f + Nat.b2n (is_live l (mkServeTask (st_sv t) ph)).
Proof using Type.
  intros Hj. unfold tasks, live_tasks. rw (set_task_insert j t ph f Hj). split.
  - pose proof (count_if_insert (of_serving l) (fs_tasks f) j t (mkServeTask (st_sv t) ph) Hj) as H.
    unfold of_serving in *. cbn in *. lia.
  - by apply count_if_insert.
Qed.

Lemma gate_quiet_task j t ph f :
  fs_tasks f !! j = Some t → st_phase t ≠ TEnded → ph ≠ TEnded → gate_quiet f (set_task j ph f).
Proof using Type.
  intros Hj Ht Hp. split; try done; [..|by eauto]; intros l;
    destruct (set_task_counts j t ph f l Hj) as [H1 H2]; [exact H1|].
  replace (is_live l (mkServeTask (st_sv t) ph)) with (is_live l t) in H2; [lia|].
  unfold is_live, of_serving. cbn. by destruct (st_phase t), ph.
Qed.

Lemma gate_quiet_emit e f :
  (∀ l, is_serve l e = false) → (∀ l, is_ending l e = false) → gate_quiet f (emit e f).
Proof using Type.
  intros Hs Ht. split; try done; [..|by eauto]; intros l; unfold terminals, serves; cbn;
    rw count_if_app /= ?Hs ?Ht; cbn; lia.
Qed.

Lemma task_ends_inv j t aborted f :
  gate_inv f → fs_tasks f !! j = Some t → st_phase t = TEvicted aborted →
  gate_inv (task_step j SeControl f).
Proof using Type.
  intros [H1 H2 H3 H4] Hj Ht. unfold task_step. rw Hj Ht. set (l := st_sv t). set (fx := if held f l then _ else _).
  assert (Hte : ∀ l', terminals l' (emit fx (set_task j TEnded f)) = terminals l' f + Nat.b2n (bool_decide (l = l'))).
  { intros l'. unfold terminals, emit, fx. cbn [fs_log set_task set_serve_tasks]. rw count_if_app.
    destruct (held f l), aborted; cbn; lia. }
  assert (Hse : ∀ l', serves l' (emit fx (set_task j TEnded f)) = serves l' f).
  { intros l'. unfold serves, emit, fx. cbn [fs_log set_task set_serve_tasks]. rw count_if_app.
    destruct (held f l), aborted; cbn; lia. }
  split; intros l'; destruct (set_task_counts j t TEnded f l' Hj) as [Hc Hl].
  - change (gates l' f + tasks l' (set_task j TEnded f) ≤ begun_of l' f). rw Hc. apply H1.
  - rw Hte. change (gates l' f + live_tasks l' (set_task j TEnded f) +
      (terminals l' f + Nat.b2n (bool_decide (l = l'))) ≤ begun_of l' f).
    specialize (H2 l'). replace (is_live l' t) with (bool_decide (l = l')) in Hl.
    2:{ unfold is_live, of_serving. by rw Ht andb_true_r. }
    replace (is_live l' (mkServeTask (st_sv t) TEnded)) with false in Hl; [cbn [Nat.b2n] in Hl; lia|].
    unfold is_live. by rw andb_false_r.
  - rw Hse. change (serves l' f = tasks l' (set_task j TEnded f)). by rw Hc.
  - intros s Hs Hr. change (1 ≤ tasks l' (set_task j TEnded f)). rw Hc. by eapply H4.
Qed.

Lemma task_step_gate j ev f : gate_inv f → gate_inv (task_step j ev f).
Proof using Type.
  intros Hinv. destruct (fs_tasks f !! j) as [t|] eqn:Hj; [|by unfold task_step; rw Hj].
  destruct (st_phase t) as [|ab|ab|] eqn:Ht.
  3: { replace (task_step j ev f) with (task_step j SeControl f) by (unfold task_step; by rw Hj Ht).
       by eapply task_ends_inv. }
  all: unfold task_step; rw Hj Ht; try done.
  - destruct ev as [|ok].
    + destruct (fs_servings f !! st_sv t) as [s|]; [|done].
      assert (Hu : ∀ q, gate_quiet f (upd_serving (st_sv t) (λ s, with_control (sv_begun s) (sv_rx s) q s) f))
        by (intros q; by apply gate_quiet_serving).
      destruct (sv_queue s) as [|[] q]; [done|..]; (eapply gate_quiet_inv; [done|]);
        (eapply gate_quiet_trans; [apply (Hu q)|]); [by apply gate_quiet_emit..|].
      eapply (gate_quiet_task j t); [done|by rw Ht|done].
    + eapply gate_quiet_inv; [done|]. eapply (gate_quiet_task j t); [done|by rw Ht|done].
  - destruct (fs_servings f !! st_sv t) as [s|]; [|done]. eapply gate_quiet_inv; [done|].
    eapply gate_quiet_trans; [apply (gate_quiet_evict (sv_txid s))|].
    eapply (gate_quiet_task j t); [|by rw Ht|done]. unfold evict. by repeat case_match.
Qed.

Lemma exec_gate_inv f op : gate_inv f → gate_inv (fetch_exec f op).
Proof using Type.
  intros Hinv. destruct op as [c|i resolved opened|j ev|i]; cbn.
  - assert (Hadd : ∀ h, (∀ l, is_gate l h = false) → gate_quiet f (set_handlers (fs_calls f ++ [h]) f)).
    { intros h Hg. split; try done; [|by eauto]. intros l. unfold gates. cbn.
      rw count_if_app /= Hg. cbn. lia. }
    assert (Hf : ∀ hex ctl what, gate_inv (handle_flow (length (fs_calls f)) hex ctl what
      (set_handlers (fs_calls f ++ [HCancelled]) f))).
    { intros hex ctl what. set (f1 := set_handlers _ f).
      assert (Hi : fs_calls f1 !! length (fs_calls f) = Some HCancelled).
      { cbn. by rw lookup_app_r // Nat.sub_diag. }
      unfold handle_flow. eapply gate_quiet_inv; [done|].
      repeat case_match; eapply (gate_quiet_then _ HCancelled); try done; try (by apply Hadd).
      - apply (gate_quiet_trans _ f1); [by apply Hadd|apply gate_quiet_send].
      - unfold send_control. by case_match. }
    destruct c; cbn; try (by eapply gate_quiet_inv, Hadd); apply Hf.
  - by apply handler_step_gate.
  - by apply task_step_gate.
  - destruct (fs_calls f !! i) as [h|] eqn:Hi; [|done].
    destruct (is_done h); [done|]. by eapply gate_quiet_inv, gate_quiet_phase.
Qed.

Lemma run_gate_inv ops : gate_inv (fetch_run ops).
Proof using Type.
  unfold fetch_run. induction ops as [|op ops IH] using rev_ind; [by split|].
  rw foldl_app. by apply exec_gate_inv.
Qed.

(** C24: one serving, one terminal operation.  In every interleaving of commands,
    handler steps, serving tasks and cancellations, a serving's provider is
    started at most once, and only after its begin gate was passed; its
    transaction is ended at most once, by finish or by abort; and a call that
    passed the gate always finds the control channel untouched, so the refusal
    the code marks unreachable is unreachable. *)
Theorem serving_once ops l :
  let f := fetch_run ops in
  serves l f ≤ begun_of l f ∧ begun_of l f ≤ 1 ∧ terminals l f ≤ begun_of l f ∧
  ∀ i s, fs_calls f !! i = Some (HGate l) → fs_servings f !! l = Some s →
    sv_begun s = true ∧ sv_rx s = true.
Proof using Type.
  intros f. destruct (run_gate_inv ops) as [H1 H2 H3 H4]. fold f in H1, H2, H3, H4. clearbody f.
  specialize (H1 l). specialize (H2 l). rw H3.
  assert (Hb : begun_of l f ≤ 1).
  { unfold begun_of. destruct (fs_servings f !! l) as [s|]; [|lia]. destruct (sv_begun s); cbn; lia. }
  split_and!; [lia|done|lia|]. intros i s Hi Hs.
  assert (Hg : 1 ≤ gates l f).
  { eapply count_if_pos; [by eapply list_elem_of_lookup_2|]. cbn. by apply bool_decide_eq_true. }
  split.
  - destruct (sv_begun s) eqn:Hbs; [done|]. unfold begun_of in H1. rw Hs Hbs in H1. cbn in H1. lia.
  - destruct (sv_rx s) eqn:Hr; [done|]. specialize (H4 l s Hs Hr). lia.
Qed.

(** ** The tables agree, so the terminal operation is reached *)

Definition ident s : string * txid := (sv_uri s, sv_txid s).
Definition idents f : list (string * txid) := ident <$> fs_servings f.

Record tables_inv f : Prop := {
  ti_txid : ∀ id l, fs_by_txid f !! id = Some l → ∃ u, idents f !! l = Some (u, id);
  ti_uri : ∀ u l, fs_by_uri f !! u = Some (Ready l) →
    ∃ id, idents f !! l = Some (u, id) ∧ fs_by_txid f !! id = Some l;
  ti_calls : ∀ i u slot l, fs_calls f !! i = Some (HResolved u slot (Ok l)) →
    ∃ id, idents f !! l = Some (u, id);
}.

(** The service never asks for two sinks under one id. *)
Definition distinct_ids f : Prop := NoDup (sv_txid <$> fs_servings f).

Lemma distinct_lookup f l l' u u' id :
  distinct_ids f → idents f !! l = Some (u, id) → idents f !! l' = Some (u', id) → l = l'.
Proof using Type.
  unfold idents. rw !list_lookup_fmap. intros Hd Hl Hl'. apply (NoDup_lookup _ _ _ id Hd);
    rw list_lookup_fmap; [destruct (fs_servings f !! l)|destruct (fs_servings f !! l')];
    try done; unfold ident in *; cbn in *; congruence.
Qed.

(** Steps that add no ready uri and leave the transaction table alone. *)
Lemma tables_frame f f' :
  tables_inv f → fs_by_txid f' = fs_by_txid f →
  (∀ u l, fs_by_uri f' !! u = Some (Ready l) → fs_by_uri f !! u = Some (Ready l)) →
  idents f `prefix_of` idents f' →
  (∀ i u slot l, fs_calls f' !! i = Some (HResolved u slot (Ok l)) →
    (∃ j, fs_calls f !! j = Some (HResolved u slot (Ok l))) ∨ ∃ id, idents f' !! l = Some (u, id)) →
  tables_inv f'.
Proof using Type.
  intros [H1 H2 H3] Ht Hu Hp Hc. split.
  - intros id l. rw Ht. intros (u & Hl)%H1. exists u. by eapply prefix_lookup_Some.
  - intros u l (id & Hl & Hid)%Hu%H2. exists id. rw Ht. split; [by eapply prefix_lookup_Some|done].
  - intros i u slot l [(j & (id & Hl)%H3)|Hid]%Hc; [|done]. exists id. by eapply prefix_lookup_Some.
Qed.

Lemma idents_alter l g f :
  (∀ s, ident (g s) = ident s) → idents (upd_serving l g f) = idents f.
Proof using Type.
  intros Hg. unfold idents, upd_serving. cbn [fs_servings set_servings].
  rw (list_fmap_alter ident g id); [by apply Forall_true|]. by apply list_alter_id.
Qed.

(** A call that goes to a phase which is not the end of a resolve. *)
Lemma tables_phase i h f f' :
  tables_inv f → fs_by_txid f' = fs_by_txid f →
  (∀ u l, fs_by_uri f' !! u = Some (Ready l) → fs_by_uri f !! u = Some (Ready l)) →
  idents f `prefix_of` idents f' → fs_calls f' = fs_calls f →
  (∀ u slot l, h = HResolved u slot (Ok l) → ∃ id, idents f' !! l = Some (u, id)) →
  tables_inv (to_phase i h f').
Proof using Type.
  intros Hi Ht Hu Hp Hc Hh. apply (tables_frame f); try done.
  intros j u slot l Hj. cbn in Hj. rw Hc in Hj.
  destruct (decide (i = j)) as [<-|Hne].
  - apply list_lookup_insert_Some in Hj as [(_ & -> & _)|[? _]]; [|done]. right. by eapply Hh.
  - rw list_lookup_insert_ne // in Hj. left. by exists j.
Qed.

Lemma evict_tables id f :
  distinct_ids f → tables_inv f → tables_inv (evict id f).
Proof using Type.
  intros Hd [H1 H2 H3]. unfold evict. destruct (fs_by_txid f !! id) as [l|] eqn:Hl; [|done].
  destruct (fs_servings f !! l) as [s|] eqn:Hs; [|done].
  assert (Hil : idents f !! l = Some (sv_uri s, id)).
  { destruct (H1 id l Hl) as [u Hu]. unfold idents, ident in *. rw list_lookup_fmap Hs in Hu |- *.
    cbn in *. congruence. }
  split; cbn [fs_by_txid fs_by_uri fs_calls set_tables].
  - intros id' l' [_ Hl']%lookup_delete_Some. by apply H1.
  - intros u l' Hr.
    assert (Hr0 : fs_by_uri f !! u = Some (Ready l')).
    { repeat case_match; try done. by apply lookup_delete_Some in Hr as []. }
    destruct (H2 u l' Hr0) as (id' & Hi' & Ht'). exists id'. split; [exact Hi'|].
    apply lookup_delete_Some. split; [|done]. intros <-.
    assert (l' = l) as -> by by rw Hl in Ht'; injection Ht'.
    rw Hil in Hi'. injection Hi' as <-. rw Hr0 Hs in Hr.
    assert (Hid : sv_txid s = id). { unfold idents in Hil. rw list_lookup_fmap Hs in Hil. by injection Hil. }
    destruct (decide _); [|done]. by rw lookup_delete_eq in Hr.
  - exact H3.
Qed.

Lemma fill_tables_inv i uri slot o f :
  distinct_ids f → tables_inv f → fs_calls f !! i = Some (HResolved uri slot o) →
  tables_inv (fill_tables i uri slot o f).
Proof using Type.
  intros Hd Hi Hc. pose proof Hi as [H1 H2 H3]. unfold fill_tables. destruct o as [l|e].
  - destruct (H3 i uri slot l Hc) as [id Hl].
    destruct (fs_servings f !! l) as [s|] eqn:Hs; [|by eapply tables_phase].
    assert (sv_txid s = id) as ->.
    { unfold idents in Hl. rw list_lookup_fmap Hs in Hl. by injection Hl. }
    set (f1 := set_tables _ _ f). assert (Hi1 : tables_inv f1); [|by eapply tables_phase].
    split; cbn [f1 fs_by_txid fs_by_uri fs_calls set_tables].
    + intros id' l' [[<- <-]|[_ Hl']]%lookup_insert_Some; [by exists uri|by apply H1].
    + intros u l' [[<- [= <-]]|[_ Hr]]%lookup_insert_Some.
      * exists id. split; [exact Hl|]. apply lookup_insert_eq.
      * destruct (H2 u l' Hr) as (id' & Hi' & Ht'). exists id'. split; [exact Hi'|].
        apply lookup_insert_Some. destruct (decide (id = id')) as [<-|Hne]; [left|by right].
        split; [done|]. by eapply distinct_lookup.
    + exact H3.
  - destruct (fs_by_uri f !! uri) as [[slot'|?]|] eqn:Hu; try by eapply tables_phase.
    destruct (decide _); [|by eapply tables_phase].
    eapply tables_phase; try done. intros u l Hr. cbn in Hr. by apply lookup_delete_Some in Hr as [].
Qed.

Lemma send_control_tables l ctl f :
  fs_by_txid (send_control l ctl f) = fs_by_txid f ∧ fs_by_uri (send_control l ctl f) = fs_by_uri f ∧
  idents (send_control l ctl f) = idents f ∧ fs_calls (send_control l ctl f) = fs_calls f.
Proof using Type.
  unfold send_control. destruct (task_over f l); [done|]. split_and!; try done. by apply idents_alter.
Qed.

Lemma build_tables uri r opened f f' o :
  build_serving uri r opened f = (f', o) →
  fs_by_txid f' = fs_by_txid f ∧ fs_by_uri f' = fs_by_uri f ∧ fs_calls f' = fs_calls f ∧
  idents f `prefix_of` idents f' ∧
  ∀ l, o = Ok l → ∃ id, idents f' !! l = Some (uri, id).
Proof using Type.
  unfold build_serving. repeat case_match; intros [= <- <-]; split_and!; try done.
  - unfold idents. cbn. rw fmap_app. by apply prefix_app_r.
  - intros l [= <-]. exists a. unfold idents. cbn. rw fmap_app lookup_app_r ?length_fmap //.
    by rw Nat.sub_diag.
Qed.

Lemma handler_step_tables i resolved opened f :
  distinct_ids f → tables_inv f → tables_inv (handler_step i resolved opened f).
Proof using Type.
  intros Hd Hi. unfold handler_step. destruct (fs_calls f !! i) as [h|] eqn:Hc; [|done].
  assert (Hq : ∀ h', (∀ u slot l, h' ≠ HResolved u slot (Ok l)) → tables_inv (to_phase i h' f)).
  { intros h' Hh. eapply tables_phase; try done. intros u slot l ->. by destruct (Hh u slot l). }
  destruct h; cbn; try done; try (by apply Hq).
  - unfold fetch_lookup. repeat case_match; by apply Hq.
  - unfold fetch_lookup, insert_placeholder. destruct (fs_by_uri f !! uri) as [[]|] eqn:Hu; try by apply Hq.
    eapply (tables_phase _ _ f); try done. intros u l Hr. cbn in Hr.
    by apply lookup_insert_Some in Hr as [[_ ?]|[_ ?]].
  - repeat case_match; by apply Hq.
  - unfold resolve_done. destruct resolved as [r|e]; [|by apply Hq].
    destruct (build_serving uri r opened f) as [f' o] eqn:Hb.
    apply build_tables in Hb as (H1 & H2 & H3 & H4 & H5).
    eapply (tables_phase _ _ f); try done; [by rw H2|]. intros u sl l [= <- _ ->]. by apply H5.
  - by apply fill_tables_inv.
  - by eapply (tables_phase _ _ f).
  - eapply (tables_frame f); try done. intros j u sl l. cbn. intros Hj. left.
    destruct (decide (i = j)) as [<-|Hne].
    + apply list_lookup_insert_Some in Hj as [(_ & ? & _)|[? _]]; done.
    + rw list_lookup_insert_ne // in Hj. cbn in Hj. rw list_lookup_fmap in Hj.
      exists j. destruct (fs_calls f !! j) as [x|]; [|done]. destruct x; cbn in Hj; try done.
      by case_decide.
  - unfold begin_gate. repeat case_match; try done; try by apply Hq.
    eapply (tables_phase _ _ f); try done. by rw idents_alter.
  - unfold begin_spawn. repeat case_match; try done; try by apply Hq.
    eapply (tables_phase _ _ f); try done. 
    change (idents f `prefix_of` idents (upd_serving sv (λ s, with_control (sv_begun s) false (sv_queue s) s) f)).
    by rw idents_alter.
  - unfold abort_remove. repeat case_match; try by apply Hq.
    eapply (tables_phase _ _ (evict _ f)); try done. by apply evict_tables.
  - unfold abort_swap. destruct (fs_servings f !! sv) as [s|]; [|done]. set (f' := upd_serving _ _ f).
    assert (Hid : idents f' = idents f) by by apply idents_alter.
    destruct (sv_begun s).
    + destruct (send_control_tables sv CAbort f') as (H1 & H2 & H3 & H4).
      eapply (tables_phase _ _ f); try done; [by rw H2|by rw H3 Hid].
    + assert (Ht : tables_inv (to_phase i (HDone (Ok acknowledge)) f'));
        [by eapply (tables_phase _ _ f); try done; rw Hid|].
      by destruct Ht.
Qed.

Lemma task_step_tables j ev f :
  distinct_ids f → tables_inv f → tables_inv (task_step j ev f).
Proof using Type.
  intros Hd Hi. unfold task_step. destruct (fs_tasks f !! j) as [t|]; [|done].
  destruct (st_phase t); [destruct ev| | |]; try done; try by destruct Hi.
  - destruct (fs_servings f !! st_sv t) as [s|]; [|done].
    assert (Hu : ∀ q, tables_inv (upd_serving (st_sv t) (λ s, with_control (sv_begun s) (sv_rx s) q s) f)).
    { intros q. apply (tables_frame f); try done; [by rw idents_alter|by eauto]. }
    destruct (sv_queue s) as [|[] q]; [done|..]; by destruct (Hu q).
  - destruct (fs_servings f !! st_sv t) as [s|]; [|done]. by destruct (evict_tables (sv_txid s) f Hd Hi).
Qed.

Lemma exec_tables f op : distinct_ids f → tables_inv f → tables_inv (fetch_exec f op).
Proof using Type.
  intros Hd Hi. destruct op as [c|i resolved opened|j ev|i]; cbn.
  - assert (Hadd : ∀ h, (∀ u slot l, h ≠ HResolved u slot (Ok l)) →
      tables_inv (set_handlers (fs_calls f ++ [h]) f)).
    { intros h Hh. apply (tables_frame f); try done. cbn. intros i u sl l Hl. left. exists i.
      apply lookup_snoc_Some in Hl as [[_ ?]|[_ Hl]]; [done|]. by destruct (Hh u sl l). }
    assert (Hflow : ∀ hex ctl what, tables_inv (handle_flow (length (fs_calls f)) hex ctl what
      (set_handlers (fs_calls f ++ [HCancelled]) f))).
    { intros hex ctl what. set (f1 := set_handlers _ f). unfold handle_flow.
      assert (Hf1 : tables_inv f1) by by apply Hadd.
      repeat case_match; try by eapply (tables_phase _ _ f1).
      destruct (send_control_tables n ctl f1) as (H1 & H2 & H3 & H4).
      eapply (tables_phase _ _ f1); try done; [by rw H2|by rw H3]. }
    destruct c; cbn; try (by apply Hadd); apply Hflow.
  - by apply handler_step_tables.
  - by apply task_step_tables.
  - destruct (fs_calls f !! i) as [h|]; [|done]. destruct (is_done h); [done|].
    by eapply (tables_phase _ _ f).
Qed.

(** Servings are only ever added. *)
Lemma exec_idents f op : idents f `prefix_of` idents (fetch_exec f op).
Proof using Type.
  assert (Heq : ∀ f', idents f' = idents f → idents f `prefix_of` idents f') by by intros f' ->.
  assert (Hs : ∀ l ctl g, idents (send_control l ctl g) = idents g) by (intros; apply send_control_tables).
  assert (He : ∀ id g, idents (evict id g) = idents g).
  { intros id g. unfold evict. by repeat case_match. }
  assert (Hw : ∀ l b rx q g, idents (upd_serving l (λ s, with_control (b s) (rx s) (q s) s) g) = idents g).
  { intros. by apply idents_alter. }
  destruct op as [c|i resolved opened|j ev|i]; cbn.
  - destruct c; cbn; try done; unfold handle_flow; repeat case_match; try done;
      (apply Heq; etrans; [exact (Hs _ _ _)|done]).
  - unfold handler_step. destruct (fs_calls f !! i) as [h|]; [|done].
    destruct h; unfold fetch_lookup, insert_placeholder, fill_tables; try done; try (by repeat case_match).
    + unfold resolve_done. destruct resolved as [r|e]; [|done].
      destruct (build_serving uri r opened f) as [f' o] eqn:Hb. by apply build_tables in Hb as (_ & _ & _ & ? & _).
    + unfold begin_gate. repeat case_match; try done. apply Heq, (Hw _ (λ _, true) sv_rx sv_queue).
    + unfold begin_spawn. repeat case_match; try done. apply Heq, (Hw _ sv_begun (λ _, false) sv_queue).
    + unfold abort_remove. repeat case_match; try done. exact (Heq _ (He _ _)).
    + unfold abort_swap. pose proof (Hw sv (λ _, true) sv_rx sv_queue f) as Hsv.
      repeat case_match; try done;
        first [exact (Heq _ Hsv)|apply Heq; etrans; [exact (Hs _ _ _)|exact Hsv]].
  - unfold task_step. repeat case_match; try done;
      first [exact (Heq _ (He _ _))|exact (Heq _ (Hw _ sv_begun sv_rx (λ _, _) _))].
  - by repeat case_match.
Qed.

Lemma distinct_before f op : distinct_ids (fetch_exec f op) → distinct_ids f.
Proof using Type.
  unfold distinct_ids. destruct (exec_idents f op) as [k Hk].
  assert (Hs : ∀ g, sv_txid <$> fs_servings g = (idents g).*2) by (intros g; unfold idents; by rw -list_fmap_compose).
  rw !Hs Hk fmap_app. by intros [? _]%NoDup_app.
Qed.

Lemma run_tables ops : distinct_ids (fetch_run ops) → tables_inv (fetch_run ops).
Proof using Type.
  induction ops as [|op ops IH] using rev_ind; [intros _; split; cbn; try done|].
  rw fetch_run_app. cbn [foldl]. intros Hd%distinct_before. apply exec_tables; [done|by apply IH].
Qed.

(** With no call under way, an evicted serving is held by its task alone. *)
Lemma evicted_unheld f l u id :
  distinct_ids f → tables_inv f → idents f !! l = Some (u, id) →
  Forall (λ h, is_done h = true) (fs_calls f) → held (evict id f) l = false.
Proof using Type.
  intros Hd Hi Hl Hc. pose proof (evict_tables id f Hd Hi) as [T1 T2 _].
  assert (Hsame : idents (evict id f) = idents f ∧ fs_calls (evict id f) = fs_calls f ∧
                  fs_by_txid (evict id f) !! id = None).
  { unfold evict. destruct (fs_by_txid f !! id) as [l'|] eqn:Ht; [|done].
    destruct (ti_txid f Hi id l' Ht) as [u' Hl']. unfold idents in Hl'. rw list_lookup_fmap in Hl'.
    destruct (fs_servings f !! l'); [|done]. split_and!; try done. cbn. apply lookup_delete_eq. }
  destruct Hsame as (Hid & Hca & Hn). unfold held. rw Hca.
  assert (Hno : ∀ id', fs_by_txid (evict id f) !! id' ≠ Some l).
  { intros id' Ht. destruct (T1 id' l Ht) as [u' Hl']. rw Hid Hl in Hl'. injection Hl' as <- <-. by rw Hn in Ht. }
  rw Forall_forall in Hc. rw !orb_false_iff. split_and!; apply existsb_false.
  - intros [u' e] Hin%elem_of_map_to_list. apply bool_decide_eq_false. cbn. intros ->.
    destruct (T2 u' l Hin) as (id' & _ & Ht). by destruct (Hno id').
  - intros [id' l'] Hin%elem_of_map_to_list. apply bool_decide_eq_false. cbn. intros ->. by destruct (Hno id').
  - intros h Hh. specialize (Hc h Hh). by destruct h.
  - intros slot _. repeat case_match; try done. rw andb_false_iff. right. apply existsb_false.
    intros h Hh. specialize (Hc h Hh). by destruct h.
Qed.

Lemma task_serving j t f :
  gate_inv f → fs_tasks f !! j = Some t → ∃ s, fs_servings f !! st_sv t = Some s.
Proof using Type.
  intros [H1 _ _ _] Hj. specialize (H1 (st_sv t)).
  assert (Ht : 1 ≤ tasks (st_sv t) f).
  { eapply count_if_pos; [by eapply list_elem_of_lookup_2|]. by apply bool_decide_eq_true. }
  unfold begun_of in H1. destruct (fs_servings f !! st_sv t) as [s|]; [by exists s|lia].
Qed.

(** C25: the terminal operation is forced.  In every interleaving whose sinks have
    distinct ids, a serving task that left its loop (the provider ended, failed,
    panicked, or an abort arrived) evicts its serving and ends the transaction in
    its next two steps, if no handler call is under way at that moment: it
    finishes the sink after a success and aborts it otherwise. *)
Theorem terminal_forced ops j t aborted ev1 ev2 :
  let f := fetch_run ops in
  distinct_ids f → Forall (λ h, is_done h = true) (fs_calls f) →
  fs_tasks f !! j = Some t → st_phase t = TLeft aborted →
  let f' := task_step j ev2 (task_step j ev1 f) in
  fs_log f' = fs_log f ++ [if aborted then FxAbort (st_sv t) else FxFinish (st_sv t)] ∧
  fs_tasks f' !! j = Some (mkServeTask (st_sv t) TEnded).
Proof using Type.
  intros f Hd Hc Hj Ht. pose proof (run_tables ops Hd) as Hi. pose proof (run_gate_inv ops) as Hg.
  fold f in Hi, Hg. clearbody f. destruct (task_serving j t f Hg Hj) as [s Hs]. cbn zeta.
  assert (Hl : idents f !! st_sv t = Some (sv_uri s, sv_txid s)) by (unfold idents; by rw list_lookup_fmap Hs).
  pose proof (evicted_unheld f _ _ _ Hd Hi Hl Hc) as Hh.
  assert (Hl1 : fs_log (evict (sv_txid s) f) = fs_log f ∧ fs_tasks (evict (sv_txid s) f) = fs_tasks f)
    by (unfold evict; by repeat case_match).
  destruct Hl1 as [Hlog Htk]. unfold task_step at 2 4. rw Hj Ht Hs.
  generalize dependent (evict (sv_txid s) f). intros f1 Hh Hlog Htk.
  unfold task_step. cbn [set_task set_serve_tasks fs_tasks]. rw Htk list_lookup_alter_eq Hj.
  cbn [fmap option_fmap option_map st_phase st_sv].
  change (held (set_task _ _ f1) (st_sv t)) with (held f1 (st_sv t)). rw Hh.
  cbn [fs_log emit set_task set_serve_tasks fs_tasks]. rw Hlog Htk. split; [done|].
  by rw !list_lookup_alter_eq Hj.
Qed.

(** The log is append-only. *)
Lemma exec_log f op : fs_log f `prefix_of` fs_log (fetch_exec f op).
Proof using Type.
  assert (He : ∀ id, fs_log (evict id f) = fs_log f) by (intros id; unfold evict; by repeat case_match).
  assert (Hs : ∀ l ctl g, fs_log (send_control l ctl g) = fs_log g)
    by (intros l ctl g; unfold send_control; by case_match).
  destruct op as [c|i resolved opened|j ev|i]; cbn.
  - destruct c; cbn; try done; unfold handle_flow; repeat case_match; try done; cbn; by rw Hs.
  - unfold handler_step. repeat case_match; try done;
      unfold fetch_lookup, insert_placeholder, resolve_done, build_serving, fill_tables, begin_gate,
        begin_spawn, abort_remove, abort_swap;
      repeat case_match; simplify_eq/=; try done; rw ?He ?Hs //; by apply prefix_app_r.
  - unfold task_step. repeat case_match; try done; cbn; rw ?He //; by apply prefix_app_r.
  - by repeat case_match.
Qed.

Lemma terminals_le ops l : terminals l (fetch_run ops) ≤ 1.
Proof using Type.
  destruct (run_gate_inv ops) as [_ H _ _]. specialize (H l). unfold begun_of in H.
  destruct (fs_servings (fetch_run ops) !! l) as [s|]; [|lia]. destruct (sv_begun s); cbn in H; lia.
Qed.

(** a skipped terminal operation is never made up for.  When the serving task
    (or an abort) finds the sink still shared, as happens when it ends while the
    call that began or aborted the serving still holds it, it skips the terminal
    operation: whatever happens later, the transaction is neither finished nor
    aborted. *)
Theorem terminal_skipped ops later l :
  FxSkipped l ∈ fs_log (fetch_run ops) →
  let log := fs_log (fetch_run (ops ++ later)) in
  (FxFinish l ∉ log) ∧ (FxAbort l ∉ log).
Proof using Type.
  intros Hsk. cbn zeta.
  assert (Hin : FxSkipped l ∈ fs_log (fetch_run (ops ++ later))).
  { rw fetch_run_app. revert Hsk. generalize (fetch_run ops). induction later as [|op later IH]; [done|].
    intros f Hf. cbn. apply IH. eapply elem_of_prefix; [exact Hf|apply exec_log]. }
  pose proof (terminals_le (ops ++ later) l) as Ht. unfold terminals in Ht.
  generalize dependent (fs_log (fetch_run (ops ++ later))). intros log Hin Ht.
  assert (Hone : ∀ e, is_ending l e = true → e ∈ log → e = FxSkipped l).
  { intros e He Hel. apply (count_if_unique (is_ending l) log); try done. by apply bool_decide_eq_true. }
  assert (Hl : bool_decide (l = l) = true) by by apply bool_decide_eq_true.
  split; intros Hx; [by specialize (Hone (FxFinish l) Hl Hx)|by specialize (Hone (FxAbort l) Hl Hx)].
Qed.

(** ** Waiting on a resolve slot *)

(** The phases outside [handle_fetch]. *)
Definition aside (h : Handler) : Prop :=
  match h with HGate _ | HSpawned _ | HRemoved _ | HSent _ | HDone _ => True | _ => False end.

(** The phase a call in phase [h] goes to. *)
Definition next_ok f (h h' : Handler) : Prop :=
  match h with
  | HFetch uri | HMiss uri =>
      match fs_by_uri f !! uri with
      | Some (Ready _) => aside h'
      | Some (Resolving slot) => h' = HCheck slot
      | None => h' = match h with HFetch _ => HMiss uri | _ => HResolve uri (length (fs_slots f)) end
      end
  | HCheck slot =>
      match fs_slots f !! slot with
      | Some (Some _) => aside h'
      | _ => h' = HSeenNone slot
      end
  | HSeenNone slot | HParked slot => h' = HParked slot
  | HResolve uri slot => ∃ o, h' = HResolved uri slot o
  | HResolved uri slot o => ∃ r, h' = HFilled slot o r
  | HFilled slot o r => h' = HStored slot o r
  | HCancelled => h' = HCancelled
  | HBegin _ | HAbort _ => aside h' ∨ h' = h
  | _ => aside h'
  end.

(** What the other calls see of a step: a notification, at most. *)
Definition seen (h : Handler) (x : Handler) : Handler :=
  match h, x with
  | HStored slot _ _, HParked slot' => if decide (slot' = slot) then HCheck slot else x
  | _, _ => x
  end.

Definition steps_to i f f' : Prop :=
  ∀ h, fs_calls f !! i = Some h →
    (∃ h', fs_calls f' !! i = Some h' ∧ next_ok f h h') ∧
    ∀ j, j ≠ i → fs_calls f' !! j = seen h <$> fs_calls f !! j.

Lemma steps_to_phase i h h' f f' :
  fs_calls f !! i = Some h → fs_calls f' = fs_calls f → next_ok f h h' →
  (∀ x, seen h x = x) → steps_to i f (to_phase i h' f').
Proof using Type.
  intros Hi Hc Hn Hs h0 Hi0. rw Hi in Hi0. injection Hi0 as <-. cbn. rw Hc. split.
  - exists h'. split; [|done]. apply list_lookup_insert_eq. by eapply lookup_lt_Some.
  - intros j Hj. rw list_lookup_insert_ne //. destruct (fs_calls f !! j); cbn; by rw ?Hs.
Qed.

Lemma steps_to_same i h f :
  fs_calls f !! i = Some h → next_ok f h h → (∀ x, seen h x = x) → steps_to i f f.
Proof using Type.
  intros Hi Hn Hs h0 Hi0. rw Hi in Hi0. injection Hi0 as <-. split; [by eauto|].
  intros j _. destruct (fs_calls f !! j); cbn; by rw ?Hs.
Qed.

Lemma seen_other h x : (∀ slot o r, h ≠ HStored slot o r) → seen h x = x.
Proof using Type. intros Hn. destruct h; try done. by destruct (Hn slot o r). Qed.

Lemma handler_steps_to i resolved opened f : steps_to i f (handler_step i resolved opened f).
Proof using Type.
  destruct (fs_calls f !! i) as [h|] eqn:Hi; [|intros h Hi'; by rw Hi in Hi'].
  unfold handler_step. rw Hi.
  destruct h as [uri|uri|slot|slot|slot|uri slot|uri slot o|slot o r|slot o r|hex|l|l|hex|l|l|r|].
  - unfold fetch_lookup. destruct (fs_by_uri f !! uri) as [[]|] eqn:Hu;
      (eapply (steps_to_phase i (HFetch uri)); [done|done|cbn; by rw Hu|done]).
  - unfold fetch_lookup, insert_placeholder. destruct (fs_by_uri f !! uri) as [[]|] eqn:Hu;
      (eapply (steps_to_phase i (HMiss uri)); [done|done|cbn; by rw Hu|done]).
  - repeat case_match; (eapply (steps_to_phase i (HCheck slot)); [done|done|cbn|done]); by simplify_option_eq.
  - by eapply steps_to_phase.
  - by eapply steps_to_same.
  - unfold resolve_done. destruct resolved as [r|e].
    + pose proof (build_same uri r opened f) as [Hc _]. destruct (build_serving uri r opened f) as [f' o].
      eapply (steps_to_phase i (HResolve uri slot)); [done|done|by eexists|done].
    + eapply (steps_to_phase i (HResolve uri slot)); [done|done|by eexists|done].
  - unfold fill_tables. eapply (steps_to_phase i (HResolved uri slot o)); [done| |by eexists|done].
    by repeat case_match.
  - by eapply steps_to_phase.
  - intros h Hi'. rw Hi in Hi'. injection Hi' as <-. cbn. split.
    + exists (HDone (Ok r)). split; [|done]. apply list_lookup_insert_eq. rw length_fmap.
      by eapply lookup_lt_Some.
    + intros j Hj. rw list_lookup_insert_ne // list_lookup_fmap. done.
  - unfold begin_gate. repeat case_match; try (eapply (steps_to_phase i (HBegin hex)); [done..|by left|done]).
    eapply steps_to_same; [done|by right|done].
  - unfold begin_spawn. destruct (fs_servings f !! l) as [s|]; [|by eapply steps_to_same].
    destruct (sv_rx s); by eapply steps_to_phase.
  - by eapply steps_to_phase.
  - unfold abort_remove. repeat case_match;
      (eapply (steps_to_phase i (HAbort hex)); [done|try done|by left|done]); apply evict_same.
  - unfold abort_swap. destruct (fs_servings f !! l) as [s|]; [|by eapply steps_to_same].
    destruct (sv_begun s).
    + eapply (steps_to_phase i (HRemoved l)); [done| |done|done]. unfold send_control. by case_match.
    + apply (steps_to_phase i (HRemoved l) (HDone (Ok acknowledge)) f
        (upd_serving l (λ s, with_control true (sv_rx s) (sv_queue s) s) f)); done.
  - by eapply steps_to_phase.
  - by eapply (steps_to_same i (HDone r)).
  - by eapply (steps_to_same i HCancelled).
Qed.

(** How any operation moves the calls there were. *)
Lemma exec_calls f op j h :
  fs_calls f !! j = Some h →
  ∃ h', fs_calls (fetch_exec f op) !! j = Some h' ∧
    (h' = h ∨ next_ok f h h' ∨ h' = HCancelled ∨
     ∃ i slot o r, h = HParked slot ∧ h' = HCheck slot ∧ fs_calls f !! i = Some (HStored slot o r)).
Proof using Type.
  intros Hj. destruct op as [c|i resolved opened|k ev|i]; cbn.
  - exists h. split; [|by left].
    assert (Hl : ∀ x, (fs_calls f ++ [x]) !! j = Some h) by (intros x; rw lookup_app_l //; by eapply lookup_lt_Some).
    assert (Hne : j ≠ length (fs_calls f)) by (apply lookup_lt_Some in Hj; lia).
    assert (Hf : ∀ hex ctl what, fs_calls (handle_flow (length (fs_calls f)) hex ctl what
      (set_handlers (fs_calls f ++ [HCancelled]) f)) !! j = Some h).
    { intros hex ctl what. unfold handle_flow, send_control.
      repeat case_match; cbn; rw list_lookup_insert_ne; by auto. }
    destruct c; cbn; auto.
  - destruct (decide (i = j)) as [->|Hne].
    + destruct (handler_steps_to j resolved opened f h Hj) as [(h' & Hh & Hn) _]. exists h'. by auto.
    + destruct (fs_calls f !! i) as [hi|] eqn:Hi.
      2:{ unfold handler_step. rw Hi. exists h. by auto. }
      destruct (handler_steps_to i resolved opened f hi Hi) as [_ Ho]. rw Ho // Hj. cbn.
      exists (seen hi h). split; [done|]. destruct hi; try (by left). destruct h; try (by left). cbn.
      destruct (decide _) as [->|]; [|by left]. do 3 right. by eexists i, _, _, _.
  - destruct (task_step_same k ev f) as [-> _]. exists h. by auto.
  - destruct (fs_calls f !! i) as [hi|] eqn:Hi; [|exists h; by auto].
    destruct (is_done hi); [exists h; by auto|]. cbn. destruct (decide (i = j)) as [->|Hne].
    + exists HCancelled. rw list_lookup_insert_eq; [by eapply lookup_lt_Some|]. by auto.
    + exists h. rw list_lookup_insert_ne //. by auto.
Qed.

(** A parked call that nobody is left to notify. *)
Definition forgotten (slot : nat) f : Prop :=
  slot < length (fs_slots f) ∧ ∀ i h, fs_calls f !! i = Some h → owns slot h = false.

Lemma next_owns f h h' slot :
  next_ok f h h' → owns slot h' = true → owns slot h = true ∨ slot = length (fs_slots f).
Proof using Type.
  destruct h; cbn; intros Hn Ho;
    try (destruct (fs_by_uri f !! uri) as [[]|]; [by subst h'|by destruct h'|subst h'; cbn in Ho]);
    try (destruct (fs_slots f !! _) as [[]|]);
    try (by destruct h'); try (by subst h'); try done.
  - right. by apply bool_decide_eq_true in Ho.
  - destruct Hn as [o ->]. by left.
  - destruct Hn as [r ->]. by left.
  - subst h'. by left.
  - destruct Hn as [Hn| ->]; [by destruct h'|done].
  - destruct Hn as [Hn| ->]; [by destruct h'|done].
Qed.

(** Only an existing owner, or a fresh slot, makes an owner. *)
Lemma exec_owner f op j h' slot :
  fs_calls (fetch_exec f op) !! j = Some h' → owns slot h' = true →
  slot = length (fs_slots f) ∨ ∃ h, fs_calls f !! j = Some h ∧ owns slot h = true.
Proof using Type.
  intros Hj Ho. destruct (fs_calls f !! j) as [h|] eqn:Hh.
  - destruct (exec_calls f op j h Hh) as (h2 & Hj2 & Hc). rw Hj in Hj2. injection Hj2 as <-.
    destruct Hc as [->|[Hn|[->|(i & sl & o & r & _ & -> & _)]]]; [by eauto| |done|done].
    destruct (next_owns f h h' slot Hn Ho) as [?| ->]; [|by left]. by eauto.
  - exfalso. destruct op as [c|i resolved opened|k ev|i]; cbn in Hj.
    + assert (Hx : ∀ x, (fs_calls f ++ [x]) !! j = Some h' → x = h').
      { intros x [Hx|[_ Hx]]%lookup_app_Some; [by rw Hh in Hx|].
        by apply list_elem_of_lookup_2, list_elem_of_singleton in Hx. }
      destruct c; cbn in Hj; try (apply Hx in Hj; subst h'; done);
        unfold handle_flow, send_control in Hj; repeat case_match; cbn in Hj;
        apply list_lookup_insert_Some in Hj as [(_ & <- & _)|[_ Hj]]; try done; by apply Hx in Hj as <-.
    + destruct (fs_calls f !! i) as [hi|] eqn:Hi; [|unfold handler_step in Hj; rw Hi in Hj; by rw Hh in Hj].
      destruct (decide (i = j)) as [->|Hne]; [by rw Hi in Hh|].
      destruct (handler_steps_to i resolved opened f hi Hi) as [_ Hs]. by rw Hs // Hh in Hj.
    + destruct (task_step_same k ev f) as [Hs _]. by rw Hs Hh in Hj.
    + destruct (fs_calls f !! i) as [hi|] eqn:Hi; [|by rw Hh in Hj].
      destruct (is_done hi); [by rw Hh in Hj|]. cbn in Hj.
      apply list_lookup_insert_Some in Hj as [(<- & <- & _)|[_ Hj]]; [done|by rw Hh in Hj].
Qed.

Lemma exec_slots_length f op : length (fs_slots f) ≤ length (fs_slots (fetch_exec f op)).
Proof using Type.
  destruct op as [c|i resolved opened|k ev|i]; cbn.
  - destruct c; cbn; try done; unfold handle_flow, send_control; by repeat case_match.
  - unfold handler_step. destruct (fs_calls f !! i) as [[]|]; cbn; try done.
    + unfold fetch_lookup. by repeat case_match.
    + unfold fetch_lookup. repeat case_match; cbn; rw ?length_app; lia.
    + by repeat case_match.
    + unfold resolve_done. destruct resolved as [rr|]; [|done].
      pose proof (build_same uri rr opened f) as (_ & Hs & _).
      destruct (build_serving uri rr opened f). cbn in *. by rw Hs.
    + unfold fill_tables. by repeat case_match.
    + by rw length_insert.
    + unfold begin_gate. by repeat case_match.
    + unfold begin_spawn. by repeat case_match.
    + unfold abort_remove, evict. by repeat case_match.
    + unfold abort_swap, send_control. by repeat case_match.
  - by destruct (task_step_same k ev f) as (_ & -> & _).
  - by repeat case_match.
Qed.

Lemma forgotten_exec slot f op : forgotten slot f → forgotten slot (fetch_exec f op).
Proof using Type.
  intros [Hl Hn]. pose proof (exec_slots_length f op). split; [lia|]. intros j h' Hj.
  destruct (owns slot h') eqn:Ho; [|done]. exfalso.
  destruct (exec_owner f op j h' slot Hj Ho) as [->|(h & Hh & Hoh)]; [lia|]. by rw (Hn _ _ Hh) in Hoh.
Qed.

Definition stays_parked (slot : nat) (h : Handler) : Prop := h = HParked slot ∨ h = HCancelled.

Lemma parked_exec slot f op j h :
  forgotten slot f → fs_calls f !! j = Some h → stays_parked slot h →
  ∃ h', fs_calls (fetch_exec f op) !! j = Some h' ∧ stays_parked slot h'.
Proof using Type.
  intros [_ Hn] Hj Hst. destruct (exec_calls f op j h Hj) as (h' & Hj' & Hc). exists h'. split; [done|].
  destruct Hc as [->|[Hx|[->|(i & sl & o & r & -> & -> & Hi)]]]; [done| |by right|].
  - destruct Hst as [->| ->]; [by left|by right].
  - destruct Hst as [[= <-]|[=]]. specialize (Hn _ _ Hi). cbn in Hn.
    by apply bool_decide_eq_false in Hn.
Qed.

Lemma parked_forever slot ops f j h :
  forgotten slot f → fs_calls f !! j = Some h → stays_parked slot h →
  ∃ h', fs_calls (foldl fetch_exec f ops) !! j = Some h' ∧ stays_parked slot h'.
Proof using Type.
  revert f h. induction ops as [|op ops IH]; intros f h Hf Hj Hs; cbn; [by eauto|].
  destruct (parked_exec slot f op j h Hf Hj Hs) as (h' & Hj' & Hs').
  eapply IH; [by apply forgotten_exec|done..].
Qed.

(** the resolve rendezvous can lose its wake-up.  A waiter that read the empty
    slot before the resolver stored its result, but has not registered with
    [notify] yet when the resolver calls [notify_waiters] (which stores no
    permit), parks after the only notification: whatever happens afterwards, it
    never answers. *)
Theorem resolve_lost_wakeup ops i j slot o r res1 op1 res2 op2 later :
  let f := fetch_run ops in
  fs_calls f !! i = Some (HSeenNone slot) → fs_calls f !! j = Some (HStored slot o r) →
  ∃ h, fs_calls (foldl fetch_exec f (OpHandler j res1 op1 :: OpHandler i res2 op2 :: later)) !! i = Some h ∧
    stays_parked slot h.
Proof using Type.
  intros f Hi Hj. pose proof (run_slots_inv ops) as [_ Ha Hu _]. fold f in Ha, Hu. clearbody f.
  assert (Hne : i ≠ j) by (intros ->; by rw Hi in Hj). cbn [foldl].
  assert (Ho : owns slot (HStored slot o r) = true) by by apply bool_decide_eq_true.
  set (f1 := fetch_exec f (OpHandler j res1 op1)).
  destruct (handler_steps_to j res1 op1 f _ Hj) as [(hj & Hj1 & Hn) Hoth].
  assert (Hi1 : fs_calls f1 !! i = Some (HSeenNone slot)) by (unfold f1; cbn; by rw Hoth // Hi).
  assert (Hf1 : forgotten slot f1).
  { pose proof (exec_slots_length f (OpHandler j res1 op1)) as Hlen. fold f1 in Hlen.
    specialize (Ha _ _ _ Hj Ho). split; [lia|]. intros k h Hk. destruct (owns slot h) eqn:Hoh; [|done].
    exfalso. destruct (exec_owner f _ k h slot Hk Hoh) as [->|(h0 & Hk0 & Hoh0)]; [lia|].
    assert (k = j) as -> by (eapply Hu; [exact Hk0|exact Hj|done..]).
    unfold f1 in Hk. cbn in Hk. rw Hj1 in Hk. injection Hk as ->. by destruct h. }
  set (f2 := fetch_exec f1 (OpHandler i res2 op2)).
  destruct (handler_steps_to i res2 op2 f1 _ Hi1) as [(hi & Hi2 & Hni) _].
  eapply (parked_forever slot later f2 i hi); [by apply forgotten_exec|exact Hi2|]. by left.
Qed.

(** A slot is written by its owner only, when it stores the outcome. *)
Lemma exec_slot_lookup f op slot :
  slot < length (fs_slots f) →
  fs_slots (fetch_exec f op) !! slot = fs_slots f !! slot ∨
  ∃ i o r res opn, op = OpHandler i res opn ∧ fs_calls f !! i = Some (HFilled slot o r).
Proof using Type.
  intros Hl. destruct op as [c|i resolved opened|k ev|i]; cbn.
  - left. destruct c; cbn; try done; unfold handle_flow, send_control; by repeat case_match.
  - unfold handler_step. destruct (fs_calls f !! i) as [h|] eqn:Hi; [|by left].
    destruct h as [uri|uri|sl|sl|sl|uri sl|uri sl o|sl o r|sl o r|hex|l|l|hex|l|l|r|]; try (by left).
    + left. unfold fetch_lookup. by repeat case_match.
    + left. unfold fetch_lookup. repeat case_match; try done. cbn. by rw lookup_app_l.
    + left. by repeat case_match.
    + left. unfold resolve_done. destruct resolved as [rr|]; [|done].
      pose proof (build_same uri rr opened f) as (_ & Hs & _).
      destruct (build_serving uri rr opened f). cbn in *. by rw Hs.
    + left. unfold fill_tables. by repeat case_match.
    + destruct (decide (sl = slot)) as [->|Hne]; [right; by eauto 8|left].
      cbn. by rw list_lookup_insert_ne.
    + left. unfold begin_gate. by repeat case_match.
    + left. unfold begin_spawn. by repeat case_match.
    + left. unfold abort_remove, evict. by repeat case_match.
    + left. unfold abort_swap, send_control. by repeat case_match.
  - left. by destruct (task_step_same k ev f) as (_ & -> & _).
  - left. by repeat case_match.
Qed.

Definition stored (h : Handler) : bool := match h with HStored _ _ _ => true | _ => false end.

(** Before its owner stores the outcome, a slot is empty. *)
Definition empty_inv f : Prop :=
  ∀ j h slot, fs_calls f !! j = Some h → owns slot h = true → stored h = false →
    fs_slots f !! slot = Some None.

(** A new slot is empty. *)
Lemma exec_new_slot f op slot x :
  length (fs_slots f) ≤ slot → fs_slots (fetch_exec f op) !! slot = Some x → x = None.
Proof using Type.
  intros Hl.
  assert (Hno : fs_slots f !! slot = Some x → x = None) by (intros H%lookup_lt_Some; lia).
  destruct op as [c|i resolved opened|k ev|i]; cbn.
  - destruct c; cbn; try done; unfold handle_flow, send_control; by repeat case_match.
  - unfold handler_step. destruct (fs_calls f !! i) as [h|]; [|done].
    destruct h as [uri|uri|sl|sl|sl|uri sl|uri sl o|sl o r|sl o r|hex|l|l|hex|l|l|r|]; try done.
    + unfold fetch_lookup. by repeat case_match.
    + unfold fetch_lookup. repeat case_match; try done. cbn.
      intros [Hx|[_ Hx]]%lookup_app_Some; [by apply Hno|].
      by apply list_elem_of_lookup_2, list_elem_of_singleton in Hx.
    + by repeat case_match.
    + unfold resolve_done. destruct resolved as [rr|]; [|done].
      pose proof (build_same uri rr opened f) as (_ & Hs & _).
      destruct (build_serving uri rr opened f). cbn in *. by rw Hs.
    + unfold fill_tables. by repeat case_match.
    + cbn. intros Hx%lookup_lt_Some. rw length_insert in Hx. lia.
    + unfold begin_gate. by repeat case_match.
    + unfold begin_spawn. by repeat case_match.
    + unfold abort_remove, evict. by repeat case_match.
    + unfold abort_swap, send_control. by repeat case_match.
  - by destruct (task_step_same k ev f) as (_ & -> & _).
  - by repeat case_match.
Qed.

Lemma exec_empty_inv f op : slots_inv f → empty_inv f → empty_inv (fetch_exec f op).
Proof using Type.
  intros Hinv He j h' slot Hj Ho Hst.
  pose proof (exec_slots_inv f op Hinv) as [_ Ha' _ _]. pose proof Hinv as [_ Ha Hu _].
  pose proof (Ha' _ _ _ Hj Ho) as Hlt.
  destruct (exec_owner f op j h' slot Hj Ho) as [Hf|(h & Hh & Hoh)].
  { destruct (lookup_lt_is_Some_2 _ _ Hlt) as [x Hx]. rw Hx. f_equal.
    eapply (exec_new_slot f op slot); [lia|exact Hx]. }
  destruct (exec_calls f op j h Hh) as (h2 & Hj2 & Hc). rw Hj in Hj2. injection Hj2 as <-.
  destruct (stored h) eqn:Hs.
  - destruct h as [| | | | | | | |sl o r| | | | | | | |]; try done.
    destruct Hc as [->|[Hn|[->|(i & sl' & o' & r' & [=] & _)]]]; [done| |done].
    by destruct h'.
  - destruct (exec_slot_lookup f op slot) as [->|(i & o & r & res & opn & -> & Hi)];
      [by eapply Ha|by eapply He|].
    assert (i = j) as ->.
    { eapply Hu; [exact Hi|exact Hh| |done]. by apply bool_decide_eq_true. }
    rw Hi in Hh. injection Hh as <-.
    destruct (handler_steps_to j res opn f _ Hi) as [(h3 & Hj3 & Hn) _]. cbn in Hj. rw Hj in Hj3.
    injection Hj3 as <-. cbn in Hn. by subst h'.
Qed.

Lemma run_empty_inv ops : empty_inv (fetch_run ops).
Proof using Type.
  induction ops as [|op ops IH] using rev_ind; [by intros ???|].
  unfold fetch_run in *. rw foldl_app. apply exec_empty_inv; [apply run_slots_inv|done].
Qed.

(** The uri is held by a placeholder that nobody fills any more. *)
Definition blocked (uri : string) (slot : nat) f : Prop :=
  fs_by_uri f !! uri = Some (Resolving slot) ∧ fs_slots f !! slot = Some None ∧ forgotten slot f.

Lemma handler_by_uri i resolved opened f uri slot :
  slots_inv f → blocked uri slot f →
  fs_by_uri (handler_step i resolved opened f) !! uri = Some (Resolving slot).
Proof using Type.
  intros [Hp _ _ _] (Hb & _ & _ & Hn). unfold handler_step.
  destruct (fs_calls f !! i) as [h|] eqn:Hi; [|done].
  destruct h as [u|u|sl|sl|sl|u sl|u sl o|sl o r|sl o r|hex|l|l|hex|l|l|r|]; try done.
  - unfold fetch_lookup. by repeat case_match.
  - unfold fetch_lookup. destruct (fs_by_uri f !! u) as [[]|] eqn:Hu; try done. cbn.
    rw lookup_insert_ne //. intros ->. by rw Hb in Hu.
  - by repeat case_match.
  - unfold resolve_done, build_serving. destruct resolved as [rr|]; [|done].
    destruct (_ =? 0)%N; [done|]. destruct (_ <? _)%N; [done|]. by destruct opened.
  - assert (Hne : u ≠ uri).
    { intros ->. assert (Hr : resolving uri sl (HResolved uri sl o)) by (right; by eexists).
      specialize (Hp _ _ _ _ Hi Hr). rw Hb in Hp. injection Hp as <-.
      specialize (Hn _ _ Hi). cbn in Hn. by apply bool_decide_eq_false in Hn. }
    unfold fill_tables. repeat case_match; cbn; by rw ?lookup_insert_ne ?lookup_delete_ne.
  - unfold begin_gate. by repeat case_match.
  - unfold begin_spawn. by repeat case_match.
  - unfold abort_remove. repeat case_match; try done. cbn. by apply evict_resolving.
  - unfold abort_swap, send_control. by repeat case_match.
Qed.

Lemma blocked_exec uri slot f op :
  slots_inv f → blocked uri slot f → blocked uri slot (fetch_exec f op).
Proof using Type.
  intros Hinv Hbl. pose proof Hbl as (Hb & Hs & Hf). split_and!; [| |by apply forgotten_exec].
  - destruct op as [c|i resolved opened|k ev|i]; cbn.
    + destruct c; cbn; try done; unfold handle_flow, send_control; by repeat case_match.
    + by apply handler_by_uri.
    + by apply task_step_same.
    + by repeat case_match.
  - destruct Hf as [Hl Hn]. destruct (exec_slot_lookup f op slot Hl) as [->|(i & o & r & ? & ? & _ & Hi)]; [done|].
    specialize (Hn _ _ Hi). cbn in Hn. by apply bool_decide_eq_false in Hn.
Qed.

(** Asking for the uri, and never answered. *)
Definition unanswered (uri : string) (slot : nat) (h : Handler) : Prop :=
  h = HFetch uri ∨ h = HMiss uri ∨ h = HCheck slot ∨ h = HSeenNone slot ∨ h = HParked slot ∨
  h = HCancelled.

Lemma unanswered_exec uri slot f op j h :
  blocked uri slot f → fs_calls f !! j = Some h → unanswered uri slot h →
  ∃ h', fs_calls (fetch_exec f op) !! j = Some h' ∧ unanswered uri slot h'.
Proof using Type.
  intros (Hb & Hs & _) Hj Hu. destruct (exec_calls f op j h Hj) as (h' & Hj' & Hc). exists h'.
  split; [done|]. unfold unanswered in *.
  destruct Hc as [->|[Hn|[->|(i & sl & o & r & -> & -> & _)]]]; [done| |by auto 6|by naive_solver].
  destruct Hu as [->|[->|[->|[->|[->| ->]]]]]; cbn in Hn; rw ?Hb ?Hs in Hn; subst h'; by auto 6.
Qed.

Lemma unanswered_forever uri slot ops f j h :
  slots_inv f → blocked uri slot f → fs_calls f !! j = Some h → unanswered uri slot h →
  ∃ h', fs_calls (foldl fetch_exec f ops) !! j = Some h' ∧ unanswered uri slot h'.
Proof using Type.
  revert f h. induction ops as [|op ops IH]; intros f h Hi Hb Hj Hu; cbn; [by eauto|].
  destruct (unanswered_exec uri slot f op j h Hb Hj Hu) as (h' & Hj' & Hu').
  eapply IH; [by apply exec_slots_inv|by apply blocked_exec|done..].
Qed.

(** a disconnect during resolve blocks the uri for good.  When the handler task
    that resolves a uri is cancelled (a transport aborts its handler tasks on
    [disconnect]), its placeholder stays in the table: every later fetch of that
    uri, on any later connection, waits on it and is never answered, whatever
    happens. *)
Theorem cancelled_resolve_blocks ops i uri slot h later :
  let f := fetch_run ops in
  fs_calls f !! i = Some h → resolving uri slot h →
  let f1 := fetch_exec f (OpCancel i) in
  let j := length (fs_calls f1) in
  ∃ h', fs_calls (foldl fetch_exec (fetch_exec f1 (OpCommand (Fetch uri))) later) !! j = Some h' ∧
    unanswered uri slot h'.
Proof using Type.
  intros f Hi Hr. pose proof (run_slots_inv ops) as Hinv. pose proof (run_empty_inv ops) as He.
  fold f in Hinv, He. clearbody f. pose proof Hinv as [Hp Ha Hu _].
  pose proof (resolving_owns _ _ _ Hr) as Ho.
  assert (Hc : fetch_exec f (OpCancel i) = to_phase i HCancelled f).
  { cbn. rw Hi. by destruct Hr as [->|[o ->]]. }
  rw Hc. cbn zeta. set (f1 := to_phase i HCancelled f).
  assert (Hb : blocked uri slot f1).
  { split_and!; [exact (Hp _ _ _ _ Hi Hr)| |].
    - apply (He i h slot Hi Ho). by destruct Hr as [->|[o ->]].
    - split; [exact (Ha _ _ _ Hi Ho)|]. intros k x. cbn. destruct (decide (i = k)) as [<-|Hne].
      + rw list_lookup_insert_eq; [by eapply lookup_lt_Some|]. by intros [= <-].
      + rw list_lookup_insert_ne //. intros Hk. destruct (owns slot x) eqn:Hox; [|done].
        by destruct (Hu _ _ _ _ _ Hi Hk Ho Hox). }
  assert (Hi1 : slots_inv f1) by by eapply to_idle_inv.
  eapply (unanswered_forever uri slot later _ _ (HFetch uri));
    [by apply exec_slots_inv|by apply blocked_exec| |by left].
  cbn. rw lookup_app_r; [done|]. by rw Nat.sub_diag.
Qed.

End fetch.
