(* ===== verification/Puller.v ===== *)
(** * The fetch puller and the canned providers ([src/ext/fetch.rs])

    Requester side: [FetchPuller] routes arriving streams to the pulls that wait
    for them; pulls, dropped pulls and dispatch tasks run concurrently, so each is
    a machine over its await points and the table of waiting pulls is shared.  The
    session's answers are inputs of the steps.  [pull_to_vec] reads a stream to
    its end and checks the announced digest; the canned providers produce the
    announcement and the writes it must match.  The [sha2] hasher is an interface
    with its documented streaming law. *)
From S2P Require Import Prelude Crc Frame Control Sender Reassemble Errors Stream Transfer.
From S2P Require Import Delivery Clock Sink Messages Logical Fetch.

(** ** [sha2::Sha256] *)

(** [Sha256_hex] is [format!("{:x}", hasher.finalize())]. *)
Class Sha256Lib : Type := {
  Sha256 : Type;
  Sha256_new : Sha256;
  Sha256_update : Sha256 → list byte → Sha256;
  Sha256_hex : Sha256 → string;
}.

Class Sha256Laws (L : Sha256Lib) : Prop := {
  Sha256_update_app (h : Sha256) (a b : list byte) :
    Sha256_update (Sha256_update h a) b = Sha256_update h (a ++ b);
  Sha256_update_nil (h : Sha256) : Sha256_update h [] = h;
}.

Section puller.
Context `{JSON : JsonLib}.

(** ** Errors *)

Inductive FetchError : Type :=
  | FRefused (code : string) (message : text)
  | FTransport (e : XacppError)
  | IntegrityMismatch (expected actual : string) (received : N)
  | DuplicateTxid
  | FIncomplete (received expected : N).

Definition map_fetch_err (e : XacppError) : FetchError :=
  match e with
  | Application code message => FRefused code message
  | other => FTransport other
  end.

Definition expect_ack (resp : XacppResponse) (what : string) : result unit FetchError :=
  match resp with
  | RespGeneric _ _ => Ok tt
  | RespError code message => Err (FRefused code message)
  | _ => Err (FRefused FETCH_REFUSED (Fmt "unexpected response: " [what]))
  end.

(** ** State *)

(** Where a call of [pull] stands.  A stream is known by the dispatch task that
    carries it. *)
Inductive PullPhase : Type :=
  | PFetching
  | PResolved (meta : FetchReadyMeta)
  | PBeginning (meta : FetchReadyMeta)
  | PWaiting (meta : FetchReadyMeta)
  | PReturned (r : result (nat * FetchReadyMeta) FetchError)
  | PDropped.

(** [pl_dead] is the flag shared with the pending entry; [pl_rx] is what the
    oneshot channel holds. *)
Record Pull : Type := mkPull {
  pl_uri : string;
  pl_phase : PullPhase;
  pl_dead : bool;
  pl_rx : option nat;
}.

(** A dispatch task: spawned; it removed an entry (of pull [i]); over. *)
Inductive DispatchPhase : Type := DSpawned | DRemoved (i : nat) | DEnded.

Record Dispatch : Type := mkDispatch { dp_txid : txid; dp_phase : DispatchPhase }.

Record FetchPuller : Type := mkFetchPuller {
  pu_pending : gmap txid nat;
  pu_pulls : list Pull;
  pu_tasks : list Dispatch;
}.

Definition FetchPuller_new : FetchPuller := mkFetchPuller ∅ [] [].

Implicit Types (p : FetchPuller) (pl : Pull).

Definition set_pulls (l : list Pull) p : FetchPuller := mkFetchPuller (pu_pending p) l (pu_tasks p).

Definition with_phase (ph : PullPhase) (dead : bool) (rx : option nat) pl : Pull :=
  mkPull (pl_uri pl) ph dead rx.

Definition put_pull (i : nat) pl p : FetchPuller := set_pulls (<[i := pl]> (pu_pulls p)) p.

Definition put_task (j : nat) (ph : DispatchPhase) p : FetchPuller :=
  mkFetchPuller (pu_pending p) (pu_pulls p)
    (alter (λ d, mkDispatch (dp_txid d) ph) j (pu_tasks p)).

(** ** [pull] *)

Definition is_dead p (i : nat) : bool :=
  match pu_pulls p !! i with Some pl => pl_dead pl | None => false end.

(** [retain] sweeps dead entries; then the duplicate check and the insertion. *)
Definition pull_register (i : nat) (meta : FetchReadyMeta) pl p : FetchPuller :=
  let swept := filter (λ e, is_dead p e.2 = false) (pu_pending p) in
  if decide (is_Some (swept !! meta_txid meta))
  then mkFetchPuller swept (<[i := with_phase (PReturned (Err DuplicateTxid)) (pl_dead pl) (pl_rx pl) pl]> (pu_pulls p))
         (pu_tasks p)
  else mkFetchPuller (<[meta_txid meta := i]> swept)
         (<[i := with_phase (PBeginning meta) (pl_dead pl) (pl_rx pl) pl]> (pu_pulls p)) (pu_tasks p).

(** The sender half of pull [i] still exists: in the table or in a task. *)
Definition sender_alive p (i : nat) : bool :=
  existsb (λ e, bool_decide (e.2 = i)) (map_to_list (pu_pending p)) ||
  existsb (λ d, match dp_phase d with DRemoved i' => bool_decide (i' = i) | _ => false end) (pu_tasks p).

(** One step of pull [i]: the answer of [session.fetch]; the registration; the
    answer of [fetch_begin]; the stream.  A pull that fails after registering
    drops its guard, which sets the dead flag. *)
Definition pull_step (i : nat) (fetched : result FetchReadyMeta XacppError)
    (begun : result XacppResponse XacppError) p : FetchPuller :=
  match pu_pulls p !! i with
  | None => p
  | Some pl =>
      match pl_phase pl with
      | PFetching =>
          match fetched with
          | Ok meta => put_pull i (with_phase (PResolved meta) (pl_dead pl) (pl_rx pl) pl) p
          | Err e => put_pull i (with_phase (PReturned (Err (map_fetch_err e))) (pl_dead pl) (pl_rx pl) pl) p
          end
      | PResolved meta => pull_register i meta pl p
      | PBeginning meta =>
          match begun with
          | Err e => put_pull i (with_phase (PReturned (Err (FTransport e))) true (pl_rx pl) pl) p
          | Ok resp =>
              match expect_ack resp "fetch_begin" with
              | Err e => put_pull i (with_phase (PReturned (Err e)) true (pl_rx pl) pl) p
              | Ok _ => put_pull i (with_phase (PWaiting meta) (pl_dead pl) (pl_rx pl) pl) p
              end
          end
      | PWaiting meta =>
          match pl_rx pl with
          | Some j => put_pull i (with_phase (PReturned (Ok (j, meta))) (pl_dead pl) (pl_rx pl) pl) p
          | None =>
              if sender_alive p i then p
              else put_pull i (with_phase (PReturned (Err (FTransport Closed))) true None pl) p
          end
      | PReturned _ | PDropped => p
      end
  end.

(** The caller drops the future: the guard, if there is one, fires. *)
Definition pull_drop (i : nat) p : FetchPuller :=
  match pu_pulls p !! i with
  | None => p
  | Some pl =>
      match pl_phase pl with
      | PFetching | PResolved _ => put_pull i (with_phase PDropped (pl_dead pl) (pl_rx pl) pl) p
      | PBeginning _ | PWaiting _ => put_pull i (with_phase PDropped true (pl_rx pl) pl) p
      | PReturned _ | PDropped => p
      end
  end.

(** ** [dispatch_stream] *)

(** The registered callback spawns the task. *)
Definition dispatch_stream (id : txid) p : FetchPuller :=
  mkFetchPuller (pu_pending p) (pu_pulls p) (pu_tasks p ++ [mkDispatch id DSpawned]).

(** The task: take the entry out of the table; hand the stream over unless the
    pull gave up. *)
Definition dispatch_turn (j : nat) p : FetchPuller :=
  match pu_tasks p !! j with
  | None => p
  | Some d =>
      match dp_phase d with
      | DSpawned =>
          match pu_pending p !! dp_txid d with
          | Some i => put_task j (DRemoved i)
              (mkFetchPuller (delete (dp_txid d) (pu_pending p)) (pu_pulls p) (pu_tasks p))
          | None => put_task j DEnded p
          end
      | DRemoved i =>
          let p := put_task j DEnded p in
          match pu_pulls p !! i with
          | None => p
          | Some pl =>
              if pl_dead pl then p
              else match pl_phase pl with
                   | PBeginning _ | PWaiting _ => put_pull i (with_phase (pl_phase pl) (pl_dead pl) (Some j) pl) p
                   | _ => p
                   end
          end
      | DEnded => p
      end
  end.

Inductive PullerOp : Type :=
  | OpPull (uri : string)
  | OpPullStep (i : nat) (fetched : result FetchReadyMeta XacppError)
      (begun : result XacppResponse XacppError)
  | OpPullDrop (i : nat)
  | OpStream (id : txid)
  | OpDispatchTurn (j : nat).

Definition puller_exec p (op : PullerOp) : FetchPuller :=
  match op with
  | OpPull uri => set_pulls (pu_pulls p ++ [mkPull uri PFetching false None]) p
  | OpPullStep i fetched begun => pull_step i fetched begun p
  | OpPullDrop i => pull_drop i p
  | OpStream id => dispatch_stream id p
  | OpDispatchTurn j => dispatch_turn j p
  end.

Definition puller_run (ops : list PullerOp) : FetchPuller := foldl puller_exec FetchPuller_new ops.

(** ** Who can still answer a pull *)

Definition active pl (id : txid) : Prop :=
  ∃ meta, meta_txid meta = id ∧ (pl_phase pl = PBeginning meta ∨ pl_phase pl = PWaiting meta).

Definition young pl : Prop := pl_phase pl = PFetching ∨ ∃ meta, pl_phase pl = PResolved meta.

(** The sender of pull [i], for transaction [id], is at [x]: a table entry or a
    dispatch task. *)
Definition holder p (i : nat) (x : txid + nat) (id : txid) : Prop :=
  match x with
  | inl k => k = id ∧ pu_pending p !! k = Some i
  | inr j => pu_tasks p !! j = Some (mkDispatch id (DRemoved i))
  end.

Record pull_ok p (i : nat) pl : Prop := {
  po_young : young pl → pl_dead pl = false ∧ pl_rx pl = None;
  po_active : ∀ id, active pl id →
    pl_dead pl = false ∧ (pl_rx pl = None → ∃ x, holder p i x id);
  po_rx : ∀ j, pl_rx pl = Some j → ∃ id, pu_tasks p !! j = Some (mkDispatch id DEnded) ∧
    ∀ id', active pl id' → id' = id;
  po_ok : ∀ j meta, pl_phase pl = PReturned (Ok (j, meta)) →
    pl_rx pl = Some j ∧ pu_tasks p !! j = Some (mkDispatch (meta_txid meta) DEnded);
}.

Record puller_inv p : Prop := {
  pv_pulls : ∀ i pl, pu_pulls p !! i = Some pl → pull_ok p i pl;
  pv_holder : ∀ i x id, holder p i x id → ∃ pl, pu_pulls p !! i = Some pl ∧ pl_rx pl = None ∧
    (active pl id ∨ pl_dead pl = true);
  pv_one : ∀ i x y id id', holder p i x id → holder p i y id' → x = y;
  pv_rx : ∀ i i' pl pl' j, pu_pulls p !! i = Some pl → pu_pulls p !! i' = Some pl' →
    pl_rx pl = Some j → pl_rx pl' = Some j → i = i';
}.

Lemma active_unique pl id id' : active pl id → active pl id' → id = id'.
Proof using Type. intros (m & <- & H) (m' & <- & H'). destruct H as [H|H]; rw H in H'; naive_solver. Qed.

Lemma active_young pl id : active pl id → young pl → False.
Proof using Type. intros (m & _ & [H|H]) [H'|[m' H']]; by rw H in H'. Qed.

(** Pull [i] moves on; nobody else is touched. *)
Lemma inv_put_pull i pl pl' p :
  puller_inv p → pu_pulls p !! i = Some pl → pl_rx pl' = pl_rx pl →
  (pl_dead pl = true → pl_dead pl' = true) →
  (∀ id, pl_rx pl = None → active pl id → active pl' id ∨ pl_dead pl' = true) →
  (∀ id, active pl' id → active pl id ∧ pl_dead pl' = false) →
  (young pl' → young pl ∧ pl_dead pl' = false) →
  (∀ j meta, pl_phase pl' = PReturned (Ok (j, meta)) → pl_rx pl = Some j ∧ active pl (meta_txid meta)) →
  puller_inv (put_pull i pl' p).
Proof using Type.
  intros [H1 H2 H3 H4] Hi Hrx Hdead Hact Hact' Hyoung Hok.
  pose proof (lookup_lt_Some _ _ _ Hi) as Hlt. pose proof (H1 i pl Hi) as [O1 O2 O3 O4].
  assert (Hl : ∀ i' x, <[i := pl']> (pu_pulls p) !! i' = Some x →
    i' = i ∧ x = pl' ∨ i' ≠ i ∧ pu_pulls p !! i' = Some x).
  { intros i' x Hx. destruct (decide (i' = i)) as [->|Hne].
    - rw list_lookup_insert_eq // in Hx. injection Hx as <-. by left.
    - rw list_lookup_insert_ne // in Hx. by right. }
  split; cbn [pu_pulls put_pull set_pulls].
  - intros i' x [[-> ->]|[Hne Hx]]%Hl; [|by destruct (H1 i' x Hx)]. split.
    + intros [Hy Hd]%Hyoung. split; [done|]. rw Hrx. by apply O1.
    + intros id [Ha Hd]%Hact'. split; [done|]. rw Hrx. by apply O2.
    + intros j. rw Hrx. intros (id & Ht & Hid)%O3. exists id. split; [done|].
      intros id' [Ha _]%Hact'. by apply Hid.
    + intros j meta [Hj Ha]%Hok. rw Hrx. split; [done|].
      destruct (O3 j Hj) as (id & Ht & Hid). by rw (Hid _ Ha).
  - intros i' x id Hh. destruct (H2 i' x id Hh) as (pl0 & Hp & Hr & Ha).
    destruct (decide (i' = i)) as [->|Hne].
    + rw Hi in Hp. injection Hp as <-. exists pl'. rw list_lookup_insert_eq // Hrx. split_and!; try done.
      destruct Ha as [Ha|Hd]; [by apply Hact|right; by apply Hdead].
    + exists pl0. by rw list_lookup_insert_ne.
  - exact H3.
  - intros a b pa pb j [[-> ->]|[Ha Hpa]]%Hl [[-> ->]|[Hb Hpb]]%Hl; rw ?Hrx; [done|by eapply H4..].
Qed.

(** Entries of pulls that gave up may go. *)
Lemma inv_sweep p :
  puller_inv p →
  puller_inv (mkFetchPuller (filter (λ e, is_dead p e.2 = false) (pu_pending p)) (pu_pulls p) (pu_tasks p)).
Proof using Type.
  intros [H1 H2 H3 H4]. set (p' := mkFetchPuller _ _ _).
  assert (Hh : ∀ i x id, holder p' i x id → holder p i x id).
  { intros i [k|j] id; cbn; [|done]. by intros [-> [? _]%map_lookup_filter_Some]. }
  split; [|by intros i x id ?%Hh; eapply H2|by intros i x y id id' ?%Hh ?%Hh; eapply H3|exact H4].
  intros i pl Hi. destruct (H1 i pl Hi) as [O1 O2 O3 O4]. split; try done.
  intros id Ha. destruct (O2 id Ha) as [Hd Hx]. split; [done|]. intros Hr.
  destruct (Hx Hr) as [[k|j] Hk]; [|by exists (inr j)]. exists (inl k). destruct Hk as [-> Hk].
  split; [done|]. apply map_lookup_filter_Some. split; [done|]. unfold is_dead. cbn. cbn in Hi. by rw Hi.
Qed.

Lemma inv_register i pl meta p :
  puller_inv p → pu_pulls p !! i = Some pl → pl_phase pl = PResolved meta →
  pu_pending p !! meta_txid meta = None →
  puller_inv (mkFetchPuller (<[meta_txid meta := i]> (pu_pending p))
    (<[i := with_phase (PBeginning meta) (pl_dead pl) (pl_rx pl) pl]> (pu_pulls p)) (pu_tasks p)).
Proof using Type.
  intros [H1 H2 H3 H4] Hi Hph Hnone. set (pl' := with_phase (PBeginning meta) _ _ pl). set (p' := mkFetchPuller _ _ _).
  pose proof (lookup_lt_Some _ _ _ Hi) as Hlt.
  destruct (H1 i pl Hi) as [O1 O2 O3 O4]. destruct O1 as [Hdead Hrx]; [right; by exists meta|].
  assert (Hact : ∀ id, active pl' id ↔ id = meta_txid meta).
  { intros id. split; [intros (m & <- & [Hm|Hm]); cbn in Hm; by simplify_eq|].
    intros ->. exists meta. split; [done|by left]. }
  assert (Hfree : ∀ x id, ¬ holder p i x id).
  { intros x id Hx. destruct (H2 i x id Hx) as (pl0 & Hp & _ & [Ha|Hd]); rw Hi in Hp; injection Hp as <-.
    - eapply active_young; [done|right; by exists meta].
    - by rw Hdead in Hd. }
  assert (Hh : ∀ i' x id, holder p' i' x id →
    i' = i ∧ x = inl (meta_txid meta) ∧ id = meta_txid meta ∨ i' ≠ i ∧ holder p i' x id).
  { assert (Hr : ∀ i' x id, holder p i' x id → i' ≠ i ∧ holder p i' x id).
    { intros i' x id Hx. split; [|done]. intros ->. by eapply Hfree. }
    intros i' [k|j] id Hx; [|right; by apply Hr]. destruct Hx as [-> Hx]. cbn [p' pu_pending] in Hx.
    apply lookup_insert_Some in Hx as [[<- <-]|[_ Hx]]; [by left|right; by apply Hr]. }
  assert (Hl : ∀ i' x, pu_pulls p' !! i' = Some x → i' = i ∧ x = pl' ∨ i' ≠ i ∧ pu_pulls p !! i' = Some x).
  { intros i' x Hx. cbn in Hx. destruct (decide (i' = i)) as [->|Hne].
    - rw list_lookup_insert_eq // in Hx. injection Hx as <-. by left.
    - rw list_lookup_insert_ne // in Hx. by right. }
  assert (Hin : ∀ i' x id, i' ≠ i → holder p i' x id → holder p' i' x id).
  { intros i' [k|j] id Hne; [|done]. intros [-> Hx]. split; [done|]. cbn.
    rw lookup_insert_ne //. intros <-. by rw Hnone in Hx. }
  split.
  - intros i' x [[-> ->]|[Hne Hx]]%Hl.
    + split; [by intros [?|[? ?]]| | |done].
      * intros id ->%Hact. split; [done|]. intros _. exists (inl (meta_txid meta)).
        split; [done|]. apply lookup_insert_eq.
      * cbn. intros j Hj. by rw Hrx in Hj.
    + destruct (H1 i' x Hx) as [P1 P2 P3 P4]. split; try done.
      intros id Ha. destruct (P2 id Ha) as [Hd Hy]. split; [done|]. intros [y Hy']%Hy. exists y. by apply Hin.
  - intros i' x id [(-> & -> & ->)|[Hne Hx]]%Hh.
    + exists pl'. cbn. rw list_lookup_insert_eq // Hrx. split_and!; try done. left. by apply Hact.
    + destruct (H2 i' x id Hx) as (pl0 & Hp & Hr). exists pl0. cbn. by rw list_lookup_insert_ne.
  - intros i' x y id id' [(-> & -> & _)|[Hne Hx]]%Hh [(? & -> & _)|[Hne' Hy]]%Hh; try done.
    exact (H3 _ _ _ _ _ Hx Hy).
  - intros a b pa pb j [[-> ->]|[Ha Hpa]]%Hl [[-> ->]|[Hb Hpb]]%Hl; cbn; rw ?Hrx; try done. by eapply H4.
Qed.

(** Senders move (along [σ]) or vanish with pulls that gave up. *)
Lemma inv_move p p' (σ : txid + nat → txid + nat) :
  puller_inv p → pu_pulls p' = pu_pulls p →
  (∀ i x id, holder p' i x id → holder p i (σ x) id) →
  (∀ i x y id id', holder p' i x id → holder p' i y id' → σ x = σ y → x = y) →
  (∀ i x id, holder p i x id → is_dead p i = true ∨ ∃ y, holder p' i y id) →
  (∀ j id, pu_tasks p !! j = Some (mkDispatch id DEnded) → pu_tasks p' !! j = Some (mkDispatch id DEnded)) →
  puller_inv p'.
Proof using Type.
  intros [H1 H2 H3 H4] Hp Hs Hinj Hk Ht. split; rw ?Hp.
  - intros i pl Hi. destruct (H1 i pl Hi) as [O1 O2 O3 O4]. split; [done|..].
    + intros id Ha. destruct (O2 id Ha) as [Hd Hx]. split; [done|]. intros [x Hx']%Hx.
      destruct (Hk i x id Hx') as [Hd'|Hy]; [|done]. unfold is_dead in Hd'. by rw Hi Hd in Hd'.
    + intros j (id & Hj & Hid)%O3. exists id. split; [by apply Ht|done].
    + intros j meta [Hr Hj]%O4. split; [done|by apply Ht].
  - intros i x id Hx%Hs. by eapply H2.
  - intros i x y id id' Hx Hy. eapply Hinj; [done|done|]. eapply H3; by apply Hs.
  - exact H4.
Qed.

Lemma put_task_lookup j j' ph p d :
  pu_tasks (put_task j ph p) !! j' = Some d ↔
  if decide (j = j') then ∃ d0, pu_tasks p !! j = Some d0 ∧ d = mkDispatch (dp_txid d0) ph
  else pu_tasks p !! j' = Some d.
Proof using Type.
  cbn. rw list_lookup_alter. destruct (decide (j = j')) as [<-|Hne]; [|done].
  destruct (pu_tasks p !! j) as [d0|]; cbn; split; [|by naive_solver..]. intros [= <-]. by exists d0.
Qed.

Lemma inv_dispatch_stream id p : puller_inv p → puller_inv (dispatch_stream id p).
Proof using Type.
  intros Hi. assert (Hh : ∀ i x id', holder (dispatch_stream id p) i x id' ↔ holder p i x id').
  { intros i [k|j] id'; cbn; [done|]. rw lookup_snoc_Some. split; [by intros [[_ ?]|[_ ?]]|].
    intros Hj. left. split; [by eapply lookup_lt_Some|done]. }
  apply (inv_move p _ (λ x, x)); try done.
  - by intros i x id' ?%Hh.
  - intros i x id' Hx. right. exists x. by apply Hh.
  - intros j id' Hj. cbn. by apply lookup_app_l_Some.
Qed.

(** The task takes the entry of its transaction out of the table. *)
Lemma inv_remove j id p :
  puller_inv p → pu_tasks p !! j = Some (mkDispatch id DSpawned) → puller_inv (dispatch_turn j p).
Proof using Type.
  intros Hi Hj. unfold dispatch_turn. rw Hj. cbn [dp_phase dp_txid].
  assert (Hend : ∀ ph q, pu_tasks q = pu_tasks p → ∀ j' id', pu_tasks p !! j' = Some (mkDispatch id' DEnded) →
    pu_tasks (put_task j ph q) !! j' = Some (mkDispatch id' DEnded)).
  { intros ph q Hq j' id' Hj'. apply put_task_lookup. rw Hq. destruct (decide (j = j')) as [<-|]; [|done].
    by rw Hj in Hj'. }
  destruct (pu_pending p !! id) as [i|] eqn:Hp.
  - set (q := mkFetchPuller _ _ _).
    apply (inv_move p _ (λ x, if decide (x = inr j) then inl id else x)); try done; [..|by apply Hend].
    + intros i' [k|j'] id' Hx.
      * destruct Hx as [-> Hx]. cbn in Hx. by apply lookup_delete_Some in Hx as [_ ?].
      * apply put_task_lookup in Hx. destruct (decide (j = j')) as [<-|Hne].
        -- destruct (decide _) as [_|]; [|done]. destruct Hx as (d0 & Hd & [= -> ->]).
           cbn in Hd. by simplify_eq.
        -- destruct (decide _) as [[= ->]|_]; [done|exact Hx].
    + intros i' [k|j1] [k'|j2] id1 id2; repeat (destruct (decide _); simplify_eq); try done;
        intros Hx Hy [= <-]; exfalso; [destruct Hx as [-> Hx]|destruct Hy as [-> Hy]];
        cbn in *; [by rw lookup_delete_eq in Hx|by rw lookup_delete_eq in Hy].
    + intros i' [k|j'] id' Hx; right.
      * destruct Hx as [-> Hx]. destruct (decide (id' = id)) as [->|Hne].
        -- rw Hp in Hx. injection Hx as <-. exists (inr j). apply put_task_lookup.
           destruct (decide _); [|done]. by eexists.
        -- exists (inl id'). split; [done|]. cbn. by rw lookup_delete_ne.
      * exists (inr j'). apply put_task_lookup. destruct (decide (j = j')) as [<-|]; [|done].
        cbn in Hx. by rw Hj in Hx.
  - apply (inv_move p _ (λ x, x)); try done; [..|by apply Hend].
    + intros i' [k|j'] id' Hx; [done|]. apply put_task_lookup in Hx.
      destruct (decide _); [|done]. by destruct Hx as (d0 & _ & ?).
    + intros i' [k|j'] id' Hx; right; [by exists (inl k)|]. exists (inr j'). apply put_task_lookup.
      destruct (decide (j = j')) as [<-|]; [|done]. cbn in Hx. by rw Hj in Hx.
Qed.

(** The end of a task leaves the other senders where they are. *)
Lemma ended_holder j i id p i' x id' :
  pu_tasks p !! j = Some (mkDispatch id (DRemoved i)) →
  holder (put_task j DEnded p) i' x id' ↔ holder p i' x id' ∧ x ≠ inr j.
Proof using Type.
  intros Hj. destruct x as [k|j']; [by naive_solver|].
  change (pu_tasks (put_task j DEnded p) !! j' = Some (mkDispatch id' (DRemoved i')) ↔
    pu_tasks p !! j' = Some (mkDispatch id' (DRemoved i')) ∧ inr (A := txid) j' ≠ inr j).
  rw put_task_lookup. destruct (decide (j = j')) as [<-|Hne]; [|by naive_solver].
  split; [by intros (d0 & _ & ?)|by intros [_ ?]].
Qed.

Lemma ended_tasks j i id p j' id' :
  pu_tasks p !! j = Some (mkDispatch id (DRemoved i)) →
  pu_tasks p !! j' = Some (mkDispatch id' DEnded) →
  pu_tasks (put_task j DEnded p) !! j' = Some (mkDispatch id' DEnded).
Proof using Type.
  intros Hj Hj'. apply put_task_lookup. destruct (decide (j = j')) as [<-|]; [|done]. by rw Hj in Hj'.
Qed.

Lemma inv_deliver j i id pl p :
  puller_inv p → pu_tasks p !! j = Some (mkDispatch id (DRemoved i)) →
  pu_pulls p !! i = Some pl → active pl id → pl_dead pl = false →
  puller_inv (put_pull i (with_phase (pl_phase pl) (pl_dead pl) (Some j) pl) (put_task j DEnded p)).
Proof using Type.
  intros [H1 H2 H3 H4] Hj Hi Ha Hd. set (pl' := with_phase _ _ _ pl). set (p' := put_pull _ _ _).
  pose proof (lookup_lt_Some _ _ _ Hi) as Hlt.
  assert (Hh : ∀ i' x id', holder p' i' x id' → i' ≠ i ∧ holder p i' x id').
  { intros i' x id' Hx. assert (Hx' : holder p i' x id' ∧ x ≠ inr j) by by eapply ended_holder.
    destruct Hx' as [Hx' Hne]. split; [|done]. intros ->. apply Hne. by eapply (H3 i x (inr j)). }
  assert (Hl : ∀ i' x, pu_pulls p' !! i' = Some x → i' = i ∧ x = pl' ∨ i' ≠ i ∧ pu_pulls p !! i' = Some x).
  { intros i' x Hx. cbn in Hx. destruct (decide (i' = i)) as [->|Hne].
    - rw list_lookup_insert_eq // in Hx. injection Hx as <-. by left.
    - rw list_lookup_insert_ne // in Hx. by right. }
  assert (Hend : ∀ j' id', pu_tasks p !! j' = Some (mkDispatch id' DEnded) →
    pu_tasks p' !! j' = Some (mkDispatch id' DEnded)) by (intros; by eapply ended_tasks).
  split.
  - intros i' x [[-> ->]|[Hne Hx]]%Hl.
    + split.
      * intros Hy. by destruct (active_young pl id).
      * intros id' Ha'. by split.
      * intros j' [= <-]. exists id. split; [|by intros id' Ha'; eapply active_unique].
        change (pu_tasks (put_task j DEnded p) !! j = Some (mkDispatch id DEnded)).
        apply put_task_lookup. destruct (decide _); [|done]. by eexists.
      * cbn. intros j' meta Hp. destruct Ha as (m & _ & [Hm|Hm]); by rw Hm in Hp.
    + destruct (H1 i' x Hx) as [P1 P2 P3 P4]. split; [done|..].
      * intros id' Ha'. destruct (P2 id' Ha') as [Hd' Hy]. split; [done|]. intros [y Hy']%Hy. exists y.
        eapply ended_holder; [done|]. split; [done|]. intros ->. cbn in Hy'. rw Hj in Hy'. by simplify_eq.
      * intros j' (id' & Hj' & Hid)%P3. exists id'. split; [by apply Hend|done].
      * intros j' meta [Hr Hj']%P4. split; [done|by apply Hend].
  - intros i' x id' [Hne Hx]%Hh. destruct (H2 i' x id' Hx) as (pl0 & Hp & Hr). exists pl0.
    cbn. by rw list_lookup_insert_ne.
  - intros i' x y id1 id2 [_ Hx]%Hh [_ Hy]%Hh. exact (H3 _ _ _ _ _ Hx Hy).
  - assert (Hno : ∀ a pa, pu_pulls p !! a = Some pa → pl_rx pa = Some j → False).
    { intros a pa Hpa Hr. destruct (po_rx _ _ _ (H1 a pa Hpa) j Hr) as (id' & Hj' & _). by rw Hj in Hj'. }
    intros a b pa pb j' [[-> ->]|[Ha' Hpa]]%Hl [[-> ->]|[Hb Hpb]]%Hl; [done|..|by eapply H4].
    + intros [= <-] Hr. by destruct (Hno b pb).
    + intros Hr [= <-]. by destruct (Hno a pa).
Qed.

Lemma inv_dispatch_turn j p : puller_inv p → puller_inv (dispatch_turn j p).
Proof using Type.
  intros Hi. destruct (pu_tasks p !! j) as [[id [|i|]]|] eqn:Hj; [by eapply inv_remove|..];
    unfold dispatch_turn; rw Hj; try done.
  cbn [dp_phase]. destruct (pv_holder p Hi i (inr j) id Hj) as (pl & Hp & Hr & Ha).
  cbn [pu_pulls put_task]. rw Hp. destruct (pl_dead pl) eqn:Hd.
  - apply (inv_move p _ (λ x, x)); try done.
    + intros i' x id' Hx. by eapply ended_holder.
    + intros i' x id' Hx. destruct (decide (x = inr j)) as [->|Hne].
      * left. cbn in Hx. rw Hj in Hx. injection Hx as _ <-. unfold is_dead. by rw Hp.
      * right. exists x. by eapply ended_holder.
    + intros j' id'. by eapply ended_tasks.
  - destruct Ha as [Ha|?]; [|done].
    pose proof (inv_deliver j i id pl p Hi Hj Hp Ha Hd) as Hv. rw Hd in Hv.
    destruct Ha as (m & _ & [Hm|Hm]); by rw Hm in Hv |- *.
Qed.

(** A waiting pull keeps its sender until the stream is in its channel. *)
Lemma waiting_alive i pl meta p :
  puller_inv p → pu_pulls p !! i = Some pl → pl_phase pl = PWaiting meta → pl_rx pl = None →
  sender_alive p i = true.
Proof using Type.
  intros Hi Hp Hph Hr. destruct (po_active _ _ _ (pv_pulls p Hi i pl Hp) (meta_txid meta)) as [_ Hx].
  { exists meta. by split; [|right]. }
  destruct (Hx Hr) as [[k|j] Hh]; unfold sender_alive; apply orb_true_iff; [left|right]; apply existsb_exists.
  - destruct Hh as [-> Hh]. exists (meta_txid meta, i). split; [|by apply bool_decide_eq_true].
    by apply list_elem_of_In, elem_of_map_to_list.
  - exists (mkDispatch (meta_txid meta) (DRemoved i)). split; [|by apply bool_decide_eq_true].
    eapply list_elem_of_In, list_elem_of_lookup_2. exact Hh.
Qed.

(** A pull that ends without a stream. *)
Lemma inv_end i pl ph dead p :
  puller_inv p → pu_pulls p !! i = Some pl → (ph = PDropped ∨ ∃ e, ph = PReturned (Err e)) →
  (pl_dead pl = true → dead = true) → (∀ id, active pl id → dead = true) →
  puller_inv (put_pull i (with_phase ph dead (pl_rx pl) pl) p).
Proof using Type.
  intros Hi Hp Hph Hd Ha. eapply inv_put_pull; try done; cbn.
  - intros id _ Hid. right. by eapply Ha.
  - intros id (m & _ & Hm). cbn in Hm. by destruct Hph as [->|[e ->]], Hm.
  - intros [Hy|[m Hy]]; cbn in Hy; by destruct Hph as [->|[e ->]].
  - intros j meta Hr. by destruct Hph as [->|[e ->]].
Qed.

Lemma inv_pull_step i fetched begun p : puller_inv p → puller_inv (pull_step i fetched begun p).
Proof using Type.
  intros Hi. unfold pull_step. destruct (pu_pulls p !! i) as [pl|] eqn:Hp; [|done].
  assert (Hna : (∀ m, pl_phase pl ≠ PBeginning m) → (∀ m, pl_phase pl ≠ PWaiting m) →
    ∀ id, active pl id → pl_dead pl = true).
  { intros H1 H2 id (m & _ & [?|?]); [by destruct (H1 m)|by destruct (H2 m)]. }
  destruct (pl_phase pl) as [|meta|meta|meta|r|] eqn:Hph; try done.
  - destruct fetched as [meta|e]; [|eapply inv_end; [done|done|by right; eexists|done|by apply Hna]].
    eapply inv_put_pull; try done; cbn.
    + intros id _ (m & _ & [Hm|Hm]); by rw Hph in Hm.
    + by intros id (m & _ & [Hm|Hm]).
    + intros _. assert (Hy : young pl) by by left. split; [done|].
      by apply (po_young _ _ _ (pv_pulls p Hi i pl Hp)).
  - unfold pull_register. pose proof (inv_sweep p Hi) as Hs. set (swept := filter _ _) in *.
    destruct (decide _) as [_|Hn].
    + eapply (inv_end i pl _ _ (mkFetchPuller swept (pu_pulls p) (pu_tasks p)));
        [done|done|by right; eexists|done|by apply Hna].
    + eapply (inv_register i pl meta (mkFetchPuller swept (pu_pulls p) (pu_tasks p))); try done.
      by apply eq_None_not_Some.
  - destruct begun as [resp|e]; [|eapply inv_end; [done|done|by right; eexists|done|done]].
    destruct (expect_ack resp _) as [|e]; [|eapply inv_end; [done|done|by right; eexists|done|done]].
    eapply inv_put_pull; try done; cbn.
    + intros id _ (m & Hm & [Hx|Hx]); rw Hph in Hx; [|done]. left. exists m. split; [done|].
      right. cbn. by injection Hx as <-.
    + intros id (m & Hm & [Hx|Hx]); cbn in Hx; [done|]. injection Hx as <-.
      assert (Ha : active pl id) by (exists meta; by split; [|left]). split; [done|].
      by apply (po_active _ _ _ (pv_pulls p Hi i pl Hp) id Ha).
    + by intros [?|[? ?]].
  - destruct (pl_rx pl) as [j|] eqn:Hr.
    + rw -Hr. eapply inv_put_pull; try done; cbn.
      * intros id Hn. by rw Hr in Hn.
      * by intros id (m & _ & [Hm|Hm]).
      * by intros [?|[? ?]].
      * intros j' meta' [= <- <-]. split; [done|]. exists meta. by split; [|right].
    + by rw (waiting_alive i pl meta p).
Qed.

Lemma inv_exec p op : puller_inv p → puller_inv (puller_exec p op).
Proof using Type.
  intros Hi. destruct op as [uri|i fetched begun|i|id|j]; cbn;
    [|by apply inv_pull_step| |by apply inv_dispatch_stream|by apply inv_dispatch_turn].
  - destruct Hi as [H1 H2 H3 H4]. split; [..|exact H3|].
    + intros i pl. cbn. rw lookup_snoc_Some. intros [[_ Hi]|[_ <-]]; [by destruct (H1 i pl Hi)|].
      split; [done|by intros id (m & _ & [?|?])|done|done].
    + intros i x id Hx. destruct (H2 i x id Hx) as (pl & Hp & Hr). exists pl. split; [|done].
      cbn. by apply lookup_app_l_Some.
    + intros i i' pl pl' j. cbn. rw !lookup_snoc_Some.
      intros [[_ Hi]|[_ <-]] [[_ Hi']|[_ <-]]; try done. by eapply H4.
  - unfold pull_drop. destruct (pu_pulls p !! i) as [pl|] eqn:Hp; [|done].
    destruct (pl_phase pl) eqn:Hph; try done; (eapply inv_end; [done|done|by left|done|]);
      try done; intros id (m & _ & [Hm|Hm]); by rw Hph in Hm.
Qed.

Lemma puller_run_inv ops : puller_inv (puller_run ops).
Proof using Type.
  unfold puller_run. induction ops as [|op ops IH] using rev_ind.
  - assert (Hh : ∀ i x id, ¬ holder FetchPuller_new i x id).
    { intros i [k|j] id Hx; [by destruct Hx as [_ Hx]|done]. }
    split; try done; [by intros i x id ?%Hh|by intros i x y id id' ?%Hh].
  - rw foldl_app. by apply inv_exec.
Qed.

(** C27: streams reach the pull that asked for them.  In every interleaving of pulls,
    abandoned pulls and arriving streams: a pull that succeeds returns a stream
    of the transaction its metadata announced; no stream is given to two pulls;
    and a pull that waits is never told the channel is closed: its registration
    survives until its stream is handed over, so it goes on waiting or returns
    that stream. *)
Theorem pull_dispatch ops :
  let p := puller_run ops in
  (∀ i pl j meta, pu_pulls p !! i = Some pl → pl_phase pl = PReturned (Ok (j, meta)) →
     pu_tasks p !! j = Some (mkDispatch (meta_txid meta) DEnded)) ∧
  (∀ i i' pl pl' j meta meta', pu_pulls p !! i = Some pl → pu_pulls p !! i' = Some pl' →
     pl_phase pl = PReturned (Ok (j, meta)) → pl_phase pl' = PReturned (Ok (j, meta')) → i = i') ∧
  (∀ i pl meta fetched begun, pu_pulls p !! i = Some pl → pl_phase pl = PWaiting meta →
     pull_step i fetched begun p = p ∨
     ∃ j, pl_phase <$> pu_pulls (pull_step i fetched begun p) !! i = Some (PReturned (Ok (j, meta)))).
Proof using Type.
  intros p. pose proof (puller_run_inv ops) as Hi. fold p in Hi. clearbody p. split_and!.
  - intros i pl j meta Hp Hph. by apply (po_ok _ _ _ (pv_pulls p Hi i pl Hp)).
  - intros i i' pl pl' j meta meta' Hp Hp' Hph Hph'.
    apply (pv_rx p Hi i i' pl pl' j Hp Hp').
    + by apply (po_ok _ _ _ (pv_pulls p Hi i pl Hp) j meta).
    + by apply (po_ok _ _ _ (pv_pulls p Hi i' pl' Hp') j meta').
  - intros i pl meta fetched begun Hp Hph. unfold pull_step. rw Hp Hph.
    destruct (pl_rx pl) as [j|] eqn:Hr; [right; exists j|left; by rw (waiting_alive i pl meta p)].
    cbn. rw list_lookup_insert_eq //. by eapply lookup_lt_Some.
Qed.

(** A pull that waits in the table for a transaction no task will bring. *)
Definition unserved p (i : nat) (id : txid) : Prop :=
  pu_pending p !! id = Some i ∧ ∀ j d, pu_tasks p !! j = Some d → dp_txid d = id → dp_phase d = DEnded.

Definition waits p (i : nat) (meta : FetchReadyMeta) : Prop :=
  (∃ pl, pu_pulls p !! i = Some pl ∧ pl_phase pl = PWaiting meta ∧ pl_rx pl = None) ∧
  unserved p i (meta_txid meta).

Definition dropped p (i : nat) : Prop := ∃ pl, pu_pulls p !! i = Some pl ∧ pl_phase pl = PDropped.

Lemma put_pull_other i i' pl p : i ≠ i' → pu_pulls (put_pull i' pl p) !! i = pu_pulls p !! i.
Proof using Type. intros Hne. cbn. by apply list_lookup_insert_ne. Qed.

(** A step of another pull. *)
Lemma pull_step_other i i' fetched begun p :
  i ≠ i' →
  pu_pulls (pull_step i' fetched begun p) !! i = pu_pulls p !! i ∧
  pu_tasks (pull_step i' fetched begun p) = pu_tasks p ∧
  ∀ id, is_dead p i = false → pu_pending p !! id = Some i →
    pu_pending (pull_step i' fetched begun p) !! id = Some i.
Proof using Type.
  intros Hne. unfold pull_step, pull_register. destruct (pu_pulls p !! i') as [pl|]; [|done].
  destruct (pl_phase pl) as [|meta| | | |]; try done;
    try (repeat case_match; rw ?put_pull_other //; by split_and!).
  set (swept := filter _ _).
  assert (Hs : ∀ id, is_dead p i = false → pu_pending p !! id = Some i → swept !! id = Some i).
  { intros id Hd Hp. by apply map_lookup_filter_Some. }
  destruct (decide _) as [_|Hn]; cbn; rw list_lookup_insert_ne //. split_and!; try done.
  intros id Hd Hp. rw lookup_insert_ne; [|by apply Hs]. intros <-. apply Hn. exists i. by apply Hs.
Qed.

Lemma waits_exec p i meta op :
  puller_inv p → waits p i meta → op ≠ OpStream (meta_txid meta) →
  waits (puller_exec p op) i meta ∨ dropped (puller_exec p op) i.
Proof using Type.
  intros Hi [(pl & Hp & Hph & Hr) [Hpend Htask]] Hop.
  assert (Ha : active pl (meta_txid meta)) by (exists meta; by split; [|right]).
  destruct (po_active _ _ _ (pv_pulls p Hi i pl Hp) _ Ha) as [Hd _].
  destruct op as [uri|i' fetched begun|i'|id|j]; cbn.
  - left. split; [|by split]. exists pl. split; [|done]. cbn. by apply lookup_app_l_Some.
  - destruct (decide (i = i')) as [<-|Hne].
    + left. unfold pull_step. rw Hp Hph Hr (waiting_alive i pl meta p) //. split; [by exists pl|done].
    + left. destruct (pull_step_other i i' fetched begun p Hne) as (H1 & H2 & H3).
      split; [exists pl; by rw H1|]. unfold unserved. rw H2. split; [|done].
      apply H3; [|done]. unfold is_dead. by rw Hp.
  - destruct (decide (i = i')) as [<-|Hne].
    + right. unfold pull_drop. rw Hp Hph. eexists. cbn. rw list_lookup_insert_eq //. by eapply lookup_lt_Some.
    + left. unfold pull_drop. destruct (pu_pulls p !! i') as [pl'|]; [|split; [by exists pl|done]].
      destruct (pl_phase pl'); (split; [exists pl; by rw ?put_pull_other|done]).
  - left. split; [by exists pl|]. split; [done|]. cbn. intros j d [[_ Hj]|[_ <-]]%lookup_snoc_Some; [by eapply Htask|].
    cbn. by intros ->.
  - left. unfold dispatch_turn. destruct (pu_tasks p !! j) as [[id ph]|] eqn:Hj; [|split; [by exists pl|done]].
    assert (Ht : ∀ ph' q, pu_tasks q = pu_tasks p → ∀ j' d, pu_tasks (put_task j ph' q) !! j' = Some d →
      dp_txid d = meta_txid meta → id ≠ meta_txid meta ∨ ph' = DEnded → dp_phase d = DEnded).
    { intros ph' q Hq j' d Hj' Hid Hor. apply put_task_lookup in Hj'. rw Hq in Hj'.
      destruct (decide (j = j')) as [<-|]; [|by eapply Htask]. destruct Hj' as (d0 & Hd0 & ->).
      rw Hj in Hd0. injection Hd0 as <-. cbn in *. by destruct Hor. }
    destruct ph as [|i'|]; cbn [dp_phase dp_txid]; [..|split; [by exists pl|done]].
    + assert (Hne : id ≠ meta_txid meta). { intros ->. by specialize (Htask j _ Hj eq_refl). }
      destruct (pu_pending p !! id) as [i'|]; (split; [by exists pl|split]);
        [cbn; by rw lookup_delete_ne| |done|];
        intros j' d Hj' Hid; exact (Ht _ _ eq_refl _ _ Hj' Hid (or_introl Hne)).
    + assert (Hne : i ≠ i').
      { intros <-. by specialize (pv_one p Hi i (inl (meta_txid meta)) (inr j) _ _ (conj eq_refl Hpend) Hj). }
      assert (Hw : waits (put_task j DEnded p) i meta).
      { split; [by exists pl|]. split; [done|]. intros j' d Hj' Hid.
        exact (Ht _ _ eq_refl _ _ Hj' Hid (or_intror eq_refl)). }
      destruct (pu_pulls (put_task j DEnded p) !! i') as [pl'|]; [|done].
      destruct (pl_dead pl'); [done|]. destruct Hw as [(x & Hx & Hx') Hu].
      destruct (pl_phase pl'); (split; [exists x; by rw ?put_pull_other|done]).
Qed.

Lemma dropped_exec p i op : dropped p i → dropped (puller_exec p op) i.
Proof using Type.
  intros (pl & Hp & Hph).
  assert (Hq : ∀ q, pu_pulls q = pu_pulls p → dropped q i) by (intros q Hq; exists pl; by rw Hq).
  assert (Hput : ∀ i' pl' q, pu_pulls q = pu_pulls p → i ≠ i' → dropped (put_pull i' pl' q) i).
  { intros i' pl' q Hq' Hne. exists pl. rw put_pull_other // Hq' //. }
  destruct op as [uri|i' fetched begun|i'|id|j]; cbn.
  - exists pl. split; [|done]. cbn. by apply lookup_app_l_Some.
  - destruct (decide (i = i')) as [<-|Hne].
    + unfold pull_step. rw Hp Hph. by exists pl.
    + exists pl. by rw (proj1 (pull_step_other i i' fetched begun p Hne)).
  - unfold pull_drop. destruct (decide (i = i')) as [<-|Hne]; [rw Hp Hph; by exists pl|].
    destruct (pu_pulls p !! i') as [pl'|]; [|by exists pl]. destruct (pl_phase pl'); by auto.
  - by apply Hq.
  - unfold dispatch_turn. destruct (pu_tasks p !! j) as [[id ph]|]; [|by apply Hq].
    destruct ph as [|i'|]; cbn; [destruct (pu_pending p !! id); by apply Hq| |by apply Hq].
    destruct (pu_pulls p !! i') as [pl'|] eqn:Hp'; [|by apply Hq].
    destruct (pl_dead pl'); [by apply Hq|].
    destruct (decide (i = i')) as [<-|Hne]; [|destruct (pl_phase pl'); by auto].
    assert (pl' = pl) as -> by congruence. rw Hph. by apply Hq.
Qed.

(** a pull of a transfer under way waits for ever.  A transaction's stream is
    handed to the pull that is registered when it opens, and the registration
    goes with it; a second pull of the uri while the serving still runs gets the
    same transaction, registers, is acknowledged, and waits.  Unless another
    stream opens for that transaction, it never returns, whatever happens: it
    waits until its caller drops it. *)
Theorem late_pull_waits ops i pl meta later :
  let p := puller_run ops in
  pu_pulls p !! i = Some pl → pl_phase pl = PWaiting meta → unserved p i (meta_txid meta) →
  Forall (λ op, op ≠ OpStream (meta_txid meta)) later →
  ∃ pl', pu_pulls (foldl puller_exec p later) !! i = Some pl' ∧
    (pl_phase pl' = PWaiting meta ∨ pl_phase pl' = PDropped).
Proof using Type.
  intros p Hp Hph Hu Hl. pose proof (puller_run_inv ops) as Hi. fold p in Hi. clearbody p.
  assert (Hr : pl_rx pl = None).
  { destruct (pv_holder p Hi i (inl (meta_txid meta)) _ (conj eq_refl (proj1 Hu))) as (x & Hx & Hx' & _).
    congruence. }
  assert (Hw : waits p i meta ∨ dropped p i) by (left; split; [by exists pl|done]).
  clear Hp Hph Hu Hr. revert p Hi Hw. induction Hl as [|op later Hop Hl IH]; intros p Hi Hw; cbn.
  - destruct Hw as [[(x & Hx & Hx' & _) _]|(x & Hx & Hx')]; exists x; by auto.
  - apply IH; [by apply inv_exec|]. destruct Hw as [Hw|Hw]; [by apply waits_exec|right; by apply dropped_exec].
Qed.

End puller.

(** ** Companion commands *)

Section commands.
Context `{CRC : Crc32} `{JSON : JsonLib} {W : Type} `{RPC : !RpcTransport W}.

Definition companion (c : XacppCommand) (what : string) (x : XacppSession) (w : W) :
    W * result unit FetchError :=
  match request_command x w c with
  | (w, Err e) => (w, Err (FTransport e))
  | (w, Ok resp) => (w, expect_ack resp what)
  end.

Definition fetch_pause x w (id : txid) := companion (FetchPause (format_txid id)) "fetch_pause" x w.

Definition fetch_resume x w (id : txid) := companion (FetchResume (format_txid id)) "fetch_resume" x w.

(** The outcome is only logged. *)
Definition fetch_abort x w (id : txid) : W :=
  (companion (FetchAbort (format_txid id)) "fetch_abort" x w).1.
End commands.

(** ** Reading a stream to its end *)

Section verified.
Context `{SHA : Sha256Lib} {LAWS : Sha256Laws SHA}.

Definition sha256_hex (bytes : list byte) : string := Sha256_hex (Sha256_update Sha256_new bytes).

Definition verify (meta : FetchReadyMeta) (actual : string) : result unit FetchError :=
  if decide (meta_sha256 meta = actual) then Ok tt
  else Err (IntegrityMismatch (meta_sha256 meta) actual 0).

(** The read loop of [pull_to_vec]; [None]: a read is still suspended (or the
    fuel is spent). *)
Fixpoint read_to_end (fuel : nat) (s : StreamInner) (hasher : Sha256) (received : N)
    (collected : list byte) : option (StreamInner * Sha256 * N * list byte) :=
  match fuel with
  | O => None
  | S fuel =>
      match BinaryStream_read s with
      | (s, ReadChunk c) =>
          read_to_end fuel s (Sha256_update hasher (chunk_bytes c)) (received + len (chunk_bytes c))
            (collected ++ chunk_bytes c)
      | (s, ReadEnd) => Some (s, hasher, received, collected)
      | (_, ReadPending) => None
      end
  end.

(** [pull_to_vec] after [pull] returned the stream. *)
Definition pull_to_vec (fuel : nat) (s : StreamInner) (meta : FetchReadyMeta) :
    option (result (list byte * FetchReadyMeta) FetchError) :=
  match read_to_end fuel s Sha256_new 0 [] with
  | None => None
  | Some (s, hasher, received, collected) =>
      Some
        match incomplete_detail s with
        | Some d => Err (FIncomplete (detail_received d) (detail_expected d))
        | None =>
            if decide (BinaryStream_state s ≠ Complete)
            then Err (FIncomplete received (as_u32 (meta_size_bytes meta)))
            else
              match verify meta (Sha256_hex hasher) with
              | Ok _ => Ok (collected, meta)
              | Err (IntegrityMismatch expected actual _) =>
                  Err (IntegrityMismatch expected actual received)
              | Err other => Err other
              end
        end
  end.

(** ** Canned providers *)

Definition CANNED_CHUNK : nat := 64 * 1024.

(** [slice.chunks(n)]: the last piece may be shorter. *)
Fixpoint chunks_fuel {A} (fuel n : nat) (l : list A) : list (list A) :=
  match fuel, l with
  | S fuel, _ :: _ => take n l :: chunks_fuel fuel n (drop n l)
  | _, _ => []
  end.

Definition chunks {A} (n : nat) (l : list A) : list (list A) := chunks_fuel (length l) n l.

(** A loop of [sink.write(..).await?]: what was written, and how it ended
    ([None]: the last write is still suspended). *)
Fixpoint serve_loop (pieces : list (list byte)) (answers : list (result unit XacppError)) :
    list (list byte) * option (result unit XacppError) :=
  match pieces with
  | [] => ([], Some (Ok tt))
  | c :: rest =>
      match answers with
      | [] => ([c], None)
      | Err e :: _ => ([c], Some (Err e))
      | Ok _ :: answers => let '(w, r) := serve_loop rest answers in (c :: w, r)
      end
  end.

Definition bytes_resolve (data : list byte) (mime : string) : result ResolvedResource XacppError :=
  Ok (mkResolvedResource (len data) (sha256_hex data) mime).

Definition bytes_serve (data : list byte) (answers : list (result unit XacppError)) :=
  serve_loop (chunks CANNED_CHUNK data) answers.

(** [prescan_file] over the answers of [file.read]: a piece, the end ([Ok []]),
    or an I/O error ([None]). *)
Fixpoint prescan_loop (reads : list (option (list byte))) (hasher : Sha256) (size : N) :
    option (result (string * N) XacppError) :=
  match reads with
  | [] => None
  | None :: _ => Some (Err (Internal (Lit "fetch file read failed")))
  | Some [] :: _ => Some (Ok (Sha256_hex hasher, size))
  | Some piece :: reads => prescan_loop reads (Sha256_update hasher piece) (size + len piece)
  end.

Definition file_resolve (opened : bool) (reads : list (option (list byte))) (mime : string) :
    option (result ResolvedResource XacppError) :=
  if opened then
    match prescan_loop reads Sha256_new 0 with
    | None => None
    | Some (Err e) => Some (Err e)
    | Some (Ok (sha256, size)) => Some (Ok (mkResolvedResource size sha256 mime))
    end
  else Some (Err (Internal (Lit "fetch file open failed"))).

(** [FileProvider::serve]: read a piece, write it. *)
Fixpoint file_serve_loop (reads : list (option (list byte))) (answers : list (result unit XacppError)) :
    list (list byte) * option (result unit XacppError) :=
  match reads with
  | [] => ([], None)
  | None :: _ => ([], Some (Err (Internal (Lit "fetch file read failed"))))
  | Some [] :: _ => ([], Some (Ok tt))
  | Some piece :: reads =>
      match answers with
      | [] => ([piece], None)
      | Err e :: _ => ([piece], Some (Err e))
      | Ok _ :: answers => let '(w, r) := file_serve_loop reads answers in (piece :: w, r)
      end
  end.

Definition file_serve (opened : bool) (reads : list (option (list byte)))
    (answers : list (result unit XacppError)) :=
  if opened then file_serve_loop reads answers
  else ([], Some (Err (Internal (Lit "fetch file open failed")))).
(** ** Properties *)

Definition stream_bytes (s : StreamInner) : list byte := concat (chunk_bytes <$> chunk_rx s).

Definition emptied (s : StreamInner) : StreamInner :=
  mkStreamInner (si_txid s) (si_total_len s) (si_state s) (si_stalled s) [] (tx_alive s)
    (incomplete_received s) (incomplete_expected s).

Lemma read_to_end_spec fuel s h n acc :
  tx_alive s = false → length (chunk_rx s) < fuel →
  read_to_end fuel s h n acc =
    Some (emptied s, Sha256_update h (stream_bytes s), (n + len (stream_bytes s))%N, acc ++ stream_bytes s).
Proof using LAWS.
  intros Ht. unfold stream_bytes. destruct s as [id tl st sd cs alive r e]. cbn in Ht. subst alive.
  revert fuel h n acc. induction cs as [|c cs IH]; intros [|fuel] h n acc Hf; cbn in Hf; try lia.
  - cbn. unfold BinaryStream_read. cbn. rw Sha256_update_nil app_nil_r. by rw N.add_0_r.
  - cbn [read_to_end BinaryStream_read chunk_rx si_txid si_total_len si_state si_stalled tx_alive
      incomplete_received incomplete_expected]. rw IH; [cbn; lia|]. cbn.
    rw Sha256_update_app -app_assoc. do 3 f_equal. unfold len. rw length_app. lia.
Qed.

(** what [pull_to_vec] returns.  Once the stream has ended it returns, and: a
    completed stream whose bytes have the announced digest gives exactly those
    bytes; another digest is reported with both digests and the byte count; a
    stream that ended short, or was cancelled, is reported as incomplete and its
    digest is never judged. *)
Theorem pull_to_vec_verdict fuel s meta :
  tx_alive s = false → length (chunk_rx s) < fuel →
  let data := stream_bytes s in
  pull_to_vec fuel s meta = Some
    match BinaryStream_state s with
    | Complete =>
        if decide (meta_sha256 meta = sha256_hex data) then Ok (data, meta)
        else Err (IntegrityMismatch (meta_sha256 meta) (sha256_hex data) (len data))
    | Incomplete => Err (FIncomplete (incomplete_received s) (incomplete_expected s))
    | _ => Err (FIncomplete (len data) (as_u32 (meta_size_bytes meta)))
    end.
Proof using LAWS.
  intros Ht Hf data. unfold pull_to_vec. rw (read_to_end_spec fuel s) //. fold data.
  unfold incomplete_detail, verify. change (BinaryStream_state (emptied s)) with (BinaryStream_state s).
  unfold sha256_hex. cbn [app incomplete_received incomplete_expected emptied].
  destruct (BinaryStream_state s); cbn; try done.
  by repeat case_decide.
Qed.

Lemma chunks_spec {A} (n : nat) (l : list A) :
  0 < n → concat (chunks n l) = l ∧ Forall (λ c, c ≠ [] ∧ length c ≤ n) (chunks n l).
Proof using Type.
  intros Hn.
  assert (H : ∀ fuel (l : list A), length l ≤ fuel →
    concat (chunks_fuel fuel n l) = l ∧ Forall (λ c, c ≠ [] ∧ length c ≤ n) (chunks_fuel fuel n l));
    [|by apply H].
  induction fuel as [|fuel IH]; intros [|x k] Hf; cbn in Hf; try done; [lia|].
  destruct n as [|n']; [lia|]. cbn [chunks_fuel take drop].
  destruct (IH (drop n' k)) as [H1 H2]; [rw length_drop; lia|].
  split; [cbn; by rw H1 take_drop|]. apply Forall_cons. split; [|done]. split; [done|]. cbn. rw length_take. lia.
Qed.

Lemma serve_loop_ok pieces answers :
  Forall (λ a, a = Ok tt) answers → length pieces ≤ length answers →
  serve_loop pieces answers = (pieces, Some (Ok tt)).
Proof using Type.
  intros Ha. revert pieces. induction Ha as [|a answers -> Ha IH]; intros [|c pieces] Hl; cbn in *; try done; [lia|].
  rw IH; [lia|done].
Qed.

(** What a file whose content comes in [pieces] answers to reads. *)
Definition file_reads (pieces : list (list byte)) : list (option (list byte)) :=
  (Some <$> pieces) ++ [Some []].

Lemma prescan_pieces pieces h n :
  Forall (λ c, c ≠ []) pieces →
  prescan_loop (file_reads pieces) h n =
    Some (Ok (Sha256_hex (Sha256_update h (concat pieces)), (n + len (concat pieces))%N)).
Proof using LAWS.
  intros Hp. revert h n. induction Hp as [|c pieces Hc Hp IH]; intros h n.
  - cbn. rw Sha256_update_nil. by rw N.add_0_r.
  - destruct c as [|b c]; [done|]. change (prescan_loop (file_reads ((b :: c) :: pieces)) h n) with
      (prescan_loop (file_reads pieces) (Sha256_update h (b :: c)) (n + len (b :: c))%N).
    rw IH Sha256_update_app. cbn [concat]. do 3 f_equal. unfold len. rw length_app. lia.
Qed.

Lemma file_serve_pieces pieces answers :
  Forall (λ c, c ≠ []) pieces → Forall (λ a, a = Ok tt) answers → length pieces ≤ length answers →
  file_serve_loop (file_reads pieces) answers = (pieces, Some (Ok tt)).
Proof using Type.
  intros Hp. revert answers. induction Hp as [|c pieces Hc Hp IH]; intros answers Ha Hl; [done|].
  destruct c as [|b c]; [done|]. destruct Ha as [|a answers -> Ha]; cbn in Hl; [lia|].
  cbn. unfold file_reads in IH. rw IH; [done|lia|done].
Qed.

(** what the canned providers announce is what they serve, and it survives the
    trip.  For a payload, held in memory or read from a file in whatever pieces,
    both providers announce the same size and digest; with every write accepted
    they write the whole payload in order, in non-empty pieces of at most 64 KiB
    (the in-memory one); and a requester whose completed stream carries those
    bytes, however it is cut into chunks, returns the payload. *)
Theorem canned_round_trip (data : list byte) (mime : string) (pieces : list (list byte)) answers :
  concat pieces = data → Forall (λ c, c ≠ []) pieces → Forall (λ a, a = Ok tt) answers →
  length (chunks CANNED_CHUNK data) ≤ length answers → length pieces ≤ length answers →
  let '(w1, r1) := bytes_serve data answers in
  let '(w2, r2) := file_serve true (file_reads pieces) answers in
  r1 = Some (Ok tt) ∧ concat w1 = data ∧ Forall (λ c, c ≠ [] ∧ length c ≤ CANNED_CHUNK) w1 ∧
  r2 = Some (Ok tt) ∧ concat w2 = data ∧
  file_resolve true (file_reads pieces) mime = Some (bytes_resolve data mime) ∧
  ∀ id s fuel, BinaryStream_state s = Complete → tx_alive s = false → length (chunk_rx s) < fuel →
    stream_bytes s = concat w1 →
    let meta := mkFetchReadyMeta id (sha256_hex data) (len data) mime in
    pull_to_vec fuel s meta = Some (Ok (data, meta)).
Proof using LAWS.
  intros Hc Hp Ha Hl1 Hl2. unfold bytes_serve, file_serve, file_resolve.
  destruct (chunks_spec CANNED_CHUNK data) as [H1 H2]; [unfold CANNED_CHUNK; lia|].
  rw serve_loop_ok // file_serve_pieces // prescan_pieces // Hc. split_and!; try done.
  intros id s fuel Hst Ht Hf Hb. rw H1 in Hb. unfold pull_to_vec. rw (read_to_end_spec fuel s) // Hb.
  unfold incomplete_detail. change (BinaryStream_state (emptied s)) with (BinaryStream_state s).
  rw Hst. cbn. unfold verify. by repeat case_decide.
Qed.
End verified.
