(* ===== verification/FetchEndToEnd.v ===== *)
(** * A fetch from the provider's bytes to the requester's

    The fetch extension ([src/ext/fetch.rs]) composed with the transfer layer: the
    chunks a canned provider writes into its sink ([Puller.bytes_serve]) become
    the frames of a transaction of the sender ([Sender]), between acknowledgements,
    retransmissions and other transfers; the requester's session reassembles what
    arrives of them into a stream ([Delivery]); [pull_to_vec] reads that stream and
    checks it against what the responder announced. *)
From S2P Require Import Prelude Crc Frame Control Sender Reassemble Errors Stream Transfer.
From S2P Require Import Delivery Clock Sink Reception Messages Logical Fetch Puller.

(** ** Serving a transaction *)

(** Between two histories of a sender a sink for [id] is opened and the pieces
    [ps] are appended to it in order; any other calls that leave the bytes of
    [id] alone (acknowledgements, retransmissions, verdicts, pauses, the finish of
    [id], other transactions) come in between. *)
Inductive serves (id : txid) : list (list byte) → history → history → Prop :=
  | serves_open s d l total now s' :
      (total ≤ U32_MAX)%N → open_transaction s id total now = (s', Ok tt) →
      serves id [] (mkHistory s d l) (mkHistory s' (<[id:=[]]> d) (forget id l))
  | serves_append ps h s d l chunk now s' out bs :
      serves id ps h (mkHistory s d l) →
      append_chunk s id chunk now = (s', Ok out) → d !! id = Some bs →
      serves id (ps ++ [chunk]) h (mkHistory s' (<[id:=bs ++ chunk]> d) (l ++ out))
  | serves_other ps h h1 h2 :
      serves id ps h h1 → sender_step h1 h2 → h_data h2 !! id = h_data h1 !! id →
      serves id ps h h2.

Lemma serves_steps id ps h h' : serves id ps h h' → rtc sender_step h h'.
Proof.
  induction 1 as [s d l total now s' Ht Ho|ps h s d l chunk now s' out bs _ IH Ha Hd|ps h h1 h2 _ IH Hs _].
  - apply rtc_once. by eapply step_open.
  - eapply rtc_r; [exact IH|]. by eapply step_append.
  - by eapply rtc_r.
Qed.

(** The bytes handed in are the pieces. *)
Lemma serves_data id ps h h' : serves id ps h h' → h_data h' !! id = Some (concat ps).
Proof.
  induction 1 as [s d l total now s' Ht Ho|ps h s d l chunk now s' out bs _ IH Ha Hd|ps h h1 h2 _ IH _ Hs].
  - cbn. apply lookup_insert_eq.
  - cbn [h_data] in *. rw lookup_insert_eq concat_app /= app_nil_r. congruence.
  - by rw Hs.
Qed.

(** A provider loop that returned wrote every piece. *)
Lemma serve_loop_done pieces answers w :
  serve_loop pieces answers = (w, Some (Ok tt)) → w = pieces.
Proof.
  revert answers w. induction pieces as [|c pieces IH]; intros answers w; cbn; [by intros [= <-]|].
  destruct answers as [|[]]; try done. destruct (serve_loop pieces answers) as [w' r] eqn:He.
  intros [= <- ->]. f_equal. by eapply IH.
Qed.

Section fetch_end_to_end.
Context `{CRC : Crc32} `{UUID : UuidLib} `{JSON : JsonLib} {W : Type} `{WIRE : TransferWiring W}.
Context `{SHA : Sha256Lib} {LAWS : Sha256Laws SHA}.

(** What the responder announces for a resolved resource served as [id]. *)
Definition announced (id : txid) (r : ResolvedResource) : FetchReadyMeta :=
  mkFetchReadyMeta id (res_sha256 r) (res_size_bytes r) (res_mime r).

Lemma fetch_ready_parses m : response_to_meta (ready_response m) = Ok m.
Proof using Type. cbn. rw parse_format_txid. by destruct m. Qed.

(** A completed stream with the announced bytes verifies. *)
Lemma verified_stream id data mime s fuel :
  BinaryStream_state s = Complete → tx_alive s = false → length (chunk_rx s) < fuel →
  stream_bytes s = data →
  let meta := announced id (mkResolvedResource (len data) (sha256_hex data) mime) in
  pull_to_vec fuel s meta = Some (Ok (data, meta)).
Proof using LAWS.
  intros Hst Ht Hf Hb meta. unfold pull_to_vec. rw (read_to_end_spec fuel s) // Hb.
  unfold incomplete_detail. change (BinaryStream_state (emptied s)) with (BinaryStream_state s).
  rw Hst. cbn. unfold verify. by repeat case_decide.
Qed.

(** C6: a fetch delivers the resource.  A provider loop that served [data] (its
    chunks appended to the sink of [id] between any other calls of the sender,
    the sink finished) has produced frames such that: whatever of them reaches
    the requester, in any order once the first has come, with duplicates and
    between other traffic, the frame that completes the set gives the requester a
    complete stream, and reading it to the end returns exactly [data] with the
    metadata the responder announced, which is what the requester's end parsed
    from the [fetch_ready] response. *)
Theorem fetch_delivers cfg h0 s d l id data mime answers pieces t r arr f tm (w : W) :
  bytes_serve data answers = (pieces, Some (Ok tt)) →
  sender_reach cfg h0 → serves id pieces h0 (mkHistory s d l) →
  s_pending s !! id = Some t → is_fully_sent t = true →
  streams_inv (ts_state r) → slots (st_reassembler (ts_state r)) !! id = None →
  ts_stream_handler r = true →
  Forall (from_sender id l) arr → f ∈ l → transaction_id f = id →
  head (own_seqs id (arr ++ [(f, tm)])) = Some 0%N →
  (∃ k, (k < len (txn_frames t))%N ∧ (k ∉ own_seqs id arr)) →
  (∀ k, (k < len (txn_frames t))%N → k ∈ own_seqs id (arr ++ [(f, tm)])) →
  ∃ res meta, bytes_resolve data mime = Ok res ∧
    response_to_meta (ready_response (announced id res)) = Ok meta ∧
    let '(r1, w1, out1) := inbound_all r arr w in
    let '(r2, w2, out2) := handle_inbound r1 f w1 tm in
    ∃ loc si, StreamOpened loc ∈ out1 ++ out2 ∧ st_heap (ts_state r2) !! loc = Some si ∧
      ∀ fuel, length (chunk_rx si) < fuel → pull_to_vec fuel si meta = Some (Ok (data, meta)).
Proof using LAWS.
  intros Hserve Hr Hsv Ht Hsent Hi Hslot Hsh Harr Hf Hid Hhd Hmiss Hall.
  apply serve_loop_done in Hserve as ->. pose proof (serves_data _ _ _ _ Hsv) as Hd. cbn [h_data] in Hd.
  destruct (chunks_spec CANNED_CHUNK data) as [Hcat _]; [unfold CANNED_CHUNK; lia|]. rw Hcat in Hd.
  assert (Hr' : sender_reach cfg (mkHistory s d l))
    by (unfold sender_reach in *; etransitivity; [exact Hr|by eapply serves_steps]).
  apply sender_reach_inv in Hr' as (_ & _ & Hpend). destruct (Hpend id t Ht) as (ps & Hti & Hdp & Hlog).
  apply andb_true_iff in Hsent as [Hw%N.eqb_eq Hp%bool_decide_eq_true].
  rw Hd Hp app_nil_r in Hdp. injection Hdp as Hdata.
  assert (Htot : txn_total_len t = len (concat ps))
    by (rw -Hw (ti_written _ _ _ _ Hti) Hp len_nil; lia).
  assert (Hlen : len (txn_frames t) = len ps) by (unfold len; by rw (ti_len _ _ _ _ Hti)).
  rw Hlen in Hmiss Hall. subst data.
  destruct (Hlog f Hf Hid) as (i & p & Hip & ->).
  assert (Happ : own_seqs id (arr ++ [(piece_frame id (txn_total_len t) i p, tm)]) =
    own_seqs id arr ++ [N.of_nat i]).
  { unfold own_seqs at 1. rw omap_app. f_equal. apply own_seqs_piece. }
  rw Happ in Hhd Hall.
  assert (Hok : Forall (arrival_ok id (txn_total_len t) ps) arr).
  { eapply Forall_impl; [exact Harr|]. intros [g tg] [[Hg Hgid]|Hn]; [left; by apply Hlog|by right]. }
  assert (Hns : ¬ all_seen ps (own_seqs id arr)) by (intros H; destruct Hmiss as (k & Hk & Hnk); by apply Hnk, H).
  assert (Hne : Forall (λ p, 1 ≤ length p) ps).
  { eapply Forall_impl; [exact (ti_pieces _ _ _ _ Hti)|]. cbn. lia. }
  pose proof (delivery_core id (txn_total_len t) ps Hne Htot (proj2 (ti_total _ _ _ _ Hti)) true
    r arr w i p tm Hi Hslot Hsh ltac:(done) Hok Hip Hhd Hns Hall) as Hdel.
  eexists _, _. split; [reflexivity|]. split; [apply fetch_ready_parses|].
  destruct (inbound_all r arr w) as [[r1 w1] out1]. destruct (handle_inbound r1 _ w1 tm) as [[r2 w2] out2].
  destruct Hdel as (_ & _ & _ & _ & loc & si & Ho & Hh & Hc & Ha & Hb).
  exists loc, si. split_and!; [done|done|]. intros fuel Hfuel.
  apply verified_stream; try done. unfold stream_bytes. by rw Hb.
Qed.
End fetch_end_to_end.
