(* ===== verification/Interop.v ===== *)
(** * The interoperability peer

    The program of [examples/interop_peer.rs], a client of the whole library: its
    command line ([parse_args]), the echo service on the bare transport
    ([handle_request]), the fetch modes on the full peer ([on_establish],
    [FetchEchoHandler]), the task that streams a served file and the task that pulls a
    resource and reports it ([pull_and_report]).  The file system and the answers of
    sinks and streams are arguments; the pull's fetches are those of its session
    ([Logical.fetch]).  Lines on stderr that a harness reads are values of [Line]. *)
From S2P Require Import Prelude Crc Frame Control Sender Reassemble Errors Stream Transfer.
From S2P Require Import Delivery Clock Sink Messages Logical Fetch Puller Peer.

Definition SESSION_ID : string := "interop".
Definition SESSION_CREDENTIALS : string := "interop-creds".

(** ** The command line *)

Inductive Mode : Type :=
  | Echo
  | FetchServe (dir : string)
  | FetchPull (uri : string).

(** [str::parse::<u16>]: an optional plus sign, at least one digit, no overflow. *)
Fixpoint parse_digits (s : list byte) (acc : N) : option N :=
  match s with
  | [] => Some acc
  | b :: s =>
      if byte_in 48 57 b then
        let n := (acc * 10 + (Byte.to_N b - 48))%N in
        if (65535 <? n)%N then None else parse_digits s n
      else None
  end.

Definition parse_u16 (s : string) : option N :=
  match String.list_byte_of_string s with
  | [] | [x2b] => None
  | x2b :: s => parse_digits s 0
  | s => parse_digits s 0
  end.

(** The loop over the arguments; [Err n] is [std::process::exit(n)].  [--port] without
    a value clears the port, and with no argument left that is the usage error. *)
Fixpoint parse_loop (args : list string) (mode : Mode) (port : option N) : result (Mode * N) N :=
  match args with
  | [] => match port with Some p => Ok (mode, p) | None => Err 2%N end
  | arg :: rest =>
      if String.eqb arg "--fetch-serve" then
        match rest with
        | dir :: rest => parse_loop rest (FetchServe dir) port
        | [] => Err 2%N
        end
      else if String.eqb arg "--fetch-pull" then
        match rest with
        | uri :: rest => parse_loop rest (FetchPull uri) port
        | [] => Err 2%N
        end
      else if String.eqb arg "--port" then
        match rest with
        | v :: rest => parse_loop rest mode (parse_u16 v)
        | [] => Err 2%N
        end
      else Err 2%N
  end.

Definition parse_args (args : list string) : result (Mode * N) N := parse_loop args Echo None.

(** ** The harness's lines *)

Inductive Line : Type :=
  | LEvent (name : string) (n : N)
  | LFetched (uri sha256 : string) (bytes : N) (mime : string)
  | LNever
  | LMismatch (uri : string) (actual_len expected_len : N) (actual expected : string)
  | LAttempt (attempt : nat) (e : XacppError)
  | LGaveUp (uri : string) (attempts : nat).

(** ** The echo service *)

Section echo.
Context `{JSON : JsonLib}.

Definition established : XacppResponse := Established SESSION_ID SESSION_CREDENTIALS.

(** One request: the event counter, what is printed, the answer. *)
Definition handle_request (event_seq : N) (payload : XacppRequest) :
    N * list Line * result XacppResponse XacppError :=
  match payload with
  | ReqCommand (CmdNegotiate capabilities) => (event_seq, [], Ok (Negotiated capabilities))
  | ReqCommand (Establish _) => (event_seq, [], Ok established)
  | ReqCommand EstablishConfirm => (event_seq, [], Ok established)
  | ReqCommand (Fetch _ | FetchBegin _ | FetchPause _ | FetchResume _ | FetchAbort _) =>
      (event_seq, [],
       Ok (RespError FETCH_REFUSED (Lit "interop_peer echo mode does not serve fetch")))
  | ReqCommand (Generic name arguments _) => (event_seq, [], Ok (RespGeneric name arguments))
  | ReqEvent event =>
      let n := ((event_seq + 1) mod 2 ^ 64)%N in
      (n, [LEvent (ev_name (ae_event event)) n], Ok acknowledge)
  end.

(** The requests of one connection, in the order the counter sees them. *)
Fixpoint serve_requests (event_seq : N) (reqs : list XacppRequest) :
    list Line * list (result XacppResponse XacppError) :=
  match reqs with
  | [] => ([], [])
  | r :: reqs =>
      let '(n, lines, a) := handle_request event_seq r in
      let '(lines', as_) := serve_requests n reqs in (lines ++ lines', a :: as_)
  end.
End echo.

(** ** The fetch modes *)

Section fetch_modes.
Context `{CRC : Crc32} `{UUID : UuidLib} `{JSON : JsonLib} `{SHA : Sha256Lib}.
Context {W : Type} `{WIRE : TransferWiring W} `{TRANSPORT : !XacppTransport W} `{RPC : !RpcTransport W}.
Implicit Types (w : W) (x : XacppSession).

(** [Path::join] with the separator of the platform: an absolute path replaces. *)
Definition path_join (dir uri : string) : string :=
  if String.prefix "/" uri then uri
  else if String.eqb dir "" then uri
  else dir +:+ "/" +:+ uri.

(** The session handler behind [Established]: where it serves from, and the session
    behind its weak reference while that one is alive. *)
Record FetchEchoHandler : Type := mkFetchEchoHandler {
  serve_dir : option string;
  fe_session : option XacppSession;
}.

(** The stream task [serve_fetch] spawns: what it has to send and where. *)
Record StreamTask : Type := mkStreamTask { tk_txid : txid; tk_bytes : list byte }.

(** [read] answers [std::fs::read]; [fresh] is the generated id. *)
Definition serve_fetch (h : FetchEchoHandler) (read : string → result (list byte) string)
    (fresh : txid) (uri : string) (now : N) :
    FetchEchoHandler * option StreamTask * result XacppResponse XacppError :=
  match serve_dir h, fe_session h with
  | None, _ => (h, None, Ok (RespError FETCH_REFUSED (Lit "not a fetch-serving peer")))
  | Some _, None => (h, None, Ok (RespError FETCH_REFUSED (Lit "responder session is gone")))
  | Some dir, Some x =>
      match read (path_join dir uri) with
      | Err e => (h, None, Ok (RespError FETCH_NOT_FOUND (Fmt "{}: {}" [uri; e])))
      | Ok bytes =>
          match session_open_binary_sink x (mkBinaryMeta (as_u32 (len bytes))) (Some fresh) fresh now with
          | (x, Err e) =>
              (mkFetchEchoHandler (Some dir) (Some x), None, Err (Internal (DisplayError e)))
          | (x, Ok id) =>
              (mkFetchEchoHandler (Some dir) (Some x), Some (mkStreamTask id bytes),
               Ok (FetchReady (format_txid fresh) (sha256_hex bytes) (len bytes) "application/octet-stream"))
          end
      end
  end.

Definition FetchEchoHandler_on_command (h : FetchEchoHandler)
    (read : string → result (list byte) string) (fresh : txid) (c : XacppCommand) (now : N) :
    FetchEchoHandler * option StreamTask * result XacppResponse XacppError :=
  match c with
  | Generic name arguments _ => (h, None, Ok (RespGeneric name arguments))
  | Fetch uri => serve_fetch h read fresh uri now
  | _ => (h, None, Err (Internal (Lit "interop_peer fetch session does not handle")))
  end.

Definition FetchEchoHandler_on_event (e : XacppActivityEvent) : result XacppResponse XacppError :=
  Ok acknowledge.

(** How the stream task ended: [finish] called, a write failed, or a write is
    suspended. *)
Inductive TaskEnd : Type := TaskFinished | TaskStopped | TaskSuspended.

(** [while offset < bytes.len()]; every iteration moves on, so one more than the
    length of what is left is enough fuel. *)
Fixpoint stream_loop (fuel offset : nat) (bytes : list byte)
    (answers : list (result unit XacppError)) : list (list byte) * TaskEnd :=
  match fuel with
  | O => ([], TaskSuspended)
  | S fuel =>
      if offset <? length bytes then
        let end_ := (offset + 64 * 1024) `min` length bytes in
        let piece := take (end_ - offset) (drop offset bytes) in
        match answers with
        | [] => ([piece], TaskSuspended)
        | Err _ :: _ => ([piece], TaskStopped)
        | Ok _ :: answers =>
            let '(w, r) := stream_loop fuel end_ bytes answers in (piece :: w, r)
        end
      else ([], TaskFinished)
  end.

Definition stream_task (t : StreamTask) (answers : list (result unit XacppError)) :=
  stream_loop (S (length (tk_bytes t))) 0 (tk_bytes t) answers.

(** [on_establish]: the responder session, the spawned pull, the wiring, the slot
    ([None]: the mode has no establish handler). *)
Definition FetchEstablishHandler_on_establish (mode : Mode) (tr handle : nat) w (now : N) :
    option (option XacppSession * option string * option FetchEchoHandler * W *
            result EstablishDecision XacppError) :=
  let x := with_identity SESSION_ID SESSION_CREDENTIALS (XacppSession_new (Some TransferConfig_default) now) in
  let go serve_dir pull :=
    match session_wire x tr w now with
    | (_, w, Err e) => (None, pull, None, w, Err e)
    | (x, w, Ok _) =>
        (Some x, pull, Some (mkFetchEchoHandler serve_dir (Some x)), w,
         Ok (DecidedEstablished SESSION_ID (mkSessionHandler handle true) SESSION_CREDENTIALS))
    end in
  match mode with
  | FetchServe dir => Some (go (Some dir) None)
  | FetchPull uri => Some (go None (Some uri))
  | Echo => None
  end.

Definition FetchEstablishHandler_on_establish_confirm : result (string * SessionHandler * string) XacppError :=
  Err (Internal (Lit "challenge path not used by interop_peer")).

Definition LogNegotiate_on_negotiate (effective : EffectiveCapabilities) : result unit XacppError := Ok tt.

(** The peer of [serve_fetch] and its handlers; [decide_establish] is what
    [on_establish] decided. *)
Definition interop_peer : XacppPeer := XacppPeer_new Capabilities_default None.

Definition interop_handlers (decide_establish : option string → result EstablishDecision XacppError) :
    PeerHandlers :=
  mkPeerHandlers LogNegotiate_on_negotiate decide_establish FetchEstablishHandler_on_establish_confirm.
End fetch_modes.

(** ** Pulling and reporting *)

Definition ATTEMPTS : nat := 5.

(** What the stream readers share with the pull. *)
Record Claim : Type := mkClaim {
  cl_meta : option (txid * N);
  cl_chunks : list (list byte);
  cl_terminal : option StreamState;
}.

(** A reader task, one per inbound stream: spawned by the stream handler, reading,
    ended. *)
Inductive Reader : Type :=
  | RdSpawned (id : txid) (total : N)
  | RdReading
  | RdEnded.

(** The pull: sleeping before an attempt, awaiting [fetch], polling the claim (its
    metadata, then its terminal state, each under its own lock), collecting, done. *)
Inductive PullPoint : Type :=
  | PtSleep (attempt : nat)
  | PtFetch (attempt : nat)
  | PtMeta (meta : FetchReadyMeta) (deadline : N)
  | PtTerminal (meta : FetchReadyMeta) (deadline : N)
  | PtExpired (meta : FetchReadyMeta) (deadline : N)
  | PtCollect (meta : FetchReadyMeta)
  | PtDone.

Record PullReport : Type := mkPullReport {
  pr_claim : Claim;
  pr_readers : list Reader;
  pr_point : PullPoint;
  pr_lines : list Line;
}.

Definition PullReport_new : PullReport := mkPullReport (mkClaim None [] None) [] (PtSleep 1) [].

(** What happens: a stream opens; reader [j] runs, its [read] answering [r] and its
    stream's state being [st]; the pull runs at [now] over the transport [w], when the
    transfer state of its session is [t] and its wiring [tr] (both change under it:
    the transport's hooks, the clock and [wire] work on the same session). *)
Inductive ClaimOp (W : Type) : Type :=
  | StreamOpens (id : txid) (total : N)
  | ReaderRuns (j : nat) (r : Read) (st : StreamState)
  | PullRuns (t : TransferSession) (tr : option nat) (w : W) (now : N).
Arguments StreamOpens {W}.
Arguments ReaderRuns {W}.
Arguments PullRuns {W}.

Section pull.
Context `{CRC : Crc32} `{UUID : UuidLib} `{JSON : JsonLib} `{SHA : Sha256Lib}.
Context {W : Type} `{WIRE : TransferWiring W} `{TRANSPORT : !XacppTransport W} `{RPC : !RpcTransport W}.
Implicit Types (c : Claim) (p : PullReport) (x : XacppSession).

Definition set_point (pt : PullPoint) p : PullReport :=
  mkPullReport (pr_claim p) (pr_readers p) pt (pr_lines p).

Definition print (l : Line) p : PullReport :=
  mkPullReport (pr_claim p) (pr_readers p) (pr_point p) (pr_lines p ++ [l]).

(** One turn of a reader task. *)
Definition reader_step (j : nat) (r : Read) (st : StreamState) p : PullReport :=
  let c := pr_claim p in
  let put c rd := mkPullReport c (<[j := rd]> (pr_readers p)) (pr_point p) (pr_lines p) in
  match pr_readers p !! j with
  | Some (RdSpawned id total) => put (mkClaim (Some (id, total)) (cl_chunks c) (cl_terminal c)) RdReading
  | Some RdReading =>
      match r with
      | ReadChunk ch => put (mkClaim (cl_meta c) (cl_chunks c ++ [chunk_bytes ch]) (cl_terminal c)) RdReading
      | ReadEnd => put (mkClaim (cl_meta c) (cl_chunks c) (Some st)) RdEnded
      | ReadPending => p
      end
  | _ => p
  end.

(** The verdict on what was collected. *)
Definition report (uri : string) (meta : FetchReadyMeta) (payload : list byte) : Line :=
  let sha256 := sha256_hex payload in
  if bool_decide (len payload ≠ meta_size_bytes meta) || bool_decide (sha256 ≠ meta_sha256 meta)
  then LMismatch uri (len payload) (meta_size_bytes meta) sha256 (meta_sha256 meta)
  else LFetched uri sha256 (meta_size_bytes meta) (meta_mime meta).

(** One turn of the pull; [fetched] answers [session.fetch], used at the turns that
    call it. *)
Definition pull_turn (uri : string) (now : N) (fetched : result FetchReadyMeta XacppError) p : PullReport :=
  match pr_point p with
  | PtSleep k => set_point (PtFetch k) p
  | PtFetch k =>
      match fetched with
      | Ok meta => set_point (PtMeta meta (now + 10000)) p
      | Err e =>
          let p := print (LAttempt k e) p in
          if k <? ATTEMPTS then set_point (PtSleep (S k)) p
          else set_point PtDone (print (LGaveUp uri ATTEMPTS) p)
      end
  | PtMeta meta deadline =>
      match cl_meta (pr_claim p) with
      | Some (id, _) =>
          if decide (id = meta_txid meta) then set_point (PtTerminal meta deadline) p
          else set_point (PtExpired meta deadline) p
      | None => set_point (PtExpired meta deadline) p
      end
  | PtTerminal meta deadline =>
      match cl_terminal (pr_claim p) with
      | Some Complete => set_point (PtCollect meta) p
      | _ => set_point (PtExpired meta deadline) p
      end
  | PtExpired meta deadline =>
      if (deadline <=? now)%N then set_point PtDone (print LNever p)
      else set_point (PtMeta meta deadline) p
  | PtCollect meta =>
      set_point PtDone (print (report uri meta (concat (cl_chunks (pr_claim p)))) p)
  | PtDone => p
  end.

Definition pull_exec x (uri : string) p (op : ClaimOp W) : PullReport :=
  match op with
  | StreamOpens id total =>
      mkPullReport (pr_claim p) (pr_readers p ++ [RdSpawned id total]) (pr_point p) (pr_lines p)
  | ReaderRuns j r st => reader_step j r st p
  | PullRuns t tr w now =>
      pull_turn uri now (fetch (set_transport tr (set_transfer t x)) w uri).2 p
  end.

(** [x] is the session [on_establish] made; a turn of the pull that calls [fetch] gets
    that session's answer ([Logical.fetch]). *)
Definition pull_and_report x (uri : string) (ops : list (ClaimOp W)) : PullReport :=
  foldl (pull_exec x uri) PullReport_new ops.
End pull.

(** ** Properties *)

Lemma parse_digits_bound s acc n : (acc ≤ 65535)%N → parse_digits s acc = Some n → (n ≤ 65535)%N.
Proof.
  revert acc. induction s as [|b s IH]; intros acc Ha; cbn; [by intros [= <-]|].
  case_match; [|done]. case_match eqn:Hn; [done|]. apply IH. by apply N.ltb_ge in Hn.
Qed.

Lemma parse_u16_bound s n : parse_u16 s = Some n → (n ≤ 65535)%N.
Proof.
  unfold parse_u16. destruct (String.list_byte_of_string s) as [|b bs]; [done|].
  intros H. apply (parse_digits_bound (if decide (b = x2b) then bs else b :: bs) 0); [lia|].
  destruct b; case_decide; try done; by destruct bs.
Qed.

(** The program starts on a port of the machine's range, or exits with the usage code. *)
Lemma parse_args_result args :
  match parse_args args with Ok (_, port) => (port ≤ 65535)%N | Err code => code = 2%N end.
Proof.
  unfold parse_args.
  enough (H : ∀ n args mode port, length args ≤ n → (∀ q, port = Some q → (q ≤ 65535)%N) →
    match parse_loop args mode port with Ok (_, p) => (p ≤ 65535)%N | Err code => code = 2%N end)
    by (by apply (H (length args))).
  clear args. induction n as [|n IH]; intros [|arg rest] mode port Hl Hp; cbn in Hl; try lia.
  1,2: cbn; destruct port as [q|]; [by apply Hp|done].
  cbn [parse_loop]. repeat (destruct (String.eqb arg _)); try done;
    destruct rest as [|v rest]; try done; cbn in Hl; apply IH; try lia; try done; apply parse_u16_bound.
Qed.

Section echo_properties.
Context `{JSON : JsonLib}.

Definition event_names (reqs : list XacppRequest) : list string :=
  omap (λ r, match r with ReqEvent e => Some (ev_name (ae_event e)) | _ => None end) reqs.

(** Every request is answered, and the events are counted without a gap. *)
Lemma echo_service n reqs :
  (n + len (event_names reqs) < 2 ^ 64)%N →
  let '(lines, answers) := serve_requests n reqs in
  lines = imap (λ i name, LEvent name (n + N.of_nat i + 1)) (event_names reqs) ∧
  length answers = length reqs ∧ Forall (λ a, is_ok a = true) answers.
Proof using Type.
  revert n. induction reqs as [|r reqs IH]; intros n Hn; [done|]. cbn [serve_requests].
  assert (Hquiet : ∀ a, is_ok a = true → event_names (r :: reqs) = event_names reqs →
    let '(lines, answers) := serve_requests n reqs in
    lines = imap (λ i name, LEvent name (n + N.of_nat i + 1)) (event_names (r :: reqs)) ∧
    length (a :: answers) = length (r :: reqs) ∧ Forall (λ a, is_ok a = true) (a :: answers)).
  { intros a Ha He. rw He in Hn |- *. specialize (IH n Hn). destruct (serve_requests n reqs) as [ls as_].
    destruct IH as (-> & H2 & H3). split_and!; [done|cbn; lia|by constructor]. }
  destruct r as [c|e].
  - assert (He : event_names (ReqCommand c :: reqs) = event_names reqs) by done.
    destruct c; cbn [handle_request app];
      match goal with |- context [?a :: _] => specialize (Hquiet a eq_refl He) end;
      by destruct (serve_requests n reqs).
  - cbn [handle_request]. cbn [event_names omap list_omap] in Hn |- *. fold (event_names reqs) in Hn |- *.
    unfold len in Hn. cbn [length] in Hn. rw N.mod_small; [lia|].
    specialize (IH (n + 1)%N). destruct (serve_requests (n + 1) reqs) as [ls as_].
    destruct IH as (-> & H2 & H3); [unfold len; lia|]. split_and!; [|cbn; lia|by constructor].
    cbn [imap app]. f_equal; [f_equal; lia|]. apply imap_ext. intros i x _. cbn. f_equal. lia.
Qed.
End echo_properties.

Section fetch_properties.
Context `{CRC : Crc32} `{UUID : UuidLib} `{JSON : JsonLib} `{SHA : Sha256Lib}.
Context {W : Type} `{WIRE : TransferWiring W} `{TRANSPORT : !XacppTransport W} `{RPC : !RpcTransport W}.
Implicit Types (w : W) (x : XacppSession) (p : XacppPeer).

Definition task_end (r : option (result unit XacppError)) : TaskEnd :=
  match r with None => TaskSuspended | Some (Err _) => TaskStopped | Some (Ok _) => TaskFinished end.

Lemma stream_loop_chunks fuel offset bytes answers :
  length bytes ≤ offset + fuel →
  stream_loop (S fuel) offset bytes answers =
    let '(w, r) := serve_loop (chunks_fuel fuel CANNED_CHUNK (drop offset bytes)) answers in (w, task_end r).
Proof using Type.
  revert offset answers. induction fuel as [|fuel IH]; intros offset answers Hf.
  - cbn [stream_loop]. by rw (proj2 (Nat.ltb_ge offset (length bytes))); [lia|].
  - remember (S fuel) as k eqn:Hk. cbn [stream_loop]. subst k.
    destruct (Nat.ltb_spec offset (length bytes)) as [Hlt|Hge].
    2: { assert (H : drop offset bytes = []) by (apply drop_ge; lia). by rw H. }
    change (64 * 1024) with CANNED_CHUNK.
    set (end_ := (offset + CANNED_CHUNK) `min` length bytes).
    assert (Hc : 0 < CANNED_CHUNK) by (unfold CANNED_CHUNK; lia).
    assert (Hpiece : take (end_ - offset) (drop offset bytes) = take CANNED_CHUNK (drop offset bytes)).
    { unfold end_. destruct (Nat.min_spec (offset + CANNED_CHUNK) (length bytes)) as [[_ ->]|[Hle ->]].
      - f_equal. lia.
      - rw !take_ge; rw ?length_drop; done || lia. }
    assert (Hrest : drop CANNED_CHUNK (drop offset bytes) = drop end_ bytes).
    { rw drop_drop. unfold end_. destruct (Nat.min_spec (offset + CANNED_CHUNK) (length bytes)) as [[_ ->]|[Hle ->]]; [done|].
      rw !drop_ge; done || lia. }
    assert (Hend : length bytes ≤ end_ + fuel) by lia.
    destruct (drop offset bytes) as [|b l] eqn:Hd; [apply (f_equal length) in Hd; rw length_drop in Hd; cbn in Hd; lia|].
    cbn [chunks_fuel serve_loop]. rw Hpiece Hrest. destruct answers as [|[[]|e] answers]; [done| |done].
    rw (IH end_ answers Hend). by destruct (serve_loop _ answers).
Qed.

(** The stream task sends what the in-memory provider of the fetch extension sends. *)
Lemma stream_task_serves id data answers :
  stream_task (mkStreamTask id data) answers =
    let '(w, r) := bytes_serve data answers in (w, task_end r).
Proof using Type. apply (stream_loop_chunks (length data) 0). cbn. lia. Qed.

(** What a served file is announced with, and what its stream task then sends; an
    empty file, or one whose length is a multiple of [2^32], is an internal error. *)
Lemma serve_fetch_announces dir x read fresh uri bytes now :
  read (path_join dir uri) = Ok bytes →
  s_pending (st_sender (ts_state (xs_transfer x))) !! fresh = None →
  let '(_, task, r) := serve_fetch (mkFetchEchoHandler (Some dir) (Some x)) read fresh uri now in
  if decide (as_u32 (len bytes) = 0%N) then task = None ∧ is_ok r = false
  else task = Some (mkStreamTask fresh bytes) ∧
    ∃ resp, r = Ok resp ∧
      response_to_meta resp = Ok (mkFetchReadyMeta fresh (sha256_hex bytes) (len bytes) "application/octet-stream").
Proof using Type.
  intros Hr Hf. unfold serve_fetch. cbn [serve_dir fe_session]. rw Hr.
  unfold session_open_binary_sink, open_binary_sink, open_transaction, contains_transaction.
  cbn [default meta_total_len]. rw Hf. cbn -[as_u32 sha256_hex format_txid].
  destruct (N.eqb_spec (as_u32 (len bytes)) 0) as [H0|H0]; case_decide; try done.
  split; [done|]. eexists. split; [done|]. cbn. by rw parse_format_txid.
Qed.

(** [dir.join(uri)] leaves the served directory for an absolute [uri]. *)
Lemma absolute_uri_escapes dir uri : String.prefix "/" uri = true → path_join dir uri = uri.
Proof using Type. unfold path_join. by intros ->. Qed.

(** The requests a connection brings, in order. *)
Definition route_all (hs : PeerHandlers) p (reqs : list (option string * XacppRequest)) : XacppPeer :=
  foldl (λ p r, (route hs p r.1 r.2).1) p reqs.

Lemma route_fetch_off hs p sid req :
  p_local_capabilities p = Capabilities_default → p_fetch_enabled p = false →
  let p' := (route hs p sid req).1 in
  p_local_capabilities p' = Capabilities_default ∧ p_fetch_enabled p' = false.
Proof using Type.
  intros Hc Hf. unfold route. destruct sid as [sid|].
  - destruct req as [c|e]; destruct (p_sessions p !! sid); try done. by case_match.
  - destruct req as [[]|]; try done.
    + destruct (on_negotiate hs _); [|done]. cbn. by rw Hc.
    + destruct (on_establish hs _) as [[]|]; done.
    + destruct (on_establish_confirm hs) as [[[]]|]; done.
Qed.

(** C39: the interoperability peer never serves a fetch.  Its peer is built with the
    default capabilities, which do not declare the fetch extension, so whatever a
    connection sends and whatever its handlers decide, negotiation leaves fetch
    disabled: every fetch-family command to an established session is answered
    [fetch_unavailable] by the peer and never reaches the handler that would serve
    the directory. *)
Theorem interop_fetch_unavailable decide_establish reqs sid c h :
  let hs := interop_handlers decide_establish in
  let p := route_all hs interop_peer reqs in
  p_sessions p !! sid = Some h → is_fetch_family c = true →
  ∃ m, route hs p (Some sid) (ReqCommand c) = (p, Answer (Ok (RespError FETCH_UNAVAILABLE m))).
Proof using Type.
  intros hs p Hh Hc.
  assert (Hoff : p_local_capabilities p = Capabilities_default ∧ p_fetch_enabled p = false).
  { unfold p, route_all. clear. assert (H0 : p_local_capabilities interop_peer = Capabilities_default ∧
      p_fetch_enabled interop_peer = false) by done.
    revert H0. generalize interop_peer. induction reqs as [|r reqs IH]; intros q [Hq1 Hq2]; [done|].
    cbn [foldl]. apply IH. by apply route_fetch_off. }
  destruct Hoff as [_ Hoff]. unfold route. rw Hh Hc Hoff. by eexists.
Qed.

(** What [on_establish] decides: the fixed identity and a handler that declares itself
    a fetch responder; the session it parks is wired under that identity. *)
Lemma interop_establishes mode tr handle w now :
  match FetchEstablishHandler_on_establish mode tr handle w now with
  | None => mode = Echo
  | Some (slot, pull, h, _, r) =>
      r = Ok (DecidedEstablished SESSION_ID (mkSessionHandler handle true) SESSION_CREDENTIALS) ∧
      (∃ x, slot = Some x ∧ xs_session_id x = SESSION_ID ∧ is_wired (xs_transfer x) = true ∧
        (fe_session <$> h) = Some (Some x) ∧ xs_fetch_enabled x = false) ∧
      match mode with
      | FetchServe dir => (serve_dir <$> h) = Some (Some dir) ∧ pull = None
      | FetchPull uri => (serve_dir <$> h) = Some None ∧ pull = Some uri
      | Echo => False
      end
  end.
Proof using Type.
  unfold FetchEstablishHandler_on_establish.
  set (x := with_identity _ _ _).
  assert (Hw : ∃ x' w', session_wire x tr w now = (x', w', Ok tt) ∧ xs_session_id x' = SESSION_ID ∧
    is_wired (xs_transfer x') = true ∧ xs_fetch_enabled x' = false).
  { unfold session_wire, wire_without_declaration, unwire, detach_connection, wire. cbn -[declare_pending_sends].
    unfold session_declare_pending_sends, declare_pending_sends. cbn -[send_resume_declaration].
    unfold send_resume_declaration. cbn. by do 2 eexists. }
  destruct Hw as (x' & w' & Hw & H1 & H2 & H3). destruct mode as [|dir|uri]; [done|..]; rw Hw;
    (split; [done|]); (split; [by exists x'|done]).
Qed.
End fetch_properties.

Section pull_properties.
Context `{CRC : Crc32} `{UUID : UuidLib} `{JSON : JsonLib} `{SHA : Sha256Lib}.
Context {W : Type} `{WIRE : TransferWiring W} `{TRANSPORT : !XacppTransport W} `{RPC : !RpcTransport W}.
Implicit Types (c : Claim) (p : PullReport) (x : XacppSession).

Definition attempt_lines (es : list XacppError) : list Line := imap (λ i e, LAttempt (S i) e) es.

(** The failed attempts are numbered from one and at most five; there is one more line,
    the last, exactly when the pull is over. *)
Definition report_shape p : Prop :=
  ∃ es final, pr_lines p = attempt_lines es ++ final ∧
    match pr_point p with
    | PtSleep k | PtFetch k => k = S (length es) ∧ k ≤ ATTEMPTS ∧ final = []
    | PtDone => length es ≤ ATTEMPTS ∧ length final = 1
    | _ => length es < ATTEMPTS ∧ final = []
    end.

Lemma attempt_lines_snoc es e : attempt_lines (es ++ [e]) = attempt_lines es ++ [LAttempt (S (length es)) e].
Proof using Type. unfold attempt_lines. rw imap_app. cbn. by rw Nat.add_0_r. Qed.

Lemma pull_shape x uri ops : report_shape (pull_and_report x uri ops).
Proof using Type.
  unfold pull_and_report. assert (H0 : report_shape PullReport_new).
  { exists [], []. unfold ATTEMPTS. cbn. split_and!; done || lia. }
  revert H0. generalize PullReport_new. induction ops as [|op ops IH]; intros p Hp; [done|].
  cbn [foldl]. apply IH. clear IH ops. destruct op as [id total|j r st|t tr w now]; cbn [pull_exec]; [done| |]; [|generalize (fetch (set_transport tr (set_transfer t x)) w uri).2; intros f].
  - unfold reader_step. by repeat case_match.
  - destruct Hp as (es & final & Hl & Hp). unfold pull_turn, report_shape.
    destruct (pr_point p) as [k|k|m d|m d|m d|m|] eqn:Hpt; cbn [pr_point set_point pr_lines].
    + by exists es, final.
    + destruct Hp as (-> & Hk & ->). rw app_nil_r in Hl. destruct f as [m|e]; cbn [pr_point set_point pr_lines print].
      * exists es, []. rw app_nil_r. unfold ATTEMPTS in *. split; [done|]. split; [lia|done].
      * destruct (Nat.ltb_spec (S (length es)) ATTEMPTS); cbn [pr_point set_point pr_lines print].
        -- exists (es ++ [e]), []. rw Hl attempt_lines_snoc app_nil_r length_app. cbn. split_and!; done || lia.
        -- exists (es ++ [e]), [LGaveUp uri ATTEMPTS]. rw Hl attempt_lines_snoc length_app. cbn. split_and!; done || lia.
    + exists es, final. by repeat case_match.
    + exists es, final. by repeat case_match.
    + destruct Hp as [Hn ->]. rw app_nil_r in Hl. case_match; cbn [pr_point set_point pr_lines print].
      * exists es, [LNever]. rw Hl. split; [done|]. split; [lia|done].
      * exists es, []. by rw app_nil_r.
    + destruct Hp as [Hn ->]. rw app_nil_r in Hl. cbn [print pr_lines].
      exists es, [report uri m (concat (cl_chunks (pr_claim p)))]. rw Hl. split; [done|]. split; [lia|done].
    + exists es, final. by rw Hpt.
Qed.

(** The session's gate. *)
Definition unavailable : XacppError :=
  Application FETCH_UNAVAILABLE
    (Lit "fetch unavailable on this end (fetch extension not enabled by negotiation)").

Lemma fetch_gated x t tr (w : W) uri :
  xs_fetch_enabled x = false → (fetch (set_transport tr (set_transfer t x)) w uri).2 = Err unavailable.
Proof using Type. intros Hx. unfold fetch, request_command. cbn. by rw Hx. Qed.

Definition is_turn (op : ClaimOp W) : bool := match op with PullRuns _ _ _ _ => true | _ => false end.

(** Where the pull stands after [n] turns with fetch disabled. *)
Definition gated_point (n : nat) : PullPoint :=
  if n <? 2 * ATTEMPTS then if Nat.even n then PtSleep (S (n / 2)) else PtFetch (S (n / 2)) else PtDone.

Definition gated_lines (uri : string) (n : nat) : list Line :=
  attempt_lines (replicate (Nat.min ATTEMPTS (n / 2)) unavailable) ++
  (if n <? 2 * ATTEMPTS then [] else [LGaveUp uri ATTEMPTS]).

Lemma gated_turn uri now n p :
  pr_point p = gated_point n → pr_lines p = gated_lines uri n →
  let p' := pull_turn uri now (Err unavailable) p in
  pr_point p' = gated_point (S n) ∧ pr_lines p' = gated_lines uri (S n).
Proof using Type.
  intros Hp Hl. assert (Hn : n < 10 ∨ 10 ≤ n) by lia. destruct Hn as [Hn|Hn].
  - destruct p as [cl rd pt ls]. cbn in Hp, Hl. subst pt ls.
    do 10 (destruct n as [|n]; [split; reflexivity|]). lia.
  - assert (Hd : ∀ m, 10 ≤ m → gated_point m = PtDone ∧ gated_lines uri m = gated_lines uri 10).
    { intros m Hm. unfold gated_point, gated_lines. change (2 * ATTEMPTS) with 10. rw (proj2 (Nat.ltb_ge m 10) Hm).
      split; [done|]. f_equal. do 2 f_equal. unfold ATTEMPTS.
      assert (5 ≤ m / 2) by (apply Nat.div_le_lower_bound; lia). change (10 / 2) with 5. lia. }
    destruct (Hd n Hn) as [P1 L1]. destruct (Hd (S n)) as [P2 L2]; [lia|].
    assert (Hq : pull_turn uri now (Err unavailable) p = p) by (unfold pull_turn; by rw Hp P1).
    cbn zeta. rw Hq. split; congruence.
Qed.

(** C28: the interoperability peer never fetches.  In [--fetch-pull] mode the session
    [on_establish] makes has fetch disabled, and nothing the program does enables it:
    whatever streams arrive and whatever the readers and the transport do, every
    attempt is refused by the session's own gate.  After [n] turns of the pull, at two
    per attempt, it has printed one refusal per attempt, five at most, and after ten
    turns that it gave up; nothing is ever reported as fetched. *)
Theorem interop_pull_gives_up uri0 tr handle (w0 : W) now0 slot pull h w1 r uri ops :
  FetchEstablishHandler_on_establish (FetchPull uri0) tr handle w0 now0 = Some (slot, pull, h, w1, r) →
  pull = Some uri →
  ∃ x, slot = Some x ∧ uri = uri0 ∧
    let n := length (filter (λ op, is_turn op = true) ops) in
    let p := pull_and_report x uri ops in
    pr_lines p = attempt_lines (replicate (Nat.min ATTEMPTS (n / 2)) unavailable) ++
      (if n <? 2 * ATTEMPTS then [] else [LGaveUp uri ATTEMPTS]) ∧
    (pr_point p = PtDone ↔ 2 * ATTEMPTS ≤ n) ∧
    ∀ sha bytes mime, LFetched uri sha bytes mime ∉ pr_lines p.
Proof using Type.
  intros He ->. pose proof (interop_establishes (FetchPull uri0) tr handle w0 now0) as Hi. rw He in Hi.
  destruct Hi as (_ & (x & -> & _ & _ & _ & Hx) & _ & [= ->]). exists x. split; [done|]. split; [done|].
  cbn zeta. set (n := length _).
  assert (Hinv : pr_point (pull_and_report x uri0 ops) = gated_point n ∧
    pr_lines (pull_and_report x uri0 ops) = gated_lines uri0 n).
  { subst n. unfold pull_and_report. induction ops as [|op ops IH] using rev_ind; [done|].
    rw foldl_app filter_app length_app. cbn [foldl]. destruct IH as [Hp Hl]. set (p := foldl _ _ ops) in *.
    assert (Hone : length (filter (λ op, is_turn op = true) [op]) = if is_turn op then 1 else 0)
      by (cbn; destruct (is_turn op); by case_decide).
    rw Hone. destruct op as [id total|j rd st|t tr' w now]; cbn [pull_exec is_turn];
      rw ?Nat.add_0_r ?Nat.add_1_r; [done| |].
    - unfold reader_step. by repeat case_match.
    - rw (fetch_gated x t tr' w uri0 Hx). by apply gated_turn. }
  destruct Hinv as [Hp Hl]. split; [exact Hl|]. split.
  - rw Hp. unfold gated_point. destruct (Nat.ltb_spec n (2 * ATTEMPTS)); [|by split; [lia|]].
    destruct (Nat.even n); split; intros; done || lia.
  - intros sha bytes mime. rw Hl. unfold gated_lines, attempt_lines. rw elem_of_app. intros [Hin|Hin].
    + apply elem_of_lookup_imap in Hin as (i & e & Hf & _). done.
    + case_match; [by apply elem_of_nil in Hin|]. by apply list_elem_of_singleton in Hin.
Qed.
End pull_properties.
