(* ===== verification/Witnesses.v ===== *)
(** * Concrete runs of the session theorems

    Each session-level property applied at a concrete state: a session over the
    recording transport (or the socket), real encoded frames, and the hypotheses
    discharged by evaluation. *)
From S2P Require Import Prelude Crc Frame Control Sender Reassemble Errors Stream Transfer.
From S2P Require Import Delivery Clock Sink Session Egress Socket EndToEnd Divergences.

(** ** The scenario *)

Definition demo_config : TransferConfig :=
  mkTransferConfig demo_cfg 30000 90000 64 500 500 2000 100.

Definition demo_bytes : list byte := [x01; x02; x03; x04; x05].

(** A control frame carrying [p]. *)
Definition demo_control {P} `{ControlPayload P} (p : P) : Frame :=
  Frame_new (FRAME_TYPE (P := P)) zero_txid 0 0
    (match payload_encode p with Ok b => b | Err _ => [] end).

(** A wired sending session: the sender holds [tx], one callback is registered. *)
Definition demo_sending (tx : TransactionSender) : TransferSession :=
  mkTransferSession demo_config
    (set_completions {[demo_id := 9]} (set_sender tx (SessionState_new demo_config 0)))
    false false 0 (Some 0) true.

(** [demo_bytes] fully sent and unacknowledged. *)
Definition demo_sent : TransactionSender :=
  (begin_transaction demo_new demo_id demo_bytes 0).1.

(** A receiving session with the given handlers registered. *)
Definition demo_receiver (aggregate stream : bool) : TransferSession :=
  mkTransferSession demo_config (SessionState_new demo_config 0) aggregate stream 0
    (Some 0) true.

Definition demo_other : txid := txid_of_byte x08.

(** The receiver with a stream open on the first frame of [demo_pieces]. *)
Definition demo_streaming : TransferSession :=
  (handle_inbound (demo_receiver false true) (piece_frame demo_other 5 0 [x01; x02])
     Recorder_new 10).1.1.

Lemma demo_streaming_inv : streams_inv (ts_state demo_streaming).
Proof. apply inbound_keeps_streams. by split. Qed.

Definition demo_stream : StreamInner := new_stream demo_other 5 [(0%N, [x01; x02])].

Lemma demo_streaming_entry :
  st_streams (ts_state demo_streaming) !! demo_other = Some 0 ∧
  st_heap (ts_state demo_streaming) !! 0 = Some demo_stream.
Proof. by vm_compute. Qed.

Lemma recorder_ok (w : Recorder) f : is_ok (write_data_frame w f).2 = true.
Proof. done. Qed.

(** ** Completions *)

Lemma inbound_completions_witness :
  let f := demo_control (mkAckPayload [mkAckEntry demo_id 1 2]) in
  let '(s', _, out) := handle_inbound (demo_sending demo_sent) f Recorder_new 40 in
  completions_of demo_id out = [CompletionFired 9 (mkBinarySendResult demo_id true)] ∧
  st_completions (ts_state s') !! demo_id = None ∧
  s_pending (st_sender (ts_state s')) !! demo_id = None.
Proof.
  cbn zeta. set (f := demo_control _).
  pose proof (inbound_completions (demo_sending demo_sent) f Recorder_new 40 demo_id 9 recorder_ok) as H.
  assert (Hs : s_pending (st_sender (ts_state (demo_sending demo_sent))) !! demo_id ≫= settlement f demo_id =
    Some true) by by vm_compute.
  rw Hs in H. apply H. by vm_compute.
Defined.

Lemma clock_tick_silence_witness :
  (clock_tick (demo_sending demo_sent) Recorder_new 95000).2 = true ∧
  (clock_tick (demo_sending demo_sent) Recorder_new 50000).2 = false.
Proof.
  pose proof (clock_tick_silence (demo_sending demo_sent) Recorder_new 95000 recorder_ok) as H1.
  pose proof (clock_tick_silence (demo_sending demo_sent) Recorder_new 50000 recorder_ok) as H2.
  destruct (clock_tick _ _ 95000) as [[s1 w1] []], (clock_tick _ _ 50000) as [[s2 w2] []].
  all: destruct H1 as [H1 _], H2 as [H2 _]; cbn in *.
  - exfalso. assert (H : (90000 ≤ 50000 - 0)%N) by by apply H2. lia.
  - done.
  - exfalso. assert (H : (90000 ≤ 50000 - 0)%N) by by apply H2. lia.
  - exfalso. assert (H : false = true); [|done]. apply H1. lia.
Defined.

Lemma send_binary_accepts_witness :
  (send_binary (demo_sending demo_new) Recorder_new demo_bytes (Some 4) demo_id 0).2 = Ok demo_id.
Proof.
  pose proof (send_binary_accepts demo_cfg (demo_sending demo_new) Recorder_new demo_bytes
    (Some 4) demo_id 0 ∅ [] demo_reach_new) as H. cbn zeta in H.
  destruct (send_binary _ _ _ _ _ _) as [[s' w'] r].
  destruct H as [-> _]; [by vm_compute|split; by vm_compute|by vm_compute..|done].
Defined.

(** ** Streams across a reconnect *)

(** Detached, with a half-written transaction in hand. *)
Definition demo_detached : TransferSession :=
  set_state (set_sender demo_appended (SessionState_new demo_config 0))
    (TransferSession_new demo_config 0).

Lemma wire_recovers_witness :
  let s' := (wire demo_detached 0 Recorder_new 5).1.1 in
  s_pending (st_sender (ts_state s')) !! demo_id = Some (set_gate true (Some 5%N) demo_txn) ∧
  (due_retransmissions (st_sender (ts_state s')) 99999).2 = [].
Proof.
  assert (Hi : streams_inv (ts_state demo_detached)) by by split.
  pose proof (wire_recovers demo_detached 0 Recorder_new 5 Hi) as H.
  destruct (wire _ _ _ _) as [[s' w'] r]. change (is_wired demo_detached) with false in H.
  destruct H as (_ & _ & _ & _ & Hp & Hd & _). split; [|apply Hd].
  cbn [fst]. rw Hp. change (st_sender (ts_state demo_detached)) with demo_appended.
  by rw demo_lookup.
Defined.

Lemma disconnect_stalls_witness :
  ∃ si, st_heap (ts_state (unwire demo_streaming Recorder_new).1) !! 0 = Some si ∧
        BinaryStream_state si = Stalled.
Proof.
  destruct demo_streaming_entry as [Hl Hs].
  pose proof (disconnect_stalls demo_streaming 0 Recorder_new 50 demo_other 0 demo_stream
    demo_streaming_inv Hl Hs) as H.
  destruct (unwire _ _) as [s1 w1]. destruct (wire _ _ _ _) as [[s2 w2] r].
  destruct H as (_ & _ & (si & _ & H1 & H2 & _) & _). by exists si.
Defined.

(** ** Delivery *)

Lemma demo_hne : Forall (λ p : list byte, 1 ≤ length p) demo_pieces.
Proof. repeat constructor. Qed.

(** Frames 0 and 2, a heartbeat between them, then the missing frame 1. *)
Definition demo_arrivals : list (Frame * N) :=
  [(piece_frame demo_other 5 0 [x01; x02], 10%N);
   (demo_control (mkHeartbeatPayload 1 11), 11%N);
   (piece_frame demo_other 5 2 [x05], 12%N)].

Lemma demo_arrivals_ok : Forall (arrival_ok demo_other 5 demo_pieces) demo_arrivals.
Proof.
  apply Forall_cons. split; [left; by exists 0, [x01; x02]|].
  apply Forall_cons. split; [right; by intros []|].
  apply Forall_singleton. left. by exists 2, [x05].
Qed.

Lemma delivery_exactly_once_witness :
  (let '(s1, w1, _) := inbound_all (demo_receiver true false) demo_arrivals Recorder_new in
   (handle_inbound s1 (piece_frame demo_other 5 1 [x03; x04]) w1 13).2 =
     [PayloadDelivered demo_other [x01; x02; x03; x04; x05]]) ∧
  (let '(s1, w1, out1) := inbound_all (demo_receiver true true) demo_arrivals Recorder_new in
   let '(s2, _, out2) := handle_inbound s1 (piece_frame demo_other 5 1 [x03; x04]) w1 13 in
   ∃ l si, StreamOpened l ∈ out1 ++ out2 ∧ st_heap (ts_state s2) !! l = Some si ∧
     chunk_bytes <$> chunk_rx si = demo_pieces).
Proof.
  assert (Hall : ∀ k, (k < len demo_pieces)%N → k ∈ [0; 2; 1]%N).
  { change (len demo_pieces) with 3%N. intros k Hk. rw !elem_of_cons. lia. }
  assert (Hown : own_seqs demo_other demo_arrivals = [0; 2]%N) by by vm_compute.
  assert (Hno : ¬ all_seen demo_pieces (own_seqs demo_other demo_arrivals)).
  { rw Hown. intros H. specialize (H 1%N eq_refl).
    rw !elem_of_cons elem_of_nil in H. lia. }
  split.
  - pose proof (delivery_exactly_once demo_other 5 demo_pieces demo_hne eq_refl ltac:(by vm_compute)
      false (demo_receiver true false) demo_arrivals Recorder_new 1 [x03; x04] 13) as H.
    destruct (inbound_all _ _ _) as [[s1 w1] out1]. destruct (handle_inbound _ _ _ _) as [[s2 w2] out2].
    destruct H as (_ & _ & _ & H); [by split|done..|apply demo_arrivals_ok|done|done|done|exact Hall|].
    exact H.
  - pose proof (delivery_exactly_once demo_other 5 demo_pieces demo_hne eq_refl ltac:(by vm_compute)
      true (demo_receiver true true) demo_arrivals Recorder_new 1 [x03; x04] 13) as H.
    destruct (inbound_all _ _ _) as [[s1 w1] out1]. destruct (handle_inbound _ _ _ _) as [[s2 w2] out2].
    destruct H as (_ & _ & _ & _ & l & si & H1 & H2 & _ & _ & H3);
      [by split|done..|apply demo_arrivals_ok|done|done|done|exact Hall|].
    by exists l, si.
Defined.

Lemma reception_isolated_witness :
  same_reception demo_other (ts_state demo_streaming)
    (ts_state (handle_inbound demo_streaming (piece_frame demo_id 5 0 [x01]) Recorder_new 20).1.1).
Proof.
  apply reception_isolated; [apply demo_streaming_inv|]. unfold touches. cbn. by vm_compute.
Defined.

(** A declaration of [demo_id] only: the open stream of [demo_other] is abandoned. *)
Lemma resume_request_adjudicates_witness :
  let st' := (on_resume_request_frame (ts_state demo_streaming)
    (demo_control (mkResumeRequestPayload [mkAckEntry demo_id 0 1])) Recorder_new 30).1 in
  slots (st_reassembler st') !! demo_other = None ∧
  ∃ si, st_heap st' !! 0 = Some si ∧ BinaryStream_state si = Cancelled ∧
        chunk_rx si = [mkStreamChunk 0 [x01; x02]].
Proof.
  set (f := demo_control _). destruct demo_streaming_entry as [Hl Hs].
  pose proof (resume_request_adjudicates (ts_state demo_streaming) f Recorder_new 30
    (mkResumeRequestPayload [mkAckEntry demo_id 0 1])) as H. cbn zeta in H.
  destruct (on_resume_request_frame _ _ _ _) as [st' w'].
  destruct H as (_ & H1 & _ & H2); [by vm_compute|done|apply demo_streaming_inv|].
  split.
  - apply H1; [|by intros ?%list_elem_of_singleton]. eexists. by vm_compute.
  - specialize (H2 demo_other 0 demo_stream Hl Hs).
    destruct (decide _) as [Hin|_]; [by apply list_elem_of_singleton in Hin|].
    destruct H2 as (_ & si & H3 & H4 & H5 & _). by exists si.
Defined.

(** An expiry report for [demo_other]. *)
Definition demo_expired : ErrorPayload :=
  mkErrorPayload TRANSACTION_EXPIRED
    (match rstring_of_bytes (format_transaction_id demo_other ++ [x20; x65]) with
     | Some m => m | None => RString [] eq_refl end).

Lemma expired_error_cancels_witness :
  let st' := on_error_frame (ts_state demo_streaming) (demo_control demo_expired) in
  slots (st_reassembler st') !! demo_other = None ∧
  ∃ si, st_heap st' !! 0 = Some si ∧ BinaryStream_state si = Cancelled.
Proof.
  destruct demo_streaming_entry as [Hl Hs].
  pose proof (expired_error_cancels (ts_state demo_streaming) (demo_control demo_expired)
    demo_expired demo_other [x20; x65]) as H. cbn zeta in H |- *.
  set (st' := on_error_frame _ _) in *. clearbody st'.
  destruct H as (H1 & _ & H2); [by vm_compute|done|by vm_compute|apply demo_streaming_inv|].
  split; [by rw H1 lookup_delete_eq|]. specialize (H2 demo_other 0 demo_stream Hl Hs).
  destruct (decide (demo_other = demo_other)) as [_|Hne]; [|done].
  destruct H2 as (si & H3 & H4 & _). exists si. split; [exact H3|exact H4].
Defined.

(** ** Session histories *)

Definition demo_ops : list (session_op Recorder) :=
  [OpWire 0 1; OpOpen (mkBinaryMeta 6) (Some demo_id) demo_other 2;
   OpWrite demo_id demo_bytes 3; OpClock false 4; OpUnwire].

Lemma session_sender_reach_witness :
  ∃ d l, sender_reach demo_cfg
    (mkHistory (st_sender (ts_state (session_run demo_config 0 Recorder_new demo_ops).1)) d l).
Proof.
  apply (session_sender_reach demo_config 0 Recorder_new demo_ops).
  repeat (apply Forall_cons; split; [done|]). by apply Forall_nil.
Defined.

(** A writer parked on a locally paused transaction, then resumed. *)
Definition demo_paused : TransferSession :=
  demo_sending (set_paused demo_appended demo_id true 20).1.

Lemma no_lost_wakeup_witness :
  (sink_write demo_paused Recorder_new demo_id [x06] 25).2 = WriteParked ∧
  ts_wake (session_exec (demo_paused, Recorder_new) (OpResume demo_id 30)).1 ≠
    ts_wake demo_paused.
Proof.
  split; [by vm_compute|].
  apply (no_lost_wakeup demo_paused Recorder_new (OpResume demo_id 30) demo_id [x06]
    Recorder_new 25 31); [done|by vm_compute|by vm_compute].
Defined.

(** ** The egress *)

Definition demo_egress : Egress :=
  set_queues [EFrame [x01] None; EFrame [x02] (Some 3)] [EFrame [x09] None]
    (spawn_egress true false ∅).

Lemma close_flushes_witness :
  eg_written (drain_n 4 (egress_close demo_egress)) =
    [(ControlCh, [x09]); (DataCh, [x01]); (DataCh, [x02])].
Proof.
  destruct (close_flushes demo_egress) as (_ & _ & _ & _ & H & _);
    [done|done|done|by repeat constructor|by repeat constructor|]. exact H.
Defined.

Lemma write_failure_is_final_witness :
  eg_acks (drain_step (set_queues [EFrame [x02] (Some 3)] [] demo_egress) false) = [(3, false)].
Proof.
  destruct (write_failure_is_final (set_queues [EFrame [x02] (Some 3)] [] demo_egress)
    [x02] (Some 3) []) as (_ & _ & _ & _ & _ & H & _); [done..|]. exact H.
Defined.

(** ** End to end *)

Definition demo_socket : SocketTransport :=
  mkSocketTransport (Some (spawn_egress true false ∅)) true [].

Lemma end_to_end_delivery_witness :
  let '(_, w', res) := send_binary (demo_sending demo_new) demo_socket demo_bytes None demo_id 0 in
  res = Ok demo_id ∧
  ∃ e' wires rd', sk_egress w' = Some e' ∧
    eg_written (drain_n (length (eg_data e')) e') = (DataCh,.) <$> wires ∧
    read_all (mkReaderState FrameDecoder_new (demo_receiver true false) demo_socket [] [])
      ((λ b, ([b], 7%N)) <$> concat wires) = Some (rd', false) ∧
    deliveries demo_id (rd_events rd') = [demo_bytes].
Proof.
  pose proof (end_to_end_delivery demo_cfg (demo_sending demo_new) demo_socket
    (spawn_egress true false ∅) demo_bytes None demo_id 0 ∅ [] (demo_receiver true false)
    demo_socket demo_reach_new) as H.
  destruct (send_binary _ _ _ _ _ _) as [[s' w'] res].
  destruct H as (-> & e' & wires & H1 & H2 & H3);
    [by vm_compute|split; by vm_compute|by vm_compute|by vm_compute|
     done|done|done|done|done|done|by split|done|done|done|done|].
  split; [done|]. destruct (H3 ((λ b, ([b], 7%N)) <$> concat wires)) as (rd' & R1 & R2 & _).
  { rw -list_fmap_compose. generalize (concat wires). intros l.
    induction l as [|b l IH]; [done|]. cbn. by rw IH. }
  exists e', wires, rd'. by split_and!.
Defined.

(** ** Divergences *)

Lemma send_binary_leaks_witness :
  let '(s', w', r) := send_binary (demo_sending demo_new) Recorder_new (replicate 65 x00)
                        (Some 4) demo_other 0 in
  is_ok r = false ∧ w' = Recorder_new ∧
  is_Some (s_pending (st_sender (ts_state s')) !! demo_other).
Proof.
  pose proof (send_binary_leaks (demo_sending demo_new) Recorder_new (replicate 65 x00)
    (Some 4) demo_other 0) as H.
  destruct (send_binary _ _ _ _ _ _) as [[s' w'] r].
  destruct H as (-> & -> & _ & t & Ht & _); [by vm_compute..|]. split_and!; [done..|]. by exists t.
Defined.

Lemma finish_confirms_failed_witness :
  let '(s', w', _) := handle_inbound (demo_sending demo_appended)
    (demo_control (mkResumeResponsePayload [mkResumeStatusEntry demo_id StatusUnknown]))
    Recorder_new 50 in
  (sink_finish_step s' w' demo_id 9 FinCheck 60).2 = FinDone (Ok (mkBinarySendResult demo_id true)).
Proof.
  apply (finish_confirms_failed _ _ _ _
    (mkResumeResponsePayload [mkResumeStatusEntry demo_id StatusUnknown])); [done|by vm_compute|by vm_compute|].
  exists (mkResumeStatusEntry demo_id StatusUnknown). by split; [left|].
Defined.

(** [demo_id] declared at 5 and unanswered; [demo_other] opened afterwards. *)
Definition demo_gated : TransactionSender :=
  (open_transaction (declare_pending demo_appended 5).1 demo_other 5 6).1.

Lemma redeclaration_cancels_live_witness :
  slots (st_reassembler (on_resume_request_frame (ts_state demo_streaming)
    (demo_control (mkResumeRequestPayload (timed_out_declarations demo_gated 3000 2000).2))
    Recorder_new 3001).1) !! demo_other = None.
Proof.
  apply (redeclaration_cancels_live demo_gated demo_other 
    (mkPendingTxn 5 [] [] [] 0 0 false false None None 0 6) 3000 2000);
    [by vm_compute..|]. eexists. by vm_compute.
Defined.
