(* ===== verification/EnvelopeRuns.v ===== *)
(** * Concrete runs of the envelope-level theorems

    A JSON stand-in, a codec for one request and one response, transports driven
    through real interleavings, and the hypotheses of the carrier, session, peer
    and fetch theorems discharged by evaluation. *)
From S2P Require Import Prelude Crc Frame Control Sender Reassemble Errors Stream Transfer.
From S2P Require Import Delivery Clock Sink Egress Messages Logical Carrier Stdio Peer Lifecycle Rpc Reconnect Fetch Puller FetchEndToEnd Interop.

(** ** The libraries *)

(** [JNamed n] is the object whose only field is its name. *)
Inductive DemoJson : Type := JNull | JStr (s : string) | JNamed (n : string).

#[local] Instance demo_json : JsonLib := {|
  Value := DemoJson;
  Value_Null := JNull;
  Value_get v k :=
    match v with JNamed n => if String.eqb k "name" then Some (JStr n) else None | _ => None end;
  Value_as_str v := match v with JStr s => Some s | _ => None end;
|}.

#[local] Instance demo_display : Display := {|
  display m := match m with Lit s => s | _ => "?" end;
  display_lit _ := eq_refl |}.

Definition demo_request : XacppRequest := ReqCommand (Generic "ping" JNull None).

(** The id behind a tag byte; other payloads do not serialize. *)
#[local] Instance demo_codec : EnvelopeCodec := {|
  envelope_to_vec m :=
    match m with
    | Request id (Some "s") (ReqCommand (Generic "ping" JNull None)) =>
        Some (x01 :: String.list_byte_of_string id)
    | Response id (Some "s") (RespGeneric "acknowledge" JNull) =>
        Some (x02 :: String.list_byte_of_string id)
    | _ => None
    end;
  envelope_from_slice l :=
    match l with
    | x01 :: id => Some (Request (String.string_of_list_byte id) (Some "s") demo_request)
    | x02 :: id => Some (Response (String.string_of_list_byte id) (Some "s") acknowledge)
    | _ => None
    end;
|}.

Definition demo_txid (b : byte) : txid := txid_of_byte b.

(** ** Calls *)

(** A connected socket client with one request on the wire. *)
Definition demo_calling : list CarrierOp :=
  [OpConnectBegin true; OpConnectFinish; OpStart false (Some "s") demo_request (demo_txid x01);
   OpCall 0; OpCall 0; OpDrain 0 true].

(** Its peer goes away before answering. *)
Definition demo_cut : list CarrierOp :=
  demo_calling ++ [OpReadStop 0 false; OpDispatch 0 (demo_txid x02); OpDrain 0 true].

Lemma no_stuck_call_witness :
  returned (call_step 0 (call_step 0 (carrier_run true false demo_cut))) 0.
Proof.
  assert (Hc : ∃ cl, ct_calls (carrier_run true false demo_cut) !! 0 = Some cl ∧
    call_conn (carrier_run true false demo_cut) cl = Some 0) by (eexists; by vm_compute).
  destruct Hc as (cl & Hcl & Hk).
  apply (no_stuck_call true false demo_cut 0 cl); [by vm_compute|exact Hcl|].
  intros k cn Hk' Hcn. rw Hk in Hk'. injection Hk' as <-.
  vm_compute in Hcn. injection Hcn as <-. by vm_compute.
Defined.

(** The answer arrives twice. *)
Definition demo_answered : list CarrierOp :=
  demo_calling ++ [OpRead 0 [x02; x72; x31]; OpRead 0 [x02; x72; x31];
                   OpDispatch 0 (demo_txid x02); OpDispatch 0 (demo_txid x02); OpCall 0; OpCall 0].

Lemma response_correlation_witness :
  track "r1" (carrier_trace true false demo_answered).2 = Answered acknowledge.
Proof.
  pose proof (response_correlation true false demo_answered) as H.
  assert (Hc : ∃ cl, ct_calls (carrier_trace true false demo_answered).1 !! 0 = Some cl ∧
    cl_id cl = "r1" ∧ cl_phase cl = Returned (Ok (Some acknowledge)) ∧
    ids_left (carrier_trace true false demo_answered).1) by (eexists; by vm_compute).
  destruct (carrier_trace true false demo_answered) as [c log].
  destruct Hc as (cl & Hcl & Hid & Hph & Hids). cbn [fst snd] in *.
  destruct (H Hids) as [_ Ht]. rw -Hid. exact (Ht 0 cl acknowledge Hcl Hph).
Defined.

(** Two idle ends; the second has a handler. *)
Definition demo_client : list CarrierOp := [OpConnectBegin true; OpConnectFinish].

Definition demo_server : Carrier :=
  carrier_run false false [OpOnRequest; OpConnectBegin true; OpConnectFinish].

Definition demo_idle_conn : Connection := mkConnection (spawn_egress false false ∅) [] true true.

Lemma demo_client_idle : idle 0 (carrier_run true false demo_client) demo_idle_conn.
Proof. by split. Qed.

Lemma demo_server_idle : idle 0 demo_server demo_idle_conn.
Proof. by split. Qed.

(** ** Reconnects *)

Definition demo_connected : Carrier := carrier_run true false demo_client.

Lemma demo_on_connection : on_connection 0 demo_connected demo_idle_conn.
Proof. by split_and!. Qed.

Lemma stale_reader_detaches_witness :
  ct_hooks (reconnected demo_connected) = true ∧
  ct_hooks (read_stop 0 false (reconnected demo_connected)) = false.
Proof.
  destruct (stale_reader_detaches 0 demo_connected demo_idle_conn false
    demo_on_connection eq_refl) as (H1 & H2 & _). by split.
Defined.

(** A frame is still queued when the client disconnects. *)
Definition demo_owing : Carrier := (carrier_write false [x01] demo_connected).1.

Definition demo_owing_conn : Connection :=
  mkConnection (set_queues [EFrame [x01] None] [] (spawn_egress true false ∅)) [] true true.

Lemma stale_writer_disconnects_witness :
  ct_connected (drain_conn 0 false (set_pending {["r1" := SlotRespond]} (reconnected demo_owing))) = false.
Proof.
  destruct (stale_writer_disconnects 0 demo_owing demo_owing_conn {["r1" := SlotRespond]})
    as (_ & H & _); [by split_and!| |exact H].
  split; [done|]. right. split_and!; [done..|]. by eexists [x01], None, [].
Defined.

(** ** Sessions and peers *)

Definition demo_caps : Capabilities := mkCapabilities [] [JNamed "tick"] [JNamed "tick"] (Some 1%N).

(** A responder that challenges a first establishment and then grants ["s"]. *)
#[local] Instance demo_rpc : RpcTransport Recorder := {|
  rpc_connect w := (w, Ok tt);
  rpc_send w sid req :=
    (w, Ok (match req with
            | ReqCommand (CmdNegotiate _) => Negotiated demo_caps
            | ReqCommand (Establish None) => EstablishPrepare "challenge"
            | ReqCommand (Establish (Some _)) | ReqCommand EstablishConfirm => Established "s" "creds"
            | _ => acknowledge
            end));
  rpc_send_faf w sid req := (w, Ok tt);
  rpc_on_request w := (w, Ok tt);
|}.

Definition demo_handler : SessionHandler := mkSessionHandler 7 true.

Definition demo_handlers : PeerHandlers :=
  mkPeerHandlers (λ _, Ok tt) (λ _, Ok (DecidedEstablished "s" demo_handler "creds"))
    (Ok ("s", demo_handler, "creds")).

(** A session that holds a half-written transaction. *)
Definition demo_txn_sender : TransactionSender :=
  (begin_transaction (TransactionSender_new (cfg_sender TransferConfig_default)) (demo_txid x05) [x01; x02] 0).1.

Definition demo_session (sid : string) : XacppSession :=
  mkXacppSession
    (set_state (set_sender demo_txn_sender (SessionState_new TransferConfig_default 0))
       (TransferSession_new TransferConfig_default 0)) sid "old" [] false None.

Lemma session_wire_recovers_witness :
  xs_transport (session_wire (demo_session "s") 3 Recorder_new 9).1.1 = Some 3 ∧
  is_Some (s_pending (st_sender (ts_state (xs_transfer
    (session_wire (demo_session "s") 3 Recorder_new 9).1.1))) !! demo_txid x05).
Proof.
  pose proof (session_wire_recovers (demo_session "s") 3 Recorder_new 9) as H.
  destruct (session_wire _ _ _ _) as [[x' w'] r].
  destruct H as (_ & H1 & _ & _ & _ & _ & _ & H2 & _); [by split|].
  split; [exact H1|]. cbn [fst]. rw H2. apply fmap_is_Some. eexists. by vm_compute.
Defined.

Definition demo_peer : XacppPeer := XacppPeer_new demo_caps (Some 0).

Definition demo_connected_peer := peer_connect demo_peer [demo_session ""] 3 Recorder_new 9.

Definition demo_negotiated :=
  negotiate demo_handlers demo_connected_peer.1.1.1 demo_connected_peer.1.2.

(** Connect, negotiate while an inbound establishment is accepted. *)
Definition demo_ops : list (PeerOp (W := Recorder)) :=
  CallConnect 3 :: replicate 4 (Turn 0 demo_handlers 9) ++
  [CallNegotiate; Inbound None (ReqCommand (Establish None));
   Turn 1 demo_handlers 9; Turn 2 demo_handlers 9; Turn 1 demo_handlers 9; Turn 1 demo_handlers 9;
   Turn 2 demo_handlers 9; Turn 1 demo_handlers 9; Turn 1 demo_handlers 9].

Definition demo_run : System := peer_run (at_rest demo_peer [demo_session ""] Recorder_new) demo_ops.

Lemma demo_run_log :
  sy_log demo_run = [(0, EvConnected); (1, EvNegotiating); (2, EvAccepted "s" demo_handler);
    (1, EvNegotiated demo_caps); (1, EvCached demo_caps)].
Proof. by vm_compute. Qed.

Lemma demo_run_contract :
  lifecycle_run (sy_log demo_run) = Some PNegotiated ∧ bound (sy_log demo_run) !! "s" = Some demo_handler ∧
  fetch_open demo_caps (sy_log demo_run) = true.
Proof. rw demo_run_log. split_and!; by vm_compute. Qed.

Lemma peer_refines_lifecycle_witness :
  pi_state (p_inner (sy_peer demo_run)) = PNegotiated ∧
  (request_turn demo_handlers (RLookup "s" (ReqCommand (Fetch "u"))) (sy_peer demo_run)).1.2 =
    inl (RGate demo_handler (Fetch "u")) ∧
  (request_turn demo_handlers (RGate demo_handler (Fetch "u")) (sy_peer demo_run)).1.2 =
    inr (CallCommand demo_handler (Fetch "u")).
Proof.
  pose proof (peer_refines_lifecycle demo_caps (Some 0) [demo_session ""] Recorder_new demo_ops) as H.
  assert (Hrun : demo_run = peer_run (at_rest (XacppPeer_new demo_caps (Some 0)) [demo_session ""] Recorder_new)
    demo_ops) by (unfold demo_run, demo_peer; done).
  rw -Hrun in H. cbn zeta in H. destruct H as (_ & _ & Hl & Hb & Hg). clear Hrun.
  destruct demo_run_contract as (C1 & C2 & C3). rw C1 in Hl.
  split_and!; [exact (eq_sym Hl)|exact (proj2 (Hb _ _ _ _) C2)|].
  apply Hg. intros _. split; [exact C3|done].
Defined.

(** The negotiation has its answer, the disconnect runs, the negotiation goes on. *)
Lemma late_negotiation_survives_witness :
  let sy := peer_run (at_rest demo_connected_peer.1.1.1 [demo_session ""] Recorder_new)
    (late_negotiation demo_handlers 9) in
  sy_tasks sy = [TNegotiate (inr (Ok tt)); TDisconnect (inr (Ok tt))] ∧
  pi_state (p_inner (sy_peer sy)) = PNegotiated ∧ p_sessions (sy_peer sy) = ∅.
Proof.
  pose proof (late_negotiation_survives demo_handlers demo_connected_peer.1.1.1 [demo_session ""] Recorder_new
    Recorder_new demo_caps 9 eq_refl eq_refl (λ w, ex_intro _ _ eq_refl) eq_refl) as H.
  cbn zeta in H |- *. destruct H as (H1 & H2 & _ & H4 & _). split_and!; [exact H1|by rw H2|exact H4].
Defined.

(** A challenge the caller accepts; the held session is bound to another id. *)
Lemma establish_binds_witness :
  ∃ h', (establish demo_negotiated.1.1 [demo_session "old"] 3 Recorder_new None demo_handler
    (λ _, Ok tt) 9).1.1.2 = h' ∧ length h' = 2 ∧ xs_session_id <$> h' !! 1 = Some "s".
Proof.
  pose proof (establish_binds demo_negotiated.1.1 [demo_session "old"] 3 Recorder_new None
    demo_handler (λ _, Ok tt) 9 0 (demo_session "old") "s" "creds" Recorder_new) as H.
  destruct (establish _ _ _ _ _ _ _ _) as [[[p' h'] w'] r].
  destruct H as (_ & _ & l & x & _ & Hx & Hid & _ & _ & _ & _ & Hd); [done|done|done| |].
  { right. by exists "challenge", Recorder_new. }
  exists h'. split; [done|]. change (xs_session_id (demo_session "old")) with "old" in Hd.
  destruct (decide _) as [[?|?]|_]; [done..|]. destruct Hd as (-> & Hlen & _).
  split; [exact Hlen|]. by rw Hx /= Hid.
Defined.

Lemma negotiated_pair_witness :
  let w := mkEndpoint demo_peer demo_handlers (λ _ _, Ok acknowledge) in
  p_fetch_enabled (ep_peer (negotiate (RPC := link_transport) demo_handlers demo_connected_peer.1.1.1 w).1.2) = true.
Proof.
  intros w. pose proof (negotiated_pair demo_handlers demo_connected_peer.1.1.1 w) as H.
  cbn zeta in H. destruct (negotiate _ _ _) as [[p' w'] r]. cbn [fst snd].
  destruct H as (_ & _ & _ & _ & _ & -> & Hf & _); [done..|]. apply Hf. by split.
Defined.

(** ** The fetch service *)

Definition demo_resource : result ResolvedResource XacppError :=
  Ok (mkResolvedResource 5 "digest" "text/plain").

(** A step of call [i]; the provider answers [demo_resource]. *)
Definition demo_turn (i : nat) : FetchOp := OpHandler i demo_resource (Ok (demo_txid x06)).

(** Call 0 resolves ["u"]; call 1 asks for it at the same time. *)
Definition demo_resolving : list FetchOp :=
  [OpCommand (Fetch "u"); OpCommand (Fetch "u"); demo_turn 0; demo_turn 0; demo_turn 1].

Lemma resolve_once_witness :
  fs_by_uri (fetch_run None demo_resolving) !! "u" = Some (Resolving 0).
Proof.
  destruct (resolve_once None demo_resolving "u" 0 0 (HResolve "u" 0)) as [H _];
    [by vm_compute|by left|exact H].
Defined.

(** Call 1 has seen the empty slot when call 0 stores its result. *)
Definition demo_racing : list FetchOp :=
  demo_resolving ++ [demo_turn 1; demo_turn 0; demo_turn 0; demo_turn 0].

Lemma resolve_lost_wakeup_witness :
  ∃ h, fs_calls (fetch_run None (demo_racing ++ [demo_turn 0; demo_turn 1; demo_turn 1])) !! 1 = Some h ∧
    stays_parked 0 h.
Proof.
  assert (H : ∃ o r, fs_calls (fetch_run None demo_racing) !! 0 = Some (HStored 0 o r))
    by (do 2 eexists; vm_compute; reflexivity).
  destruct H as (o & r & H).
  assert (Hi : fs_calls (fetch_run None demo_racing) !! 1 = Some (HSeenNone 0)) by by vm_compute.
  pose proof (resolve_lost_wakeup None demo_racing 1 0 0 o r demo_resource (Ok (demo_txid x06))
    demo_resource (Ok (demo_txid x06)) [demo_turn 1] Hi H) as Hp.
  rw fetch_run_app. exact Hp.
Defined.

Lemma cancelled_resolve_blocks_witness :
  let f := fetch_exec None (fetch_run None demo_resolving) (OpCancel 0) in
  ∃ h, fs_calls (foldl (fetch_exec None) (fetch_exec None f (OpCommand (Fetch "u")))
         [demo_turn 2; demo_turn 2; demo_turn 2]) !! 2 = Some h ∧ unanswered "u" 0 h.
Proof.
  intros f.
  assert (Hi : fs_calls (fetch_run None demo_resolving) !! 0 = Some (HResolve "u" 0)) by by vm_compute.
  pose proof (cancelled_resolve_blocks None demo_resolving 0 "u" 0 (HResolve "u" 0)
    [demo_turn 2; demo_turn 2; demo_turn 2] Hi ltac:(by left)) as H. cbn zeta in H. fold f in H.
  assert (Hlen : length (fs_calls f) = 2) by by vm_compute. rw Hlen in H. exact H.
Defined.

(** ["u"] is resolved, begun and its provider ends, while the begin call still
    runs or after it returned. *)
Definition demo_served (returned : bool) : list FetchOp :=
  OpCommand (Fetch "u") :: replicate 6 (demo_turn 0) ++
  OpCommand (FetchBegin (format_txid (demo_txid x06))) :: replicate (if returned then 3 else 2) (demo_turn 1) ++
  [OpTask 0 (SeDone true)].

Lemma terminal_forced_witness :
  let f := fetch_run None (demo_served true) in
  fs_log (task_step 0 SeControl (task_step 0 SeControl f)) = fs_log f ++ [FxFinish 0].
Proof.
  assert (Hd : distinct_ids (fetch_run None (demo_served true)))
    by (apply (bool_decide_unpack _); by vm_compute).
  assert (Hc : Forall (λ h, is_done h = true) (fs_calls (fetch_run None (demo_served true))))
    by (vm_compute; by repeat constructor).
  assert (Ht : fs_tasks (fetch_run None (demo_served true)) !! 0 = Some (mkServeTask 0 (TLeft false)))
    by by vm_compute.
  exact (proj1 (terminal_forced None (demo_served true) 0 _ false SeControl SeControl Hd Hc Ht eq_refl)).
Defined.

Definition demo_skipped : list FetchOp := demo_served false ++ [OpTask 0 SeControl; OpTask 0 SeControl].

Lemma terminal_skipped_witness :
  FxFinish 0 ∉ fs_log (fetch_run None (demo_skipped ++ [demo_turn 1; OpTask 0 SeControl])).
Proof.
  refine (proj1 (terminal_skipped None demo_skipped [demo_turn 1; OpTask 0 SeControl] 0 _)).
  assert (H : fs_log (fetch_run None demo_skipped) = [FxOpen 0; FxServe 0; FxSkipped 0]) by by vm_compute.
  rw H. by right; right; left.
Defined.

(** ** The puller *)

Definition demo_meta : FetchReadyMeta := mkFetchReadyMeta (demo_txid x06) "digest" 5 "text/plain".

Definition demo_pull (i : nat) : PullerOp := OpPullStep i (Ok demo_meta) (Ok acknowledge).

(** Pull 0 gets its stream; pull 1 asks for the same uri afterwards. *)
Definition demo_late : list PullerOp :=
  [OpPull "u"; demo_pull 0; demo_pull 0; demo_pull 0; OpStream (demo_txid x06); OpDispatchTurn 0;
   OpDispatchTurn 0; demo_pull 0; OpPull "u"; demo_pull 1; demo_pull 1; demo_pull 1].

Lemma late_pull_waits_witness :
  pl_phase <$> pu_pulls (puller_run demo_late) !! 0 = Some (PReturned (Ok (0, demo_meta))) ∧
  ∃ pl', pu_pulls (foldl puller_exec (puller_run demo_late) [demo_pull 1; OpStream (demo_txid x07)]) !! 1 = Some pl' ∧
    (pl_phase pl' = PWaiting demo_meta ∨ pl_phase pl' = PDropped).
Proof.
  split; [by vm_compute|].
  assert (Hu : unserved (puller_run demo_late) 1 (meta_txid demo_meta)).
  { split; [by vm_compute|]. intros [|j] d Hd; [|by vm_compute in Hd]. vm_compute in Hd. by injection Hd as <-. }
  assert (Hp : pu_pulls (puller_run demo_late) !! 1 = Some (mkPull "u" (PWaiting demo_meta) false None))
    by by vm_compute.
  apply (late_pull_waits demo_late 1 _ demo_meta [demo_pull 1; OpStream (demo_txid x07)] Hp eq_refl Hu).
  by repeat constructor.
Defined.

(** A hasher whose digest is its input. *)
#[local] Instance demo_sha : Sha256Lib := {|
  Sha256 := list byte;
  Sha256_new := [];
  Sha256_update := app;
  Sha256_hex := String.string_of_list_byte;
|}.

#[local] Instance demo_sha_laws : Sha256Laws demo_sha.
Proof. split; [|apply app_nil_r]. intros h a b. symmetry. apply app_assoc. Qed.

(** A completed stream of two chunks. *)
Definition demo_ended : StreamInner :=
  drop_tx (stream_finish Complete (chunk_send (mkStreamChunk 1 [x03])
    (chunk_send (mkStreamChunk 0 [x01; x02]) (StreamInner_new (demo_txid x06) 3)))).

Lemma pull_to_vec_verdict_witness :
  pull_to_vec 3 demo_ended demo_meta =
    Some (Err (IntegrityMismatch "digest" (sha256_hex [x01; x02; x03]) 3)).
Proof. exact (pull_to_vec_verdict 3 demo_ended demo_meta eq_refl ltac:(cbn; lia)). Defined.

Lemma canned_round_trip_witness :
  let meta := mkFetchReadyMeta (demo_txid x06) (sha256_hex [x01; x02; x03]) 3 "text/plain" in
  pull_to_vec 3 demo_ended meta = Some (Ok ([x01; x02; x03], meta)).
Proof.
  pose proof (canned_round_trip [x01; x02; x03] "text/plain" [[x01]; [x02; x03]] [Ok tt; Ok tt]) as H.
  destruct (bytes_serve _ _) as [w1 r1], (file_serve _ _ _) as [w2 r2].
  destruct H as (_ & Hw & _ & _ & _ & _ & H); [done|by repeat constructor|by repeat constructor|cbn; lia|cbn; lia|].
  apply (H (demo_txid x06) demo_ended 3); [done|done|cbn; lia|by rw Hw].
Defined.

(** ** A resource of six bytes, fetched *)

Definition demo_data : list byte := [x01; x02; x03; x04; x05; x06].
Definition demo_open6 : TransactionSender := (open_transaction demo_new demo_id 6 0).1.
Definition demo_app6 : TransactionSender := (append_chunk demo_open6 demo_id demo_data 1).1.
Definition demo_fin6 : TransactionSender := (finish_transaction demo_app6 demo_id 2).1.

(** Four bytes go out with the chunk, the other two when the sink is finished. *)
Definition demo_frame6 (i : nat) : Frame := piece_frame demo_id 6 i (take 4 (drop (4 * i) demo_data)).

Lemma demo_serves :
  serves demo_id [demo_data] (sender_init demo_cfg)
    (mkHistory demo_fin6 {[demo_id := demo_data]} [demo_frame6 0; demo_frame6 1]).
Proof.
  eapply (serves_other _ _ _ (mkHistory demo_app6 {[demo_id := demo_data]} [demo_frame6 0])).
  - pose proof (serves_open demo_id demo_new ∅ [] 6 0 demo_open6 ltac:(by vm_compute)
      ltac:(apply pair_snd; by vm_compute)) as Ho.
    pose proof (serves_append demo_id [] _ demo_open6 _ _ demo_data 1 demo_app6 [demo_frame6 0] [] Ho
      ltac:(apply pair_snd; by vm_compute) ltac:(by vm_compute)) as Ha.
    rw insert_insert_eq in Ha. exact Ha.
  - apply (step_finish demo_app6 _ [demo_frame6 0] demo_id 2 demo_fin6 (Ok [demo_frame6 1])).
    apply pair_snd; by vm_compute.
  - done.
Qed.

(** The requester, with a stream handler and no transfer of its own. *)
Definition demo_requester : TransferSession :=
  let cfg := mkTransferConfig demo_cfg 30000 90000 64 500 500 2000 100 in
  mkTransferSession cfg (SessionState_new cfg 0) false true 0 (Some 0) true.

Lemma fetch_delivers_witness :
  ∃ res meta, bytes_resolve demo_data "text/plain" = Ok res ∧
    response_to_meta (ready_response (announced demo_id res)) = Ok meta ∧
    let '(r1, w1, out1) := inbound_all demo_requester [(demo_frame6 0, 10%N)] Recorder_new in
    let '(r2, w2, out2) := handle_inbound r1 (demo_frame6 1) w1 11 in
    ∃ loc si, StreamOpened loc ∈ out1 ++ out2 ∧ st_heap (ts_state r2) !! loc = Some si ∧
      ∀ fuel, length (chunk_rx si) < fuel → pull_to_vec fuel si meta = Some (Ok (demo_data, meta)).
Proof.
  assert (Ht : ∃ t, s_pending demo_fin6 !! demo_id = Some t ∧ is_fully_sent t = true ∧
    len (txn_frames t) = 2%N) by (eexists; by vm_compute).
  destruct Ht as (t & Ht & Hs & Hl).
  assert (H0 : own_seqs demo_id [(demo_frame6 0, 10%N)] = [0%N]) by by vm_compute.
  assert (H1 : own_seqs demo_id ([(demo_frame6 0, 10%N)] ++ [(demo_frame6 1, 11%N)]) = [0%N; 1%N]) by by vm_compute.
  apply (fetch_delivers demo_cfg (sender_init demo_cfg) demo_fin6 {[demo_id := demo_data]}
    [demo_frame6 0; demo_frame6 1] demo_id demo_data "text/plain" [Ok tt] [demo_data] t demo_requester
    [(demo_frame6 0, 10%N)] (demo_frame6 1) 11 Recorder_new).
  - by vm_compute.
  - apply demo_reach_new.
  - apply demo_serves.
  - exact Ht.
  - exact Hs.
  - by split.
  - done.
  - done.
  - by repeat constructor.
  - apply list_elem_of_further, list_elem_of_here.
  - done.
  - by rw H1.
  - rw Hl H0. exists 1%N. split; [done|]. by rw list_elem_of_singleton.
  - rw Hl H1. intros k Hk. rw !elem_of_cons. lia.
Defined.

(** ** A request made from inside a handler, over stdio *)

(** The bytes of an envelope payload on the pipe. *)
Definition demo_wire (data : list byte) : list byte :=
  match encode_data_json_frame data (demo_txid x05) with Ok b => b | Err _ => [] end.

(** The peer's request is in the handler, which sends one of its own and waits. *)
Definition demo_nested : list StdioOp :=
  [SOnRequest; SConnectBegin; SConnectFinish; SRead (demo_wire [x01; x72; x37]); SRoute; SRoute;
   SAccept (demo_txid x02); SStart false (Some "s") demo_request (demo_txid x01); SCall 0; SCall 0;
   SDrain true; SCall 0].

(** The answer arrives and reaches the channel. *)
Definition demo_nested_more : list StdioOp :=
  [SRead (demo_wire [x02; x72; x31]); SRoute; SRoute; SAccept (demo_txid x03); SDrain true; SCall 0].

Lemma nested_call_blocked_witness :
  stdio_call_step 0 (stdio_run (demo_nested ++ demo_nested_more)) =
  stdio_run (demo_nested ++ demo_nested_more).
Proof.
  assert (Hb : ∃ cl, Stdio.blocked 0 cl (stdio_run demo_nested)).
  { eexists. unfold Stdio.blocked. split_and!; [do 4 eexists|..]; [by vm_compute|by vm_compute| |by vm_compute..].
    eexists. by vm_compute. }
  destruct Hb as [cl Hb].
  apply (nested_call_blocked demo_nested demo_nested_more 0 cl Hb); by vm_compute.
Defined.

(** ** The interoperability peer *)

(** It serves a directory; a client negotiates with the extension and establishes. *)
Definition demo_decide (_ : option string) : result EstablishDecision XacppError :=
  Ok (DecidedEstablished SESSION_ID (mkSessionHandler 1 true) SESSION_CREDENTIALS).

Definition demo_interop : list (option string * XacppRequest) :=
  [(None, ReqCommand (CmdNegotiate demo_caps)); (None, ReqCommand (Establish None))].

Lemma interop_fetch_unavailable_witness :
  let hs := interop_handlers demo_decide in
  let p := route_all hs interop_peer demo_interop in
  ∃ m, route hs p (Some SESSION_ID) (ReqCommand (Fetch "a.txt")) =
    (p, Answer (Ok (RespError FETCH_UNAVAILABLE m))).
Proof.
  apply (interop_fetch_unavailable demo_decide demo_interop SESSION_ID (Fetch "a.txt") (mkSessionHandler 1 true));
    by vm_compute.
Defined.

(** A pull of which a stream opens meanwhile, over a transport that would answer. *)
Definition demo_pulling : list (ClaimOp Recorder) :=
  StreamOpens demo_id 3 :: ReaderRuns 0 ReadPending Active ::
  ((λ t, PullRuns (xs_transfer (demo_session "")) (Some 1) Recorder_new t) <$> [500; 510; 1010; 1020]%N).

Lemma interop_pull_gives_up_witness :
  ∃ x, (λ o, o.1.1.1.1) <$> FetchEstablishHandler_on_establish (FetchPull "a.txt") 1 7 Recorder_new 0 = Some (Some x) ∧
    pr_lines (pull_and_report x "a.txt" demo_pulling) = [LAttempt 1 unavailable; LAttempt 2 unavailable].
Proof.
  destruct (FetchEstablishHandler_on_establish (FetchPull "a.txt") 1 7 Recorder_new 0)
    as [[[[[slot pull] h] w1] r]|] eqn:He; [|done].
  pose proof (interop_pull_gives_up "a.txt" 1 7 Recorder_new 0 slot pull h w1 r "a.txt" demo_pulling He) as H.
  destruct H as (x & -> & _ & H & _); [|by exists x].
  assert (Hp : (λ o, o.1.1.1.2) <$> FetchEstablishHandler_on_establish (FetchPull "a.txt") 1 7 Recorder_new 0
    = Some (Some "a.txt")) by by vm_compute.
  rw He in Hp. by injection Hp.
Defined.
