(* ===== verification/RecoveryRuns.v ===== *)
(** * Concrete runs of the recovery theorems

    Six bytes in two frames: the second frame is lost and comes back, by the
    retransmission timeout on the same connection or by the RESUME handshake on a new
    one; and a session that holds one transaction more than a declaration can carry. *)
From S2P Require Import Prelude Crc Frame Control Sender Reassemble Errors Stream Transfer.
From S2P Require Import Delivery Clock Sink Session Egress Socket Link Reception Recovery Resume.
From S2P Require Import FetchEndToEnd Witnesses EnvelopeRuns.

(** ** The scenario *)

Lemma demo_reach6 :
  sender_reach demo_cfg
    (mkHistory demo_fin6 {[demo_id := demo_data]} [demo_frame6 0; demo_frame6 1]).
Proof. eapply rtc_trans; [apply demo_reach_new|]. eapply serves_steps, demo_serves. Qed.

(** The copy the sender holds, its second frame lost on the way. *)
Lemma demo_copy :
  ∃ t, s_pending demo_fin6 !! demo_id = Some t ∧ is_fully_sent t = true ∧
    txn_frames t = [Some (demo_frame6 0); Some (demo_frame6 1)] ∧ txn_paused t = false ∧
    txn_awaiting_resume t = false ∧ overdue demo_cfg 5000 t.
Proof. eexists. split_and!; [by vm_compute..|]. by repeat (constructor; [by vm_compute|]). Qed.

(** The receiver got the first frame. *)
Definition demo_partial (sp : bool) : TransferSession * Recorder * list AppEvent :=
  inbound_all (demo_receiver (negb sp) sp) [(demo_frame6 0, 10%N)] Recorder_new.

Lemma demo_partial_own : own_seqs demo_id [(demo_frame6 0, 10%N)] = [0%N].
Proof. by vm_compute. Qed.

Lemma demo_from_sender : Forall (from_sender demo_id [demo_frame6 0; demo_frame6 1]) [(demo_frame6 0, 10%N)].
Proof. constructor; [|constructor]. left. by split; [apply list_elem_of_here|]. Qed.

Lemma demo_orderly : orderly 2 [] [0%N].
Proof. split_and!; [done| |done]. intros H. by specialize (H 0%N eq_refl); apply elem_of_nil in H. Qed.

(** ** The retransmission timeout *)

(** Nothing is gated. *)
Lemma demo_ungated timeout now : verdicts_awaited timeout now demo_fin6.
Proof.
  assert (Hg : map_to_list (s_pending demo_fin6) ≫= (λ kv, if txn_awaiting_resume kv.2 then [kv.1] else []) = [])
    by by vm_compute.
  intros k v Hv Ha. exfalso. assert (Hin : k ∈ map_to_list (s_pending demo_fin6) ≫=
    (λ kv, if txn_awaiting_resume kv.2 then [kv.1] else [])); [|rw Hg in Hin; by apply elem_of_nil in Hin].
  apply list_elem_of_bind. exists (k, v). cbn. rw Ha. split; [by left|by apply elem_of_map_to_list].
Qed.

(** The receiver sends nothing of its own. *)
Lemma demo_partial_sender b wb out :
  demo_partial true = (b, wb, out) → ∃ cfg d l, sender_reach cfg (mkHistory (st_sender (ts_state b)) d l) ∧
    (N.of_nat (frame_size (s_config (st_sender (ts_state b)))) ≤ MAX_DATA_BINARY_FRAME_LEN)%N.
Proof.
  intros Hb. assert (Hs : st_sender (ts_state b) = st_sender (ts_state (demo_receiver false true))).
  { assert (He : st_sender (ts_state (demo_partial true).1.1) =
      st_sender (ts_state (demo_receiver false true))) by by vm_compute. by rw Hb in He. }
  rw Hs. exists (cfg_sender (ts_config (demo_receiver false true))), ∅, []. split; [apply rtc_refl|done].
Qed.

Lemma timeout_recovers_witness :
  let '(b, wb, out) := demo_partial true in
  let '(a1, wa1, _, stopped) := run_clock_turn (demo_sending demo_fin6) Recorder_new false 5000 in
  stopped = false ∧
  ∀ to_b, merges (control_since Recorder_new wa1) (data_since Recorder_new wa1) to_b →
  let '(b1, wb1, outb) := inbound_all b (at_time 5010 to_b) wb in
  got demo_id true demo_data (out ++ outb) b1 ∧
  slots (st_reassembler (ts_state b1)) !! demo_id = None ∧
  ∀ to_a, merges (control_since wb wb1) (data_since wb wb1) to_a →
  let '(a2, _, outa) := inbound_all a1 (at_time 5020 to_a) wa1 in
  confirmed_once demo_id 9 a2 outa.
Proof.
  destruct demo_copy as (t & Ht & Hs & Hf & Hp & Ha & Hod).
  destruct (demo_partial true) as [[b wb] out] eqn:Hb.
  destruct (demo_partial_sender b wb out Hb) as (cfgb & db & lb & Hrb & Hsb).
  apply (timeout_recovers demo_cfg (demo_sending demo_fin6) {[demo_id := demo_data]}
    [demo_frame6 0; demo_frame6 1] demo_id demo_data t 9 Recorder_new true (demo_receiver false true)
    [(demo_frame6 0, 10%N)] Recorder_new b wb out cfgb db lb 5000 5010 5020).
  - apply demo_reach6.
  - by vm_compute.
  - exact Ht.
  - exact Hs.
  - by vm_compute.
  - exact Hp.
  - exact Ha.
  - exact Hod.
  - apply demo_ungated.
  - by vm_compute.
  - done.
  - done.
  - by split.
  - done.
  - done.
  - done.
  - apply demo_from_sender.
  - rw Hf demo_partial_own. apply demo_orderly.
  - rw Hf demo_partial_own. exists 1%N. split; [done|]. by rw list_elem_of_singleton.
  - intros k. rw Hf. intros Hk. by destruct k as [|[|k]].
  - exact Hb.
  - done.
  - exact Hrb.
  - exact Hsb.
Defined.

(** ** The RESUME handshake *)

Lemma resume_recovers_witness :
  let '(b, wb, out) := demo_partial false in
  let '(a1, wa1) := reattach (demo_sending demo_fin6) Recorder_new Recorder_new 1 100 200 in
  let '(b1, wb1) := reattach b wb Recorder_new 2 100 200 in
  let '(b2, outb, a2, outa) := resume_exchange a1 wa1 b1 wb1 201 210 220 230 240 in
  got demo_id false demo_data (out ++ outb) b2 ∧
  slots (st_reassembler (ts_state b2)) !! demo_id = None ∧ confirmed_once demo_id 9 a2 outa.
Proof.
  destruct demo_copy as (t & Ht & Hs & Hf & Hp & Ha & Hod).
  destruct (demo_partial false) as [[b wb] out] eqn:Hb.
  apply (resume_recovers demo_cfg (demo_sending demo_fin6) {[demo_id := demo_data]}
    [demo_frame6 0; demo_frame6 1] demo_id demo_data t 9 false (demo_receiver true false)
    [(demo_frame6 0, 10%N)] Recorder_new b wb out Recorder_new Recorder_new Recorder_new
    1 2 100 200 100 200 201 210 220 230 240).
  - apply demo_reach6.
  - by vm_compute.
  - assert (H : size (s_pending demo_fin6) = 1) by by vm_compute.
    change (size (s_pending demo_fin6) ≤ 255). rw H. lia.
  - exact Ht.
  - exact Hs.
  - by vm_compute.
  - exact Hp.
  - by vm_compute.
  - by split.
  - done.
  - done.
  - done.
  - apply demo_from_sender.
  - rw Hf demo_partial_own. apply demo_orderly.
  - by rw demo_partial_own.
  - intros k. rw Hf. intros Hk. by destruct k as [|[|k]].
  - exact Hb.
  - done.
  - done.
Defined.

(** Both frames lost with the connection. *)
Lemma resume_confirms_unseen_witness :
  let '(a1, wa1) := reattach (demo_sending demo_fin6) Recorder_new Recorder_new 1 100 200 in
  let '(b1, wb1) := reattach (demo_receiver true false) Recorder_new Recorder_new 2 100 200 in
  let '(b2, outb, a2, outa) := resume_exchange a1 wa1 b1 wb1 201 210 220 230 240 in
  confirmed_once demo_id 9 a2 outa ∧
  deliveries demo_id outb = [] ∧ st_streams (ts_state b2) !! demo_id = None ∧
  slots (st_reassembler (ts_state b2)) !! demo_id = None.
Proof.
  destruct demo_copy as (t & Ht & Hs & _ & Hp & _).
  apply (resume_confirms_unseen demo_cfg (demo_sending demo_fin6) {[demo_id := demo_data]}
    [demo_frame6 0; demo_frame6 1] demo_id demo_data t 9 false (demo_receiver true false)
    Recorder_new Recorder_new Recorder_new Recorder_new 1 2 100 200 100 200 201 210 220 230 240).
  - apply demo_reach6.
  - by vm_compute.
  - assert (H : size (s_pending demo_fin6) = 1) by by vm_compute.
    change (size (s_pending demo_fin6) ≤ 255). rw H. lia.
  - exact Ht.
  - exact Hs.
  - by vm_compute.
  - exact Hp.
  - by vm_compute.
  - by split.
  - done.
  - done.
  - done.
  - done.
  - done.
Defined.

(** ** One transaction too many *)

(** 256 transactions of two bytes, one after the other. *)
Definition demo_many : TransactionSender :=
  foldl (λ s i, (open_transaction s (txid_of_byte (byte_of_N (N.of_nat i))) 2 0).1)
    demo_new (List.seq 0 256).

Definition demo_overfull : TransferSession :=
  set_wiring None (demo_sending demo_many).

Definition demo_turns : list turn :=
  [Ticks 3000; Arrives (demo_control (mkHeartbeatPayload 1 4000)) 4000; Ticks 6000].

Lemma resume_overflow_stuck_witness :
  let '(s1, w1, _) := wire demo_overfull 1 Recorder_new 100 in
  let '(s', w') := foldl turn_step (declare_pending_sends s1 w1 101) demo_turns in
  data_since Recorder_new w' = [] ∧ Forall (λ f, frame_type f ≠ Resume) (control_since Recorder_new w') ∧
  255 < size (s_pending (st_sender (ts_state s'))) ∧
  map_Forall (λ _ t, txn_awaiting_resume t = true) (s_pending (st_sender (ts_state s'))) ∧
  st_completions (ts_state s') = st_completions (ts_state demo_overfull).
Proof.
  apply (resume_overflow_stuck demo_overfull 1 Recorder_new 100 101 demo_turns).
  - done.
  - assert (H : size (s_pending demo_many) = 256) by by vm_compute.
    change (255 < size (s_pending demo_many)). rw H. lia.
  - done.
  - by repeat constructor.
Defined.
