(* ===== verification/WireExamples.v ===== *)
(** * Concrete documents

    An instance of the JSON interfaces (values as documents with their fields in a
    fixed order, a compact printer and its parser), the canonical wire texts of
    the payloads, and the codec theorems applied to concrete messages. *)
From S2P Require Import Prelude Crc Frame Control Sender Errors Json Payloads Messages Egress Carrier Rpc.
From S2P Require Import EnvelopeJson.
From stdpp Require Import pretty.
From Stdlib Require Import Ascii.

(** ** Values as canonical documents *)

Section json_induction.
Context (P : json → Prop).
Hypothesis Hnull : P JNull.
Hypothesis Hbool : ∀ b, P (JBool b).
Hypothesis Hnum : ∀ n, P (JNum n).
Hypothesis Hstr : ∀ s, P (JStr s).
Hypothesis Harr : ∀ l, Forall P l → P (JArr l).
Hypothesis Hobj : ∀ o, Forall (λ e, P e.2) o → P (JObj o).

Fixpoint json_nested_ind (j : json) : P j :=
  match j with
  | JNull => Hnull
  | JBool b => Hbool b
  | JNum n => Hnum n
  | JStr s => Hstr s
  | JArr l => Harr l ((fix go l := match l return Forall P l with
                         | [] => Forall_nil_2 _
                         | x :: l' => Forall_cons_2 _ _ _ (json_nested_ind x) (go l')
                         end) l)
  | JObj o => Hobj o ((fix go o := match o return Forall (λ e, P e.2) o with
                         | [] => Forall_nil_2 _
                         | e :: o' => Forall_cons_2 (λ e, P e.2) _ _ (json_nested_ind e.2) (go o')
                         end) o)
  end.
End json_induction.

(** The entries of an object as a map: the last of equal keys wins, the order is
    the map's. *)
Definition canon_entries (o : list (string * json)) : list (string * json) :=
  map_to_list (list_to_map (rev o) : gmap string json).

Fixpoint canon (j : json) : json :=
  match j with
  | JArr l => JArr (canon <$> l)
  | JObj o => JObj (canon_entries ((λ e, (e.1, canon e.2)) <$> o))
  | _ => j
  end.

Lemma canon_entries_perm o p : NoDup o.*1 → o ≡ₚ p → canon_entries o = canon_entries p.
Proof.
  intros Hn Hp. unfold canon_entries. f_equal. apply list_to_map_proper.
  - by rw -Permutation_rev.
  - by rw -!Permutation_rev.
Qed.

Lemma canon_entries_nodup o : NoDup (canon_entries o).*1.
Proof. apply NoDup_fst_map_to_list. Qed.

Lemma canon_entries_perm_self o : NoDup o.*1 → canon_entries o ≡ₚ o.
Proof.
  intros Hn. unfold canon_entries. rw map_to_list_to_map; [by rw -Permutation_rev|].
  by rw -Permutation_rev.
Qed.

Lemma canon_entries_idem o : canon_entries (canon_entries o) = canon_entries o.
Proof.
  unfold canon_entries. generalize (list_to_map (rev o) : gmap string json). intros m. f_equal.
  etransitivity; [|apply list_to_map_to_list]. symmetry.
  apply list_to_map_proper; [apply NoDup_fst_map_to_list|by rw -Permutation_rev].
Qed.

Lemma canon_entries_elem e o : e ∈ canon_entries o → e ∈ o.
Proof.
  destruct e as [k v]. unfold canon_entries. rw elem_of_map_to_list.
  intros H%elem_of_list_to_map_2. by rw -Permutation_rev in H.
Qed.

Definition canon_entry (e : string * json) : string * json := (e.1, canon e.2).

Lemma canon_keys o : (canon_entry <$> o).*1 = o.*1.
Proof. rw -list_fmap_compose. by apply list_fmap_ext. Qed.

Lemma canon_idem j : canon (canon j) = canon j.
Proof.
  induction j as [| | | |l IH|o IH] using json_nested_ind; try done; cbn; f_equal.
  - induction IH as [|x l Hx _ IHl]; [done|]. cbn. by rw Hx IHl.
  - fold canon_entry. etransitivity; [|apply canon_entries_idem]. f_equal.
    etransitivity; [|apply list_fmap_id]. apply list_fmap_ext.
    intros i [k v] He. apply list_elem_of_lookup_2, canon_entries_elem in He.
    apply list_elem_of_fmap in He as ([k' v'] & [= -> ->] & He).
    eapply Forall_forall in IH; [|done]. unfold canon_entry. cbn in *. by rw IH.
Qed.

Lemma canon_eqv j j' : json_eqv j j' → canon j = canon j'.
Proof.
  revert j'. induction j as [| | | |l IH|o IH] using json_nested_ind; intros j' Hj;
    inversion Hj as [| | | |? l' Hl|? p o' Hn Hp Hk Hv]; subst; try done; cbn; f_equal.
  - clear Hj. revert IH. induction Hl as [|v v' l l' Hv _ IHl]; [done|].
    intros [H1 H2]%Forall_cons. cbn. by rw (H1 _ Hv) (IHl H2).
  - fold canon_entry.
    assert (canon_entry <$> p = canon_entry <$> o') as <-.
    { rw Hp in IH. clear -IH Hk Hv. revert o' Hk Hv.
      induction IH as [|[k v] p Hx _ IHp]; intros [|[k' v'] o']; try done. cbn.
      intros [= -> Hk] [Hv Hvs]%Forall2_cons. cbn in *. unfold canon_entry at 1 3. cbn.
      by rw (Hx _ Hv) (IHp o'). }
    apply canon_entries_perm; [by rw canon_keys|by rw Hp].
Qed.

Lemma canon_document j : json_eqv (canon j) (canon j).
Proof.
  induction j as [| | | |l IH|o IH] using json_nested_ind; try constructor.
  - induction IH; constructor; done.
  - fold canon_entry. apply (eqv_obj _ (canon_entries (canon_entry <$> o)));
      [apply canon_entries_nodup|done..|]. apply Forall2_fmap, Forall_Forall2_diag.
    apply Forall_forall. intros e He%canon_entries_elem.
    apply list_elem_of_fmap in He as (e' & -> & He). by eapply Forall_forall in IH.
Qed.

Lemma same_order (p o : list (string * json)) :
  NoDup o.*1 → o ≡ₚ p → p.*1 = o.*1 → p = o.
Proof.
  revert o. induction p as [|[k v] p IH]; intros [|[k' v'] o]; try done. cbn.
  intros [Hn Hd]%NoDup_cons Hp [= -> Hk].
  assert ((k', v) ∈ (k', v') :: o) as [[= ->]|Hin]%elem_of_cons by (rw Hp; left).
  - f_equal. apply IH; [done|by eapply Permutation_cons_inv|done].
  - destruct Hn. apply list_elem_of_fmap. by exists (k', v).
Qed.

Lemma to_canon j : json_eqv j j → json_eqv j (canon j).
Proof.
  induction j as [| | | |l IH|o IH] using json_nested_ind; intros Hj;
    inversion Hj as [| | | |? l' Hl|? p o' Hn Hp Hk Hv]; subst; try done; cbn.
  - constructor. clear Hj. induction IH as [|x l Hx _ IHl]; [constructor|].
    apply Forall2_cons in Hl as [Hl1 Hl2]. constructor; auto.
  - fold canon_entry. pose proof (same_order p o Hn Hp Hk) as ->.
    assert (canon_entries (canon_entry <$> o) ≡ₚ canon_entry <$> o) as Hq
      by (apply canon_entries_perm_self; by rw canon_keys).
    apply Permutation_map_inv in Hq as (q & -> & Hq). apply (eqv_obj _ q); [done|done| |].
    + symmetry. apply canon_keys.
    + rw -list_fmap_compose. apply Forall2_fmap, Forall_Forall2_diag. rw -Hq.
      apply Forall_forall. intros e He. eapply Forall_forall in IH; [|done]. apply IH.
      apply list_elem_of_lookup in He as [i He].
      by apply (Forall2_lookup_lr _ _ _ i _ _ Hv); rw list_lookup_fmap He.
Qed.

#[local] Instance number_eq_dec : EqDecision Number.
Proof. solve_decision. Defined.

#[local] Instance json_eq_dec : EqDecision json.
Proof.
  unfold EqDecision, Decision. fix go 1.
  intros [|b|n|s|l|o] [|b'|n'|s'|l'|o']; try (right; congruence).
  - by left.
  - destruct (decide (b = b')); [left|right]; congruence.
  - destruct (decide (n = n')); [left|right]; congruence.
  - destruct (decide (s = s')); [left|right]; congruence.
  - destruct (@list_eq_dec json go l l'); [left|right]; congruence.
  - destruct (@list_eq_dec _ (@prod_eq_dec string _ json go) o o'); [left|right]; congruence.
Defined.

Definition CanonValue : Type := dsig (λ j, canon j = j).

Definition canonical (j : json) : CanonValue := dexist (canon j) (canon_idem j).

#[export] Instance canon_json : JsonLib := {|
  Value := CanonValue;
  Value_Null := canonical JNull;
  Value_get v k :=
    match `v with JObj o => canonical <$> head (get k o) | _ => None end;
  Value_as_str v := match `v with JStr s => Some s | _ => None end |}.

#[export] Instance canon_value : JsonValue (JSON := canon_json) :=
  Build_JsonValue canon_json (λ v : CanonValue, `v) (λ j, Some (canonical j))
    (λ j, Some (canonical j)).

Lemma canonical_self (v : CanonValue) : canonical (`v) = v.
Proof. apply dsig_eq. exact (proj2_dsig v). Qed.

Lemma canon_Null j : canon j = JNull → j = JNull.
Proof. by destruct j. Qed.

#[export] Instance canon_value_laws : JsonValueLaws.
Proof.
  split; cbn.
  - intros v. by rw canonical_self.
  - intros j j' Hj. f_equal. apply dsig_eq. by apply canon_eqv.
  - intros v. rw -(proj2_dsig v). apply canon_document.
  - intros v. split; [intros Hv; apply dsig_eq; exact Hv|by intros ->].
  - intros j [= Hj]. by apply canon_Null.
  - intros j Hj. exists (canonical j). split; [done|]. by apply to_canon.
Qed.

#[export] Instance lit_display : Display := {|
  display m := match m with Lit s => s | _ => "?" end;
  display_lit _ := eq_refl |}.

(** ** Compact text

    Enough of JSON's text for the messages of the protocol: no floats, escapes
    for the quote and the backslash. *)

Definition dquote : ascii := "034"%char.
Definition backslash : ascii := "092"%char.

Fixpoint escape (s : string) : string :=
  match s with
  | EmptyString => EmptyString
  | String c s' =>
      if Ascii.eqb c dquote || Ascii.eqb c backslash then String backslash (String c (escape s'))
      else String c (escape s')
  end.

Definition quote (s : string) : string :=
  String.append (String dquote (escape s)) (String dquote EmptyString).

Definition print_number (n : Number) : string :=
  match n with PosInt n => pretty n | NegInt z => pretty z | Float l => l end.

Fixpoint print (j : json) : string :=
  match j with
  | JNull => "null"
  | JBool b => if b then "true" else "false"
  | JNum n => print_number n
  | JStr s => quote s
  | JArr l => String.append "[" (String.append (String.concat "," (print <$> l)) "]")
  | JObj o =>
      String.append "{" (String.append
        (String.concat "," ((λ e, String.append (quote e.1) (String.append ":" (print e.2))) <$> o))
        "}")
  end.

Fixpoint read_string (s : string) : option (string * string) :=
  match s with
  | EmptyString => None
  | String c s' =>
      if Ascii.eqb c dquote then Some (EmptyString, s')
      else if Ascii.eqb c backslash then
        match s' with
        | String d s'' => '(t, r) ← read_string s''; Some (String d t, r)
        | EmptyString => None
        end
      else '(t, r) ← read_string s'; Some (String c t, r)
  end.

Fixpoint read_digits (acc : option N) (s : string) : option (N * string) :=
  match s with
  | String c s' =>
      let d := N_of_ascii c in
      if ((48 <=? d) && (d <=? 57))%N
      then read_digits (Some (10 * default 0 acc + (d - 48))%N) s'
      else (λ n, (n, s)) <$> acc
  | EmptyString => (λ n, (n, s)) <$> acc
  end.

Definition expect (p s : string) : option string :=
  if String.prefix p s then Some (String.substring (String.length p) (String.length s) s) else None.

Fixpoint read_value (fuel : nat) (s : string) {struct fuel} : option (json * string) :=
  match fuel, s with
  | O, _ | _, EmptyString => None
  | S fuel, String c s' =>
      if Ascii.eqb c dquote then '(t, r) ← read_string s'; Some (JStr t, r)
      else if Ascii.eqb c "[" then
        match s' with
        | String "]" r => Some (JArr [], r)
        | _ => '(l, r) ← read_items fuel s'; Some (JArr l, r)
        end
      else if Ascii.eqb c "{" then
        match s' with
        | String "}" r => Some (JObj [], r)
        | _ => '(o, r) ← read_members fuel s'; Some (JObj o, r)
        end
      else
        match expect "null" s, expect "true" s, expect "false" s with
        | Some r, _, _ => Some (JNull, r)
        | _, Some r, _ => Some (JBool true, r)
        | _, _, Some r => Some (JBool false, r)
        | _, _, _ => '(n, r) ← read_digits None s; Some (JNum (PosInt n), r)
        end
  end
with read_items (fuel : nat) (s : string) {struct fuel} : option (list json * string) :=
  match fuel with
  | O => None
  | S fuel =>
      '(v, r) ← read_value fuel s;
      match r with
      | String "]" r' => Some ([v], r')
      | String "," r' => '(l, r'') ← read_items fuel r'; Some (v :: l, r'')
      | _ => None
      end
  end
with read_members (fuel : nat) (s : string) {struct fuel} : option (list (string * json) * string) :=
  match fuel with
  | O => None
  | S fuel =>
      '(k, r) ← (q ← expect (String dquote EmptyString) s; read_string q);
      s' ← expect ":" r;
      '(v, r) ← read_value fuel s';
      match r with
      | String "}" r' => Some ([(k, v)], r')
      | String "," r' => '(o, r'') ← read_members fuel r'; Some ((k, v) :: o, r'')
      | _ => None
      end
  end.

Definition parse (s : string) : option json :=
  match read_value (S (String.length s)) s with
  | Some (j, EmptyString) => Some j
  | _ => None
  end.

#[export] Instance compact_text : JsonText := {|
  json_to_vec j := Some (String.list_byte_of_string (print j));
  json_from_slice b := parse (String.string_of_list_byte b) |}.

(** A text written with single quotes. *)
Fixpoint quoted (s : string) : string :=
  match s with
  | EmptyString => EmptyString
  | String c s' => String (if Ascii.eqb c "'" then dquote else c) (quoted s')
  end.

(** ** The canonical texts *)

Definition text_part (text part_type : string) : ContentPart :=
  Text (mkTextPart text None part_type).

(** Written as that text, and read back from it. *)
Definition canonical_wire {A} `{Serde A} (a : A) (s : string) : Prop :=
  print (ser a) = quoted s ∧ (parse (quoted s) ≫= de) = Some a.

Example tool_result_wire :
  canonical_wire (mkToolResultEvent "req-1" "shell" 0%N [] false (Some Running) (Some true) false)
    "{'requestId':'req-1','toolName':'shell','index':0,'parts':[],'auto':false,'status':'running','isBackground':true,'isError':false}".
Proof. by vm_compute. Qed.

Example pair_complete_wire :
  canonical_wire
    (mkPairCompleteEvent "p-1" 200000%N (mkTokenUsage "u-1" "m-1" 10%N 20%N 30%N (Some 8%N))
       (Some Lite) (Some "doubao-seed-1-6"))
    "{'pair':'p-1','contextWindow':200000,'tokenUsage':{'id':'u-1','message':'m-1','promptTokens':10,'completionTokens':20,'totalTokens':30,'cacheHitTokens':8},'tier':'lite','model':'doubao-seed-1-6'}".
Proof. by vm_compute. Qed.

Example complete_wire :
  canonical_wire (mkCompleteEvent "r-1" [text_part "done" "default"] (Some "user abort") true)
    "{'round':'r-1','assistantReply':[{'type':'text','text':'done','partType':'default'}],'abortReason':'user abort','canceled':true}" ∧
  canonical_wire (mkCompleteEvent "r-2" [] None false)
    "{'round':'r-2','assistantReply':[],'canceled':false}".
Proof. by vm_compute. Qed.

Example lifecycle_wires :
  canonical_wire (mkNewActivityPayload (Some "research")) "{'title':'research'}" ∧
  canonical_wire (mkNewActivityPayload None) "{}" ∧
  canonical_wire mkLastActivityPayload "{}" ∧
  canonical_wire (mkListActivityPayload (Some "agent") (Some 2%N) (Some 10%N))
    "{'query':'agent','pageNum':2,'pageSize':10}" ∧
  canonical_wire (mkInvokeActivityPayload "act-1" [text_part "hi" "default"])
    "{'activity':'act-1','messages':[{'type':'text','text':'hi','partType':'default'}]}" ∧
  canonical_wire (mkCancelActivityPayload "act-1" (Some "user abort"))
    "{'activity':'act-1','reason':'user abort'}" ∧
  canonical_wire (mkSetActivityModePayload "act-1" Auto) "{'activity':'act-1','mode':'auto'}" ∧
  canonical_wire
    (mkAvailableActivities 1%N [mkActivityInfo "act-1" "main" (Some "research") None None None ModeDefault])
    "{'total':1,'activities':[{'activity':'act-1','agent':'main','title':'research','mode':'default'}]}".
Proof. by vm_compute. Qed.

(** Defaults of absent fields, and an enum field that keeps its Rust spelling. *)
Example legacy_wires :
  (parse (quoted "{'text':'legacy'}") ≫= de) = Some (mkTextPart "legacy" None "default") ∧
  (parse (quoted "{'activity':'act-1','agent':'main'}") ≫= de) =
    Some (mkActivityInfo "act-1" "main" None None None None ModeDefault) ∧
  (parse (quoted "{'toolName':'t','arguments':'','actionId':'','description':'','alert':'warn','intent':'','later':[1]}") ≫= de) =
    Some (mkActionRequestPayload "t" EmptyString EmptyString EmptyString Warn EmptyString [] EmptyString) ∧
  canonical_wire (UploadCompleted "f" (mkFileRef "u" "l" None "m" false 2%N "s"))
    "{'upload_event':'completed','name':'f','media_source':{'remoteUrl':'u','localUri':'l','mimeType':'m','requireOrganized':false,'sizeBytes':2,'sha256':'s'}}" ∧
  canonical_wire (Skip None) "{'type':'skip','reason':null}".
Proof. by vm_compute. Qed.

Definition empty_object : Value := canonical (JObj []).

(** What an envelope's text reads as, written again. *)
Definition rewritten (s : string) : option string :=
  m ← parse (quoted s); e ← (de m : option XacppEnvelope); Some (print (ser e)).

(** The envelopes of the documentation's wire protocol section. *)
Example documented_envelopes :
  rewritten "{'type':'request','id':'r1','payload':{'kind':'command','payload':{'establish':{'credentials':null}}}}" =
    Some (quoted "{'type':'request','id':'r1','payload':{'kind':'command','payload':{'establish':{}}}}") ∧
  Forall (λ s, rewritten s = Some (quoted s))
    ["{'type':'request','id':'r2','payload':{'kind':'command','payload':{'generic':{'name':'report_to_user','arguments':{},'activity':{'id':'act-1'}}}}}";
     "{'type':'request','id':'r3','payload':{'kind':'event','payload':{'activity':{'id':'act-1'},'event':{'name':'think','data':{'content':'hi'}}}}}";
     "{'type':'request','id':'r4','session_id':'s1','payload':{'kind':'command','payload':'establish_confirm'}}";
     "{'type':'response','id':'r5','payload':{'kind':'generic','name':'activity_not_found','data':null}}"] ∧
  rewritten "{'type':'response','id':'r1','payload':{'kind':'established','sessionId':'s1'}}" = None ∧
  rewritten "{'type':'response','id':'r1','payload':{'kind':'negotiated','capabilities':{'commands':[],'produceEvents':[],'acceptEvents':[]}}}" =
    Some (quoted "{'type':'response','id':'r1','payload':{'kind':'negotiated','capabilities':{}}}").
Proof. split; [by vm_compute|]. split; [repeat constructor; by vm_compute|by vm_compute]. Qed.

(** A string activity is refused. *)
Example legacy_activity :
  rewritten "{'type':'request','id':'r3','payload':{'kind':'event','payload':{'activity':'act-1','event':{'name':'think','data':null}}}}" = None.
Proof. by vm_compute. Qed.

(** ** Witnesses *)

Definition demo_ready : XacppEnvelope :=
  Response "r7" (Some "s1") (FetchReady "0123" "abcd" 18446744073709551615%N "image/png").

Lemma envelope_codec_witness : codec_ok (CODEC := json_codec) demo_ready.
Proof.
  apply (envelope_codec demo_ready); [by vm_compute|].
  intros b [= <-]. by vm_compute.
Defined.

Definition demo_declaration : CommandDeclaration :=
  mkCommandDeclaration "notify" (Some "d") (Some empty_object) (Some (DispatcherUnknown "cron")) None
    [Compact; ScopeUnknown "wide"].

Lemma declaration_roundtrip_witness :
  ∃ v, CommandDeclaration_to_value demo_declaration = Some v ∧
    CommandDeclaration_from_value v = Some demo_declaration.
Proof.
  apply (declaration_roundtrip demo_declaration). split_and!.
  - intros [= H].
  - intros d [= <-]. by split.
  - repeat constructor; congruence.
Defined.

Definition demo_question : QuestionPayload :=
  mkQuestionPayload "proceed?" ["yes"; "no"] ["child"] "q-1".

Lemma interaction_delivery_witness :
  carries (question_command "act-1" demo_question) "question" "act-1" demo_question.
Proof.
  pose proof (interaction_delivery "r1" (Some "s1") "act-1"
    (mkActionRequestPayload "shell" "ls" "a-1" "list" Info "look" [] "q-2") demo_question
    (mkSensitiveInfoOperationPayload (Collect []) [])) as [(_ & H & _) _].
  exact H.
Defined.

Lemma established_needs_credentials_witness :
  (de (JObj [("kind", JStr "established"); ("sessionId", JStr "s1")]) : option XacppResponse) = None.
Proof.
  apply (established_needs_credentials [("kind", JStr "established"); ("sessionId", JStr "s1")]);
    reflexivity.
Defined.

(** ** A round trip whose handler fails *)

#[local] Existing Instance json_codec.

Definition demo_asking : list CarrierOp := [OpConnectBegin true; OpConnectFinish].

Definition demo_answering : Carrier :=
  carrier_run false false [OpOnRequest; OpConnectBegin true; OpConnectFinish].

Definition demo_idle : Connection := mkConnection (spawn_egress false false ∅) [] true true.

Definition demo_establish : XacppRequest := ReqCommand (Establish (Some "secret")).

(** The handler's answer. *)
Definition demo_refusal : result XacppResponse XacppError := Err (Internal (Lit "disk full")).

Definition demo_bytewise (l : list byte) : list (list byte) := (λ b, [b]) <$> l.

Lemma demo_bytewise_concat l : concat (demo_bytewise l) = l.
Proof. induction l as [|b l IH]; [done|]. cbn. by rw IH. Qed.

(** Both directions arrive byte by byte, through the derived JSON codec. *)
Lemma rpc_round_trip_witness :
  let a := carrier_run true false demo_asking in
  let a1 := issue 0 None demo_establish (txid_of_byte x01) a in
  ∃ b1, read_chunks 0 (demo_bytewise (concat (wrote 0 0 a1))) demo_answering = Some b1 ∧
    let b2 := dispatch_step 0 (txid_of_byte x02) b1 in
    ct_inflight b2 = [mkTask 0 "r1" None demo_establish] ∧
    let b3 := drain_conn 0 true (handler_done 0 demo_refusal (txid_of_byte x03) b2) in
    ∃ a2, read_chunks 0 (demo_bytewise (concat (wrote 0 0 b3))) a1 = Some a2 ∧
      ct_calls (call_step 0 (call_step 0 (dispatch_step 0 (txid_of_byte x04) a2))) !! 0 =
      Some (mkCall "r1" false
        (Returned (Ok (Some (RespError "internal_error" (Lit "internal error: disk full")))))).
Proof.
  assert (Hw : ∃ w1 w2,
    serialize_envelope (Request "r1" None demo_establish) (txid_of_byte x01) = Ok w1 ∧
    serialize_envelope (Response "r1" None (respond demo_refusal)) (txid_of_byte x03) = Ok w2)
    by (do 2 eexists; split; vm_compute; reflexivity).
  destruct Hw as (w1 & w2 & H1 & H2).
  pose proof (rpc_round_trip true false demo_asking 0 0 demo_idle demo_idle demo_answering
    None demo_establish demo_refusal (txid_of_byte x01) (txid_of_byte x02) (txid_of_byte x03)
    (txid_of_byte x04) w1 w2 eq_refl ltac:(by split) ltac:(by split) eq_refl H1 H2) as H.
  assert (C1 : codec_ok (Request "r1" None demo_establish))
    by (apply json_codec_ok; [by vm_compute|]; intros b [= <-]; by vm_compute).
  assert (C2 : codec_ok (Response "r1" None (respond demo_refusal)))
    by (apply error_response_ok; intros b [= <-]; by vm_compute).
  destruct (H C1 C2 _ (demo_bytewise_concat _)) as (b1 & Hb & Hf & H'). exists b1. split; [exact Hb|].
  split; [exact Hf|]. destruct (H' _ (demo_bytewise_concat _)) as (a2 & Ha & Hc). exists a2. split; [exact Ha|exact Hc].
Defined.
